(** * ProgramIndexer: the text-to-function pipeline, embedded and verified

    A shallow embedding of ProgramIndexer: the physical-line normalizer
    ([FileBuffer]), the lexer ([Tokenizer]) and its lookahead list
    ([TokenList]), the symbol table ([NameSpace]), the recognizer ([Parser]),
    the pending-call holder ([FunctHold]) with its driver ([FunctFinder]), and
    the ordering of the output records ([FunctionData]).  The first part of
    the file is the model; the second part proves the properties the
    specification states, and after them further properties of the same code.

    Conventions.
    - The program compares [unsigned int] positions with [string::npos]
      everywhere, which only works where [unsigned int] and [size_t] have the
      same width; positions are therefore 32-bit unsigned numbers, modelled in
      [N], with [npos = 2^32 - 1].  Sums of positions in the source stay
      within the length of the string plus two, so they are written without a
      reduction modulo [2^32]; where the lexer subtracts from a position that
      can be zero, or steps on from one that can be [npos], the wrap-around is
      written out ([Tokenizer.dec], [inc], [span]).  The two [unsigned short]
      variables of [FileBuffer::handlePreproc] are the one place where the
      source narrows a position, and there the truncation is written out.
    - A [std::string] is a [string]; [operator[]] outside the string is
      undefined behaviour in C++ and is modelled by [None].
    - Output written to [cout] is modelled as a list of warnings kept in the
      state of the object that writes it.
    - An [int] is a number in [Z].  A step of the brace counter or a
      conversion of digits that would leave the range of [int] is undefined
      behaviour and is modelled as such; the line numbers of [FilePosition]
      are stepped in [Z] without a bound, so the model does not cover a
      file of [2^31] lines or more.
    - A loop the source gives no bound for takes a fuel argument, and ends in
      [OutOfFuel] when the fuel is used up.
    - The parser reads its tokens through the [TokenList]; the [Tokenizer]
      behind the list is kept abstract (class [TokenSource]), so what is
      proved about the parser holds for every stream of tokens.
    - [isalpha] and [isdigit] are those of the C locale. *)

From Stdlib Require Import String Ascii List NArith ZArith Bool Lia Sorting.Sorted.
From Stdlib Require OrderedTypeEx.
From stdpp Require Import base option gmap strings.

Import ListNotations.
Local Open Scope string_scope.
Local Open Scope N_scope.

(** ** std::string *)

Module StdString.

Definition npos : N := 4294967295.

Definition size (s : string) : N := N.of_nat (String.length s).

(** [s[i]]: [None] stands for an access outside the string. *)
Definition at_ (s : string) (i : N) : option ascii :=
  if i <? size s then String.get (N.to_nat i) s else None.

(** [s.substr(pos, n)], [s.assign(s, pos, n)] and the text that
    [append(s, pos, n)] adds: the count is clipped to the end of the
    string.  Every call in the program has [pos <= size s] (beyond it the
    C++ functions throw [out_of_range]). *)
Definition substr (s : string) (pos n : N) : string :=
  if pos <=? size s
  then String.substring (N.to_nat pos) (N.to_nat (N.min n (size s - pos))) s
  else EmptyString.

Fixpoint mem (c : ascii) (chars : string) : bool :=
  match chars with
  | EmptyString => false
  | String d chars' => Ascii.eqb c d || mem c chars'
  end.

(** First index [j >= pos] whose character satisfies [p]; the scan is at
    index [i]. *)
Fixpoint find_if_from (p : ascii -> bool) (s : string) (i pos : N) : N :=
  match s with
  | EmptyString => npos
  | String c s' =>
      if (pos <=? i) && p c then i else find_if_from p s' (N.succ i) pos
  end.

(** Last index [j <= pos] whose character satisfies [p]; [acc] is the best
    index seen before [i]. *)
Fixpoint find_last_if_from (p : ascii -> bool) (s : string) (i pos acc : N) : N :=
  match s with
  | EmptyString => acc
  | String c s' =>
      find_last_if_from p s' (N.succ i) pos (if (i <=? pos) && p c then i else acc)
  end.

(** First index [j >= pos] at which [pat] occurs. *)
Fixpoint find_str_from (pat s : string) (i pos : N) : N :=
  match s with
  | EmptyString => if (pos <=? i) && String.prefix pat EmptyString then i else npos
  | String _ s' =>
      if (pos <=? i) && String.prefix pat s then i
      else find_str_from pat s' (N.succ i) pos
  end.

Definition find_first_of (s : string) (c : ascii) (pos : N) : N :=
  find_if_from (Ascii.eqb c) s 0 pos.

Definition find_first_not_of (s chars : string) (pos : N) : N :=
  find_if_from (fun c => negb (mem c chars)) s 0 pos.

Definition find_last_not_of (s chars : string) (pos : N) : N :=
  find_last_if_from (fun c => negb (mem c chars)) s 0 pos npos.

Definition find (s pat : string) (pos : N) : N := find_str_from pat s 0 pos.

(** [operator<] on strings: lexicographic on the character codes. *)
Definition lt (a b : string) : bool := String.ltb a b.

Definition isdigit (c : ascii) : bool :=
  let n := N_of_ascii c in (48 <=? n) && (n <=? 57).

End StdString.

(** ** basetypes.h *)

Module FilePosition.

Record t := mk { _fileName : string; _lineNo : Z }.

Definition getFileName (p : t) : string := _fileName p.
Definition getLineNo (p : t) : Z := _lineNo p.

Definition incrLine (p : t) : t := mk (_fileName p) (_lineNo p + 1)%Z.

(** [operator==] *)
Definition eqb (a b : t) : bool :=
  String.eqb (_fileName a) (_fileName b) && (_lineNo a =? _lineNo b)%Z.

(** [operator<] *)
Definition ltb (a b : t) : bool :=
  if StdString.lt (_fileName a) (_fileName b) then true
  else if StdString.lt (_fileName b) (_fileName a) then false
  else (_lineNo a <? _lineNo b)%Z.

End FilePosition.

Module Token.

Inductive TokenType :=
| notoken | identifier | literal | varname | functdecl | functproto
| functcall | functtypedef | typetoken | typedeftoken | statictoken
| compound | control | reserved | openparen | closeparen | openbrace
| closebrace | ampersand | fieldaccess | semicolon | declsymbol
| othersymbol | tokenEOF.

Inductive ScopeType := noscope | keyword | globalscope | filescope | localscope.

Inductive ModType := nomod | funcref | onearg | twoarg | threearg.

Definition TokenType_eqb (a b : TokenType) : bool :=
  match a, b with
  | notoken, notoken | identifier, identifier | literal, literal
  | varname, varname | functdecl, functdecl | functproto, functproto
  | functcall, functcall | functtypedef, functtypedef | typetoken, typetoken
  | typedeftoken, typedeftoken | statictoken, statictoken
  | compound, compound | control, control | reserved, reserved
  | openparen, openparen | closeparen, closeparen | openbrace, openbrace
  | closebrace, closebrace | ampersand, ampersand
  | fieldaccess, fieldaccess | semicolon, semicolon
  | declsymbol, declsymbol | othersymbol, othersymbol
  | tokenEOF, tokenEOF => true
  | _, _ => false
  end.

Definition ScopeType_eqb (a b : ScopeType) : bool :=
  match a, b with
  | noscope, noscope | keyword, keyword | globalscope, globalscope
  | filescope, filescope | localscope, localscope => true
  | _, _ => false
  end.

Definition ModType_eqb (a b : ModType) : bool :=
  match a, b with
  | nomod, nomod | funcref, funcref | onearg, onearg | twoarg, twoarg
  | threearg, threearg => true
  | _, _ => false
  end.

Record t := mk {
  _lexeme : string;
  _location : FilePosition.t;
  _type : TokenType;
  _scope : ScopeType;
  _modifier : ModType }.

(** [Token()] and [setToNoToken] *)
Definition noToken : t := mk "" (FilePosition.mk "" 0) notoken noscope nomod.

(** [Token(lexeme, location, tokenclass)] *)
Definition make (lexeme : string) (location : FilePosition.t) (tokenclass : TokenType) : t :=
  mk lexeme location tokenclass noscope nomod.

(** [Token(lexeme, tokenclass, modifier)], used for the keyword table *)
Definition makeKeyword (lexeme : string) (tokenclass : TokenType) (modifier : ModType) : t :=
  mk lexeme (FilePosition.mk "" 0) tokenclass keyword modifier.

Definition getLexeme := _lexeme.
Definition getFilePosition := _location.
Definition getType := _type.
Definition getScope := _scope.
Definition getModifier := _modifier.

Definition setType (tk : t) (ty : TokenType) : t :=
  mk (_lexeme tk) (_location tk) ty (_scope tk) (_modifier tk).
Definition setScope (tk : t) (sc : ScopeType) : t :=
  mk (_lexeme tk) (_location tk) (_type tk) sc (_modifier tk).
Definition setModifier (tk : t) (md : ModType) : t :=
  mk (_lexeme tk) (_location tk) (_type tk) (_scope tk) md.

Definition setToTokenMeaning (tk model : t) : t :=
  mk (_lexeme tk) (_location tk) (_type model) (_scope model) (_modifier model).

(** [operator==] and [operator<]: tokens are compared by lexeme only. *)
Definition eqb (a b : t) : bool := String.eqb (_lexeme a) (_lexeme b).
Definition ltb (a b : t) : bool := StdString.lt (_lexeme a) (_lexeme b).

End Token.

Module FunctionData.

Record t := mk {
  _name : string;
  _location : FilePosition.t;
  _declaration : bool;
  _caller : string;
  _refrence : bool;
  _filescope : bool }.

(** [FunctionData(tokendata, caller)] *)
Definition make (tokendata : Token.t) (caller : string) : t :=
  let name := Token.getLexeme tokendata in
  let declaration := Token.TokenType_eqb (Token.getType tokendata) Token.functdecl in
  let filescope := Token.ScopeType_eqb (Token.getScope tokendata) Token.filescope in
  if declaration
  then mk name (Token.getFilePosition tokendata) declaration name false filescope
  else mk name (Token.getFilePosition tokendata) declaration caller
          (Token.ModType_eqb (Token.getModifier tokendata) Token.funcref) filescope.

(** [operator<], the order of the final sort *)
Definition ltb (a b : t) : bool :=
  if negb (String.eqb (_name a) (_name b)) then
    StdString.lt (_name a) (_name b)
  else if negb (Bool.eqb (_filescope a) (_filescope b)) then
    _filescope a
  else if _filescope a
          && negb (String.eqb (FilePosition.getFileName (_location a))
                              (FilePosition.getFileName (_location b))) then
    StdString.lt (FilePosition.getFileName (_location a))
                 (FilePosition.getFileName (_location b))
  else if negb (Bool.eqb (_declaration a) (_declaration b)) then
    _declaration a
  else
    FilePosition.ltb (_location a) (_location b).

End FunctionData.

(** ** errors.h, and the results of fallible code

    [Thrown] is a C++ exception; [Undefined] is undefined behaviour in C++
    (an access outside a string or an empty vector); [OutOfFuel] is a loop of
    the model that was given too few iterations. *)

Inductive exception :=
| NoSuchFileException (fileName : string)
| DouFuncRelException.

Inductive result (A : Type) : Type :=
| Ok (a : A)
| Thrown (e : exception)
| Undefined
| OutOfFuel.

Arguments Ok {A} a.
Arguments Thrown {A} e.
Arguments Undefined {A}.
Arguments OutOfFuel {A}.

Definition bind {A B : Type} (m : result A) (k : A -> result B) : result B :=
  match m with
  | Ok a => k a
  | Thrown e => Thrown e
  | Undefined => Undefined
  | OutOfFuel => OutOfFuel
  end.

Notation "'let*' x ':=' m 'in' k" := (bind m (fun x => k))
  (at level 10, x pattern, m at level 100, k at level 200).

Definition of_option {A : Type} (o : option A) : result A :=
  match o with
  | Some a => Ok a
  | None => Undefined
  end.

(** Characters that a Rocq string literal cannot hold directly. *)
Definition tab : ascii := "009"%char.
Definition dquote : ascii := "034"%char.
Definition squote : ascii := "'"%char.
Definition backslash : ascii := "\"%char.

(** ** filebuffer.h, filebuffer.cpp *)

Module FileBuffer.
Import StdString.

Inductive TextState := comment | quote | preproc | other.

Definition TextState_eqb (a b : TextState) : bool :=
  match a, b with
  | comment, comment | quote, quote | preproc, preproc | other, other => true
  | _, _ => false
  end.

(** The two messages the file buffer writes to [cout]. *)
Inductive Warning :=
| UnterminatedString (position : FilePosition.t)
| PreprocIgnored (fileDataLine : string) (position : FilePosition.t).

(** [_file] holds the lines [getline] has not read yet (the file split at
    its newlines, so never empty before the first read); [_file.eof()] is
    [_file = []]. *)
Record t := mk {
  _file : list string;
  _sourcePosition : FilePosition.t;
  _bufferPosition : FilePosition.t;
  _inputPosition : FilePosition.t;
  _buffer : string;
  _currState : TextState;
  _haveWrap : bool;
  cout : list Warning }.

Definition set_file (st : t) (f : list string) : t :=
  mk f (_sourcePosition st) (_bufferPosition st) (_inputPosition st)
     (_buffer st) (_currState st) (_haveWrap st) (cout st).
Definition set_sourcePosition (st : t) (p : FilePosition.t) : t :=
  mk (_file st) p (_bufferPosition st) (_inputPosition st)
     (_buffer st) (_currState st) (_haveWrap st) (cout st).
Definition set_bufferPosition (st : t) (p : FilePosition.t) : t :=
  mk (_file st) (_sourcePosition st) p (_inputPosition st)
     (_buffer st) (_currState st) (_haveWrap st) (cout st).
Definition set_inputPosition (st : t) (p : FilePosition.t) : t :=
  mk (_file st) (_sourcePosition st) (_bufferPosition st) p
     (_buffer st) (_currState st) (_haveWrap st) (cout st).
Definition set_buffer (st : t) (b : string) : t :=
  mk (_file st) (_sourcePosition st) (_bufferPosition st) (_inputPosition st)
     b (_currState st) (_haveWrap st) (cout st).
Definition set_currState (st : t) (s : TextState) : t :=
  mk (_file st) (_sourcePosition st) (_bufferPosition st) (_inputPosition st)
     (_buffer st) s (_haveWrap st) (cout st).
Definition set_haveWrap (st : t) (w : bool) : t :=
  mk (_file st) (_sourcePosition st) (_bufferPosition st) (_inputPosition st)
     (_buffer st) (_currState st) w (cout st).
Definition warn (st : t) (w : Warning) : t :=
  mk (_file st) (_sourcePosition st) (_bufferPosition st) (_inputPosition st)
     (_buffer st) (_currState st) (_haveWrap st) (cout st ++ [w]).

Definition blanks : string := String " " (String tab EmptyString).

(** [burnSpaces] *)
Definition burnSpaces (buffer : string) (startPos : N) : N :=
  find_first_not_of buffer blanks startPos.

(** [buffer[i] == c] at an index the source has checked to be inside. *)
Definition char_is (buffer : string) (i : N) (c : ascii) : bool :=
  match at_ buffer i with
  | Some d => Ascii.eqb d c
  | None => false
  end.

(** [getEscNewline] *)
Definition getEscNewline (buffer : string) (multiLineQuote : bool) : N :=
  let index := find_last_not_of buffer blanks npos in
  let haveEscNewLine :=
    if negb (index =? npos) then
      if char_is buffer index backslash then
        if negb multiLineQuote then true
        else
          let testPos := find_last_not_of buffer (String backslash EmptyString) index in
          if testPos =? npos then (index + 1) mod 2 =? 1
          else (index - testPos) mod 2 =? 1
      else false
    else false in
  if haveEscNewLine then index else npos.

(** [hasEscNewline] *)
Definition hasEscNewline (buffer : string) (multiLineQuote : bool) : bool :=
  negb (getEscNewline buffer multiLineQuote =? npos).

(** The loop of [nextOpenQuote]; every pass that does not stop moves [pos]
    one character on, so [S (length buffer)] passes reach the end. *)
Fixpoint nextOpenQuote_loop (fuel : nat) (buffer : string) (pos : N) : N :=
  match fuel with
  | O => npos
  | S fuel' =>
      let pos := find_first_of buffer dquote pos in
      if pos =? npos then npos
      else if ((pos =? 0) || negb (char_is buffer (pos - 1) squote))
              && ((pos =? size buffer - 1) || negb (char_is buffer (pos + 1) squote))
      then pos
      else nextOpenQuote_loop fuel' buffer (pos + 1)
  end.

Definition nextOpenQuote (buffer : string) (startPos : N) : N :=
  if startPos =? npos then npos
  else nextOpenQuote_loop (S (String.length buffer)) buffer startPos.

Fixpoint nextCloseQuote_loop (fuel : nat) (buffer : string) (pos : N) : N :=
  match fuel with
  | O => npos
  | S fuel' =>
      let pos := find_first_of buffer dquote pos in
      if pos =? npos then npos
      else if (pos =? 0) || negb (char_is buffer (pos - 1) backslash)
      then pos
      else nextCloseQuote_loop fuel' buffer (pos + 1)
  end.

Definition nextCloseQuote (buffer : string) (startPos : N) : N :=
  if startPos =? npos then npos
  else nextCloseQuote_loop (S (String.length buffer)) buffer startPos.

(** [atoi] on the text it is given here, a run of decimal digits: the
    value of the leading digits.  A value that does not fit an [int] is
    undefined behaviour. *)
Fixpoint digits_value (acc : N) (s : string) : N :=
  match s with
  | EmptyString => acc
  | String c s' =>
      if isdigit c then digits_value (10 * acc + (N_of_ascii c - 48)) s' else acc
  end.

Definition atoi (s : string) : result N :=
  let v := digits_value 0 s in
  if v <=? 2147483647 then Ok v else Undefined.

(** Assignment of a position to an [unsigned short]. *)
Definition ushort (n : N) : N := n mod 65536.

(** [end - start] on two [unsigned short]: computed in [int], then passed
    as a [size_t]. *)
Definition count_between (start end_ : N) : N :=
  if start <=? end_ then end_ - start else 4294967296 - (start - end_).

(** Conversion of an [unsigned int] to the [int] of a [FilePosition]. *)
Definition int_of_uint (n : N) : Z :=
  if n <? 2147483648 then Z.of_N n else (Z.of_N n - 4294967296)%Z.

(** The search of [handlePreproc] for a source location in a directive that
    neither wraps nor continues a wrapped one: the new [_bufferPosition],
    if the line holds one. *)
Definition findLocation (fileDataLine : string) : result (option FilePosition.t) :=
  let start := ushort (find_first_of fileDataLine "#" 0) in
  let start := ushort (burnSpaces fileDataLine (start + 1)) in
  if negb (start =? npos) then
    let* c := of_option (at_ fileDataLine start) in
    if isdigit c then
      let end_ := ushort (find_first_not_of fileDataLine "0123456789" start) in
      if negb (end_ =? npos) then
        let* lineNo := atoi (substr fileDataLine start (count_between start end_)) in
        let lineNo := (lineNo + 4294967295) mod 4294967296 in
        let start := ushort (burnSpaces fileDataLine end_) in
        if negb (start =? npos) then
          let* c := of_option (at_ fileDataLine start) in
          if Ascii.eqb c dquote then
            let start := ushort (start + 1) in
            let end_ := ushort (find_first_of fileDataLine dquote start) in
            if negb (end_ =? npos) then
              if start <? end_ then
                let fileName := substr fileDataLine start (count_between start end_) in
                let end_ := ushort (end_ + 1) in
                let haveLocation :=
                  if negb (end_ =? size fileDataLine)
                  then ushort (burnSpaces fileDataLine end_) =? npos
                  else true in
                if haveLocation
                then Ok (Some (FilePosition.mk fileName (int_of_uint lineNo)))
                else Ok None
              else Ok None
            else Ok None
          else Ok None
        else Ok None
      else Ok None
    else Ok None
  else Ok None.

(** [handlePreproc] *)
Definition handlePreproc (fileDataLine : string) (st : t) : result t :=
  let wasWrapped := _haveWrap st in
  let st := set_haveWrap st (hasEscNewline fileDataLine false) in
  let* location :=
    (if negb wasWrapped && negb (_haveWrap st)
     then findLocation fileDataLine else Ok None) in
  let st := match location with
            | Some p => set_bufferPosition st p
            | None => st
            end in
  let haveLocation := match location with Some _ => true | None => false end in
  if negb haveLocation && negb wasWrapped
  then Ok (warn st (PreprocIgnored fileDataLine (_inputPosition st)))
  else Ok st.

(** One pass of the inner loop of [fetchNextLine] over [fileDataLine]:
    the text that begins at [end_] is handled according to [_currState].
    The result is the new [end], the new [nextState] and the new state. *)
Definition scanStep (fileDataLine : string) (end_ : N) (nextState : TextState) (st : t)
  : result (N * TextState * t) :=
  let start := end_ in
  let* (end_, nextState, st) :=
    match _currState st with
    | comment =>
        let end_ := if negb (_haveWrap st) then end_ + 2 else end_ in
        let end_ := find fileDataLine "*/" end_ in
        let st := set_haveWrap st (end_ =? npos) in
        let '(end_, nextState) :=
          if negb (_haveWrap st) then (end_ + 2, other) else (end_, nextState) in
        Ok (end_, nextState, set_buffer st (_buffer st ++ " "))
    | quote =>
        let end_ := if negb (_haveWrap st) then end_ + 1 else end_ in
        let end_ := nextCloseQuote fileDataLine end_ in
        let st := set_haveWrap st (end_ =? npos) in
        if _haveWrap st then
          let st := set_buffer st (_buffer st ++ substr fileDataLine start npos) in
          let st :=
            if negb (hasEscNewline (_buffer st) true)
            then set_buffer (warn st (UnterminatedString (_bufferPosition st)))
                            (_buffer st ++ String backslash EmptyString)
            else st in
          Ok (end_, nextState, st)
        else
          let end_ := end_ + 1 in
          Ok (end_, other,
              set_buffer st (_buffer st ++ substr fileDataLine start (end_ - start)))
    | preproc =>
        let* st := handlePreproc fileDataLine st in
        Ok (npos, (if negb (_haveWrap st) then other else nextState), st)
    | other =>
        let st := set_haveWrap st false in
        let nextQuote := nextOpenQuote fileDataLine start in
        let nextComment := find fileDataLine "/*" start in
        let '(end_, nextState, st) :=
          if (nextQuote =? npos) && (nextComment =? npos)
          then (npos, nextState, set_haveWrap st true)
          else if (nextQuote =? npos) || (nextComment <? nextQuote)
          then (nextComment, comment, st)
          else (nextQuote, quote, st) in
        let st :=
          if _haveWrap st
          then set_buffer st (_buffer st ++ substr fileDataLine start npos)
          else if start <? end_
          then set_buffer st (_buffer st ++ substr fileDataLine start (end_ - start))
          else st in
        Ok (end_, nextState, st)
    end in
  let st := if negb (_haveWrap st) then set_currState st nextState else st in
  let end_ := if size fileDataLine <=? end_ then npos else end_ in
  Ok (end_, nextState, st).

(** The inner loop, [while (end != string::npos)]. *)
Fixpoint scanLine (fuel : nat) (fileDataLine : string) (end_ : N)
         (nextState : TextState) (st : t) : result (TextState * t) :=
  if end_ =? npos then Ok (nextState, st)
  else
    match fuel with
    | O => OutOfFuel
    | S fuel' =>
        let* (end_, nextState, st) := scanStep fileDataLine end_ nextState st in
        scanLine fuel' fileDataLine end_ nextState st
    end.

(** The body of the outer loop of [fetchNextLine] for the line just read.
    Two passes of the inner loop always move [end] on, so twice the length
    of the line (and two more) is enough for it. *)
Definition processLine (fileDataLine : string) (nextState : TextState) (st : t)
  : result (TextState * t) :=
  let st := set_bufferPosition st (FilePosition.incrLine (_bufferPosition st)) in
  let st := set_inputPosition st (FilePosition.incrLine (_inputPosition st)) in
  let st :=
    if TextState_eqb (_currState st) other then
      let firstChar := burnSpaces fileDataLine 0 in
      if negb (firstChar =? npos) && char_is fileDataLine firstChar "#"
      then set_haveWrap (set_currState st preproc) false
      else st
    else st in
  let* (nextState, st) :=
    scanLine (2 * String.length fileDataLine + 2) fileDataLine 0 nextState st in
  let testChar := burnSpaces (_buffer st) 0 in
  let st :=
    if (testChar =? npos)
       || ((testChar =? getEscNewline (_buffer st) false)
           && (negb (_haveWrap st) || negb (TextState_eqb (_currState st) quote)))
    then set_buffer st ""
    else st in
  Ok (nextState, st).

(** The outer loop, [while (_buffer.empty() && !_file.eof())]; [lines] is
    what [getline] has not read yet. *)
Fixpoint fetchLoop (lines : list string) (nextState : TextState) (st : t) : result t :=
  match lines with
  | [] => Ok (set_file st [])
  | fileDataLine :: rest =>
      if negb (String.eqb (_buffer st) "") then Ok (set_file st lines)
      else
        let* (nextState, st) := processLine fileDataLine nextState (set_file st rest) in
        fetchLoop rest nextState st
  end.

(** [fetchNextLine] *)
Definition fetchNextLine (st : t) : result t :=
  fetchLoop (_file st) other (set_buffer st "").

(** [resetVars] *)
Definition resetVars (st : t) : t :=
  mk (_file st) (FilePosition.mk "" 0) (FilePosition.mk "" 0) (FilePosition.mk "" 0)
     (_buffer st) other false (cout st).

(** The constructor. *)
Definition make : t :=
  resetVars
    (mk [] (FilePosition.mk "" 0) (FilePosition.mk "" 0) (FilePosition.mk "" 0)
        "" other false []).

(** [open] on a file that exists and holds [lines]. *)
Definition open (fileName : string) (lines : list string) (st : t) : result t :=
  let st := resetVars st in
  let p := FilePosition.mk fileName 0 in
  fetchNextLine (mk lines p p p "" (_currState st) (_haveWrap st) (cout st)).

(** [haveEOF] *)
Definition haveEOF (st : t) : bool :=
  bool_decide (_file st = []) && String.eqb (_buffer st) "".

(** [operator>>]: the line read, and the state after it. *)
Definition read (st : t) : result (string * t) :=
  let result := _buffer st in
  let st := set_sourcePosition st (_bufferPosition st) in
  let* st := fetchNextLine st in
  Ok (result, st).

(** [getFilePosition] *)
Definition getFilePosition (st : t) : FilePosition.t := _sourcePosition st.

End FileBuffer.

(** ** tokenizer.h, tokenizer.cpp: the lexer *)

Module Tokenizer.
Import StdString.

Definition _declChars : string := "*[], " ++ String tab EmptyString.
Definition _otherChars : string := "`!@#$%^+=|\<>?/".

Record t := mk {
  _file : FileBuffer.t;
  _buffer : string;
  _charPtr : N;
  _location : FilePosition.t;
  _loadLineData : bool;
  _newLinePos : N }.

(** [isLineWrap] *)
Definition isLineWrap (pos : N) (multiLineQuote : bool) (st : t) : bool :=
  if FileBuffer.haveEOF (_file st) then false
  else if size (_buffer st) <=? pos then false
  else if negb (FileBuffer.char_is (_buffer st) pos backslash) then false
  else FileBuffer.getEscNewline (_buffer st) multiLineQuote =? pos.

(** [reloadBuffer] *)
Definition reloadBuffer (multiLineQuote : bool) (st : t) : result t :=
  let numKeepChars :=
    if size (_buffer st) <=? _charPtr st then 0
    else
      let firstIgnoreChar := FileBuffer.getEscNewline (_buffer st) multiLineQuote in
      let firstIgnoreChar :=
        if firstIgnoreChar =? npos then size (_buffer st) else firstIgnoreChar in
      if firstIgnoreChar <=? _charPtr st then 0
      else firstIgnoreChar - _charPtr st in
  let buffer :=
    if 0 <? numKeepChars then substr (_buffer st) (_charPtr st) numKeepChars
    else EmptyString in
  if negb (FileBuffer.haveEOF (_file st)) then
    let* (tempBuffer, file) := FileBuffer.read (_file st) in
    Ok (mk file (buffer ++ tempBuffer) 0 (_location st) true numKeepChars)
  else
    Ok (mk (_file st) buffer 0 (_location st) (_loadLineData st) numKeepChars).

(** [handleOtherChars] *)
Definition handleOtherChars (st : t) : result (Token.t * t) :=
  let* c := of_option (at_ (_buffer st) (_charPtr st)) in
  let '(wantType, end_) :=
    if mem c _declChars
    then (Token.declsymbol,
          find_first_not_of (_buffer st) _declChars (_charPtr st + 1))
    else (Token.othersymbol,
          find_first_not_of (_buffer st) (_declChars ++ _otherChars) (_charPtr st + 1)) in
  let end_ := if end_ =? npos then size (_buffer st) - 1 else end_ - 1 in
  let lexeme := substr (_buffer st) (_charPtr st) (end_ - _charPtr st + 1) in
  Ok (Token.make lexeme (_location st) wantType,
      mk (_file st) (_buffer st) end_ (_location st) (_loadLineData st) (_newLinePos st)).

(** The local variables of [handleSinQuote]. *)
Record SinQuote := mkSinQuote {
  haveError : bool;
  haveValue : bool;
  haveEscape : bool;
  haveHex : bool;
  haveOct : bool;
  haveZero : bool;
  length : N }.

Definition set_haveError (q : SinQuote) (b : bool) : SinQuote :=
  mkSinQuote b (haveValue q) (haveEscape q) (haveHex q) (haveOct q) (haveZero q) (length q).
Definition set_haveValue (q : SinQuote) (b : bool) : SinQuote :=
  mkSinQuote (haveError q) b (haveEscape q) (haveHex q) (haveOct q) (haveZero q) (length q).
Definition set_haveEscape (q : SinQuote) (b : bool) : SinQuote :=
  mkSinQuote (haveError q) (haveValue q) b (haveHex q) (haveOct q) (haveZero q) (length q).
Definition set_haveHex (q : SinQuote) (b : bool) : SinQuote :=
  mkSinQuote (haveError q) (haveValue q) (haveEscape q) b (haveOct q) (haveZero q) (length q).
Definition set_haveOct (q : SinQuote) (b : bool) : SinQuote :=
  mkSinQuote (haveError q) (haveValue q) (haveEscape q) (haveHex q) b (haveZero q) (length q).
Definition set_haveZero (q : SinQuote) (b : bool) : SinQuote :=
  mkSinQuote (haveError q) (haveValue q) (haveEscape q) (haveHex q) (haveOct q) b (length q).
Definition set_length (q : SinQuote) (n : N) : SinQuote :=
  mkSinQuote (haveError q) (haveValue q) (haveEscape q) (haveHex q) (haveOct q) (haveZero q) n.

(** The test written twice in [handleSinQuote] for a character after
    [\x]: a digit or one of [A] to [F]. *)
Definition notHexChar (testChar : ascii) : bool :=
  negb (isdigit testChar)
  && negb (Ascii.eqb testChar "A") && negb (Ascii.eqb testChar "B")
  && negb (Ascii.eqb testChar "C") && negb (Ascii.eqb testChar "D")
  && negb (Ascii.eqb testChar "E") && negb (Ascii.eqb testChar "F").

(** The [switch((int)length)] of [handleSinQuote]. *)
Definition sinQuoteSwitch (q : SinQuote) (testChar : ascii) : SinQuote :=
  if length q =? 2 then
    if Ascii.eqb testChar squote then set_haveError q true
    else if Ascii.eqb testChar backslash then set_haveEscape q true
    else q
  else if length q =? 3 then
    if negb (haveEscape q) then
      if Ascii.eqb testChar squote then set_haveValue q true
      else set_haveError q true
    else if Ascii.eqb testChar "0" then set_haveZero q true
    else if isdigit testChar then set_haveOct q true
    else if Ascii.eqb testChar "x" then set_haveHex q true
    else if negb (Ascii.eqb testChar "a") && negb (Ascii.eqb testChar "b")
            && negb (Ascii.eqb testChar "f") && negb (Ascii.eqb testChar "n")
            && negb (Ascii.eqb testChar "r") && negb (Ascii.eqb testChar "t")
            && negb (Ascii.eqb testChar "v") && negb (Ascii.eqb testChar backslash)
            && negb (Ascii.eqb testChar "?") && negb (Ascii.eqb testChar dquote)
            && negb (Ascii.eqb testChar squote)
    then set_haveError q true
    else q
  else if length q =? 4 then
    let q := if haveZero q && isdigit testChar then set_haveOct q true else q in
    if haveOct q then set_haveError q (negb (isdigit testChar))
    else if haveHex q then set_haveError q (notHexChar testChar)
    else if haveEscape q && Ascii.eqb testChar squote then set_haveValue q true
    else set_haveError q true
  else if length q =? 5 then
    if haveOct q then set_haveError q (negb (isdigit testChar))
    else if haveHex q then set_haveError q (notHexChar testChar)
    else set_haveError q true
  else if length q =? 6 then
    if (haveHex q || haveOct q) && Ascii.eqb testChar squote then set_haveValue q true
    else set_haveError q true
  else set_haveError q true.

(** The loop of [handleSinQuote], [while ((!haveValue) && (!haveError))]. *)
Fixpoint sinQuoteLoop (fuel : nat) (q : SinQuote) (st : t) : result (SinQuote * t) :=
  if negb (haveValue q) && negb (haveError q) then
    match fuel with
    | O => OutOfFuel
    | S fuel' =>
        let q := set_length q (length q + 1) in
        if size (_buffer st) <=? _charPtr st + length q - 1 then
          sinQuoteLoop fuel' (set_haveError q true) st
        else if isLineWrap (_charPtr st + length q - 1) true st then
          let* st := reloadBuffer true st in
          sinQuoteLoop fuel' (set_length q (length q - 1)) st
        else
          let* testChar := of_option (at_ (_buffer st) (_charPtr st + length q - 1)) in
          sinQuoteLoop fuel' (sinQuoteSwitch q testChar) st
    end
  else Ok (q, st).

(** [handleSinQuote] *)
Definition handleSinQuote (fuel : nat) (st : t) : result (Token.t * t) :=
  let* (q, st) :=
    sinQuoteLoop fuel (mkSinQuote false false false false false false 1) st in
  if haveValue q then
    let lexeme := substr (_buffer st) (_charPtr st) (length q) in
    Ok (Token.make lexeme (_location st) Token.literal,
        mk (_file st) (_buffer st) (_charPtr st + (length q - 1)) (_location st)
           (_loadLineData st) (_newLinePos st))
  else handleOtherChars st.

(** *** The other tokens *)

Definition _digits : string := "1234567890".
Definition _alpha : string := "abcdefghijklmnopqrstuvwxyzABCDEFGHIJKLMNOPQRSTUVWXYZ_".

(** [isalpha] in the C locale. *)
Definition isalpha (c : ascii) : bool :=
  let n := N_of_ascii c in
  ((65 <=? n) && (n <=? 90)) || ((97 <=? n) && (n <=? 122)).

(** [n - 1], [n + 1] and [end - charPtr + 1] on [unsigned int], where the
    source can take them beyond the ends of the range. *)
Definition dec (n : N) : N := if n =? 0 then npos else n - 1.
Definition inc (n : N) : N := (n + 1) mod 4294967296.
Definition span (end_ charPtr : N) : N := (end_ + 4294967296 - charPtr + 1) mod 4294967296.

Definition set_charPtr (st : t) (p : N) : t :=
  mk (_file st) (_buffer st) p (_location st) (_loadLineData st) (_newLinePos st).

(** [haveEOF] *)
Definition haveEOF (st : t) : bool :=
  FileBuffer.haveEOF (_file st) && (size (_buffer st) <=? _charPtr st).

(** [init], the constructor and [start]; the file exists and holds [lines]. *)
Definition init (st : t) : t := mk (_file st) "" 0 (FilePosition.mk "" 0) false 0.

Definition make : t := init (mk FileBuffer.make "" 0 (FilePosition.mk "" 0) false 0).

Definition start (fileName : string) (lines : list string) (st : t) : result t :=
  let st := init st in
  let* file := FileBuffer.open fileName lines (_file st) in
  let* st :=
    reloadBuffer false
      (mk file (_buffer st) (_charPtr st) (_location st) (_loadLineData st)
          (_newLinePos st)) in
  Ok (mk (_file st) (_buffer st) (_charPtr st) (FileBuffer.getFilePosition (_file st))
         (_loadLineData st) (_newLinePos st)).

(** The loop of [getNumeric], [while (!haveLexeme)]: the last value of
    [end], and the state. *)
Fixpoint getNumeric_loop (fuel : nat) (end_ : N) (seenE : bool) (st : t)
  : result (N * t) :=
  match fuel with
  | O => OutOfFuel
  | S fuel' =>
      let end_ :=
        if dec (size (_buffer st)) <? end_ then npos
        else find_first_not_of (_buffer st) (_digits ++ ".") end_ in
      if end_ =? npos then Ok (size (_buffer st), st)
      else if isLineWrap end_ false st then
        let* st := reloadBuffer false st in
        getNumeric_loop fuel' (_newLinePos st) seenE st
      else
        let* c := of_option (at_ (_buffer st) end_) in
        if Ascii.eqb c "E" && negb seenE
        then getNumeric_loop fuel' (end_ + 1) true st
        else Ok (end_, st)
  end.

(** [getNumeric] *)
Definition getNumeric (fuel : nat) (st : t) : result (Token.t * t) :=
  let* (end_, st) := getNumeric_loop fuel (_charPtr st) false st in
  let end_ := if end_ =? npos then size (_buffer st) else dec end_ in
  let lexeme := substr (_buffer st) (_charPtr st) (span end_ (_charPtr st)) in
  Ok (Token.make lexeme (_location st) Token.literal, set_charPtr st end_).

(** The loop of [getQuotedString], [while (!haveValue)]. *)
Fixpoint getQuotedString_loop (fuel : nat) (end_ : N) (st : t) : result (N * t) :=
  match fuel with
  | O => OutOfFuel
  | S fuel' =>
      let end_ := FileBuffer.nextCloseQuote (_buffer st) end_ in
      if negb (FileBuffer.haveEOF (_file st)) && (end_ =? npos) then
        let* st := reloadBuffer true st in
        getQuotedString_loop fuel' (_newLinePos st) st
      else Ok (end_, st)
  end.

(** [getQuotedString] *)
Definition getQuotedString (fuel : nat) (st : t) : result (Token.t * t) :=
  let* (end_, st) := getQuotedString_loop fuel (_charPtr st + 1) st in
  let end_ := if end_ =? npos then size (_buffer st) else end_ in
  let lexeme := substr (_buffer st) (_charPtr st) (span end_ (_charPtr st)) in
  Ok (Token.make lexeme (_location st) Token.literal, set_charPtr st end_).

(** The loop of [getIdentifier], [while (!haveLexeme)]. *)
Fixpoint getIdentifier_loop (fuel : nat) (end_ : N) (st : t) : result (N * t) :=
  match fuel with
  | O => OutOfFuel
  | S fuel' =>
      let end_ :=
        if dec (size (_buffer st)) <? end_ then npos
        else find_first_not_of (_buffer st) (_alpha ++ _digits) end_ in
      if end_ =? npos then Ok (end_, st)
      else if isLineWrap end_ false st then
        let* st := reloadBuffer false st in
        getIdentifier_loop fuel' (_newLinePos st) st
      else Ok (end_, st)
  end.

(** [getIdentifier] *)
Definition getIdentifier (fuel : nat) (st : t) : result (Token.t * t) :=
  let* c := of_option (at_ (_buffer st) (_charPtr st)) in
  let lexeme := String c EmptyString in
  let st := set_charPtr st (_charPtr st + 1) in
  let* (end_, st) := getIdentifier_loop fuel (_charPtr st) st in
  let end_ := if end_ =? npos then size (_buffer st) else dec end_ in
  let lexeme :=
    if _charPtr st <=? end_
    then lexeme ++ substr (_buffer st) (_charPtr st) (span end_ (_charPtr st))
    else lexeme in
  Ok (Token.make lexeme (_location st) Token.identifier, set_charPtr st end_).

(** [handleMinus] *)
Definition handleMinus (st : t) : result (Token.t * t) :=
  if _charPtr st =? dec (size (_buffer st)) then
    let* c := of_option (at_ (_buffer st) (_charPtr st)) in
    Ok (Token.make (String c EmptyString) (_location st) Token.othersymbol, st)
  else
    let* st :=
      if isLineWrap (_charPtr st + 1) false st then reloadBuffer false st else Ok st in
    let* c := of_option (at_ (_buffer st) (_charPtr st + 1)) in
    if Ascii.eqb c ">" then
      Ok (Token.make (substr (_buffer st) (_charPtr st) 2) (_location st) Token.fieldaccess,
          set_charPtr st (_charPtr st + 1))
    else handleOtherChars st.

(** [handleAmpersand] *)
Definition handleAmpersand (st : t) : result (Token.t * t) :=
  if _charPtr st =? dec (size (_buffer st)) then
    let* c := of_option (at_ (_buffer st) (_charPtr st)) in
    Ok (Token.make (String c EmptyString) (_location st) Token.ampersand, st)
  else
    let* st :=
      if isLineWrap (_charPtr st + 1) false st then reloadBuffer false st else Ok st in
    let* c := of_option (at_ (_buffer st) (_charPtr st + 1)) in
    if Ascii.eqb c "&" then
      Ok (Token.make (substr (_buffer st) (_charPtr st) 2) (_location st) Token.othersymbol,
          set_charPtr st (_charPtr st + 1))
    else
      let* c := of_option (at_ (_buffer st) (_charPtr st)) in
      Ok (Token.make (String c EmptyString) (_location st) Token.ampersand, st).

(** The loop of [nextToken] that finds the next character to process,
    [while ((!haveChar) && ((!_file.haveEOF()) || (_charPtr < _buffer.length())))]. *)
Fixpoint nextChar_loop (fuel : nat) (st : t) : result t :=
  if negb (FileBuffer.haveEOF (_file st)) || (_charPtr st <? size (_buffer st)) then
    match fuel with
    | O => OutOfFuel
    | S fuel' =>
        let st :=
          if _charPtr st <? size (_buffer st)
          then set_charPtr st (FileBuffer.burnSpaces (_buffer st) (_charPtr st))
          else st in
        let st :=
          if _charPtr st =? npos then set_charPtr st (size (_buffer st))
          else if isLineWrap (_charPtr st) false st then set_charPtr st (size (_buffer st))
          else st in
        if size (_buffer st) <=? _charPtr st then
          let* st := reloadBuffer false st in
          nextChar_loop fuel' st
        else Ok st
    end
  else Ok st.

(** [nextToken]; [fuel] bounds each of its loops. *)
Definition nextToken (fuel : nat) (st : t) : result (Token.t * t) :=
  if haveEOF st then
    Ok (Token.make "" (FilePosition.incrLine (_location st)) Token.tokenEOF, st)
  else
    let* c := of_option (at_ (_buffer st) (_charPtr st)) in
    let single (tokenclass : Token.TokenType) : result (Token.t * t) :=
      Ok (Token.make (String c EmptyString) (_location st) tokenclass, st) in
    let* (returnToken, st) :=
      if isalpha c || Ascii.eqb c "_" || Ascii.eqb c "~" then getIdentifier fuel st
      else if isdigit c then getNumeric fuel st
      else if Ascii.eqb c dquote then getQuotedString fuel st
      else if Ascii.eqb c "-" then handleMinus st
      else if Ascii.eqb c squote then handleSinQuote fuel st
      else if Ascii.eqb c "&" then handleAmpersand st
      else if Ascii.eqb c "." then
        if _charPtr st =? dec (size (_buffer st)) then single Token.fieldaccess
        else
          let* d := of_option (at_ (_buffer st) (_charPtr st + 1)) in
          if negb (isdigit d) then single Token.fieldaccess else getNumeric fuel st
      else if Ascii.eqb c ";" then single Token.semicolon
      else if Ascii.eqb c "{" then single Token.openbrace
      else if Ascii.eqb c "}" then single Token.closebrace
      else if Ascii.eqb c "(" then single Token.openparen
      else if Ascii.eqb c ")" then single Token.closeparen
      else handleOtherChars st in
    let st := set_charPtr st (inc (_charPtr st)) in
    let* st := nextChar_loop fuel st in
    let st :=
      if _loadLineData st && (_newLinePos st <=? _charPtr st)
      then mk (_file st) (_buffer st) (_charPtr st) (FileBuffer.getFilePosition (_file st))
              false (_newLinePos st)
      else st in
    Ok (returnToken, st).

End Tokenizer.

(** ** errors.h, errors.cpp: the warnings about tokens *)

Module Errors.

(** A line [logTokenError] writes. *)
Inductive Warning := TokenError (token : Token.t) (leadText trailText : string).

(** [logTokenError] *)
Definition logTokenError (stream : list Warning) (token : Token.t)
           (leadText trailText : string) : list Warning :=
  stream ++ [TokenError token leadText trailText].

End Errors.

(** ** namespace.h, namespace.cpp *)

Module NameSpace.

(** [TokenSet], a [set<Token>]: tokens compare by lexeme, so the set is a
    finite map from the lexeme to the token stored under it. *)
Abbreviation TokenSet := (gmap string Token.t).

(** [TokenSet::find] *)
Definition find (s : TokenSet) (tk : Token.t) : option Token.t :=
  s !! Token.getLexeme tk.

(** [TokenSet::insert]: an element already in the set stays. *)
Definition insert (tk : Token.t) (s : TokenSet) : TokenSet :=
  match s !! Token.getLexeme tk with
  | Some _ => s
  | None => <[Token.getLexeme tk := tk]> s
  end.

(** [localClears] is a history variable: the number of times
    [clearLocalNames] has run. *)
Record t := mk {
  _keyList : TokenSet;
  _globalList : TokenSet;
  _localList : TokenSet;
  localClears : nat }.

(** The keyword table the constructor builds. *)
Definition keywords : list Token.t :=
  [ Token.makeKeyword "auto" Token.typetoken Token.nomod;
    Token.makeKeyword "break" Token.reserved Token.nomod;
    Token.makeKeyword "case" Token.reserved Token.nomod;
    Token.makeKeyword "char" Token.typetoken Token.nomod;
    Token.makeKeyword "const" Token.typetoken Token.nomod;
    Token.makeKeyword "continue" Token.reserved Token.nomod;
    Token.makeKeyword "default" Token.reserved Token.nomod;
    Token.makeKeyword "do" Token.reserved Token.nomod;
    Token.makeKeyword "double" Token.typetoken Token.nomod;
    Token.makeKeyword "else" Token.reserved Token.nomod;
    Token.makeKeyword "enum" Token.compound Token.nomod;
    Token.makeKeyword "extern" Token.typetoken Token.nomod;
    Token.makeKeyword "float" Token.typetoken Token.nomod;
    Token.makeKeyword "for" Token.control Token.threearg;
    Token.makeKeyword "goto" Token.reserved Token.nomod;
    Token.makeKeyword "if" Token.control Token.onearg;
    Token.makeKeyword "int" Token.typetoken Token.nomod;
    Token.makeKeyword "long" Token.typetoken Token.nomod;
    Token.makeKeyword "register" Token.typetoken Token.nomod;
    Token.makeKeyword "return" Token.reserved Token.nomod;
    Token.makeKeyword "short" Token.typetoken Token.nomod;
    Token.makeKeyword "signed" Token.typetoken Token.nomod;
    Token.makeKeyword "sizeof" Token.literal Token.nomod;
    Token.makeKeyword "static" Token.statictoken Token.nomod;
    Token.makeKeyword "struct" Token.compound Token.nomod;
    Token.makeKeyword "switch" Token.control Token.onearg;
    Token.makeKeyword "typedef" Token.typedeftoken Token.nomod;
    Token.makeKeyword "union" Token.compound Token.nomod;
    Token.makeKeyword "unsigned" Token.typetoken Token.nomod;
    Token.makeKeyword "void" Token.typetoken Token.nomod;
    Token.makeKeyword "volatile" Token.typetoken Token.nomod;
    Token.makeKeyword "while" Token.control Token.onearg ].

(** [NameSpace()] *)
Definition make : t := mk (fold_left (fun s tk => insert tk s) keywords ∅) ∅ ∅ 0.

(** [clearLocalNames] *)
Definition clearLocalNames (ns : t) : t :=
  mk (_keyList ns) (_globalList ns) ∅ (S (localClears ns)).

(** [haveVarToken] *)
Definition haveVarToken (testToken : Token.t) : bool :=
  Token.TokenType_eqb (Token.getType testToken) Token.varname
  || Token.TokenType_eqb (Token.getType testToken) Token.typetoken.

(** [haveTypeToken] *)
Definition haveTypeToken (testToken : Token.t) : bool :=
  Token.TokenType_eqb (Token.getType testToken) Token.typetoken
  || Token.TokenType_eqb (Token.getType testToken) Token.functtypedef.

(** [checkForSymbol]: the token as the call leaves it. *)
Definition checkForSymbol (ns : t) (testToken : Token.t) : Token.t :=
  match find (_keyList ns) testToken with
  | Some symbol => Token.setToTokenMeaning testToken symbol
  | None =>
      let symbolIter := find (_localList ns) testToken in
      let '(testToken, localVar) :=
        match symbolIter with
        | Some symbol =>
            if Token.TokenType_eqb (Token.getType symbol) Token.typetoken
            then (Token.setToTokenMeaning testToken symbol, false)
            else (testToken, true)
        | None => (testToken, false)
        end in
      let notLocal := match symbolIter with None => true | Some _ => false end in
      if notLocal || localVar then
        match find (_globalList ns) testToken with
        | None => Token.setScope testToken Token.noscope
        | Some symbol =>
            if haveTypeToken symbol then
              if negb localVar then Token.setToTokenMeaning testToken symbol
              else testToken
            else if negb (haveVarToken symbol) then
              if negb (Token.TokenType_eqb (Token.getType symbol) Token.functproto)
                 || negb (Token.ScopeType_eqb (Token.getScope symbol) Token.filescope)
              then Token.setScope testToken (Token.getScope symbol)
              else Token.setScope testToken Token.noscope
            else testToken
        end
      else testToken
  end.

(** [TokenSet::erase] at the iterator [find] gave for [tk]. *)
Definition erase (tk : Token.t) (s : TokenSet) : TokenSet :=
  delete (Token.getLexeme tk) s.

Definition set_globalList (ns : t) (g : TokenSet) : t :=
  mk (_keyList ns) g (_localList ns) (localClears ns).
Definition set_localList (ns : t) (l : TokenSet) : t :=
  mk (_keyList ns) (_globalList ns) l (localClears ns).

(** [isKeyword] *)
Definition isKeyword (ns : t) (testToken : Token.t) : bool :=
  if negb (Token.TokenType_eqb (Token.getType testToken) Token.identifier) then
    match Token.getType testToken with
    | Token.literal | Token.functdecl | Token.functproto | Token.functcall
    | Token.functtypedef | Token.typetoken | Token.typedeftoken | Token.statictoken
    | Token.compound | Token.control | Token.reserved => true
    | _ => false
    end
  else
    let named (s : TokenSet) :=
      match find s testToken with
      | Some temp => negb (Token.TokenType_eqb (Token.getType temp) Token.varname)
      | None => false
      end in
    if named (_keyList ns) then true
    else if named (_globalList ns) then true
    else named (_localList ns).

(** [updateNameSpace]: the name space after the call and the warnings the
    call writes, in the order it writes them. *)
Definition updateNameSpace (ns : t) (testToken : Token.t) : t * list Errors.Warning :=
  let globalIter := find (_globalList ns) testToken in
  let localiter := find (_localList ns) testToken in
  let type := Token.getType testToken in
  let has (tk : Token.t) (ty : Token.TokenType) := Token.TokenType_eqb (Token.getType tk) ty in
  let log := Errors.logTokenError [] in
  let narrows (g : Token.t) :=
    Token.ScopeType_eqb (Token.getScope testToken) Token.filescope
    && Token.ScopeType_eqb (Token.getScope g) Token.globalscope in
  let replaced := set_globalList ns (insert testToken (erase testToken (_globalList ns))) in
  if Token.ScopeType_eqb (Token.getScope testToken) Token.localscope then
    if match localiter with
       | None => true
       | Some l => has l Token.varname && has testToken Token.typetoken
       end
    then
      let warnings :=
        match globalIter with
        | Some g =>
            if negb (haveVarToken g) then
              if has testToken Token.typetoken then
                if has g Token.functtypedef
                then log testToken "Declaration of type "
                         " shadows function typedef with same name in outer scope"
                else log testToken "Declaration of type "
                         " shadows function with same name in outer scope"
              else if has g Token.functtypedef
              then log testToken "Local variable "
                       " shadows function typedef with same name in outer scope"
              else log testToken "Local variable "
                       " shadows function with same name in outer scope"
            else []
        | None => []
        end in
      let locals :=
        match localiter with
        | Some _ => erase testToken (_localList ns)
        | None => _localList ns
        end in
      (set_localList ns (insert testToken locals), warnings)
    else (ns, [])
  else if haveVarToken testToken then
    match globalIter with
    | None => (set_globalList ns (insert testToken (_globalList ns)), [])
    | Some g =>
        if negb (haveVarToken g) then
          if has g Token.functtypedef then
            if has testToken Token.varname
            then (ns, log testToken "Variable "
                          " uses name previosly used as typedef for function")
            else (ns, log testToken "Type declarion "
                          " uses name previosly used as typedef for function")
          else if has testToken Token.varname
          then (ns, log testToken "Variable " " uses name previously used as a function")
          else (ns, log testToken "Type declaration "
                        " uses name previously used as a function")
        else if has g Token.varname && has testToken Token.typetoken
        then (replaced, [])
        else (ns, [])
    end
  else
    let collision :=
      match localiter with
      | Some l =>
          if match globalIter with Some g => haveTypeToken g | None => false end
             || (has testToken Token.functcall
                 && match globalIter with Some g => haveVarToken g | None => true end)
          then
            if has testToken Token.functtypedef
            then log testToken "Typedef for function "
                     " uses name previously used as a local variable"
            else log testToken "Function "
                     " uses name previously used as a local variable"
          else if match globalIter with Some g => haveVarToken g | None => true end
          then
            if has l Token.typetoken then
              if has testToken Token.functtypedef
              then log testToken "Declaration of type "
                       " shadows function typedef with same name in outer scope"
              else log testToken "Declaration of type "
                       " shadows function with same name in outer scope"
            else if has testToken Token.functtypedef
            then log l "Local variable "
                     " shadows function typedef with same name in outer scope"
            else log l "Local variable "
                     " shadows function with same name in outer scope"
          else []
      | None => []
      end in
    let notLocal := match localiter with None => true | Some _ => false end in
    let '(ns', warnings) :=
      if has testToken Token.functcall then
        if match globalIter with Some g => haveTypeToken g | None => false end then
          match globalIter with
          | Some g =>
              if notLocal
              then (ns, log g "Type declaration " " uses name previously used as a function")
              else (ns, [])
          | None => (ns, [])
          end
        else if match globalIter with
                | Some g => negb (has g Token.functproto) && negb (has g Token.functdecl)
                | None => true
                end
        then
          let warnings := log testToken "Function call " " has no prototype" in
          match globalIter with
          | None => (set_globalList ns (insert testToken (_globalList ns)), warnings)
          | Some g =>
              if negb (has g Token.functcall) then
                (replaced,
                 if notLocal
                 then Errors.logTokenError warnings g "Variable "
                                           " uses name previously used as a function"
                 else warnings)
              else (ns, warnings)
          end
        else (ns, [])
      else
        match globalIter with
        | None => (set_globalList ns (insert testToken (_globalList ns)), [])
        | Some g =>
            if haveTypeToken g then
              if notLocal then
                if has testToken Token.functtypedef then
                  if has g Token.functtypedef
                  then (ns, log testToken "Duplicate declaration of function typedef " "")
                  else (ns, log g "Type declarion "
                                " uses name previosly used as typedef for function")
                else (ns, log g "Type declaration "
                              " uses name previously used as a function")
              else (ns, [])
            else if haveVarToken g then
              (replaced,
               if has testToken Token.functtypedef
               then log g "Variable " " uses name previosly used as typedef for function"
               else log g "Variable " " uses name previously used as a function")
            else if has testToken Token.functtypedef
            then (ns, log testToken "Type declaration "
                          " uses name previously used as a function")
            else if has g Token.functcall then (replaced, [])
            else if has testToken Token.functproto then
              if has g Token.functproto then
                if narrows g
                then (replaced, log testToken "Static function "
                                    "occurs after global prototype in same file.")
                else (ns, log testToken "Duplicate prototype of " "")
              else (ns, log testToken "Prototype for " " occurs after declaration")
            else if has g Token.functproto then
              (replaced,
               if narrows g
               then log testToken "Static function "
                        "occurs after global prototype in same file."
               else [])
            else if Token.ScopeType_eqb (Token.getScope testToken) (Token.getScope g)
            then (ns, log testToken "Duplicate declaration of " "")
            else
              (if Token.ScopeType_eqb (Token.getScope g) Token.globalscope
               then replaced else ns,
               log testToken "Duplicate declaration of "
                   ", with different scope. File scope assumed.")
        end in
    (ns', (collision ++ warnings)%list).

End NameSpace.

(** ** tokenizer.h, tokenizer.cpp: the token list *)

(** What the token list asks of its [Tokenizer]: [nextToken] and [haveEOF]. *)
Class TokenSource (T : Type) := {
  Tokenizer_nextToken : T -> result (Token.t * T);
  Tokenizer_haveEOF : T -> bool }.

Module TokenList.
Section Source.
Context {T : Type} `{TokenSource T}.

(** [_lookPtr] is an index into [_holdList]; [None] is [_holdList.end()]. *)
Record t := mk {
  _file : T;
  _holdList : list Token.t;
  _lookPtr : option nat }.

(** [resetLookahead] *)
Definition resetLookahead (l : t) : t := mk (_file l) (_holdList l) None.

(** [lastLookahead] *)
Definition lastLookahead (l : t) : result Token.t :=
  match _lookPtr l with
  | None => Ok Token.noToken
  | Some i => of_option (nth_error (_holdList l) i)
  end.

(** [haveEOF] *)
Definition haveEOF (l : t) : bool :=
  Tokenizer_haveEOF (_file l)
  && match _holdList l with
     | [] => true
     | front :: _ => Token.TokenType_eqb (Token.getType front) Token.tokenEOF
     end.

(** [nextToken] *)
Definition nextToken (l : t) : result (Token.t * t) :=
  let* (temp, l) :=
    match _holdList l with
    | [] =>
        let* (temp, file) := Tokenizer_nextToken (_file l) in
        Ok (temp, mk file (_holdList l) (_lookPtr l))
    | front :: rest => Ok (front, mk (_file l) rest (_lookPtr l))
    end in
  Ok (temp, resetLookahead l).

(** [_holdList.push_back(_file.nextToken())] *)
Definition push_back_next (l : t) : result t :=
  let* (temp, file) := Tokenizer_nextToken (_file l) in
  Ok (mk file (_holdList l ++ [temp]) (_lookPtr l)).

(** [nextLookahead] *)
Definition nextLookahead (l : t) : result (Token.t * t) :=
  let* l :=
    match _lookPtr l with
    | None =>
        let* l := match _holdList l with [] => push_back_next l | _ => Ok l end in
        Ok (mk (_file l) (_holdList l) (Some O))
    | Some temp =>
        let* l :=
          if Nat.eqb (S temp) (List.length (_holdList l)) then push_back_next l else Ok l in
        Ok (mk (_file l) (_holdList l) (Some (S temp)))
    end in
  let* look := lastLookahead l in
  Ok (look, l).

End Source.
Arguments t T : clear implicits.
End TokenList.

(** ** parser.h, parser.cpp *)

Module TokenStack.

(** A [TokenStack], its back first. *)
Definition t := list Token.t.

Definition push (value : Token.t) (s : t) : t := value :: s.

Definition pop (s : t) : Token.t * t :=
  match s with
  | [] => (Token.noToken, [])
  | back :: s' => (back, s')
  end.

Definition back (s : t) : option Token.t := head s.

Definition front (s : t) : option Token.t := last s.

Definition empty (s : t) : bool := match s with [] => true | _ => false end.

(** The loop of [popTillType]. *)
Fixpoint dropTillType (wantType : Token.TokenType) (s : t) : t :=
  match s with
  | [] => []
  | back :: s' =>
      if negb (Token.TokenType_eqb (Token.getType back) wantType)
      then dropTillType wantType s'
      else s
  end.

Definition popTillType (wantType : Token.TokenType) (s : t) : Token.t * t :=
  pop (dropTillType wantType s).

Definition hasType (wantType : Token.TokenType) (s : t) : bool :=
  existsb (fun other => Token.TokenType_eqb (Token.getType other) wantType) s.

(** [back().getType() == ty] on a stack that is not empty. *)
Definition backIs (ty : Token.TokenType) (s : t) : bool :=
  match s with
  | [] => false
  | back :: _ => Token.TokenType_eqb (Token.getType back) ty
  end.

End TokenStack.

Module Parser.
Section Source.
Context {T : Type} `{TokenSource T}.

Inductive StatementType := undet | declaration | expression | constmt.

Definition StatementType_eqb (a b : StatementType) : bool :=
  match a, b with
  | undet, undet | declaration, declaration | expression, expression
  | constmt, constmt => true
  | _, _ => false
  end.

Record t := mk {
  _buffer : TokenList.t T;
  _symbolTable : NameSpace.t;
  _parseStack : TokenStack.t;
  _readNextToken : bool;
  _currToken : Token.t;
  _functToken : Token.t;
  _statementType : StatementType;
  _braceCount : Z;
  cout : list Errors.Warning }.

Definition set_buffer (p : t) (b : TokenList.t T) : t :=
  mk b (_symbolTable p) (_parseStack p) (_readNextToken p) (_currToken p)
     (_functToken p) (_statementType p) (_braceCount p) (cout p).
Definition set_symbolTable (p : t) (n : NameSpace.t) : t :=
  mk (_buffer p) n (_parseStack p) (_readNextToken p) (_currToken p)
     (_functToken p) (_statementType p) (_braceCount p) (cout p).
Definition set_parseStack (p : t) (s : TokenStack.t) : t :=
  mk (_buffer p) (_symbolTable p) s (_readNextToken p) (_currToken p)
     (_functToken p) (_statementType p) (_braceCount p) (cout p).
Definition set_readNextToken (p : t) (r : bool) : t :=
  mk (_buffer p) (_symbolTable p) (_parseStack p) r (_currToken p)
     (_functToken p) (_statementType p) (_braceCount p) (cout p).
Definition set_currToken (p : t) (tk : Token.t) : t :=
  mk (_buffer p) (_symbolTable p) (_parseStack p) (_readNextToken p) tk
     (_functToken p) (_statementType p) (_braceCount p) (cout p).
Definition set_functToken (p : t) (tk : Token.t) : t :=
  mk (_buffer p) (_symbolTable p) (_parseStack p) (_readNextToken p) (_currToken p)
     tk (_statementType p) (_braceCount p) (cout p).
Definition set_statementType (p : t) (s : StatementType) : t :=
  mk (_buffer p) (_symbolTable p) (_parseStack p) (_readNextToken p) (_currToken p)
     (_functToken p) s (_braceCount p) (cout p).
Definition set_braceCount (p : t) (n : Z) : t :=
  mk (_buffer p) (_symbolTable p) (_parseStack p) (_readNextToken p) (_currToken p)
     (_functToken p) (_statementType p) n (cout p).
Definition set_cout (p : t) (c : list Errors.Warning) : t :=
  mk (_buffer p) (_symbolTable p) (_parseStack p) (_readNextToken p) (_currToken p)
     (_functToken p) (_statementType p) (_braceCount p) c.

(** [logTokenError(cout, ...)] *)
Definition logTokenError (p : t) (token : Token.t) (leadText trailText : string) : t :=
  set_cout p (Errors.logTokenError (cout p) token leadText trailText).

(** [_symbolTable.updateNameSpace(testToken)] *)
Definition updateNameSpace (p : t) (testToken : Token.t) : t :=
  let '(table, warnings) := NameSpace.updateNameSpace (_symbolTable p) testToken in
  set_cout (set_symbolTable p table) (cout p ++ warnings).

(** [n++] and [n--] on an [int]: leaving the range is undefined. *)
Definition incr (n : Z) : result Z :=
  if (n =? 2147483647)%Z then Undefined else Ok (n + 1)%Z.
Definition decr (n : Z) : result Z :=
  if (n =? -2147483648)%Z then Undefined else Ok (n - 1)%Z.

Definition currIs (p : t) (ty : Token.TokenType) : bool :=
  Token.TokenType_eqb (Token.getType (_currToken p)) ty.

(** [_buffer.nextToken()] *)
Definition nextToken (p : t) : result (Token.t * t) :=
  let* (tk, b) := TokenList.nextToken (_buffer p) in
  Ok (tk, set_buffer p b).

(** [_buffer.nextLookahead()] *)
Definition nextLookahead (p : t) : result (Token.t * t) :=
  let* (tk, b) := TokenList.nextLookahead (_buffer p) in
  Ok (tk, set_buffer p b).

(** [_buffer.lastLookahead()] *)
Definition lastLookahead (p : t) : result Token.t :=
  TokenList.lastLookahead (_buffer p).

(** The loop of [newStatement]; every pass takes at least one token off
    the stack. *)
Fixpoint newStatement_loop (fuel : nat) (p : t) : result t :=
  if TokenStack.empty (_parseStack p) then Ok p
  else
    match fuel with
    | O => OutOfFuel
    | S fuel' =>
        let '(temp, stack) := TokenStack.popTillType Token.functcall (_parseStack p) in
        let p := set_parseStack p stack in
        let p :=
          if negb (Token.TokenType_eqb (Token.getType temp) Token.notoken)
          then logTokenError p temp "Call of function " " is incomplete"
          else p in
        newStatement_loop fuel' p
    end.

(** [newStatement] *)
Definition newStatement (p : t) : result t :=
  let* p := newStatement_loop (List.length (_parseStack p)) p in
  Ok (set_statementType p undet).

(** [while ((_buffer.nextLookahead().getType() == Token::closeparen) &&
    (count > 0)) count--;] with the lookahead of every test kept. *)
Fixpoint matchCloseParens (fuel : nat) (count : Z) (p : t) : result (Z * t) :=
  match fuel with
  | O => OutOfFuel
  | S fuel' =>
      let* (look, p) := nextLookahead p in
      if Token.TokenType_eqb (Token.getType look) Token.closeparen && (0 <? count)%Z
      then let* count := decr count in matchCloseParens fuel' count p
      else Ok (count, p)
  end.

(** The loop of [procCombType] that looks ahead to the next separator. *)
Fixpoint procCombType_look (fuel : nat) (next : Token.t) (readNext : bool)
         (braceCount parenCount : Z) (p : t)
  : result (Token.t * bool * Z * Z * t) :=
  match Token.getType next with
  | Token.closebrace | Token.semicolon | Token.functcall | Token.control
  | Token.reserved | Token.tokenEOF => Ok (next, readNext, braceCount, parenCount, p)
  | _ =>
      match fuel with
      | O => OutOfFuel
      | S fuel' =>
          let* (next, p) :=
            if readNext then nextLookahead p
            else let* next := lastLookahead p in Ok (next, p) in
          let readNext := true in
          let next :=
            if Token.TokenType_eqb (Token.getType next) Token.identifier
            then NameSpace.checkForSymbol (_symbolTable p) next else next in
          let* (next, readNext, braceCount, parenCount, p) :=
            if Token.TokenType_eqb (Token.getType next) Token.compound then
              let* (next2, p) := nextLookahead p in
              let* (next2, p) :=
                if Token.TokenType_eqb (Token.getType next2) Token.identifier
                then nextLookahead p else Ok (next2, p) in
              if Token.TokenType_eqb (Token.getType next2) Token.openbrace then
                let* braceCount := incr braceCount in
                Ok (next2, readNext, braceCount, parenCount, p)
              else Ok (Token.setType next Token.typetoken, false, braceCount, parenCount, p)
            else if Token.TokenType_eqb (Token.getType next) Token.identifier then
              let* (parenCount, p) := matchCloseParens fuel' parenCount p in
              let* look := lastLookahead p in
              let next :=
                if Token.TokenType_eqb (Token.getType look) Token.openparen
                then Token.setType next Token.functcall else next in
              Ok (next, false, braceCount, parenCount, p)
            else Ok (next, readNext, braceCount, parenCount, p) in
          let* parenCount :=
            if Token.TokenType_eqb (Token.getType next) Token.openparen
            then incr parenCount else Ok 0%Z in
          procCombType_look fuel' next readNext braceCount parenCount p
      end
  end.

(** [while ((_buffer.nextLookahead().getType() != Token::semicolon) &&
    (_buffer.lastLookahead().getType() != Token::closebrace))
    _buffer.nextToken();] *)
Fixpoint procCombType_burn (fuel : nat) (p : t) : result t :=
  match fuel with
  | O => OutOfFuel
  | S fuel' =>
      let* (look, p) := nextLookahead p in
      if negb (Token.TokenType_eqb (Token.getType look) Token.semicolon)
         && negb (Token.TokenType_eqb (Token.getType look) Token.closebrace)
      then let* (_, p) := nextToken p in procCombType_burn fuel' p
      else Ok p
  end.

(** The loop of [procCombType] over the declaration of a combined type. *)
Fixpoint procCombType_loop (fuel : nat) (next : Token.t) (readNext : bool)
         (braceCount parenCount : Z) (p : t) : result t :=
  if negb (currIs p Token.compound) then Ok p
  else
    match fuel with
    | O => OutOfFuel
    | S fuel' =>
        let* (next, readNext, braceCount, parenCount, p) :=
          procCombType_look fuel' next readNext braceCount parenCount p in
        if Token.TokenType_eqb (Token.getType next) Token.closebrace
           || Token.TokenType_eqb (Token.getType next) Token.semicolon
        then
          let* (_, p) := nextToken p in
          let* p := procCombType_burn fuel' p in
          let* (braceCount, p) :=
            if Token.TokenType_eqb (Token.getType next) Token.closebrace then
              let* braceCount := decr braceCount in
              if (braceCount <=? 0)%Z then
                let* (_, p) := nextToken p in
                Ok (braceCount, set_currToken p (Token.setType (_currToken p) Token.typetoken))
              else Ok (braceCount, p)
            else Ok (braceCount, p) in
          procCombType_loop fuel' Token.noToken readNext braceCount parenCount p
        else
          let* (tk, p) := nextToken p in
          let tk :=
            if Token.TokenType_eqb (Token.getType tk) Token.closebrace
            then Token.setType tk Token.semicolon else tk in
          procCombType_loop fuel' next readNext braceCount parenCount (set_currToken p tk)
    end.

(** [procCombType] *)
Definition procCombType (fuel : nat) (p : t) : result t :=
  let* (next, p) := nextLookahead p in
  let* (next2, p) := nextLookahead p in
  let nextIs := Token.TokenType_eqb (Token.getType next) in
  if (negb (nextIs Token.identifier) && negb (nextIs Token.openbrace))
     || (nextIs Token.identifier
         && negb (Token.TokenType_eqb (Token.getType next2) Token.openbrace))
     || StatementType_eqb (_statementType p) expression
     || StatementType_eqb (_statementType p) constmt
  then
    let* p := if nextIs Token.identifier
              then let* (_, p) := nextToken p in Ok p else Ok p in
    Ok (set_currToken p (Token.setType (_currToken p) Token.typetoken))
  else
    let '(next, readNext) :=
      if nextIs Token.identifier then (next2, true) else (next, false) in
    procCombType_loop fuel next readNext 1%Z 0%Z p.

(** [procFunctDeclaration]: the state after the call and [declToken] as
    the call leaves it. *)
Definition procFunctDeclaration (declToken nextToken : Token.t) (insideParams : bool)
           (p : t) : Token.t * t :=
  let nextIs := Token.TokenType_eqb (Token.getType nextToken) in
  let declToken :=
    if TokenStack.hasType Token.typedeftoken (_parseStack p)
       && negb (NameSpace.isKeyword (_symbolTable p) declToken)
       && (_braceCount p =? 0)%Z
    then Token.setType declToken Token.functtypedef
    else if nextIs Token.openbrace
    then Token.setType declToken Token.functdecl
    else Token.setType declToken Token.functproto in
  let declIs := Token.TokenType_eqb (Token.getType declToken) in
  let p :=
    if insideParams || (negb (declIs Token.functdecl) && negb (nextIs Token.semicolon))
    then
      if declIs Token.functtypedef
      then logTokenError p declToken "Function type definition " " is incomplete"
      else if declIs Token.functdecl
      then logTokenError p declToken "Declaration of function " " is incomplete"
      else logTokenError p declToken "Prototype of function " " is incomplete"
    else p in
  let declToken :=
    if TokenStack.hasType Token.statictoken (_parseStack p)
    then Token.setScope declToken Token.filescope
    else Token.setScope declToken Token.globalscope in
  let p :=
    if (0 <? _braceCount p)%Z then
      if declIs Token.functdecl
      then logTokenError p declToken "Declaration of function "
                         " occurs within another function"
      else logTokenError p declToken "Prototype of function "
                         " occurs within another function"
    else p in
  let p := updateNameSpace p declToken in
  let p := if declIs Token.functdecl then set_functToken p declToken else p in
  (declToken, set_parseStack p []).

(** [while ((_buffer.nextLookahead().getType() == Token::closeparen) &&
    (count > 0)) { _buffer.nextToken(); count--; body }] *)
Fixpoint burnCloseParens (fuel : nat) (body : t -> t) (count : Z) (p : t)
  : result (Z * t) :=
  match fuel with
  | O => OutOfFuel
  | S fuel' =>
      let* (look, p) := nextLookahead p in
      if Token.TokenType_eqb (Token.getType look) Token.closeparen && (0 <? count)%Z
      then
        let* (_, p) := nextToken p in
        let* count := decr count in
        burnCloseParens fuel' body count (body p)
      else Ok (count, p)
  end.

(** The local variables of [procDeclaration]. *)
Record Declaration := mkDeclaration {
  varNames : TokenStack.t;
  haveFunction : bool;
  insideParams : bool;
  parenCount : Z;
  consParenCount : Z }.

(** The loop of [procDeclaration]. *)
Fixpoint procDeclaration_loop (fuel : nat) (d : Declaration) (p : t)
  : result (Declaration * t) :=
  if negb (StatementType_eqb (_statementType p) declaration) then Ok (d, p)
  else
    match fuel with
    | O => OutOfFuel
    | S fuel' =>
        let* (tk, p) := nextToken p in
        let p := set_currToken p tk in
        let p :=
          if currIs p Token.identifier
          then set_currToken p (NameSpace.checkForSymbol (_symbolTable p) (_currToken p))
          else p in
        let* p := if currIs p Token.compound then procCombType fuel' p else Ok p in
        let* (d, p) :=
          match Token.getType (_currToken p) with
          | Token.identifier =>
              let* (count, p) :=
                burnCloseParens fuel' (fun p => p) (consParenCount d) p in
              let d := mkDeclaration (varNames d) (haveFunction d) (insideParams d)
                                     (parenCount d) count in
              let* look := lastLookahead p in
              if Token.TokenType_eqb (Token.getType look) Token.openparen
              then Ok (d, set_statementType p expression)
              else
                let tk := Token.setType (_currToken p) Token.varname in
                let tk :=
                  if haveFunction d || (0 <? _braceCount p)%Z
                  then Token.setScope tk Token.localscope
                  else Token.setScope tk Token.filescope in
                let p := set_currToken p tk in
                let d := mkDeclaration (TokenStack.push tk (varNames d)) (haveFunction d)
                                       (insideParams d) (parenCount d) (consParenCount d) in
                let* p :=
                  if haveFunction d && negb (insideParams d)
                     && Token.TokenType_eqb (Token.getType look) Token.semicolon
                  then let* (_, p) := nextToken p in Ok p
                  else Ok p in
                Ok (d, p)
          | Token.openparen =>
              let* n := incr (parenCount d) in
              Ok (mkDeclaration (varNames d) (haveFunction d) (insideParams d) n
                                (consParenCount d), p)
          | Token.closeparen =>
              let* n := decr (parenCount d) in
              let inside := if insideParams d && (n <=? 0)%Z then false else insideParams d in
              Ok (mkDeclaration (varNames d) (haveFunction d) inside n (consParenCount d), p)
          | Token.typedeftoken | Token.statictoken =>
              if negb (insideParams d)
              then Ok (d, set_parseStack p (TokenStack.push (_currToken p) (_parseStack p)))
              else Ok (d, p)
          | Token.ampersand | Token.othersymbol =>
              if haveFunction d then Ok (d, set_statementType p undet)
              else Ok (d, set_statementType p expression)
          | Token.typetoken | Token.declsymbol => Ok (d, p)
          | Token.fieldaccess =>
              if negb (insideParams d)
                 || negb (String.eqb (Token.getLexeme (_currToken p)) ".")
              then Ok (d, set_statementType p undet)
              else Ok (d, p)
          | _ => Ok (d, set_statementType p undet)
          end in
        let* count :=
          if currIs p Token.openparen then incr (consParenCount d) else Ok 0%Z in
        procDeclaration_loop
          fuel' (mkDeclaration (varNames d) (haveFunction d) (insideParams d)
                               (parenCount d) count) p
    end.

(** [while (!varNames.empty()) _symbolTable.updateNameSpace(varNames.pop());] *)
Fixpoint updateVarNames (varNames : TokenStack.t) (p : t) : t :=
  match varNames with
  | [] => p
  | back :: varNames' => updateVarNames varNames' (updateNameSpace p back)
  end.

(** [procDeclaration] *)
Definition procDeclaration (fuel : nat) (p : t) : result t :=
  let declToken := _currToken p in
  let* look := lastLookahead p in
  let* (d, p) :=
    if Token.TokenType_eqb (Token.getType look) Token.openparen
    then let* (_, p) := nextToken p in Ok (mkDeclaration [] true true 1%Z 0%Z, p)
    else Ok (mkDeclaration [] false false 0%Z 0%Z, p) in
  let* (d, p) := procDeclaration_loop fuel d p in
  let '(declToken, p) :=
    if haveFunction d
    then procFunctDeclaration declToken (_currToken p) (insideParams d) p
    else
      let declToken :=
        if TokenStack.hasType Token.typedeftoken (_parseStack p)
        then Token.setType declToken Token.typetoken
        else Token.setType declToken Token.varname in
      let declToken :=
        if (0 <? _braceCount p)%Z
        then Token.setScope declToken Token.localscope
        else Token.setScope declToken Token.filescope in
      (declToken, updateNameSpace p declToken) in
  let p :=
    if Token.TokenType_eqb (Token.getType declToken) Token.varname
       || Token.TokenType_eqb (Token.getType declToken) Token.functdecl
    then updateVarNames (varNames d) p
    else p in
  Ok (set_readNextToken p false).

(** [while (_buffer.nextLookahead().getType() == Token::openparen)
    conParenCount++;] *)
Fixpoint countOpenParens (fuel : nat) (conParenCount : Z) (p : t) : result (Z * t) :=
  match fuel with
  | O => OutOfFuel
  | S fuel' =>
      let* (look, p) := nextLookahead p in
      if Token.TokenType_eqb (Token.getType look) Token.openparen
      then let* n := incr conParenCount in countOpenParens fuel' n p
      else Ok (conParenCount, p)
  end.

(** [while (_currToken.getType() == Token::openparen) { conParenCount++;
    _currToken = _buffer.nextToken(); }] *)
Fixpoint burnOpenParens (fuel : nat) (conParenCount : Z) (p : t) : result (Z * t) :=
  if negb (currIs p Token.openparen) then Ok (conParenCount, p)
  else
    match fuel with
    | O => OutOfFuel
    | S fuel' =>
        let* n := incr conParenCount in
        let* (tk, p) := nextToken p in
        burnOpenParens fuel' n (set_currToken p tk)
    end.

(** [while (conParenCount > 0) _buffer.nextToken();] *)
Fixpoint burnWhilePositive (fuel : nat) (conParenCount : Z) (p : t) : result t :=
  if negb (0 <? conParenCount)%Z then Ok p
  else
    match fuel with
    | O => OutOfFuel
    | S fuel' =>
        let* (_, p) := nextToken p in
        burnWhilePositive fuel' conParenCount p
    end.

(** The token [Token('(', position, Token::openparen)]. *)
Definition openParenAt (position : FilePosition.t) : Token.t :=
  Token.make "(" position Token.openparen.

(** The start of a pass of the loop of [findNextFunction]: the token to
    parse is fetched, looked up, and a combined type is processed. *)
Definition fetch (fuel : nat) (p : t) : result t :=
  let* p :=
    if _readNextToken p
    then let* (tk, p) := nextToken p in Ok (set_currToken p tk)
    else
      let p := set_readNextToken p true in
      Ok (set_buffer p (TokenList.resetLookahead (_buffer p))) in
  let p :=
    if currIs p Token.identifier
    then set_currToken p (NameSpace.checkForSymbol (_symbolTable p) (_currToken p))
    else p in
  if currIs p Token.compound then procCombType fuel p else Ok p.

(** The [switch] of [findNextFunction] on the type of [_currToken]. *)
Definition dispatch (fuel : nat) (conParenCount : Z) (p : t) : result (Z * t) :=
  let stack := _parseStack p in
  match Token.getType (_currToken p) with
  | Token.ampersand =>
      if TokenStack.empty stack || TokenStack.backIs Token.openparen stack
      then Ok (conParenCount, set_parseStack p (TokenStack.push (_currToken p) stack))
      else Ok (conParenCount, p)
  | Token.fieldaccess =>
      if StatementType_eqb (_statementType p) expression then
        let stack :=
          if negb (TokenStack.empty stack) && TokenStack.backIs Token.ampersand stack
          then snd (TokenStack.pop stack) else stack in
        Ok (conParenCount, set_parseStack p (TokenStack.push (_currToken p) stack))
      else Ok (conParenCount, p)
  | Token.semicolon =>
      let* tempToken :=
        if StatementType_eqb (_statementType p) constmt
        then of_option (TokenStack.front stack)
        else Ok Token.noToken in
      let* p := newStatement p in
      if Token.TokenType_eqb (Token.getType tempToken) Token.control
         && negb (Token.ModType_eqb (Token.getModifier tempToken) Token.onearg)
      then
        let p := set_statementType p constmt in
        let tempToken :=
          if Token.ModType_eqb (Token.getModifier tempToken) Token.twoarg
          then Token.setModifier tempToken Token.onearg
          else Token.setModifier tempToken Token.twoarg in
        let stack := TokenStack.push tempToken (_parseStack p) in
        let stack := TokenStack.push (openParenAt (Token.getFilePosition tempToken)) stack in
        Ok (conParenCount, set_parseStack p stack)
      else Ok (conParenCount, p)
  | Token.openbrace =>
      let* n := incr (_braceCount p) in
      let* p := newStatement (set_braceCount p n) in
      Ok (conParenCount, p)
  | Token.closebrace =>
      let p :=
        if (_braceCount p =? 1)%Z
        then set_symbolTable p (NameSpace.clearLocalNames (_symbolTable p))
        else p in
      let p :=
        if (0 <? _braceCount p)%Z then set_braceCount p (_braceCount p - 1)%Z else p in
      let* p := newStatement p in
      Ok (conParenCount, p)
  | Token.openparen =>
      let p :=
        if StatementType_eqb (_statementType p) undet && TokenStack.empty stack
        then set_statementType p expression else p in
      let p :=
        if negb (StatementType_eqb (_statementType p) declaration)
        then set_parseStack p (TokenStack.push (_currToken p) (_parseStack p))
        else p in
      let* n := incr conParenCount in
      Ok (n, p)
  | Token.closeparen =>
      if negb (StatementType_eqb (_statementType p) declaration) then
        let stack := snd (TokenStack.popTillType Token.openparen stack) in
        let stack :=
          if negb (TokenStack.empty stack) && TokenStack.backIs Token.functcall stack
          then snd (TokenStack.pop stack) else stack in
        let '(p, stack) :=
          if negb (TokenStack.empty stack) && TokenStack.backIs Token.control stack
          then (set_statementType p undet, snd (TokenStack.pop stack))
          else (p, stack) in
        let stack :=
          if negb (TokenStack.empty stack)
             && (TokenStack.backIs Token.ampersand stack
                 || TokenStack.backIs Token.functcall stack)
          then snd (TokenStack.pop stack) else stack in
        Ok (conParenCount, set_parseStack p stack)
      else Ok (conParenCount, p)
  | Token.declsymbol | Token.othersymbol => Ok (conParenCount, p)
  | Token.literal =>
      if StatementType_eqb (_statementType p) undet
      then Ok (conParenCount, set_statementType p expression)
      else Ok (conParenCount, p)
  | Token.identifier =>
      let inDeclaration := StatementType_eqb (_statementType p) declaration in
      let* (conParenCount, p) :=
        burnCloseParens
          fuel
          (fun p => if negb inDeclaration
                    then set_parseStack p (snd (TokenStack.pop (_parseStack p)))
                    else p)
          conParenCount p in
      if inDeclaration then
        let* p := procDeclaration fuel p in
        Ok (conParenCount, p)
      else
        let* look := lastLookahead p in
        let stack := _parseStack p in
        let p :=
          if Token.TokenType_eqb (Token.getType look) Token.openparen then
            let p := set_currToken p (Token.setType (_currToken p) Token.functcall) in
            let p :=
              if negb (TokenStack.empty stack) && TokenStack.backIs Token.ampersand stack
              then set_currToken p (Token.setModifier (_currToken p) Token.funcref)
              else p in
            if negb (TokenStack.empty stack) && TokenStack.backIs Token.fieldaccess stack
            then logTokenError p (_currToken p) "Function call "
                               " is an element of a structured type"
            else p
          else
            let tk := Token.setType (_currToken p) Token.varname in
            set_currToken p (if (0 <? _braceCount p)%Z
                             then Token.setScope tk Token.localscope
                             else Token.setScope tk Token.filescope) in
        let p := updateNameSpace p (_currToken p) in
        let p :=
          if negb (TokenStack.empty stack)
             && (TokenStack.backIs Token.fieldaccess stack
                 || TokenStack.backIs Token.ampersand stack)
          then set_parseStack p (snd (TokenStack.pop stack)) else p in
        let p :=
          if StatementType_eqb (_statementType p) undet
          then set_statementType p expression else p in
        if currIs p Token.functcall then
          let p := set_parseStack p (TokenStack.push (_currToken p) (_parseStack p)) in
          let* (tk, p) := nextToken p in
          let p := set_parseStack p (TokenStack.push tk (_parseStack p)) in
          Ok (conParenCount, set_functToken p (_currToken p))
        else Ok (conParenCount, p)
  | Token.typedeftoken | Token.statictoken =>
      let p :=
        if StatementType_eqb (_statementType p) undet
        then set_statementType p declaration else p in
      if StatementType_eqb (_statementType p) declaration
      then Ok (conParenCount, set_parseStack p (TokenStack.push (_currToken p) (_parseStack p)))
      else Ok (conParenCount, p)
  | Token.typetoken =>
      if StatementType_eqb (_statementType p) undet
      then Ok (conParenCount, set_statementType p declaration)
      else Ok (conParenCount, p)
  | Token.functtypedef =>
      let* (conParenCount, p) := countOpenParens fuel 0%Z p in
      let* tempToken := lastLookahead p in
      let tempToken :=
        if Token.TokenType_eqb (Token.getType tempToken) Token.identifier
        then NameSpace.checkForSymbol (_symbolTable p) tempToken else tempToken in
      if Token.TokenType_eqb (Token.getType tempToken) Token.identifier then
        let* (conParenCount, p) := matchCloseParens fuel conParenCount p in
        if (conParenCount <=? 0)%Z then
          let* (tk, p) := nextToken p in
          let* (conParenCount, p) := burnOpenParens fuel 0%Z (set_currToken p tk) in
          let* p := burnWhilePositive fuel conParenCount p in
          let* (look, p) := nextLookahead p in
          let '(declToken, p) := procFunctDeclaration (_currToken p) look false p in
          Ok (conParenCount, set_currToken p declToken)
        else Ok (conParenCount, p)
      else Ok (conParenCount, p)
  | Token.control =>
      let* p := newStatement p in
      let p := set_statementType p constmt in
      let p := set_parseStack p (TokenStack.push (_currToken p) (_parseStack p)) in
      let* (look, p) := nextLookahead p in
      if negb (Token.TokenType_eqb (Token.getType look) Token.openparen)
      then Ok (conParenCount,
               set_parseStack
                 p (TokenStack.push (openParenAt (Token.getFilePosition (_currToken p)))
                                    (_parseStack p)))
      else Ok (conParenCount, p)
  | Token.reserved =>
      let* p := newStatement p in
      Ok (conParenCount, p)
  | _ => Ok (conParenCount, p)
  end.

(** One pass of the loop of [findNextFunction]. *)
Definition pass (fuel : nat) (conParenCount : Z) (p : t) : result (Z * t) :=
  let* p := fetch fuel p in
  let* (conParenCount, p) := dispatch fuel conParenCount p in
  let* p := if TokenList.haveEOF (_buffer p) then newStatement p else Ok p in
  let conParenCount := if negb (currIs p Token.openparen) then 0%Z else conParenCount in
  Ok (conParenCount, p).

(** The loop of [findNextFunction]. *)
Fixpoint findNextFunction_loop (fuel : nat) (conParenCount : Z) (p : t) : result t :=
  if Token.TokenType_eqb (Token.getType (_functToken p)) Token.notoken
     && negb (TokenList.haveEOF (_buffer p))
  then
    match fuel with
    | O => OutOfFuel
    | S fuel' =>
        let* (conParenCount, p) := pass fuel' conParenCount p in
        findNextFunction_loop fuel' conParenCount p
    end
  else Ok p.

(** [findNextFunction] *)
Definition findNextFunction (fuel : nat) (p : t) : result t :=
  findNextFunction_loop fuel 0%Z (set_functToken p Token.noToken).

(** [nextFunction] *)
Definition nextFunction (fuel : nat) (p : t) : result (Token.t * t) :=
  let result := _functToken p in
  let* p := findNextFunction fuel p in
  Ok (result, p).

(** [haveEOF] *)
Definition haveEOF (p : t) : bool :=
  TokenList.haveEOF (_buffer p)
  && Token.TokenType_eqb (Token.getType (_functToken p)) Token.notoken.

End Source.
Arguments t T : clear implicits.
End Parser.

(** ** functfinder.h, functfinder.cpp *)

Module FunctHold.

(** [HoldMap], a [multimap<Token, string>]: the entries in iteration order,
    that is by lexeme, entries with the same lexeme in the order they were
    inserted. *)
Abbreviation HoldMap := (list (Token.t * string)).

Record t := mk {
  _holdData : HoldMap;
  _releaseData : list FunctionData.t }.

(** [multimap::insert]: after the last entry whose key is not greater. *)
Fixpoint insert (entry : Token.t * string) (m : HoldMap) : HoldMap :=
  match m with
  | [] => [entry]
  | e :: m' =>
      if Token.ltb (fst entry) (fst e) then entry :: m
      else e :: insert entry m'
  end.

(** [multimap::equal_range], as the three parts of the map: the entries
    before the range ([lower_bound]), the range, the entries after it
    ([upper_bound]). *)
Fixpoint span {A : Type} (p : A -> bool) (l : list A) : list A * list A :=
  match l with
  | [] => ([], [])
  | x :: l' =>
      if p x then let '(a, b) := span p l' in (x :: a, b)
      else ([], l)
  end.

Definition equal_range (m : HoldMap) (key : Token.t)
  : HoldMap * HoldMap * HoldMap :=
  let '(before, rest) := span (fun e => Token.ltb (fst e) key) m in
  let '(range, after) := span (fun e => negb (Token.ltb key (fst e))) rest in
  (before, range, after).

(** The record [moveHoldToCache] makes of one entry. *)
Definition released (wantScope : Token.ScopeType) (entry : Token.t * string)
  : FunctionData.t :=
  let temp := Token.setScope (fst entry) wantScope in
  FunctionData.make temp (snd entry).

(** [moveHoldToCache] on the range [range] of the map
    [before ++ range ++ after]. *)
Definition moveHoldToCache (before range after : HoldMap)
           (wantScope : Token.ScopeType) (h : t) : t :=
  match range with
  | [] => h
  | _ => mk (before ++ after) (_releaseData h ++ map (released wantScope) range)
  end.

(** [reset] *)
Definition reset : t := mk [] [].

(** [vector::back] with [pop_back]. *)
Fixpoint pop_back {A : Type} (l : list A) : option (A * list A) :=
  match l with
  | [] => None
  | [x] => Some (x, [])
  | x :: l' =>
      match pop_back l' with
      | Some (y, r) => Some (y, x :: r)
      | None => None
      end
  end.

(** [nextRelease] *)
Definition nextRelease (h : t) : result (FunctionData.t * t) :=
  let* (newData, rest) := of_option (pop_back (_releaseData h)) in
  Ok (newData, mk (_holdData h) rest).

(** [doingRelease] *)
Definition doingRelease (h : t) : bool :=
  negb (bool_decide (_releaseData h = [])).

(** [empty] *)
Definition empty (h : t) : bool :=
  bool_decide (_holdData h = []) && negb (doingRelease h).

(** [releaseHold] *)
Definition releaseHold (declToken : Token.t) (h : t) : t :=
  if Token.TokenType_eqb (Token.getType declToken) Token.functdecl then
    let '(before, range, after) := equal_range (_holdData h) declToken in
    moveHoldToCache before range after (Token.getScope declToken) h
  else h.

(** [holdIfNeeded] *)
Definition holdIfNeeded (testToken : Token.t) (callFunct : string) (h : t)
  : result (bool * t) :=
  if negb (Token.TokenType_eqb (Token.getType testToken) Token.functcall)
     || negb (Token.ScopeType_eqb (Token.getScope testToken) Token.noscope)
  then Ok (false, h)
  else if doingRelease h then Thrown DouFuncRelException
  else Ok (true, mk (insert (testToken, callFunct) (_holdData h)) (_releaseData h)).

(** [procEOF] *)
Definition procEOF (h : t) : result (FunctionData.t * t) :=
  let h :=
    if negb (bool_decide (_holdData h = []))
    then moveHoldToCache [] (_holdData h) [] Token.globalscope h
    else h in
  if empty h
  then Ok (FunctionData.make
             (Token.make "" (FilePosition.mk "" 0) Token.notoken) "NONE", h)
  else nextRelease h.

End FunctHold.

Module FunctFinder.

Section Driver.

(** The recognizer, as the driver sees it: [Parser::haveEOF] and
    [Parser::nextFunction]. *)
Variable Parser : Type.
Variable Parser_haveEOF : Parser -> bool.
Variable Parser_nextFunction : Parser -> result (Token.t * Parser).

Record t := mk {
  _functBuffer : Parser;
  _currFunction : string;
  _functCallsNoScope : FunctHold.t }.

(** [reset] *)
Definition reset (f : t) : t := mk (_functBuffer f) "NONE" FunctHold.reset.

(** [haveEOF] *)
Definition haveEOF (f : t) : bool :=
  Parser_haveEOF (_functBuffer f) && FunctHold.empty (_functCallsNoScope f).

(** The loop of [nextFunction],
    [while ((!haveFunct) && (!_functBuffer.haveEOF()))]. *)
Fixpoint nextFunction_loop (fuel : nat) (haveFunct : bool) (functToken : Token.t)
         (f : t) : result (bool * Token.t * t) :=
  if negb haveFunct && negb (Parser_haveEOF (_functBuffer f)) then
    match fuel with
    | O => OutOfFuel
    | S fuel' =>
        let* (functToken, functBuffer) := Parser_nextFunction (_functBuffer f) in
        let f := mk functBuffer (_currFunction f) (_functCallsNoScope f) in
        if Token.TokenType_eqb (Token.getType functToken) Token.functdecl then
          let f := mk (_functBuffer f) (Token.getLexeme functToken)
                      (FunctHold.releaseHold functToken (_functCallsNoScope f)) in
          nextFunction_loop fuel' true functToken f
        else
          let* (held, hold) :=
            FunctHold.holdIfNeeded functToken (_currFunction f)
                                   (_functCallsNoScope f) in
          let f := mk (_functBuffer f) (_currFunction f) hold in
          nextFunction_loop fuel' (negb held) functToken f
    end
  else Ok (haveFunct, functToken, f).

(** [nextFunction] *)
Definition nextFunction (fuel : nat) (f : t) : result (FunctionData.t * t) :=
  if FunctHold.doingRelease (_functCallsNoScope f) then
    let* (data, hold) := FunctHold.nextRelease (_functCallsNoScope f) in
    Ok (data, mk (_functBuffer f) (_currFunction f) hold)
  else
    let* (haveFunct, functToken, f) := nextFunction_loop fuel false Token.noToken f in
    if haveFunct then Ok (FunctionData.make functToken (_currFunction f), f)
    else
      let* (data, hold) := FunctHold.procEOF (_functCallsNoScope f) in
      Ok (data, mk (_functBuffer f) (_currFunction f) hold).

End Driver.

End FunctFinder.

(** * Properties *)

(** ** Facts about strings and the searches on them *)

Section Strings.

Import StdString.

Lemma append_String (c : ascii) (s t : string) : String c s ++ t = String c (s ++ t).
Proof. reflexivity. Qed.

Lemma append_Empty (t : string) : EmptyString ++ t = t.
Proof. reflexivity. Qed.

Lemma string_snoc_ind (P : string -> Prop) :
  P EmptyString -> (forall s c, P s -> P (s ++ String c EmptyString)) -> forall s, P s.
Proof.
  intros H0 Hs s.
  rewrite <- (string_of_list_ascii_of_string s).
  induction (list_ascii_of_string s) as [|c l IH] using rev_ind; [exact H0|].
  replace (string_of_list_ascii (l ++ [c])%list)
    with (string_of_list_ascii l ++ String c EmptyString).
  - apply Hs, IH.
  - clear. induction l as [|d l IH]; simpl; [reflexivity|].
    rewrite append_String. f_equal. exact IH.
Qed.

Lemma length_append (s t : string) :
  String.length (s ++ t) = (String.length s + String.length t)%nat.
Proof.
  induction s as [|c s IH]; [reflexivity|].
  rewrite append_String. simpl. rewrite IH. reflexivity.
Qed.

Lemma size_append (s t : string) : size (s ++ t) = size s + size t.
Proof. unfold size. rewrite length_append. lia. Qed.

Lemma size_String (c : ascii) (s : string) : size (String c s) = N.succ (size s).
Proof. unfold size. simpl. lia. Qed.

Lemma append_assoc (s t u : string) : (s ++ t) ++ u = s ++ (t ++ u).
Proof.
  induction s as [|c s IH]; [reflexivity|].
  rewrite !append_String, IH. reflexivity.
Qed.

Lemma append_nil_r (s : string) : s ++ EmptyString = s.
Proof.
  induction s as [|c s IH]; [reflexivity|].
  rewrite append_String, IH. reflexivity.
Qed.

Lemma list_ascii_of_string_append (s t : string) :
  list_ascii_of_string (s ++ t)
  = (list_ascii_of_string s ++ list_ascii_of_string t)%list.
Proof.
  induction s as [|c s IH]; [reflexivity|].
  rewrite append_String. simpl. rewrite IH. reflexivity.
Qed.

(** [at_] through an append. *)
Lemma at_app_l (s t : string) (i : N) : i < size s -> at_ (s ++ t) i = at_ s i.
Proof.
  unfold at_. intros H. rewrite size_append.
  destruct (N.ltb_spec i (size s)); [|lia].
  destruct (N.ltb_spec i (size s + size t)); [|lia].
  symmetry. apply append_correct1. unfold size in H. lia.
Qed.

Lemma at_app_r (s t : string) (i : N) : at_ (s ++ t) (size s + i) = at_ t i.
Proof.
  unfold at_. rewrite size_append.
  replace (N.to_nat (size s + i)) with (N.to_nat i + String.length s)%nat
    by (unfold size; lia).
  rewrite <- append_correct2.
  destruct (N.ltb_spec i (size t)), (N.ltb_spec (size s + i) (size s + size t));
    try reflexivity; lia.
Qed.

Lemma at_String_0 (c : ascii) (s : string) : at_ (String c s) 0 = Some c.
Proof. unfold at_. rewrite size_String. destruct (N.ltb_spec 0 (N.succ (size s))); [reflexivity|lia]. Qed.

Lemma at_app_here (s t : string) (c : ascii) :
  at_ (s ++ String c t) (size s) = Some c.
Proof.
  pose proof (at_app_r s (String c t) 0) as H. rewrite N.add_0_r in H.
  rewrite H. apply at_String_0.
Qed.

(** The backward search through an append, and over text that cannot match. *)
Lemma find_last_app (p : ascii -> bool) (s t : string) (i pos acc : N) :
  find_last_if_from p (s ++ t) i pos acc
  = find_last_if_from p t (i + size s) pos (find_last_if_from p s i pos acc).
Proof.
  revert i acc. induction s as [|c s IH]; intros i acc.
  - rewrite append_Empty. simpl. rewrite N.add_0_r. reflexivity.
  - rewrite append_String. simpl. rewrite IH. rewrite size_String. f_equal. lia.
Qed.

Lemma find_last_beyond (p : ascii -> bool) (s : string) (i pos acc : N) :
  pos < i -> find_last_if_from p s i pos acc = acc.
Proof.
  revert i acc. induction s as [|c s IH]; intros i acc H; simpl; [reflexivity|].
  destruct (N.leb_spec i pos); [lia|]. simpl. apply IH. lia.
Qed.

Lemma find_last_none (p : ascii -> bool) (s : string) (i pos acc : N) :
  Forall (fun c => p c = false) (list_ascii_of_string s) ->
  find_last_if_from p s i pos acc = acc.
Proof.
  revert i acc. induction s as [|c s IH]; intros i acc H; simpl; [reflexivity|].
  simpl in H. apply Forall_cons_1 in H as [Hc Hs]. rewrite Hc, andb_false_r.
  apply IH. exact Hs.
Qed.

End Strings.

(** ** Escaped newlines *)

Section EscapedNewline.

Import StdString.

Fixpoint take_while {A : Type} (p : A -> bool) (l : list A) : list A :=
  match l with
  | [] => []
  | x :: l' => if p x then x :: take_while p l' else []
  end.

Fixpoint drop_while {A : Type} (p : A -> bool) (l : list A) : list A :=
  match l with
  | [] => []
  | x :: l' => if p x then drop_while p l' else l
  end.

Definition is_blank (c : ascii) : bool := mem c FileBuffer.blanks.

Definition is_backslash (c : ascii) : bool := Ascii.eqb c backslash.

(** The characters of a line from its end backwards. *)
Definition backwards (buffer : string) : list ascii := rev (list_ascii_of_string buffer).

(** The number of spaces and tabs that end the line, and the number of
    consecutive backslashes that end what is before them. *)
Definition trailing_blanks (buffer : string) : nat :=
  List.length (take_while is_blank (backwards buffer)).

Definition trailing_backslashes (buffer : string) : nat :=
  List.length (take_while is_backslash (drop_while is_blank (backwards buffer))).

Lemma backwards_snoc (s : string) (c : ascii) :
  backwards (s ++ String c EmptyString) = c :: backwards s.
Proof.
  unfold backwards. rewrite list_ascii_of_string_append. simpl.
  rewrite rev_app_distr. reflexivity.
Qed.

Lemma N_of_nat_odd (k : nat) : (N.of_nat k mod 2 =? 1) = Nat.odd k.
Proof.
  induction k as [k IH] using lt_wf_ind.
  destruct k as [|[|k]]; [reflexivity | reflexivity |].
  replace (N.of_nat (S (S k))) with (N.of_nat k + 1 * 2) by lia.
  rewrite N.Div0.mod_add. rewrite IH by lia. reflexivity.
Qed.

Lemma find_last_snoc (p : ascii -> bool) (s : string) (c : ascii) (pos acc : N) :
  find_last_if_from p (s ++ String c EmptyString) 0 pos acc
  = if (size s <=? pos) && p c then size s else find_last_if_from p s 0 pos acc.
Proof. rewrite find_last_app. reflexivity. Qed.

Lemma find_last_range (p : ascii -> bool) (s : string) (pos acc : N) :
  find_last_if_from p s 0 pos acc = acc \/ find_last_if_from p s 0 pos acc < size s.
Proof.
  induction s as [|s c IH] using string_snoc_ind; [left; reflexivity|].
  rewrite find_last_snoc, size_append.
  destruct ((size s <=? pos) && p c).
  - right. unfold size at 3. simpl. lia.
  - destruct IH as [IH | IH]; [left; exact IH | right; lia].
Qed.

(** The search of [getEscNewline] for the last character before the
    backslashes that end [s]. *)
Lemma last_not_backslash (s : string) (pos : N) :
  size s <= pos + 1 ->
  let found := find_last_if_from (fun c => negb (mem c (String backslash EmptyString)))
                                 s 0 pos npos in
  let k := List.length (take_while is_backslash (backwards s)) in
  (k = String.length s /\ found = npos)
  \/ ((k < String.length s)%nat /\ found = size s - 1 - N.of_nat k).
Proof.
  set (p := fun c => negb (mem c (String backslash EmptyString))).
  assert (Hp : forall c, p c = negb (is_backslash c)).
  { intros c. unfold p, is_backslash. simpl. rewrite orb_false_r. reflexivity. }
  induction s as [|s c IH] using string_snoc_ind; intros Hpos; [left; split; reflexivity|].
  rewrite size_append in Hpos. change (size (String c EmptyString)) with 1 in Hpos.
  assert (Hs : size s <= pos + 1) by lia.
  specialize (IH Hs). cbv zeta in IH.
  cbv zeta. rewrite find_last_snoc, backwards_snoc, length_append, size_append, Hp.
  change (size (String c EmptyString)) with 1.
  change (String.length (String c EmptyString)) with 1%nat.
  destruct (N.leb_spec (size s) pos); [|lia].
  cbn [take_while andb]. destruct (is_backslash c); cbn [negb List.length].
  - destruct IH as [[Hk Hf] | [Hk Hf]].
    + left. split; [lia|exact Hf].
    + right. split; [lia|]. rewrite Hf. unfold size. lia.
  - right. split; [lia|]. unfold size. lia.
Qed.

Lemma getEscNewline_snoc_blank (s : string) (c : ascii) (multiLineQuote : bool) :
  is_blank c = true ->
  FileBuffer.getEscNewline (s ++ String c EmptyString) multiLineQuote
  = FileBuffer.getEscNewline s multiLineQuote.
Proof.
  intros Hc. unfold FileBuffer.getEscNewline, find_last_not_of.
  rewrite find_last_snoc. fold (is_blank c). rewrite Hc, andb_false_r.
  set (index := find_last_if_from _ s 0 npos npos).
  destruct (N.eqb_spec index npos) as [E|NE]; simpl; [reflexivity|].
  assert (Hlt : index < size s).
  { destruct (find_last_range (fun c => negb (mem c FileBuffer.blanks)) s npos npos)
      as [H|H]; [contradiction | exact H]. }
  unfold FileBuffer.char_is. rewrite at_app_l by exact Hlt.
  rewrite find_last_snoc.
  destruct (N.leb_spec (size s) index); [lia|]. reflexivity.
Qed.

Lemma getEscNewline_quote (buffer : string) :
  size buffer < npos ->
  FileBuffer.getEscNewline buffer true
  = if Nat.odd (trailing_backslashes buffer)
    then size buffer - 1 - N.of_nat (trailing_blanks buffer)
    else npos.
Proof.
  induction buffer as [|s c IH] using string_snoc_ind; intros Hsize; [reflexivity|].
  rewrite size_append in Hsize |- *. change (size (String c EmptyString)) with 1 in *.
  unfold trailing_backslashes, trailing_blanks. rewrite backwards_snoc.
  cbn [take_while drop_while].
  destruct (is_blank c) eqn:Hc.
  - rewrite getEscNewline_snoc_blank by exact Hc.
    rewrite IH by lia. unfold trailing_backslashes, trailing_blanks.
    destruct (Nat.odd _); [|reflexivity]. cbn [List.length]. lia.
  - clear IH. cbn [List.length take_while].
    unfold FileBuffer.getEscNewline, find_last_not_of.
    rewrite find_last_snoc. fold (is_blank c). rewrite Hc.
    destruct (N.leb_spec (size s) npos); [|lia]. cbn [andb negb].
    destruct (N.eqb_spec (size s) npos); [lia|]. cbn [negb].
    unfold FileBuffer.char_is. rewrite at_app_here.
    change (Ascii.eqb c backslash) with (is_backslash c).
    destruct (is_backslash c) eqn:Hb; [|reflexivity].
    cbn [negb List.length]. rewrite find_last_snoc.
    replace (negb (mem c (String backslash EmptyString))) with false
      by (simpl; unfold is_backslash in Hb; rewrite Hb; reflexivity).
    rewrite andb_false_r.
    destruct (last_not_backslash s (size s)) as [[Hk Hf] | [Hk Hf]]; [lia| |].
    + rewrite Hf. cbn [N.eqb npos Pos.eqb].
      replace (size s + 1) with (N.of_nat (S (List.length (take_while is_backslash (backwards s)))))
        by (unfold size; lia).
      rewrite N_of_nat_odd.
      match goal with |- context [Nat.odd ?k] => destruct (Nat.odd k) end;
        [unfold size in *; lia|reflexivity].
    + rewrite Hf.
      destruct (N.eqb_spec (size s - 1 - N.of_nat (List.length (take_while is_backslash (backwards s)))) npos);
        [lia|].
      replace (size s - (size s - 1 - N.of_nat (List.length (take_while is_backslash (backwards s)))))
        with (N.of_nat (S (List.length (take_while is_backslash (backwards s)))))
        by (unfold size in *; lia).
      rewrite N_of_nat_odd. destruct (Nat.odd _); [unfold size in *; lia|reflexivity].
Qed.

End EscapedNewline.

(** C6.  In a string literal ([multiLineQuote] true) [getEscNewline]
    reports a continuation exactly when the number of consecutive
    backslashes that end the line, spaces and tabs after them ignored, is
    odd, and then returns the position of the last of them; when the number
    is even (the backslashes are literal ones, or there is none) it reports
    no continuation. *)
Theorem getEscNewline_in_quote (buffer : string) :
  StdString.size buffer < StdString.npos ->
  FileBuffer.hasEscNewline buffer true = Nat.odd (trailing_backslashes buffer)
  /\ (Nat.odd (trailing_backslashes buffer) = true ->
      FileBuffer.getEscNewline buffer true
      = StdString.size buffer - 1 - N.of_nat (trailing_blanks buffer))
  /\ (Nat.odd (trailing_backslashes buffer) = false ->
      FileBuffer.getEscNewline buffer true = StdString.npos).
Proof.
  intros Hsize. pose proof (getEscNewline_quote buffer Hsize) as H.
  unfold FileBuffer.hasEscNewline. rewrite H.
  destruct (Nat.odd (trailing_backslashes buffer)).
  - split; [|split; [reflexivity|discriminate]].
    destruct (N.eqb_spec (StdString.size buffer - 1 - N.of_nat (trailing_blanks buffer))
                         StdString.npos); [lia|reflexivity].
  - split; [reflexivity|]. split; [discriminate|reflexivity].
Qed.

(** Three backslashes and two spaces after [abc ]: a continuation at
    position 6; with two backslashes, none. *)
Lemma getEscNewline_in_quote_witness :
  (FileBuffer.hasEscNewline "abc \\\  " true = true
   /\ FileBuffer.getEscNewline "abc \\\  " true = 6)
  /\ (FileBuffer.hasEscNewline "abc \\  " true = false
      /\ FileBuffer.getEscNewline "abc \\  " true = StdString.npos).
Proof.
  split.
  - destruct (getEscNewline_in_quote "abc \\\  ") as (H1 & H2 & _); [reflexivity|].
    split; [exact H1 | apply H2; reflexivity].
  - destruct (getEscNewline_in_quote "abc \\  ") as (H1 & _ & H3); [reflexivity|].
    split; [exact H1 | apply H3; reflexivity].
Defined.

(** ** Character literals *)

Section CharLiteral.

Import StdString.

(** The characters [handleSinQuote] takes after a backslash as a simple
    escape, and those it takes as a hexadecimal digit. *)
Definition simple_escape (c : ascii) : bool :=
  mem c ("abfnrtv\?" ++ String dquote (String squote EmptyString)).

Definition hex_char (c : ascii) : bool := isdigit c || mem c "ABCDEF".

(** The lexemes [handleSinQuote] takes as character literals: ['c'] for a
    character that is neither a quote nor a backslash; a backslash and a
    simple escape or a zero; a backslash and three digits; a backslash, an
    [x] and two hexadecimal digits. *)
Definition char_literal (lexeme : string) : bool :=
  match list_ascii_of_string lexeme with
  | [q1; c; q2] =>
      Ascii.eqb q1 squote && Ascii.eqb q2 squote
      && negb (Ascii.eqb c squote) && negb (Ascii.eqb c backslash)
  | [q1; b; e; q2] =>
      Ascii.eqb q1 squote && Ascii.eqb q2 squote && Ascii.eqb b backslash
      && (simple_escape e || Ascii.eqb e "0")
  | [q1; b; d1; d2; d3; q2] =>
      Ascii.eqb q1 squote && Ascii.eqb q2 squote && Ascii.eqb b backslash
      && ((isdigit d1 && isdigit d2 && isdigit d3)
          || (Ascii.eqb d1 "x" && hex_char d2 && hex_char d3))
  | _ => false
  end.

(** The machine of [handleSinQuote] on the text after the opening quote,
    when no line wrap comes in. *)
Fixpoint scan (q : Tokenizer.SinQuote) (rest : string) : Tokenizer.SinQuote :=
  if negb (Tokenizer.haveValue q) && negb (Tokenizer.haveError q) then
    let q := Tokenizer.set_length q (Tokenizer.length q + 1) in
    match rest with
    | EmptyString => Tokenizer.set_haveError q true
    | String testChar rest' => scan (Tokenizer.sinQuoteSwitch q testChar) rest'
    end
  else q.

Definition scan_start : Tokenizer.SinQuote :=
  Tokenizer.mkSinQuote false false false false false false 1.

Lemma simple_escape_test (c : ascii) :
  negb (Ascii.eqb c "a") && negb (Ascii.eqb c "b")
  && negb (Ascii.eqb c "f") && negb (Ascii.eqb c "n")
  && negb (Ascii.eqb c "r") && negb (Ascii.eqb c "t")
  && negb (Ascii.eqb c "v") && negb (Ascii.eqb c backslash)
  && negb (Ascii.eqb c "?") && negb (Ascii.eqb c dquote)
  && negb (Ascii.eqb c squote)
  = negb (simple_escape c).
Proof. destruct c as [[] [] [] [] [] [] [] []]; reflexivity. Qed.

Lemma notHexChar_test (c : ascii) : Tokenizer.notHexChar c = negb (hex_char c).
Proof. destruct c as [[] [] [] [] [] [] [] []]; reflexivity. Qed.

Lemma char_facts (c : ascii) :
  (Ascii.eqb c squote = true -> Ascii.eqb c backslash = false)
  /\ (Ascii.eqb c squote = true -> isdigit c = false)
  /\ (Ascii.eqb c squote = true -> hex_char c = false)
  /\ (Ascii.eqb c squote = true -> Ascii.eqb c "0" = false)
  /\ (Ascii.eqb c squote = true -> Ascii.eqb c "x" = false)
  /\ (Ascii.eqb c squote = true -> simple_escape c = true)
  /\ (Ascii.eqb c "0" = true -> isdigit c = true)
  /\ (Ascii.eqb c "0" = true -> simple_escape c = false)
  /\ (Ascii.eqb c "0" = true -> Ascii.eqb c "x" = false)
  /\ (isdigit c = true -> simple_escape c = false)
  /\ (isdigit c = true -> Ascii.eqb c "x" = false)
  /\ (isdigit c = true -> hex_char c = true)
  /\ (Ascii.eqb c "x" = true -> simple_escape c = false).
Proof. destruct c as [[] [] [] [] [] [] [] []]; repeat split; intros; (reflexivity || discriminate). Qed.

Lemma scan_done (q : Tokenizer.SinQuote) (rest : string) :
  negb (Tokenizer.haveValue q) && negb (Tokenizer.haveError q) = false ->
  scan q rest = q.
Proof. intros H. destruct rest; simpl; rewrite H; reflexivity. Qed.

Lemma scan_String (q : Tokenizer.SinQuote) (c : ascii) (rest : string) :
  negb (Tokenizer.haveValue q) && negb (Tokenizer.haveError q) = true ->
  scan q (String c rest)
  = scan (Tokenizer.sinQuoteSwitch
            (Tokenizer.set_length q (Tokenizer.length q + 1)) c) rest.
Proof. intros H. simpl. rewrite H. reflexivity. Qed.

Lemma scan_Empty (q : Tokenizer.SinQuote) :
  negb (Tokenizer.haveValue q) && negb (Tokenizer.haveError q) = true ->
  scan q EmptyString
  = Tokenizer.set_haveError (Tokenizer.set_length q (Tokenizer.length q + 1)) true.
Proof. intros H. simpl. rewrite H. reflexivity. Qed.

(** One character of the machine: the tests on it are decided one after
    the other, then the machine is run on. *)
Ltac is_test b :=
  lazymatch b with
  | Ascii.eqb _ _ => idtac
  | isdigit _ => idtac
  | hex_char _ => idtac
  | simple_escape _ => idtac
  end.

Ltac decide_tests :=
  repeat match goal with
         | H : ?b = _ |- context [if ?b then _ else _] =>
             is_test b; rewrite H; cbv beta iota
         | H : ?b = _ |- context [negb ?b] =>
             is_test b; rewrite H; cbv beta iota delta [negb]
         | |- context [scan (if ?b then _ else _) _] =>
             is_test b; destruct b eqn:?; cbv beta iota
         | |- context [if ?b then _ else _] =>
             is_test b; destruct b eqn:?; cbv beta iota
         | |- context [negb ?b] =>
             is_test b; destruct b eqn:?; cbv beta iota delta [negb]
         end.

Ltac scan_step P :=
  first [ rewrite scan_done by reflexivity
        | rewrite scan_Empty by reflexivity
        | rewrite scan_String by reflexivity;
          unfold Tokenizer.sinQuoteSwitch;
          rewrite ?simple_escape_test, ?notHexChar_test;
          cbv - [Ascii.eqb isdigit simple_escape hex_char scan P];
          decide_tests ].

Lemma substring_0_0 (s : string) : String.substring 0 0 s = EmptyString.
Proof. destruct s; reflexivity. Qed.

(** What is known about the tests is put to use in the goal. *)
Ltac use_tests :=
  repeat match goal with
         | H : ?b = ?v |- context [?b] => is_test b; rewrite H
         end.

Lemma scan_value (rest : string) :
  Tokenizer.haveValue (scan scan_start rest) = true ->
  char_literal (String.substring 0 (N.to_nat (Tokenizer.length (scan scan_start rest)))
                                 (String squote rest)) = true.
Proof.
  set (P := fun q => Tokenizer.haveValue q = true ->
                     char_literal (String.substring 0 (N.to_nat (Tokenizer.length q))
                                                    (String squote rest)) = true).
  change (P (scan scan_start rest)). unfold scan_start.
  destruct rest as [|c1 [|c2 [|c3 [|c4 [|c5 rest]]]]]; repeat scan_step P.
  all: subst P; cbv beta; cbn [Tokenizer.haveValue Tokenizer.length]; try discriminate.
  all: intros _; unfold char_literal, squote, backslash in *;
    repeat match goal with
           | |- context [N.to_nat ?n] =>
               let k := eval vm_compute in (N.to_nat n) in change (N.to_nat n) with k
           end;
    cbn - [Ascii.eqb isdigit simple_escape hex_char];
    rewrite ?substring_0_0; cbn - [Ascii.eqb isdigit simple_escape hex_char];
    use_tests; cbn - [isdigit simple_escape hex_char].
  all: rewrite ?orb_true_r; try reflexivity.
  all: match goal with
       | H : Ascii.eqb ?c "0" = true |- _ =>
           rewrite (proj1 (proj2 (proj2 (proj2 (proj2 (proj2 (proj2 (char_facts c))))))) H)
       end; reflexivity.
Qed.

Lemma scan_complete (rest lexeme tail : string) :
  String squote rest = lexeme ++ tail ->
  char_literal lexeme = true ->
  Tokenizer.haveValue (scan scan_start rest) = true
  /\ Tokenizer.length (scan scan_start rest) = size lexeme.
Proof.
  set (P := fun q => Tokenizer.haveValue q = true /\ Tokenizer.length q = size lexeme).
  intros Hrest Hlit. change (P (scan scan_start rest)). unfold scan_start.
  unfold char_literal, squote, backslash in *.
  destruct lexeme as [|q1 [|c1 [|c2 [|c3 [|c4 [|c5 [|c6 lexeme]]]]]]];
    try discriminate Hlit; cbn [list_ascii_of_string] in Hlit;
    repeat (apply andb_prop in Hlit; destruct Hlit as [Hlit ?]);
    rewrite ?append_String, ?append_Empty in Hrest;
    injection Hrest as Hq Hr; subst q1 rest.
  - (* 'c' *)
    repeat match goal with
           | H : negb _ = true |- _ => apply negb_true_iff in H
           end.
    repeat scan_step P. all: subst P; cbv beta; try (split; reflexivity); congruence.
  - (* a backslash and one character *)
    pose proof (char_facts c1) as F1. pose proof (char_facts c2) as F2.
    pose proof (char_facts c3) as F3.
    apply orb_prop in H.
    repeat scan_step P. all: subst P; cbv beta; try (split; reflexivity).
    all: unfold squote, backslash in *; intuition congruence.
  - (* a backslash and three characters *)
    pose proof (char_facts c1) as F1. pose proof (char_facts c2) as F2.
    pose proof (char_facts c3) as F3. pose proof (char_facts c4) as F4.
    pose proof (char_facts c5) as F5.
    apply orb_prop in H.
    repeat scan_step P. all: subst P; cbv beta; try (split; reflexivity).
    all: unfold squote, backslash in *;
      repeat match goal with
             | H : _ && _ = true |- _ => apply andb_prop in H; destruct H
             | H : _ \/ _ |- _ => destruct H
             end; intuition congruence.
Qed.

(** The buffer cannot wrap: the input is at its end, or the line does not
    end in an escaped newline. *)
Definition no_wrap (st : Tokenizer.t) : Prop :=
  FileBuffer.haveEOF (Tokenizer._file st) = true
  \/ FileBuffer.getEscNewline (Tokenizer._buffer st) true = npos.

Lemma isLineWrap_no_wrap (st : Tokenizer.t) (pos : N) :
  no_wrap st -> size (Tokenizer._buffer st) < npos ->
  Tokenizer.isLineWrap pos true st = false.
Proof.
  intros [H | H] Hsize; unfold Tokenizer.isLineWrap.
  - rewrite H. reflexivity.
  - destruct (FileBuffer.haveEOF _); [reflexivity|].
    destruct (N.leb_spec (size (Tokenizer._buffer st)) pos); [reflexivity|].
    destruct (negb _); [reflexivity|].
    rewrite H. apply N.eqb_neq. lia.
Qed.

Lemma sinQuoteSwitch_length (q : Tokenizer.SinQuote) (c : ascii) :
  Tokenizer.length (Tokenizer.sinQuoteSwitch q c) = Tokenizer.length q.
Proof.
  unfold Tokenizer.sinQuoteSwitch. rewrite simple_escape_test.
  repeat match goal with
         | |- context [if ?b then _ else _] => destruct b
         end; reflexivity.
Qed.

Lemma sinQuoteSwitch_default (q : Tokenizer.SinQuote) (c : ascii) :
  6 < Tokenizer.length q ->
  Tokenizer.haveError (Tokenizer.sinQuoteSwitch q c) = true.
Proof.
  intros H. unfold Tokenizer.sinQuoteSwitch.
  destruct (N.eqb_spec (Tokenizer.length q) 2); [lia|].
  destruct (N.eqb_spec (Tokenizer.length q) 3); [lia|].
  destruct (N.eqb_spec (Tokenizer.length q) 4); [lia|].
  destruct (N.eqb_spec (Tokenizer.length q) 5); [lia|].
  destruct (N.eqb_spec (Tokenizer.length q) 6); [lia|].
  reflexivity.
Qed.

Lemma sinQuoteLoop_done (fuel : nat) (q : Tokenizer.SinQuote) (st : Tokenizer.t) :
  negb (Tokenizer.haveValue q) && negb (Tokenizer.haveError q) = false ->
  Tokenizer.sinQuoteLoop fuel q st = Ok (q, st).
Proof. intros H. destruct fuel; simpl; rewrite H; reflexivity. Qed.

(** Without a wrap the loop of [handleSinQuote] is the machine [scan] run on
    the text after the characters it has read, and leaves the tokenizer as
    it was. *)
Lemma sinQuoteLoop_scan (fuel : nat) (q : Tokenizer.SinQuote) (st : Tokenizer.t)
      (pre suf : string) :
  no_wrap st -> size (Tokenizer._buffer st) < npos ->
  Tokenizer._buffer st = pre ++ suf ->
  Tokenizer._charPtr st + Tokenizer.length q = size pre ->
  (negb (Tokenizer.haveValue q) && negb (Tokenizer.haveError q) = true ->
   Tokenizer.length q <= 6) ->
  (7 - N.to_nat (Tokenizer.length q) <= fuel)%nat ->
  Tokenizer.sinQuoteLoop fuel q st = Ok (scan q suf, st).
Proof.
  intros Hwrap Hsize. revert q pre suf.
  induction fuel as [|fuel IH]; intros q pre suf Hbuf Hptr Hlen Hfuel.
  - destruct (negb (Tokenizer.haveValue q) && negb (Tokenizer.haveError q)) eqn:Hdone.
    + specialize (Hlen eq_refl). lia.
    + rewrite scan_done by exact Hdone. apply sinQuoteLoop_done. exact Hdone.
  - destruct (negb (Tokenizer.haveValue q) && negb (Tokenizer.haveError q)) eqn:Hdone.
    2:{ rewrite scan_done by exact Hdone. apply sinQuoteLoop_done. exact Hdone. }
    specialize (Hlen eq_refl).
    cbn [Tokenizer.sinQuoteLoop]. rewrite Hdone.
    cbn [Tokenizer.length Tokenizer.set_length].
    replace (Tokenizer._charPtr st + (Tokenizer.length q + 1) - 1) with (size pre) by lia.
    rewrite Hbuf, size_append.
    destruct suf as [|c suf].
    + destruct (N.leb_spec (size pre + size EmptyString) (size pre));
        [|unfold size in *; simpl in *; lia].
      rewrite scan_Empty by exact Hdone. apply sinQuoteLoop_done.
      simpl. apply andb_false_r.
    + destruct (N.leb_spec (size pre + size (String c suf)) (size pre));
        [rewrite size_String in *; lia|].
      rewrite isLineWrap_no_wrap by assumption.
      rewrite <- Hbuf at 1. rewrite Hbuf, at_app_here. cbn [of_option bind].
      rewrite scan_String by exact Hdone.
      apply (IH _ (pre ++ String c EmptyString) suf).
      * rewrite Hbuf, append_assoc. reflexivity.
      * rewrite sinQuoteSwitch_length, size_append. cbn [Tokenizer.length Tokenizer.set_length].
        change (size (String c EmptyString)) with 1. lia.
      * intros Hnot. rewrite sinQuoteSwitch_length. cbn [Tokenizer.length Tokenizer.set_length].
        destruct (N.le_gt_cases (Tokenizer.length q + 1) 6) as [Hle|Hgt]; [exact Hle|].
        exfalso.
        rewrite (sinQuoteSwitch_default _ c) in Hnot
          by (cbn [Tokenizer.length Tokenizer.set_length]; lia).
        rewrite andb_false_r in Hnot. discriminate.
      * rewrite sinQuoteSwitch_length. cbn [Tokenizer.length Tokenizer.set_length]. lia.
Qed.

Lemma substring_prefix (s : string) (n : nat) :
  exists tail, s = String.substring 0 n s ++ tail.
Proof.
  revert n. induction s as [|c s IH]; intros n.
  - exists EmptyString. destruct n; reflexivity.
  - destruct n as [|n].
    + exists (String c s). reflexivity.
    + destruct (IH n) as [tail E]. exists tail.
      cbn [String.substring]. rewrite append_String. f_equal. exact E.
Qed.

Lemma substring_skip (pre suf : string) (n m : nat) :
  String.substring (String.length pre + n) m (pre ++ suf) = String.substring n m suf.
Proof.
  induction pre as [|c pre IH]; [reflexivity|].
  rewrite append_String. cbn [String.length Nat.add String.substring]. exact IH.
Qed.

Lemma substring_clip (s : string) (m : nat) :
  String.substring 0 (Nat.min m (String.length s)) s = String.substring 0 m s.
Proof.
  revert m. induction s as [|c s IH]; intros m.
  - destruct m; reflexivity.
  - destruct m as [|m]; [reflexivity|].
    cbn [String.length Nat.min String.substring]. f_equal. apply IH.
Qed.

Lemma substr_at_suffix (pre suf : string) (n : N) :
  substr (pre ++ suf) (size pre) n = String.substring 0 (N.to_nat n) suf.
Proof.
  unfold substr. rewrite size_append.
  destruct (N.leb_spec (size pre) (size pre + size suf)); [|lia].
  replace (N.to_nat (size pre)) with (String.length pre + 0)%nat by (unfold size; lia).
  rewrite substring_skip.
  replace (N.to_nat (N.min n (size pre + size suf - size pre)))
    with (Nat.min (N.to_nat n) (String.length suf)) by (unfold size; lia).
  apply substring_clip.
Qed.

End CharLiteral.

(** C5, as the code has it.  On a buffer that cannot wrap, at a single
    quote, the lexer returns a character literal exactly when the text from
    the quote on begins with one of the forms of [char_literal]: ['c'], a
    backslash and one of [a b f n r t v ?], a backslash, a double quote, a
    single quote or [0], a backslash and three decimal digits, or a
    backslash, an [x] and two of [0-9 A-F].  In that case the token is the
    literal with that lexeme and the lexer stands on its closing quote.  In every other case the token is an [othersymbol];
    either way the call returns a token, reads no further line and writes no
    warning. *)
Theorem handleSinQuote_char_literal (fuel : nat) (st : Tokenizer.t) (pre rest : string) :
  (6 <= fuel)%nat ->
  Tokenizer._buffer st = pre ++ String squote rest ->
  Tokenizer._charPtr st = StdString.size pre ->
  StdString.size (Tokenizer._buffer st) < StdString.npos ->
  no_wrap st ->
  exists tok st',
    Tokenizer.handleSinQuote fuel st = Ok (tok, st')
    /\ Tokenizer._file st' = Tokenizer._file st
    /\ ((exists lexeme tail,
            String squote rest = lexeme ++ tail
            /\ char_literal lexeme = true
            /\ tok = Token.make lexeme (Tokenizer._location st) Token.literal
            /\ Tokenizer._charPtr st' = Tokenizer._charPtr st + StdString.size lexeme - 1)
        \/ ((forall lexeme tail,
                String squote rest = lexeme ++ tail -> char_literal lexeme = false)
            /\ Token.getType tok = Token.othersymbol)).
Proof.
  intros Hfuel Hbuf Hptr Hsize Hwrap.
  unfold Tokenizer.handleSinQuote.
  fold scan_start.
  assert (Hloop : Tokenizer.sinQuoteLoop fuel scan_start st = Ok (scan scan_start rest, st)).
  { apply (sinQuoteLoop_scan fuel scan_start st (pre ++ String squote EmptyString) rest).
    - exact Hwrap.
    - exact Hsize.
    - rewrite Hbuf, append_assoc. reflexivity.
    - rewrite size_append, Hptr. reflexivity.
    - intros _. cbn. lia.
    - cbn. lia. }
  rewrite Hloop. cbn [bind].
  destruct (Tokenizer.haveValue (scan scan_start rest)) eqn:Hvalue.
  - eexists. eexists. split; [reflexivity|]. split; [reflexivity|]. left.
    pose proof (scan_value rest Hvalue) as Hlit.
    destruct (substring_prefix (String squote rest)
                (N.to_nat (Tokenizer.length (scan scan_start rest)))) as [tail Htail].
    destruct (scan_complete rest _ tail Htail Hlit) as [_ Hlen].
    eexists. exists tail. split; [exact Htail|]. split; [exact Hlit|].
    cbn [Tokenizer._buffer Tokenizer._charPtr Tokenizer._location].
    rewrite Hbuf, Hptr, substr_at_suffix. split; [reflexivity|].
    rewrite <- Hlen.
    assert (1 <= Tokenizer.length (scan scan_start rest)); [|lia].
    rewrite Hlen. destruct (String.substring _ _ _); [discriminate Hlit|].
    rewrite size_String. lia.
  - assert (Hat : StdString.at_ (Tokenizer._buffer st) (Tokenizer._charPtr st) = Some squote).
    { rewrite Hbuf, Hptr. apply at_app_here. }
    unfold Tokenizer.handleOtherChars. rewrite Hat. cbn [of_option bind].
    change (StdString.mem squote Tokenizer._declChars) with false. cbv iota.
    eexists. eexists. split; [reflexivity|]. split; [reflexivity|]. right.
    split; [|reflexivity].
    intros lexeme tail Hdec.
    destruct (char_literal lexeme) eqn:Hlit; [|reflexivity].
    destruct (scan_complete rest lexeme tail Hdec Hlit) as [Hv _]. congruence.
Qed.

(** A tokenizer on the last line of its input, [buffer], standing at
    [charPtr]. *)
Definition lexer_on (buffer : string) (charPtr : N) : Tokenizer.t :=
  Tokenizer.mk
    (FileBuffer.mk [] (FilePosition.mk "a.c" 1) (FilePosition.mk "a.c" 1)
                   (FilePosition.mk "a.i" 1) "" FileBuffer.other false [])
    buffer charPtr (FilePosition.mk "a.c" 1) false 0.

Definition token_of (r : result (Token.t * Tokenizer.t)) : option (string * Token.TokenType) :=
  match r with
  | Ok (tok, _) => Some (Token.getLexeme tok, Token.getType tok)
  | _ => None
  end.

Lemma handleSinQuote_char_literal_witness :
  exists tok st',
    Tokenizer.handleSinQuote 6 (lexer_on "c = '\n';" 4) = Ok (tok, st')
    /\ Tokenizer._file st' = Tokenizer._file (lexer_on "c = '\n';" 4)
    /\ ((exists lexeme tail,
            String squote "\n';" = lexeme ++ tail
            /\ char_literal lexeme = true
            /\ tok = Token.make lexeme (FilePosition.mk "a.c" 1) Token.literal
            /\ Tokenizer._charPtr st' = 4 + StdString.size lexeme - 1)
        \/ ((forall lexeme tail,
                String squote "\n';" = lexeme ++ tail -> char_literal lexeme = false)
            /\ Token.getType tok = Token.othersymbol)).
Proof.
  apply (handleSinQuote_char_literal 6 (lexer_on "c = '\n';" 4) "c = " "\n';");
    [lia | reflexivity | reflexivity | reflexivity | left; reflexivity].
Defined.

(** The forms the specification lists: ['c'], a backslash and a simple
    escape, a backslash and one to three octal digits (which covers a
    backslash and a zero), a backslash, an [x] and two hexadecimal digits. *)
Definition octal_digit (c : ascii) : bool :=
  let n := N_of_ascii c in (48 <=? n) && (n <=? 55).

Definition hex_digit (c : ascii) : bool :=
  StdString.isdigit c || StdString.mem c "abcdefABCDEF".

Definition listed_char_literal (lexeme : string) : bool :=
  match list_ascii_of_string lexeme with
  | [q1; c; q2] =>
      Ascii.eqb q1 squote && Ascii.eqb q2 squote
      && negb (Ascii.eqb c squote) && negb (Ascii.eqb c backslash)
  | [q1; b; e; q2] =>
      Ascii.eqb q1 squote && Ascii.eqb q2 squote && Ascii.eqb b backslash
      && (simple_escape e || octal_digit e)
  | [q1; b; o1; o2; q2] =>
      Ascii.eqb q1 squote && Ascii.eqb q2 squote && Ascii.eqb b backslash
      && octal_digit o1 && octal_digit o2
  | [q1; b; d1; d2; d3; q2] =>
      Ascii.eqb q1 squote && Ascii.eqb q2 squote && Ascii.eqb b backslash
      && ((octal_digit d1 && octal_digit d2 && octal_digit d3)
          || (Ascii.eqb d1 "x" && hex_digit d2 && hex_digit d3))
  | _ => false
  end.

(** A backslash and one octal digit is a listed form, and is lexed as an
    [othersymbol]; so is a backslash, an [x] and two lower-case hexadecimal
    digits; and a backslash with the digits [189], which is no listed form,
    is lexed as a literal. *)
Lemma listed_forms_differ :
  (listed_char_literal "'\7'" = true
   /\ token_of (Tokenizer.handleSinQuote 6 (lexer_on "'\7'" 0))
      = Some ("'\", Token.othersymbol))
  /\ (listed_char_literal "'\xff'" = true
      /\ token_of (Tokenizer.handleSinQuote 6 (lexer_on "'\xff'" 0))
         = Some ("'\", Token.othersymbol))
  /\ (listed_char_literal "'\189'" = false
      /\ token_of (Tokenizer.handleSinQuote 6 (lexer_on "'\189'" 0))
         = Some ("'\189'", Token.literal)).
Proof. repeat split; reflexivity. Qed.

(** ** Line directives *)

Section LineDirective.

Import StdString.

(** Every character of [s] satisfies [p]. *)
Definition all_chars (p : ascii -> bool) (s : string) : Prop :=
  Forall (fun c => p c = true) (list_ascii_of_string s).

Lemma all_chars_String (p : ascii -> bool) (c : ascii) (s : string) :
  all_chars p (String c s) <-> p c = true /\ all_chars p s.
Proof. unfold all_chars. simpl. apply Forall_cons_iff. Qed.

Lemma all_chars_Empty (p : ascii -> bool) : all_chars p EmptyString.
Proof. constructor. Qed.

(** The forward search through an append. *)
Lemma find_if_skip (p : ascii -> bool) (a b : string) (i pos : N) :
  i + size a <= pos ->
  find_if_from p (a ++ b) i pos = find_if_from p b (i + size a) pos.
Proof.
  revert i. induction a as [|c a IH]; intros i H.
  - rewrite append_Empty. change (size EmptyString) with 0. rewrite N.add_0_r. reflexivity.
  - rewrite append_String. rewrite size_String in *. cbn [find_if_from].
    destruct (N.leb_spec pos i); [lia|]. cbn [andb].
    rewrite IH by lia. f_equal. lia.
Qed.

Lemma find_if_pass (p : ascii -> bool) (a b : string) (i pos : N) :
  all_chars (fun c => negb (p c)) a ->
  find_if_from p (a ++ b) i pos = find_if_from p b (i + size a) pos.
Proof.
  revert i. induction a as [|c a IH]; intros i H.
  - rewrite append_Empty. change (size EmptyString) with 0. rewrite N.add_0_r. reflexivity.
  - rewrite append_String. rewrite size_String. cbn [find_if_from].
    apply all_chars_String in H as [Hc Ha]. apply negb_true_iff in Hc.
    rewrite Hc, andb_false_r. rewrite IH by exact Ha. f_equal. lia.
Qed.

Lemma find_if_here (p : ascii -> bool) (c : ascii) (b : string) (i pos : N) :
  pos <= i -> p c = true -> find_if_from p (String c b) i pos = i.
Proof.
  intros H Hc. cbn [find_if_from]. rewrite Hc.
  destruct (N.leb_spec pos i); [reflexivity|lia].
Qed.

Lemma find_if_end (p : ascii -> bool) (i pos : N) :
  find_if_from p EmptyString i pos = npos.
Proof. reflexivity. Qed.

(** What a successful forward search says about the string. *)
Lemma find_if_found (p : ascii -> bool) (s : string) (i pos r : N) :
  find_if_from p s i pos = r -> i + size s < npos -> r <> npos ->
  exists a b c d,
    s = a ++ b ++ String c d
    /\ r = i + size a + size b
    /\ pos <= r
    /\ (a = EmptyString \/ i + size a <= pos)
    /\ all_chars (fun c => negb (p c)) b
    /\ p c = true.
Proof.
  revert i. induction s as [|c s IH]; intros i Hr Hsize Hne.
  - simpl in Hr. congruence.
  - cbn [find_if_from] in Hr. rewrite size_String in Hsize.
    destruct (N.leb_spec pos i) as [Hpos|Hpos]; cbn [andb] in Hr.
    + destruct (p c) eqn:Hc.
      * exists EmptyString, EmptyString, c, s. subst r.
        change (size EmptyString) with 0.
        split; [reflexivity|]. split; [lia|]. split; [lia|].
        split; [left; reflexivity|]. split; [apply all_chars_Empty|exact Hc].
      * destruct (IH (N.succ i) Hr) as (a & b & c' & d & Hs & Hr' & Hp & Ha & Hb & Hc');
          [lia | exact Hne |].
        (* [pos <= i]: nothing of the rest is before [pos] *)
        assert (a = EmptyString) as ->.
        { destruct Ha as [Ha|Ha]; [exact Ha|].
          destruct a; [reflexivity|]. rewrite size_String in Ha. lia. }
        exists EmptyString, (String c b), c', d.
        rewrite append_Empty in Hs. rewrite Hs.
        change (size EmptyString) with 0 in *. rewrite size_String.
        split; [reflexivity|]. split; [lia|]. split; [lia|].
        split; [left; reflexivity|]. split; [|exact Hc'].
        apply all_chars_String. rewrite Hc. split; [reflexivity|exact Hb].
    + destruct (IH (N.succ i) Hr) as (a & b & c' & d & Hs & Hr' & Hp & Ha & Hb & Hc');
        [lia | exact Hne |].
      exists (String c a), b, c', d. rewrite Hs, size_String.
      split; [reflexivity|]. split; [lia|]. split; [lia|].
      split; [|split; [exact Hb|exact Hc']].
      right. destruct Ha as [->|Ha]; [change (size EmptyString) with 0|]; lia.
Qed.

Lemma find_if_beyond (p : ascii -> bool) (s : string) (i pos : N) :
  i + size s <= pos -> find_if_from p s i pos = npos.
Proof.
  revert i. induction s as [|c s IH]; intros i H; [reflexivity|].
  rewrite size_String in H. cbn [find_if_from].
  destruct (N.leb_spec pos i); [lia|]. cbn [andb]. apply IH. lia.
Qed.

(** A search that starts where it stands: it fails on text without a match,
    or stops at the first match. *)
Lemma find_if_start (p : ascii -> bool) (s : string) (i pos : N) :
  pos <= i ->
  (all_chars (fun c => negb (p c)) s /\ find_if_from p s i pos = npos)
  \/ (exists b c d,
        s = b ++ String c d /\ all_chars (fun c => negb (p c)) b /\ p c = true
        /\ find_if_from p s i pos = i + size b).
Proof.
  revert i. induction s as [|c s IH]; intros i Hpos.
  - left. split; [apply all_chars_Empty|reflexivity].
  - cbn [find_if_from]. destruct (N.leb_spec pos i); [|lia]. cbn [andb].
    destruct (p c) eqn:Hc.
    + right. exists EmptyString, c, s. change (size EmptyString) with 0.
      split; [reflexivity|]. split; [apply all_chars_Empty|]. split; [exact Hc|lia].
    + destruct (IH (N.succ i)) as [[Hall Hf] | (b & c' & d & Hs & Hb & Hc' & Hf)]; [lia| |].
      * left. split; [|exact Hf]. apply all_chars_String. rewrite Hc. split; [reflexivity|exact Hall].
      * right. exists (String c b), c', d. subst s. rewrite size_String.
        split; [reflexivity|]. split; [|split; [exact Hc'|rewrite Hf; lia]].
        apply all_chars_String. rewrite Hc. split; [reflexivity|exact Hb].
Qed.

(** The searches of the program at the end of a known prefix. *)
Lemma find_at_prefix (p : ascii -> bool) (pre suf : string) :
  find_if_from p (pre ++ suf) 0 (size pre) = find_if_from p suf (size pre) (size pre).
Proof. rewrite find_if_skip by lia. reflexivity. Qed.

Lemma all_chars_app (p : ascii -> bool) (a b : string) :
  all_chars p (a ++ b) <-> all_chars p a /\ all_chars p b.
Proof.
  unfold all_chars. rewrite list_ascii_of_string_append. apply Forall_app.
Qed.

Lemma ushort_small (n : N) : n < 65536 -> FileBuffer.ushort n = n.
Proof. intros H. unfold FileBuffer.ushort. apply N.mod_small. exact H. Qed.

Lemma ushort_npos : FileBuffer.ushort npos = 65535.
Proof. reflexivity. Qed.

(** A search from the end of [pre] that passes [skip] and stops at [c]. *)
Lemma find_hit (p : ascii -> bool) (pre skip d : string) (c : ascii) :
  all_chars (fun c => negb (p c)) skip -> p c = true ->
  find_if_from p (pre ++ skip ++ String c d) 0 (size pre) = size pre + size skip.
Proof.
  intros Hskip Hc. rewrite find_at_prefix, find_if_pass by exact Hskip.
  apply find_if_here; [lia|exact Hc].
Qed.

Lemma find_miss (p : ascii -> bool) (pre rest : string) :
  all_chars (fun c => negb (p c)) rest ->
  find_if_from p (pre ++ rest) 0 (size pre) = npos.
Proof.
  intros H. rewrite find_at_prefix.
  rewrite <- (append_nil_r rest), find_if_pass by exact H. reflexivity.
Qed.

Lemma at_hit (pre skip d : string) (c : ascii) :
  at_ (pre ++ skip ++ String c d) (size pre + size skip) = Some c.
Proof. rewrite <- append_assoc, <- size_append. apply at_app_here. Qed.

Lemma substr_middle (pre mid post : string) :
  substr (pre ++ mid ++ post) (size pre) (size mid) = mid.
Proof.
  rewrite substr_at_suffix.
  replace (N.to_nat (size mid)) with (String.length mid) by (unfold size; lia).
  clear. induction mid as [|c mid IH].
  - rewrite append_Empty. apply substring_0_0.
  - rewrite append_String. cbn [String.length String.substring]. f_equal. exact IH.
Qed.

(** What one character can be at a time. *)
Lemma blank_facts (c : ascii) :
  is_blank c = true ->
  isdigit c = false /\ Ascii.eqb "#" c = false /\ Ascii.eqb c dquote = false
  /\ Ascii.eqb dquote c = false.
Proof. destruct c as [[] [] [] [] [] [] [] []]; intros H; try discriminate H; repeat split. Qed.

Lemma digit_facts (c : ascii) :
  isdigit c = true ->
  is_blank c = false /\ Ascii.eqb c dquote = false
  /\ mem c "0123456789" = true.
Proof. destruct c as [[] [] [] [] [] [] [] []]; intros H; try discriminate H; repeat split. Qed.

Lemma mem_digits (c : ascii) : mem c "0123456789" = isdigit c.
Proof. destruct c as [[] [] [] [] [] [] [] []]; reflexivity. Qed.

Lemma all_chars_impl (p q : ascii -> bool) (s : string) :
  (forall c, p c = true -> q c = true) -> all_chars p s -> all_chars q s.
Proof. intros H. unfold all_chars. apply List.Forall_impl. exact H. Qed.

(** The lines that carry a source location: a hash, the digits of [n], the
    quoted name [F], with nothing after the closing quote; spaces and tabs
    may stand before each of the three. *)
Definition location_line (fileDataLine F : string) (n : N) : Prop :=
  exists ws1 ws2 ds ws3,
    fileDataLine
    = ws1 ++ String "#" (ws2 ++ ds ++ ws3 ++ String dquote (F ++ String dquote EmptyString))
    /\ all_chars is_blank ws1 /\ all_chars is_blank ws2 /\ all_chars is_blank ws3
    /\ ds <> EmptyString /\ all_chars isdigit ds /\ FileBuffer.digits_value 0 ds = n
    /\ F <> EmptyString /\ all_chars (fun c => negb (Ascii.eqb c dquote)) F.

(** A source location with spaces and tabs, or nothing, after the closing
    quote: the lines the comments of [handlePreproc] count as locations. *)
Definition location_then_blanks (fileDataLine F : string) (n : N) : Prop :=
  exists location ws,
    fileDataLine = location ++ ws
    /\ location_line location F n /\ all_chars is_blank ws.

Lemma append_snoc (a : string) (c : ascii) (b : string) :
  (a ++ String c EmptyString) ++ b = a ++ String c b.
Proof. rewrite append_assoc. reflexivity. Qed.

Lemma digits_value_bound (s : string) (acc : N) :
  acc <= FileBuffer.digits_value acc s.
Proof.
  revert acc. induction s as [|c s IH]; intros acc; cbn [FileBuffer.digits_value]; [lia|].
  destruct (isdigit c); [|lia]. etransitivity; [|apply IH]. lia.
Qed.

Lemma digits_value_all (ds rest : string) (acc : N) :
  all_chars isdigit ds ->
  (forall c rest', rest = String c rest' -> isdigit c = false) ->
  FileBuffer.digits_value acc (ds ++ rest) = FileBuffer.digits_value acc ds.
Proof.
  revert acc. induction ds as [|d ds IH]; intros acc Hds Hrest.
  - rewrite append_Empty. destruct rest as [|c rest']; [reflexivity|].
    cbn [FileBuffer.digits_value]. rewrite (Hrest c rest' eq_refl). reflexivity.
  - rewrite append_String. cbn [FileBuffer.digits_value].
    apply all_chars_String in Hds as [Hd Hds]. rewrite Hd. apply IH; assumption.
Qed.

Lemma lineNo_minus_one (n : N) :
  n <= 2147483647 ->
  FileBuffer.int_of_uint ((n + 4294967295) mod 4294967296) = (Z.of_N n - 1)%Z.
Proof.
  intros H. unfold FileBuffer.int_of_uint.
  destruct (N.eq_dec n 0) as [->|Hn]; [reflexivity|].
  replace (n + 4294967295) with ((n - 1) + 1 * 4294967296) by lia.
  rewrite N.Div0.mod_add, N.mod_small by lia.
  destruct (N.ltb_spec (n - 1) 2147483648); lia.
Qed.

Ltac norm_append :=
  repeat (rewrite append_assoc || rewrite append_String || rewrite append_Empty).

(** A line that carries a location, within the range of [unsigned short]
    and of [int], is taken as one. *)
Lemma findLocation_location (fileDataLine F : string) (n : N) :
  location_line fileDataLine F n ->
  size fileDataLine < 65535 -> n <= 2147483647 ->
  FileBuffer.findLocation fileDataLine = Ok (Some (FilePosition.mk F (Z.of_N n - 1))).
Proof.
  intros (ws1 & ws2 & ds & ws3 & Hline & B1 & B2 & B3 & Hds & Dds & Hn & HF & QF) Hsize Hmax.
  destruct ds as [|d1 ds']; [congruence|].
  destruct F as [|f1 F']; [congruence|].
  pose proof Dds as Dds0. apply all_chars_String in Dds0 as [Hd1 _].
  destruct (digit_facts d1 Hd1) as (Hd1b & Hd1q & _).
  set (tail := String dquote (String f1 F' ++ String dquote EmptyString)) in *.
  assert (Hlen : size fileDataLine
                 = size ws1 + 1 + size ws2 + size (String d1 ds') + size ws3 + 1
                   + size (String f1 F') + 1).
  { rewrite Hline. unfold tail.
    repeat (rewrite size_append || rewrite size_String).
    change (size EmptyString) with 0. lia. }
  rewrite !size_String in Hlen.
  unfold FileBuffer.findLocation.
  (* the hash *)
  assert (E1 : find_first_of fileDataLine "#" 0 = size ws1).
  { rewrite Hline. unfold find_first_of.
    apply (find_hit (Ascii.eqb "#") EmptyString ws1); [|reflexivity].
    eapply all_chars_impl; [|exact B1]. intros c Hc.
    destruct (blank_facts c Hc) as (_ & -> & _). reflexivity. }
  rewrite E1, (ushort_small (size ws1)) by lia.
  (* the first digit *)
  assert (L2 : fileDataLine
               = (ws1 ++ String "#" EmptyString) ++ ws2
                 ++ String d1 (ds' ++ ws3 ++ tail)).
  { rewrite Hline. norm_append. reflexivity. }
  assert (S2 : size (ws1 ++ String "#" EmptyString) = size ws1 + 1).
  { rewrite size_append. reflexivity. }
  assert (E2 : FileBuffer.burnSpaces fileDataLine (size ws1 + 1) = size ws1 + 1 + size ws2).
  { rewrite L2 at 1. rewrite <- S2. unfold FileBuffer.burnSpaces, find_first_not_of.
    apply find_hit.
    - eapply all_chars_impl; [|exact B2]. intros c Hc. cbn beta.
      unfold is_blank in Hc. rewrite Hc. reflexivity.
    - unfold is_blank in Hd1b. rewrite Hd1b. reflexivity. }
  rewrite E2, (ushort_small (size ws1 + 1 + size ws2)) by lia.
  destruct (N.eqb_spec (size ws1 + 1 + size ws2) npos) as [E|_]; [unfold npos in E; lia|].
  cbn [negb].
  assert (A2 : at_ fileDataLine (size ws1 + 1 + size ws2) = Some d1).
  { rewrite L2 at 1. rewrite <- S2. apply at_hit. }
  rewrite A2. cbn [of_option bind]. rewrite Hd1.
  (* the end of the digits *)
  assert (L3 : fileDataLine
               = (ws1 ++ String "#" EmptyString ++ ws2) ++ String d1 ds' ++ ws3 ++ tail).
  { rewrite Hline. norm_append. reflexivity. }
  assert (S3 : size (ws1 ++ String "#" EmptyString ++ ws2) = size ws1 + 1 + size ws2).
  { rewrite !size_append. change (size (String "#" EmptyString)) with 1. lia. }
  assert (Hnext : exists c rest, ws3 ++ tail = String c rest /\ isdigit c = false).
  { destruct ws3 as [|w ws3'].
    - exists dquote, (String f1 F' ++ String dquote EmptyString). split; reflexivity.
    - exists w, (ws3' ++ tail). split; [reflexivity|].
      apply all_chars_String in B3 as [Hw _]. apply (blank_facts w Hw). }
  destruct Hnext as (c3 & rest3 & Hrest3 & Hc3).
  assert (E3 : find_first_not_of fileDataLine "0123456789" (size ws1 + 1 + size ws2)
               = size ws1 + 1 + size ws2 + size (String d1 ds')).
  { rewrite L3 at 1. rewrite <- S3. rewrite Hrest3. unfold find_first_not_of.
    apply find_hit.
    - eapply all_chars_impl; [|exact Dds]. intros c Hc. cbn beta.
      rewrite mem_digits, Hc. reflexivity.
    - rewrite mem_digits, Hc3. reflexivity. }
  rewrite E3, size_String,
    (ushort_small (size ws1 + 1 + size ws2 + N.succ (size ds'))) by lia.
  destruct (N.eqb_spec (size ws1 + 1 + size ws2 + N.succ (size ds')) npos) as [E|_];
    [unfold npos in E; lia|].
  cbn [negb].
  replace (FileBuffer.count_between (size ws1 + 1 + size ws2)
             (size ws1 + 1 + size ws2 + N.succ (size ds')))
    with (size (String d1 ds'))
    by (unfold FileBuffer.count_between; rewrite size_String;
        destruct (N.leb_spec (size ws1 + 1 + size ws2)
                             (size ws1 + 1 + size ws2 + N.succ (size ds'))); lia).
  rewrite L3 at 1. rewrite <- S3 at 1. rewrite substr_middle.
  unfold FileBuffer.atoi. rewrite Hn.
  destruct (N.leb_spec n 2147483647); [|lia]. cbn [bind].
  (* the opening quote *)
  assert (L4 : fileDataLine
               = (ws1 ++ String "#" EmptyString ++ ws2 ++ String d1 ds') ++ ws3
                 ++ String dquote (String f1 F' ++ String dquote EmptyString)).
  { rewrite Hline. unfold tail. norm_append. reflexivity. }
  assert (S4 : size (ws1 ++ String "#" EmptyString ++ ws2 ++ String d1 ds')
               = size ws1 + 1 + size ws2 + N.succ (size ds')).
  { repeat (rewrite size_append || rewrite size_String).
    change (size EmptyString) with 0. lia. }
  assert (E4 : FileBuffer.burnSpaces fileDataLine
                 (size ws1 + 1 + size ws2 + N.succ (size ds'))
               = size ws1 + 1 + size ws2 + N.succ (size ds') + size ws3).
  { rewrite L4 at 1. rewrite <- S4. unfold FileBuffer.burnSpaces, find_first_not_of.
    apply find_hit; [|reflexivity].
    eapply all_chars_impl; [|exact B3]. intros c Hc. cbn beta.
    unfold is_blank in Hc. rewrite Hc. reflexivity. }
  rewrite E4, (ushort_small (size ws1 + 1 + size ws2 + N.succ (size ds') + size ws3)) by lia.
  destruct (N.eqb_spec (size ws1 + 1 + size ws2 + N.succ (size ds') + size ws3) npos)
    as [E|_]; [unfold npos in E; lia|].
  cbn [negb].
  assert (A4 : at_ fileDataLine (size ws1 + 1 + size ws2 + N.succ (size ds') + size ws3)
               = Some dquote).
  { rewrite L4 at 1. rewrite <- S4. apply at_hit. }
  rewrite A4. cbn [of_option bind]. change (Ascii.eqb dquote dquote) with true. cbv iota.
  rewrite (ushort_small (size ws1 + 1 + size ws2 + N.succ (size ds') + size ws3 + 1)) by lia.
  (* the closing quote *)
  assert (L5 : fileDataLine
               = (ws1 ++ String "#" EmptyString ++ ws2 ++ String d1 ds' ++ ws3
                  ++ String dquote EmptyString)
                 ++ String f1 F' ++ String dquote EmptyString).
  { rewrite Hline. unfold tail. norm_append. reflexivity. }
  assert (S5 : size (ws1 ++ String "#" EmptyString ++ ws2 ++ String d1 ds' ++ ws3
                     ++ String dquote EmptyString)
               = size ws1 + 1 + size ws2 + N.succ (size ds') + size ws3 + 1).
  { repeat (rewrite size_append || rewrite size_String).
    change (size EmptyString) with 0. lia. }
  assert (E5 : find_first_of fileDataLine dquote
                 (size ws1 + 1 + size ws2 + N.succ (size ds') + size ws3 + 1)
               = size ws1 + 1 + size ws2 + N.succ (size ds') + size ws3 + 1
                 + size (String f1 F')).
  { rewrite L5 at 1. rewrite <- S5. unfold find_first_of.
    apply find_hit; [|reflexivity].
    eapply all_chars_impl; [|exact QF]. intros c Hc. cbn beta in *.
    rewrite Ascii.eqb_sym. exact Hc. }
  rewrite E5, size_String.
  rewrite (ushort_small (size ws1 + 1 + size ws2 + N.succ (size ds') + size ws3 + 1
                         + N.succ (size F'))) by lia.
  destruct (N.eqb_spec (size ws1 + 1 + size ws2 + N.succ (size ds') + size ws3 + 1
                        + N.succ (size F')) npos) as [E|_]; [unfold npos in E; lia|].
  cbn [negb].
  destruct (N.ltb_spec (size ws1 + 1 + size ws2 + N.succ (size ds') + size ws3 + 1)
                       (size ws1 + 1 + size ws2 + N.succ (size ds') + size ws3 + 1
                        + N.succ (size F'))); [|lia].
  rewrite (ushort_small (size ws1 + 1 + size ws2 + N.succ (size ds') + size ws3 + 1
                         + N.succ (size F') + 1)) by lia.
  destruct (N.eqb_spec (size ws1 + 1 + size ws2 + N.succ (size ds') + size ws3 + 1
                        + N.succ (size F') + 1) (size fileDataLine)) as [_|NE]; [|lia].
  cbn [negb].
  replace (FileBuffer.count_between
             (size ws1 + 1 + size ws2 + N.succ (size ds') + size ws3 + 1)
             (size ws1 + 1 + size ws2 + N.succ (size ds') + size ws3 + 1
              + N.succ (size F')))
    with (size (String f1 F'))
    by (unfold FileBuffer.count_between; rewrite size_String;
        destruct (N.leb_spec
                    (size ws1 + 1 + size ws2 + N.succ (size ds') + size ws3 + 1)
                    (size ws1 + 1 + size ws2 + N.succ (size ds') + size ws3 + 1
                     + N.succ (size F'))); lia).
  rewrite L5 at 1. rewrite <- S5 at 1. rewrite substr_middle.
  do 3 f_equal. apply lineNo_minus_one. exact Hmax.
Qed.

Lemma search_cases (p : ascii -> bool) (pre suf : string) :
  (all_chars (fun c => negb (p c)) suf
   /\ find_if_from p (pre ++ suf) 0 (size pre) = npos)
  \/ (exists b c d,
        suf = b ++ String c d /\ all_chars (fun c => negb (p c)) b /\ p c = true
        /\ find_if_from p (pre ++ suf) 0 (size pre) = size pre + size b).
Proof.
  rewrite find_at_prefix.
  destruct (find_if_start p suf (size pre) (size pre)) as [H|H]; [lia|left|right]; exact H.
Qed.

Lemma ushort_ne_npos (n : N) : (FileBuffer.ushort n =? npos) = false.
Proof.
  apply N.eqb_neq. unfold FileBuffer.ushort, npos.
  pose proof (N.mod_upper_bound n 65536). lia.
Qed.

Lemma at_beyond (s : string) (i : N) : size s <= i -> at_ s i = None.
Proof. intros H. unfold at_. destruct (N.ltb_spec i (size s)); [lia|reflexivity]. Qed.

Lemma not_blank_char (c : ascii) : negb (mem c FileBuffer.blanks) = negb (is_blank c).
Proof. reflexivity. Qed.

(** A directive in which [findLocation] finds a location carries one. *)
Lemma findLocation_only_location (fileDataLine ws1 rest : string) (p : FilePosition.t) :
  size fileDataLine < 65535 ->
  fileDataLine = ws1 ++ String "#" rest -> all_chars is_blank ws1 ->
  FileBuffer.findLocation fileDataLine = Ok (Some p) ->
  exists F n,
    location_line fileDataLine F n /\ n <= 2147483647
    /\ p = FilePosition.mk F (Z.of_N n - 1).
Proof.
  intros Hsize Hline B1 Hfind.
  assert (Hlen0 : size fileDataLine = size ws1 + 1 + size rest).
  { rewrite Hline, size_append, size_String. lia. }
  unfold FileBuffer.findLocation in Hfind.
  (* the hash *)
  assert (E1 : find_first_of fileDataLine "#" 0 = size ws1).
  { rewrite Hline. unfold find_first_of.
    apply (find_hit (Ascii.eqb "#") EmptyString ws1); [|reflexivity].
    eapply all_chars_impl; [|exact B1]. intros c Hc.
    destruct (blank_facts c Hc) as (_ & -> & _). reflexivity. }
  rewrite !ushort_ne_npos in Hfind. cbn [negb] in Hfind. cbv iota in Hfind.
  rewrite E1, (ushort_small (size ws1)) in Hfind by lia.
  (* the text after the hash *)
  assert (L2 : fileDataLine = (ws1 ++ String "#" EmptyString) ++ rest).
  { rewrite Hline. norm_append. reflexivity. }
  assert (S2 : size (ws1 ++ String "#" EmptyString) = size ws1 + 1).
  { rewrite size_append. reflexivity. }
  unfold FileBuffer.burnSpaces, find_first_not_of, find_first_of in Hfind.
  destruct (search_cases (fun c => negb (mem c FileBuffer.blanks))
                         (ws1 ++ String "#" EmptyString) rest)
    as [[_ E2] | (ws2 & c1 & R1 & Hrest & B2 & Hc1 & E2)];
    rewrite <- L2, S2 in E2; rewrite E2 in Hfind.
  { rewrite ushort_npos, at_beyond in Hfind by lia. discriminate Hfind. }
  assert (Hlen1 : size rest = size ws2 + 1 + size R1).
  { rewrite Hrest, size_append, size_String. lia. }
  rewrite (ushort_small (size ws1 + 1 + size ws2)) in Hfind by lia.
  assert (L3 : fileDataLine = (ws1 ++ String "#" EmptyString ++ ws2) ++ String c1 R1).
  { rewrite Hline, Hrest. norm_append. reflexivity. }
  assert (S3 : size (ws1 ++ String "#" EmptyString ++ ws2) = size ws1 + 1 + size ws2).
  { rewrite !size_append. change (size (String "#" EmptyString)) with 1. lia. }
  assert (A2 : at_ fileDataLine (size ws1 + 1 + size ws2) = Some c1).
  { rewrite L3, <- S3. apply at_app_here. }
  rewrite A2 in Hfind. cbn [of_option bind] in Hfind.
  destruct (isdigit c1) eqn:Hd1; [|discriminate Hfind].
  (* the digits *)
  destruct (search_cases (fun c => negb (mem c "0123456789"))
                         (ws1 ++ String "#" EmptyString ++ ws2) (String c1 R1))
    as [[_ E3] | (ds & c2 & R2 & Hds & Dds & Hc2 & E3)];
    rewrite <- L3, S3 in E3; rewrite E3 in Hfind.
  { rewrite ushort_npos in Hfind.
    destruct (FileBuffer.atoi _); try discriminate Hfind. cbn [bind] in Hfind.
    rewrite (find_if_beyond _ fileDataLine 0 65535), ushort_npos, at_beyond in Hfind by lia.
    discriminate Hfind. }
  assert (Hlen2 : N.succ (size R1) = size ds + 1 + size R2).
  { rewrite <- (size_String c1 R1), Hds, size_append, size_String. lia. }
  assert (Hds' : ds <> EmptyString).
  { intros ->. rewrite append_Empty in Hds. injection Hds as -> _.
    rewrite mem_digits, Hd1 in Hc2. discriminate Hc2. }
  rewrite (ushort_small (size ws1 + 1 + size ws2 + size ds)) in Hfind by lia.
  replace (FileBuffer.count_between (size ws1 + 1 + size ws2)
                                    (size ws1 + 1 + size ws2 + size ds))
    with (size ds) in Hfind
    by (unfold FileBuffer.count_between;
        destruct (N.leb_spec (size ws1 + 1 + size ws2)
                             (size ws1 + 1 + size ws2 + size ds)); lia).
  assert (L4 : fileDataLine
               = (ws1 ++ String "#" EmptyString ++ ws2) ++ ds ++ String c2 R2).
  { rewrite L3, Hds. reflexivity. }
  assert (Hsub : substr fileDataLine (size ws1 + 1 + size ws2) (size ds) = ds).
  { rewrite L4, <- S3. apply substr_middle. }
  rewrite Hsub in Hfind. unfold FileBuffer.atoi in Hfind.
  destruct (N.leb_spec (FileBuffer.digits_value 0 ds) 2147483647) as [Hmax|];
    [|discriminate Hfind].
  cbn [bind] in Hfind.
  (* the opening quote *)
  assert (L5 : fileDataLine
               = (ws1 ++ String "#" EmptyString ++ ws2 ++ ds) ++ String c2 R2).
  { rewrite L4. norm_append. reflexivity. }
  assert (S5 : size (ws1 ++ String "#" EmptyString ++ ws2 ++ ds)
               = size ws1 + 1 + size ws2 + size ds).
  { rewrite !size_append. change (size (String "#" EmptyString)) with 1. lia. }
  destruct (search_cases (fun c => negb (mem c FileBuffer.blanks))
                         (ws1 ++ String "#" EmptyString ++ ws2 ++ ds) (String c2 R2))
    as [[_ E4] | (ws3 & c3 & R3 & Hws3 & B3 & Hc3 & E4)];
    rewrite <- L5, S5 in E4; rewrite E4 in Hfind.
  { rewrite ushort_npos, at_beyond in Hfind by lia. discriminate Hfind. }
  assert (Hlen3 : N.succ (size R2) = size ws3 + 1 + size R3).
  { rewrite <- (size_String c2 R2), Hws3, size_append, size_String. lia. }
  rewrite (ushort_small (size ws1 + 1 + size ws2 + size ds + size ws3)) in Hfind by lia.
  assert (L6 : fileDataLine
               = (ws1 ++ String "#" EmptyString ++ ws2 ++ ds ++ ws3) ++ String c3 R3).
  { rewrite L5, Hws3. norm_append. reflexivity. }
  assert (S6 : size (ws1 ++ String "#" EmptyString ++ ws2 ++ ds ++ ws3)
               = size ws1 + 1 + size ws2 + size ds + size ws3).
  { rewrite !size_append. change (size (String "#" EmptyString)) with 1. lia. }
  assert (A4 : at_ fileDataLine (size ws1 + 1 + size ws2 + size ds + size ws3) = Some c3).
  { rewrite L6, <- S6. apply at_app_here. }
  rewrite A4 in Hfind. cbn [of_option bind] in Hfind.
  destruct (Ascii.eqb c3 dquote) eqn:Hq3; [|discriminate Hfind].
  apply Ascii.eqb_eq in Hq3. subst c3.
  rewrite (ushort_small (size ws1 + 1 + size ws2 + size ds + size ws3 + 1)) in Hfind by lia.
  (* the name and the closing quote *)
  assert (L7 : fileDataLine
               = (ws1 ++ String "#" EmptyString ++ ws2 ++ ds ++ ws3
                  ++ String dquote EmptyString) ++ R3).
  { rewrite L6. norm_append. reflexivity. }
  assert (S7 : size (ws1 ++ String "#" EmptyString ++ ws2 ++ ds ++ ws3
                     ++ String dquote EmptyString)
               = size ws1 + 1 + size ws2 + size ds + size ws3 + 1).
  { rewrite !size_append. change (size (String "#" EmptyString)) with 1.
    change (size (String dquote EmptyString)) with 1. lia. }
  destruct (search_cases (Ascii.eqb dquote)
                         (ws1 ++ String "#" EmptyString ++ ws2 ++ ds ++ ws3
                          ++ String dquote EmptyString) R3)
    as [[_ E5] | (F & c4 & R4 & HF & QF & Hc4 & E5)];
    rewrite <- L7, S7 in E5; rewrite E5 in Hfind.
  { rewrite ushort_npos in Hfind.
    destruct (N.ltb_spec (size ws1 + 1 + size ws2 + size ds + size ws3 + 1) 65535);
      [|discriminate Hfind].
    change (FileBuffer.ushort (65535 + 1)) with 0 in Hfind.
    destruct (N.eqb_spec 0 (size fileDataLine)); [lia|]. discriminate Hfind. }
  apply Ascii.eqb_eq in Hc4. subst c4.
  assert (Hlen4 : size R3 = size F + 1 + size R4).
  { rewrite HF, size_append, size_String. lia. }
  rewrite (ushort_small (size ws1 + 1 + size ws2 + size ds + size ws3 + 1 + size F))
    in Hfind by lia.
  destruct (N.ltb_spec (size ws1 + 1 + size ws2 + size ds + size ws3 + 1)
                       (size ws1 + 1 + size ws2 + size ds + size ws3 + 1 + size F))
    as [HFlen|]; [|discriminate Hfind].
  rewrite (ushort_small (size ws1 + 1 + size ws2 + size ds + size ws3 + 1 + size F + 1))
    in Hfind by lia.
  destruct (N.eqb_spec (size ws1 + 1 + size ws2 + size ds + size ws3 + 1 + size F + 1)
                       (size fileDataLine)) as [Hend|]; [|discriminate Hfind].
  cbn [negb] in Hfind.
  assert (R4 = EmptyString) as ->.
  { destruct R4; [reflexivity|]. rewrite size_String in Hlen4. lia. }
  replace (FileBuffer.count_between
             (size ws1 + 1 + size ws2 + size ds + size ws3 + 1)
             (size ws1 + 1 + size ws2 + size ds + size ws3 + 1 + size F))
    with (size F) in Hfind
    by (unfold FileBuffer.count_between;
        destruct (N.leb_spec (size ws1 + 1 + size ws2 + size ds + size ws3 + 1)
                             (size ws1 + 1 + size ws2 + size ds + size ws3 + 1 + size F));
        lia).
  assert (L8 : fileDataLine
               = (ws1 ++ String "#" EmptyString ++ ws2 ++ ds ++ ws3
                  ++ String dquote EmptyString) ++ F ++ String dquote EmptyString).
  { rewrite L7, HF. reflexivity. }
  assert (Hname : substr fileDataLine
                    (size ws1 + 1 + size ws2 + size ds + size ws3 + 1) (size F) = F).
  { rewrite L8, <- S7. apply substr_middle. }
  rewrite Hname in Hfind. injection Hfind as <-.
  exists F, (FileBuffer.digits_value 0 ds).
  split; [|split; [exact Hmax|f_equal; apply lineNo_minus_one; exact Hmax]].
  exists ws1, ws2, ds, ws3.
  split; [rewrite L8; norm_append; reflexivity|].
  split; [exact B1|].
  split; [eapply all_chars_impl; [|exact B2]; intros c Hc; cbn beta in Hc;
          rewrite negb_involutive in Hc; exact Hc|].
  split; [eapply all_chars_impl; [|exact B3]; intros c Hc; cbn beta in Hc;
          rewrite negb_involutive in Hc; exact Hc|].
  split; [exact Hds'|].
  split; [eapply all_chars_impl; [|exact Dds]; intros c Hc; cbn beta in Hc;
          rewrite negb_involutive, mem_digits in Hc; exact Hc|].
  split; [reflexivity|].
  split; [intros ->; change (size EmptyString) with 0 in HFlen; lia|].
  eapply all_chars_impl; [|exact QF]. intros c Hc. cbn beta in *.
  rewrite Ascii.eqb_sym. exact Hc.
Qed.

(** ** Lines that are not directives *)

Lemma find_if_range (p : ascii -> bool) (s : string) (i pos : N) :
  find_if_from p s i pos = npos
  \/ (pos <= find_if_from p s i pos /\ i <= find_if_from p s i pos
      /\ find_if_from p s i pos < i + size s).
Proof.
  revert i. induction s as [|c s IH]; intros i; [left; reflexivity|].
  cbn [find_if_from]. rewrite size_String.
  destruct (N.leb_spec pos i); cbn [andb].
  - destruct (p c); [right; lia|].
    destruct (IH (N.succ i)) as [E|E]; [left; exact E|right; lia].
  - destruct (IH (N.succ i)) as [E|E]; [left; exact E|right; lia].
Qed.

Lemma find_str_range (a : ascii) (pat s : string) (i pos : N) :
  find_str_from (String a pat) s i pos = npos
  \/ (pos <= find_str_from (String a pat) s i pos
      /\ find_str_from (String a pat) s i pos < i + size s).
Proof.
  revert i. induction s as [|c s IH]; intros i.
  - left. cbn. rewrite andb_false_r. reflexivity.
  - cbn [find_str_from]. rewrite size_String.
    destruct ((pos <=? i) && String.prefix (String a pat) (String c s)) eqn:E.
    + apply andb_true_iff in E as [E _]. apply N.leb_le in E. right. lia.
    + destruct (IH (N.succ i)) as [H|H]; [left; exact H|right; lia].
Qed.

Lemma nextOpenQuote_loop_range (fuel : nat) (buffer : string) (pos : N) :
  FileBuffer.nextOpenQuote_loop fuel buffer pos = npos
  \/ (pos <= FileBuffer.nextOpenQuote_loop fuel buffer pos
      /\ FileBuffer.nextOpenQuote_loop fuel buffer pos < size buffer).
Proof.
  revert pos. induction fuel as [|fuel IH]; intros pos; [left; reflexivity|].
  cbn [FileBuffer.nextOpenQuote_loop]. unfold find_first_of.
  destruct (find_if_range (Ascii.eqb dquote) buffer 0 pos) as [E|E].
  - rewrite E. left. reflexivity.
  - set (r := find_if_from (Ascii.eqb dquote) buffer 0 pos) in *.
    destruct (r =? npos); [left; reflexivity|].
    match goal with |- context [if ?b then r else _] => destruct b end; [right; lia|].
    destruct (IH (r + 1)) as [H|H]; [left; exact H|right; lia].
Qed.

Lemma nextOpenQuote_range (buffer : string) (pos : N) :
  FileBuffer.nextOpenQuote buffer pos = npos
  \/ (pos <= FileBuffer.nextOpenQuote buffer pos
      /\ FileBuffer.nextOpenQuote buffer pos < size buffer).
Proof.
  unfold FileBuffer.nextOpenQuote. destruct (pos =? npos); [left; reflexivity|].
  apply nextOpenQuote_loop_range.
Qed.

Lemma nextCloseQuote_loop_range (fuel : nat) (buffer : string) (pos : N) :
  FileBuffer.nextCloseQuote_loop fuel buffer pos = npos
  \/ (pos <= FileBuffer.nextCloseQuote_loop fuel buffer pos
      /\ FileBuffer.nextCloseQuote_loop fuel buffer pos < size buffer).
Proof.
  revert pos. induction fuel as [|fuel IH]; intros pos; [left; reflexivity|].
  cbn [FileBuffer.nextCloseQuote_loop]. unfold find_first_of.
  destruct (find_if_range (Ascii.eqb dquote) buffer 0 pos) as [E|E].
  - rewrite E. left. reflexivity.
  - set (r := find_if_from (Ascii.eqb dquote) buffer 0 pos) in *.
    destruct (r =? npos); [left; reflexivity|].
    match goal with |- context [if ?b then r else _] => destruct b end; [right; lia|].
    destruct (IH (r + 1)) as [H|H]; [left; exact H|right; lia].
Qed.

Lemma nextCloseQuote_range (buffer : string) (pos : N) :
  FileBuffer.nextCloseQuote buffer pos = npos
  \/ (pos <= FileBuffer.nextCloseQuote buffer pos
      /\ FileBuffer.nextCloseQuote buffer pos < size buffer).
Proof.
  unfold FileBuffer.nextCloseQuote. destruct (pos =? npos); [left; reflexivity|].
  apply nextCloseQuote_loop_range.
Qed.

Definition weight (line : string) (e : N) (s : FileBuffer.TextState) : N :=
  2 * (size line - e) + (if FileBuffer.TextState_eqb s FileBuffer.other then 1 else 0).

(** What the scan of a line that is no directive leaves alone. *)
Definition unchanged (st st' : FileBuffer.t) : Prop :=
  FileBuffer._file st' = FileBuffer._file st
  /\ FileBuffer._sourcePosition st' = FileBuffer._sourcePosition st
  /\ FileBuffer._bufferPosition st' = FileBuffer._bufferPosition st
  /\ FileBuffer._inputPosition st' = FileBuffer._inputPosition st.

Ltac step_done Hcur :=
  do 3 eexists; split; [reflexivity|]; unfold unchanged; cbn; rewrite ?Hcur; cbn;
  split; [repeat split|]; split; [congruence|]; split; [congruence|].

Lemma scanStep_plain (line : string) (e : N) (ns : FileBuffer.TextState) (st : FileBuffer.t) :
  FileBuffer._currState st <> FileBuffer.preproc -> ns <> FileBuffer.preproc ->
  exists e' ns' st',
    FileBuffer.scanStep line e ns st = Ok (e', ns', st')
    /\ unchanged st st'
    /\ ns' <> FileBuffer.preproc
    /\ FileBuffer._currState st' <> FileBuffer.preproc
    /\ (e' = npos
        \/ (e' < size line
            /\ weight line e' (FileBuffer._currState st')
               < weight line e (FileBuffer._currState st))).
Proof.
  intros Hst Hns. unfold FileBuffer.scanStep, weight.
  destruct (FileBuffer._currState st) eqn:Hcur; [| |contradiction|].
  - (* comment *)
    set (from := if negb (FileBuffer._haveWrap st) then e + 2 else e).
    assert (Hfrom : e <= from) by (unfold from; destruct (negb _); lia).
    unfold find.
    destruct (find_str_range "*" "/" line 0 from) as [E|E].
    + rewrite E. cbn. destruct (size line <=? npos); step_done Hcur; left; reflexivity.
    + set (r := find_str_from "*/" line 0 from) in *.
      destruct (N.eqb_spec r npos) as [Hr|Hr]; cbn.
      * destruct (size line <=? r); step_done Hcur; left; congruence.
      * destruct (N.leb_spec (size line) (r + 2)); step_done Hcur;
          [left; reflexivity|right; lia].
  - (* quote *)
    set (from := if negb (FileBuffer._haveWrap st) then e + 1 else e).
    assert (Hfrom : e <= from) by (unfold from; destruct (negb _); lia).
    destruct (nextCloseQuote_range line from) as [E|E].
    + rewrite E. cbn.
      destruct (negb (FileBuffer.hasEscNewline _ true));
        destruct (size line <=? npos); step_done Hcur; left; reflexivity.
    + set (r := FileBuffer.nextCloseQuote line from) in *.
      destruct (N.eqb_spec r npos) as [Hr|Hr]; cbn.
      * destruct (negb (FileBuffer.hasEscNewline _ true));
          destruct (size line <=? r); step_done Hcur; left; congruence.
      * destruct (N.leb_spec (size line) (r + 1)); step_done Hcur;
          [left; reflexivity|right; lia].
  - (* other *)
    unfold find.
    pose proof (nextOpenQuote_range line e) as Eq.
    pose proof (find_str_range "/" "*" line 0 e) as Ec.
    set (q := FileBuffer.nextOpenQuote line e) in *.
    set (c := find_str_from "/*" line 0 e) in *.
    destruct (N.eqb_spec q npos) as [Hq|Hq]; destruct (N.eqb_spec c npos) as [Hc|Hc];
      cbn [andb orb].
    + cbn. destruct (size line <=? npos); step_done Hcur; left; reflexivity.
    + cbn. destruct (e <? c); destruct (N.leb_spec (size line) c); step_done Hcur;
        (left; reflexivity) || (right; lia).
    + destruct (N.ltb_spec c q); cbn;
        [destruct (e <? c); destruct (N.leb_spec (size line) c)
        |destruct (e <? q); destruct (N.leb_spec (size line) q)];
        step_done Hcur; (left; first [reflexivity|assumption]) || (right; lia).
    + destruct (N.ltb_spec c q); cbn;
        [destruct (e <? c); destruct (N.leb_spec (size line) c)
        |destruct (e <? q); destruct (N.leb_spec (size line) q)];
        step_done Hcur; (left; first [reflexivity|assumption]) || (right; lia).
Qed.

Lemma unchanged_refl (st : FileBuffer.t) : unchanged st st.
Proof. repeat split. Qed.

Lemma unchanged_trans (a b c : FileBuffer.t) : unchanged a b -> unchanged b c -> unchanged a c.
Proof. unfold unchanged. intros (? & ? & ? & ?) (? & ? & ? & ?). repeat split; congruence. Qed.

Lemma scanLine_plain (line : string) (fuel : nat) :
  forall (e : N) (ns : FileBuffer.TextState) (st : FileBuffer.t),
    FileBuffer._currState st <> FileBuffer.preproc -> ns <> FileBuffer.preproc ->
    (N.to_nat (weight line e (FileBuffer._currState st)) < fuel)%nat ->
    exists ns' st',
      FileBuffer.scanLine fuel line e ns st = Ok (ns', st')
      /\ unchanged st st'
      /\ ns' <> FileBuffer.preproc
      /\ FileBuffer._currState st' <> FileBuffer.preproc.
Proof.
  induction fuel as [|fuel IH]; intros e ns st Hst Hns Hfuel; [lia|].
  cbn [FileBuffer.scanLine].
  destruct (e =? npos).
  { exists ns, st. split; [reflexivity|]. split; [apply unchanged_refl|]. split; assumption. }
  destruct (scanStep_plain line e ns st Hst Hns)
    as (e' & ns' & st' & Hstep & Hun & Hns' & Hst' & Hend).
  rewrite Hstep. cbn [bind].
  destruct Hend as [->|[_ Hw]].
  - destruct fuel; cbn [FileBuffer.scanLine]; change (npos =? npos) with true; cbv iota;
      exists ns', st'; repeat split; try assumption; apply Hun.
  - destruct (IH e' ns' st' Hst' Hns') as (ns2 & st2 & Hrun & Hun2 & Hns2 & Hst2); [lia|].
    exists ns2, st2. split; [exact Hrun|]. split; [|split; assumption].
    eapply unchanged_trans; eassumption.
Qed.

(** A directive: a line whose first character that is no space or tab is a hash. *)
Definition directive (fileDataLine : string) : Prop :=
  exists ws rest, fileDataLine = ws ++ String "#" rest /\ all_chars is_blank ws.

(** The test of [fetchNextLine] for a directive. *)
Definition hash_first (fileDataLine : string) : bool :=
  let firstChar := FileBuffer.burnSpaces fileDataLine 0 in
  negb (firstChar =? npos) && FileBuffer.char_is fileDataLine firstChar "#".

Lemma blanks_skipped (ws : string) :
  all_chars is_blank ws ->
  all_chars (fun c => negb (negb (mem c FileBuffer.blanks))) ws.
Proof.
  apply all_chars_impl. intros c Hc. rewrite negb_involutive. exact Hc.
Qed.

Lemma burnSpaces_directive (ws rest : string) :
  all_chars is_blank ws ->
  FileBuffer.burnSpaces (ws ++ String "#" rest) 0 = size ws.
Proof.
  intros Hws. unfold FileBuffer.burnSpaces, find_first_not_of.
  pose proof (find_hit (fun c => negb (mem c FileBuffer.blanks)) EmptyString ws rest "#"
                       (blanks_skipped ws Hws) eq_refl) as H.
  rewrite append_Empty in H. exact H.
Qed.

Lemma hash_first_true (fileDataLine : string) :
  size fileDataLine < npos -> directive fileDataLine -> hash_first fileDataLine = true.
Proof.
  intros Hsize (ws & rest & -> & Hws). unfold hash_first. cbv zeta.
  rewrite burnSpaces_directive by exact Hws.
  rewrite size_append in Hsize.
  destruct (N.eqb_spec (size ws) npos); [lia|].
  unfold FileBuffer.char_is. rewrite at_app_here. reflexivity.
Qed.

Lemma hash_first_false (fileDataLine : string) :
  ~ directive fileDataLine -> hash_first fileDataLine = false.
Proof.
  intros Hno. unfold hash_first, FileBuffer.burnSpaces, find_first_not_of. cbv zeta.
  destruct (find_if_start (fun c => negb (mem c FileBuffer.blanks)) fileDataLine 0 0)
    as [[_ E] | (b & c & d & HL & Hb & Hc & E)]; [lia| |]; rewrite E.
  - reflexivity.
  - rewrite N.add_0_l. unfold FileBuffer.char_is. rewrite HL, at_app_here.
    destruct (Ascii.eqb_spec c "#") as [->|]; [|apply andb_false_r].
    exfalso. apply Hno. exists b, d. split; [exact HL|].
    eapply all_chars_impl; [|exact Hb]. intros a Ha. cbn beta in Ha.
    rewrite negb_involutive in Ha. exact Ha.
Qed.

(** A line that is no directive, read outside a directive: the inner loop
    ends, and the line counters have moved on by one. *)
Lemma processLine_plain (fileDataLine : string) (ns : FileBuffer.TextState)
      (st : FileBuffer.t) :
  FileBuffer._currState st <> FileBuffer.preproc -> ns <> FileBuffer.preproc ->
  ~ directive fileDataLine ->
  exists ns' st',
    FileBuffer.processLine fileDataLine ns st = Ok (ns', st')
    /\ FileBuffer._file st' = FileBuffer._file st
    /\ FileBuffer._sourcePosition st' = FileBuffer._sourcePosition st
    /\ FileBuffer._bufferPosition st'
       = FilePosition.incrLine (FileBuffer._bufferPosition st)
    /\ FileBuffer._inputPosition st'
       = FilePosition.incrLine (FileBuffer._inputPosition st)
    /\ ns' <> FileBuffer.preproc
    /\ FileBuffer._currState st' <> FileBuffer.preproc.
Proof.
  intros Hst Hns Hno. unfold FileBuffer.processLine. cbv zeta.
  pose proof (hash_first_false fileDataLine Hno) as Hh.
  unfold hash_first in Hh. cbv zeta in Hh. rewrite Hh.
  set (st0 := FileBuffer.set_inputPosition _ _).
  assert (Hst0 : (if FileBuffer.TextState_eqb (FileBuffer._currState st0) FileBuffer.other
                  then st0 else st0) = st0) by (destruct (FileBuffer.TextState_eqb _ _); reflexivity).
  rewrite Hst0.
  destruct (scanLine_plain fileDataLine (2 * String.length fileDataLine + 2) 0 ns st0)
    as (ns' & st' & Hrun & (H1 & H2 & H3 & H4) & Hns' & Hst'); [exact Hst|exact Hns| |].
  { unfold weight, size. destruct (FileBuffer.TextState_eqb _ _); lia. }
  rewrite Hrun. cbn [bind].
  match goal with |- context [if ?b then _ else _] => destruct b end;
    do 2 eexists; (split; [reflexivity|]); cbn;
    rewrite ?H1, ?H2, ?H3, ?H4; repeat split; assumption.
Qed.

(** ** Directives *)

Lemma location_is_directive (fileDataLine F : string) (n : N) :
  location_line fileDataLine F n -> directive fileDataLine.
Proof.
  intros (ws1 & ws2 & ds & ws3 & HL & B1 & _). exists ws1. eexists. split; [exact HL|exact B1].
Qed.

Lemma location_no_wrap (fileDataLine F : string) (n : N) :
  location_line fileDataLine F n -> size fileDataLine < npos ->
  FileBuffer.hasEscNewline fileDataLine false = false.
Proof.
  intros (ws1 & ws2 & ds & ws3 & HL & _) Hsize.
  assert (HX : exists X, fileDataLine = X ++ String dquote EmptyString).
  { exists (ws1 ++ String "#" (ws2 ++ ds ++ ws3 ++ String dquote F)).
    rewrite HL. norm_append. reflexivity. }
  destruct HX as [X ->]. rewrite size_append in Hsize.
  unfold FileBuffer.hasEscNewline, FileBuffer.getEscNewline, find_last_not_of.
  rewrite find_last_snoc.
  destruct (N.leb_spec (size X) npos); [|lia]. cbn [andb].
  change (negb (mem dquote FileBuffer.blanks)) with true. cbv iota.
  destruct (N.eqb_spec (size X) npos); [lia|]. cbn [negb].
  unfold FileBuffer.char_is. rewrite at_app_here.
  reflexivity.
Qed.

Lemma scanLine_npos (fuel : nat) (line : string) (ns : FileBuffer.TextState)
      (st : FileBuffer.t) :
  FileBuffer.scanLine fuel line npos ns st = Ok (ns, st).
Proof. destruct fuel; reflexivity. Qed.

Lemma if_same {A : Type} (b : bool) (x : A) : (if b then x else x) = x.
Proof. destruct b; reflexivity. Qed.

Ltac run_directive Hh :=
  unfold FileBuffer.processLine; cbv zeta;
  unfold hash_first in Hh; cbv zeta in Hh;
  cbn [FileBuffer._currState FileBuffer.set_bufferPosition FileBuffer.set_inputPosition
       FileBuffer._file FileBuffer._sourcePosition FileBuffer._bufferPosition
       FileBuffer._inputPosition FileBuffer._buffer FileBuffer._haveWrap FileBuffer.cout
       FileBuffer.TextState_eqb];
  rewrite Hh;
  match goal with
  | |- context [FileBuffer.scanLine ?f _ _ _ _] =>
      replace f with (S (Nat.pred f)) by lia
  end;
  cbn [FileBuffer.scanLine]; change (0 =? npos) with false; cbv iota;
  unfold FileBuffer.scanStep, FileBuffer.handlePreproc;
  cbn [FileBuffer._currState FileBuffer.set_bufferPosition FileBuffer.set_inputPosition
       FileBuffer.set_currState FileBuffer.set_haveWrap FileBuffer.set_buffer
       FileBuffer.warn
       FileBuffer._file FileBuffer._sourcePosition FileBuffer._bufferPosition
       FileBuffer._inputPosition FileBuffer._buffer FileBuffer._haveWrap FileBuffer.cout].

Ltac end_directive :=
  cbn -[N.leb size String.length Nat.mul Nat.add Nat.pred FileBuffer.scanLine
        FileBuffer.burnSpaces FileBuffer.getEscNewline];
  rewrite ?if_same, scanLine_npos; reflexivity.

(** A source location read outside comments and strings. *)
Lemma processLine_location (fileDataLine F : string) (n : N) (ns : FileBuffer.TextState)
      (st : FileBuffer.t) :
  location_line fileDataLine F n -> size fileDataLine < 65535 -> n <= 2147483647 ->
  FileBuffer._currState st = FileBuffer.other -> FileBuffer._buffer st = EmptyString ->
  FileBuffer.processLine fileDataLine ns st
  = Ok (FileBuffer.other,
        FileBuffer.mk (FileBuffer._file st) (FileBuffer._sourcePosition st)
                      (FilePosition.mk F (Z.of_N n - 1))
                      (FilePosition.incrLine (FileBuffer._inputPosition st))
                      EmptyString FileBuffer.other false (FileBuffer.cout st)).
Proof.
  intros Hloc Hsize Hn Hcur Hbuf.
  pose proof (hash_first_true fileDataLine ltac:(unfold npos; lia)
                              (location_is_directive _ _ _ Hloc)) as Hh.
  pose proof (location_no_wrap _ _ _ Hloc ltac:(unfold npos; lia)) as Hesc.
  pose proof (findLocation_location _ _ _ Hloc Hsize Hn) as Hfind.
  destruct st as [f sp bp ip b cs hw co]. cbn in Hcur, Hbuf. subst cs b.
  run_directive Hh.
  rewrite Hesc, Hfind. end_directive.
Qed.

(** A directive that goes on in the next line. *)
Lemma processLine_continued (fileDataLine : string) (ns : FileBuffer.TextState)
      (st : FileBuffer.t) :
  directive fileDataLine -> size fileDataLine < npos ->
  FileBuffer.hasEscNewline fileDataLine false = true ->
  FileBuffer._currState st = FileBuffer.other -> FileBuffer._buffer st = EmptyString ->
  FileBuffer.processLine fileDataLine ns st
  = Ok (ns,
        FileBuffer.mk (FileBuffer._file st) (FileBuffer._sourcePosition st)
                      (FilePosition.incrLine (FileBuffer._bufferPosition st))
                      (FilePosition.incrLine (FileBuffer._inputPosition st))
                      EmptyString FileBuffer.preproc true
                      (FileBuffer.cout st
                       ++ [FileBuffer.PreprocIgnored
                             fileDataLine
                             (FilePosition.incrLine (FileBuffer._inputPosition st))])%list).
Proof.
  intros Hdir Hsize Hesc Hcur Hbuf.
  pose proof (hash_first_true fileDataLine Hsize Hdir) as Hh.
  destruct st as [f sp bp ip b cs hw co]. cbn in Hcur, Hbuf. subst cs b.
  run_directive Hh.
  rewrite Hesc. end_directive.
Qed.

(** Any other directive. *)
Lemma processLine_no_location (fileDataLine : string) (ns : FileBuffer.TextState)
      (st : FileBuffer.t) :
  directive fileDataLine -> size fileDataLine < npos ->
  FileBuffer.hasEscNewline fileDataLine false = false ->
  FileBuffer.findLocation fileDataLine = Ok None ->
  FileBuffer._currState st = FileBuffer.other -> FileBuffer._buffer st = EmptyString ->
  FileBuffer.processLine fileDataLine ns st
  = Ok (FileBuffer.other,
        FileBuffer.mk (FileBuffer._file st) (FileBuffer._sourcePosition st)
                      (FilePosition.incrLine (FileBuffer._bufferPosition st))
                      (FilePosition.incrLine (FileBuffer._inputPosition st))
                      EmptyString FileBuffer.other false
                      (FileBuffer.cout st
                       ++ [FileBuffer.PreprocIgnored
                             fileDataLine
                             (FilePosition.incrLine (FileBuffer._inputPosition st))])%list).
Proof.
  intros Hdir Hsize Hesc Hfind Hcur Hbuf.
  pose proof (hash_first_true fileDataLine Hsize Hdir) as Hh.
  destruct st as [f sp bp ip b cs hw co]. cbn in Hcur, Hbuf. subst cs b.
  run_directive Hh.
  rewrite Hesc, Hfind. end_directive.
Qed.

(** ** The position of the line handed out *)

Ltac split_ifs :=
  repeat (match goal with
          | |- context [if ?b then _ else _] => destruct b
          end; cbn).

Lemma handlePreproc_sourcePosition (fileDataLine : string) (st : FileBuffer.t) :
  match FileBuffer.handlePreproc fileDataLine st with
  | Ok st' => FileBuffer._sourcePosition st' = FileBuffer._sourcePosition st
  | _ => True
  end.
Proof.
  unfold FileBuffer.handlePreproc. cbv zeta.
  destruct (if _ && _ then FileBuffer.findLocation fileDataLine else Ok None)
    as [[p|]| | |]; cbn [bind]; try exact I; split_ifs; reflexivity.
Qed.

Lemma scanStep_sourcePosition (line : string) (e : N) (ns : FileBuffer.TextState)
      (st : FileBuffer.t) :
  match FileBuffer.scanStep line e ns st with
  | Ok (_, _, st') => FileBuffer._sourcePosition st' = FileBuffer._sourcePosition st
  | _ => True
  end.
Proof.
  unfold FileBuffer.scanStep. cbv zeta.
  destruct (FileBuffer._currState st).
  - cbn. split_ifs; reflexivity.
  - cbn. split_ifs; reflexivity.
  - pose proof (handlePreproc_sourcePosition line st) as E.
    destruct (FileBuffer.handlePreproc line st) as [st1| | |]; cbn [bind]; try exact I.
    split_ifs; exact E.
  - cbn. split_ifs; reflexivity.
Qed.

Lemma scanLine_sourcePosition (line : string) (fuel : nat) :
  forall (e : N) (ns : FileBuffer.TextState) (st : FileBuffer.t),
    match FileBuffer.scanLine fuel line e ns st with
    | Ok (_, st') => FileBuffer._sourcePosition st' = FileBuffer._sourcePosition st
    | _ => True
    end.
Proof.
  induction fuel as [|fuel IH]; intros e ns st; cbn [FileBuffer.scanLine];
    destruct (e =? npos); try reflexivity; try exact I.
  pose proof (scanStep_sourcePosition line e ns st) as E.
  destruct (FileBuffer.scanStep line e ns st) as [[[e1 ns1] st1]| | |];
    cbn [bind]; try exact I.
  specialize (IH e1 ns1 st1).
  destruct (FileBuffer.scanLine fuel line e1 ns1 st1) as [[ns2 st2]| | |]; try exact I.
  congruence.
Qed.

Lemma processLine_sourcePosition (line : string) (ns : FileBuffer.TextState)
      (st : FileBuffer.t) :
  match FileBuffer.processLine line ns st with
  | Ok (_, st') => FileBuffer._sourcePosition st' = FileBuffer._sourcePosition st
  | _ => True
  end.
Proof.
  unfold FileBuffer.processLine. cbv zeta.
  match goal with
  | |- context [FileBuffer.scanLine ?f ?l ?e ?n ?s] =>
      pose proof (scanLine_sourcePosition l f e n s) as E;
      destruct (FileBuffer.scanLine f l e n s) as [[ns1 st1]| | |]
  end; cbn [bind]; try exact I.
  assert (E' : FileBuffer._sourcePosition st1 = FileBuffer._sourcePosition st).
  { rewrite E. split_ifs; reflexivity. }
  split_ifs; exact E'.
Qed.

Lemma fetchLoop_sourcePosition (lines : list string) :
  forall (ns : FileBuffer.TextState) (st : FileBuffer.t),
    match FileBuffer.fetchLoop lines ns st with
    | Ok st' => FileBuffer._sourcePosition st' = FileBuffer._sourcePosition st
    | _ => True
    end.
Proof.
  induction lines as [|line rest IH]; intros ns st; cbn [FileBuffer.fetchLoop];
    [reflexivity|].
  destruct (negb (String.eqb (FileBuffer._buffer st) EmptyString)); [reflexivity|].
  pose proof (processLine_sourcePosition line ns (FileBuffer.set_file st rest)) as E.
  destruct (FileBuffer.processLine line ns (FileBuffer.set_file st rest))
    as [[ns1 st1]| | |]; cbn [bind]; try exact I.
  specialize (IH ns1 st1).
  destruct (FileBuffer.fetchLoop rest ns1 st1); try exact I.
  rewrite IH, E. reflexivity.
Qed.

(** The position that goes with the line [operator>>] hands out is the one
    the buffer had when the line was completed. *)
Lemma read_position (st st' : FileBuffer.t) (line : string) :
  FileBuffer.read st = Ok (line, st') ->
  line = FileBuffer._buffer st
  /\ FileBuffer.getFilePosition st' = FileBuffer._bufferPosition st.
Proof.
  unfold FileBuffer.read, FileBuffer.fetchNextLine, FileBuffer.getFilePosition. cbv zeta.
  match goal with
  | |- context [FileBuffer.fetchLoop ?l ?n ?s] =>
      pose proof (fetchLoop_sourcePosition l n s) as E;
      destruct (FileBuffer.fetchLoop l n s) as [st1| | |]
  end; cbn [bind]; intros H; try discriminate H.
  injection H as <- <-. split; [reflexivity|exact E].
Qed.

Lemma findLocation_result (fileDataLine : string) :
  FileBuffer.findLocation fileDataLine = Undefined
  \/ exists location, FileBuffer.findLocation fileDataLine = Ok location.
Proof.
  unfold FileBuffer.findLocation, FileBuffer.atoi. cbv zeta.
  repeat (match goal with
          | |- context [of_option ?o] => destruct o; cbn [of_option bind]
          | |- context [if ?b then _ else _] => destruct b; cbn [bind]
          end);
    (left; reflexivity) || (right; eexists; reflexivity).
Qed.

Lemma set_file_same (st : FileBuffer.t) (lines : list string) :
  FileBuffer._file st = lines -> FileBuffer.set_file st lines = st.
Proof. destruct st. cbn. intros <-. reflexivity. Qed.

Lemma fetchLoop_full (lines : list string) (ns : FileBuffer.TextState) (st : FileBuffer.t) :
  FileBuffer._buffer st <> EmptyString -> FileBuffer._file st = lines ->
  FileBuffer.fetchLoop lines ns st = Ok st.
Proof.
  intros Hbuf Hfile. destruct lines as [|line rest]; cbn [FileBuffer.fetchLoop].
  - rewrite set_file_same by exact Hfile. reflexivity.
  - destruct (String.eqb_spec (FileBuffer._buffer st) EmptyString); [contradiction|].
    cbn [negb]. rewrite set_file_same by exact Hfile. reflexivity.
Qed.

Lemma fetchLoop_empty (line : string) (rest : list string) (ns : FileBuffer.TextState)
      (st : FileBuffer.t) :
  FileBuffer._buffer st = EmptyString ->
  FileBuffer.fetchLoop (line :: rest) ns st
  = let* (nextState, st) := FileBuffer.processLine line ns (FileBuffer.set_file st rest) in
    FileBuffer.fetchLoop rest nextState st.
Proof. intros Hbuf. cbn [FileBuffer.fetchLoop]. rewrite Hbuf. reflexivity. Qed.

End LineDirective.

(** C1 (line-directive fidelity), in the form the code has.  Let a
    directive (a line whose first character other than spaces and tabs is a
    hash) of fewer than 65535 characters be the next line of the file, read
    outside comments and strings.
    - If it is a source location (a hash, the digits of [n], the name [F] in
      double quotes, and nothing after the closing quote), the loop of
      [fetchNextLine] goes on with the position reset to [(F, n - 1)], no
      message and an empty buffer; the line after it, if it is no directive,
      is read at [(F, n)], and if its cleaned text is not empty that text is
      what [fetchNextLine] stops at and what [operator>>] hands out with the
      position [(F, n)].
    - If it is no source location, also when spaces and tabs after
      the closing quote are let pass (a location followed by a continuation
      is none), and the search for one stays inside the line, the line is
      consumed, the loop goes on with one more warning for this line, an
      empty buffer and the file name unchanged (the line number has moved
      on by one).
    Nothing is said of a location that is followed by spaces or tabs only. *)
Theorem line_directive (fileDataLine : string) (lines : list string)
        (ns : FileBuffer.TextState) (st : FileBuffer.t) :
  directive fileDataLine -> StdString.size fileDataLine < 65535 ->
  FileBuffer._currState st = FileBuffer.other ->
  FileBuffer._buffer st = EmptyString ->
  (forall F n,
      location_line fileDataLine F n -> n <= 2147483647 ->
      let reset :=
        FileBuffer.mk lines (FileBuffer._sourcePosition st)
                      (FilePosition.mk F (Z.of_N n - 1))
                      (FilePosition.incrLine (FileBuffer._inputPosition st))
                      EmptyString FileBuffer.other false (FileBuffer.cout st) in
      FileBuffer.fetchLoop (fileDataLine :: lines) ns st
      = FileBuffer.fetchLoop lines FileBuffer.other reset
      /\ forall next rest,
          lines = next :: rest -> ~ directive next ->
          exists ns' st',
            FileBuffer.processLine next FileBuffer.other (FileBuffer.set_file reset rest)
            = Ok (ns', st')
            /\ FileBuffer._bufferPosition st' = FilePosition.mk F (Z.of_N n)
            /\ (FileBuffer._buffer st' <> EmptyString ->
                FileBuffer.fetchLoop (fileDataLine :: lines) ns st = Ok st'
                /\ forall line st'',
                    FileBuffer.read st' = Ok (line, st'') ->
                    line = FileBuffer._buffer st'
                    /\ FileBuffer.getFilePosition st'' = FilePosition.mk F (Z.of_N n)))
  /\ ((forall F n, ~ location_then_blanks fileDataLine F n) ->
      (FileBuffer.hasEscNewline fileDataLine false = false ->
       FileBuffer.findLocation fileDataLine <> Undefined) ->
      exists ns' st',
        FileBuffer.fetchLoop (fileDataLine :: lines) ns st
        = FileBuffer.fetchLoop lines ns' st'
        /\ FileBuffer._buffer st' = EmptyString
        /\ FileBuffer.cout st'
           = (FileBuffer.cout st
              ++ [FileBuffer.PreprocIgnored
                    fileDataLine
                    (FilePosition.incrLine (FileBuffer._inputPosition st))])%list
        /\ FileBuffer._bufferPosition st'
           = FilePosition.incrLine (FileBuffer._bufferPosition st)).
Proof.
  intros Hdir Hsize Hcur Hbuf.
  assert (Hnpos : StdString.size fileDataLine < StdString.npos)
    by (unfold StdString.npos; lia).
  split.
  - intros F n Hloc Hn reset.
    assert (Hreset : FileBuffer.fetchLoop (fileDataLine :: lines) ns st
                     = FileBuffer.fetchLoop lines FileBuffer.other reset).
    { rewrite fetchLoop_empty by exact Hbuf.
      rewrite (processLine_location fileDataLine F n) by assumption. reflexivity. }
    split; [exact Hreset|].
    intros next rest -> Hnext.
    destruct (processLine_plain next FileBuffer.other (FileBuffer.set_file reset rest))
      as (ns' & st' & Hrun & Hfile & _ & Hpos & _); [discriminate|discriminate|exact Hnext|].
    exists ns', st'. split; [exact Hrun|].
    assert (Hpos' : FileBuffer._bufferPosition st' = FilePosition.mk F (Z.of_N n)).
    { rewrite Hpos. cbn. unfold FilePosition.incrLine. cbn. f_equal. lia. }
    split; [exact Hpos'|].
    intros Hfull. split.
    + rewrite Hreset, fetchLoop_empty by reflexivity. rewrite Hrun. cbn [bind].
      apply fetchLoop_full; [exact Hfull|exact Hfile].
    + intros line st'' Hread. apply read_position in Hread as [-> Hread].
      split; [reflexivity|]. rewrite Hread. exact Hpos'.
  - intros Hnot Hin.
    destruct Hdir as (ws1 & rest & HL & B1).
    assert (Hdir : directive fileDataLine) by (exists ws1, rest; split; assumption).
    rewrite fetchLoop_empty by exact Hbuf.
    destruct (FileBuffer.hasEscNewline fileDataLine false) eqn:Hesc.
    + rewrite processLine_continued by assumption. cbn [bind].
      do 2 eexists. split; [reflexivity|]. cbn. repeat split.
    + destruct (findLocation_result fileDataLine) as [E|[[p|] E]].
      * exfalso. apply Hin; [reflexivity|exact E].
      * destruct (findLocation_only_location fileDataLine ws1 rest p Hsize HL B1 E)
          as (F & n & Hloc & _). exfalso. apply (Hnot F n).
        exists fileDataLine, EmptyString.
        split; [symmetry; apply append_nil_r|]. split; [exact Hloc|constructor].
      * rewrite processLine_no_location by assumption. cbn [bind].
        do 2 eexists. split; [reflexivity|]. cbn. repeat split.
Qed.


(** The directive that gives line 12 of f.c, and a directive of another kind. *)
Definition location_12 : string :=
  "# 12 " ++ String dquote ("f.c" ++ String dquote EmptyString).

Definition pragma_once : string := "#pragma once".

Lemma line_directive_witness :
  (FileBuffer.fetchLoop [location_12; "int a;"] FileBuffer.other FileBuffer.make
   = FileBuffer.fetchLoop
       ["int a;"] FileBuffer.other
       (FileBuffer.mk ["int a;"] (FilePosition.mk "" 0) (FilePosition.mk "f.c" 11)
                      (FilePosition.mk "" 1) "" FileBuffer.other false []))
  /\ (exists ns' st',
        FileBuffer.fetchLoop [pragma_once; "int a;"] FileBuffer.other FileBuffer.make
        = FileBuffer.fetchLoop ["int a;"] ns' st'
        /\ FileBuffer._buffer st' = EmptyString
        /\ FileBuffer.cout st' = [FileBuffer.PreprocIgnored pragma_once (FilePosition.mk "" 1)]
        /\ FileBuffer._bufferPosition st' = FilePosition.mk "" 1).
Proof.
  split.
  - assert (Hloc : location_line location_12 "f.c" 12).
    { exists EmptyString, " ", "12", " ".
      split; [reflexivity|].
      split; [constructor|].
      split; [repeat constructor|].
      split; [repeat constructor|].
      split; [discriminate|].
      split; [repeat constructor|].
      split; [reflexivity|].
      split; [discriminate|repeat constructor]. }
    assert (Hdir : directive location_12).
    { exists EmptyString, (" 12 " ++ String dquote ("f.c" ++ String dquote EmptyString)).
      split; [reflexivity|constructor]. }
    assert (Hsize : StdString.size location_12 < 65535) by (vm_compute; reflexivity).
    destruct (line_directive location_12 ["int a;"] FileBuffer.other FileBuffer.make
                             Hdir Hsize eq_refl eq_refl) as [Hreset _].
    destruct (Hreset "f.c" 12 Hloc) as [H _]; [vm_compute; discriminate|].
    exact H.
  - assert (Hdir : directive pragma_once).
    { exists EmptyString, "pragma once". split; [reflexivity|constructor]. }
    assert (Hsize : StdString.size pragma_once < 65535) by (vm_compute; reflexivity).
    destruct (line_directive pragma_once ["int a;"] FileBuffer.other FileBuffer.make
                             Hdir Hsize eq_refl eq_refl) as [_ Hother].
    apply Hother.
    + intros F n (location & ws & HL
                  & (ws1 & ws2 & ds & ws3 & -> & B1 & B2 & _ & Hds & Dds & _) & _).
      unfold pragma_once in HL.
      destruct ws1 as [|c ws1].
      * rewrite append_Empty, append_String in HL. injection HL as HL.
        destruct ws2 as [|c ws2].
        -- rewrite append_Empty in HL. destruct ds as [|d ds]; [contradiction|].
           rewrite !append_String in HL. injection HL as <- _.
           apply Forall_cons_1 in Dds as [Hd _]. discriminate Hd.
        -- rewrite !append_String in HL. injection HL as <- _.
           apply Forall_cons_1 in B2 as [Hc _]. discriminate Hc.
      * rewrite !append_String in HL. injection HL as <- _.
        apply Forall_cons_1 in B1 as [Hc _]. discriminate Hc.
    + intros _. vm_compute. discriminate.
Defined.

(** A location that is followed by a continuation is no location: it is
    reported, the line after it is taken for the rest of the directive, and
    the position is that of the file read. *)
Definition location_12_continued : string :=
  location_12 ++ " " ++ String backslash EmptyString.

Lemma continued_location_is_ignored :
  exists st',
    FileBuffer.open "x.i" [location_12_continued; "int a;"; "int b;"] FileBuffer.make = Ok st'
    /\ FileBuffer._buffer st' = "int b;"
    /\ FileBuffer._bufferPosition st' = FilePosition.mk "x.i" 3
    /\ FileBuffer.cout st'
       = [FileBuffer.PreprocIgnored location_12_continued (FilePosition.mk "x.i" 1)].
Proof. eexists. split; [vm_compute; reflexivity|]. repeat split. Qed.

(** With blanks after the closing quote the test of [handlePreproc] for the
    end of the line compares an [unsigned short] with [npos], which never
    holds: against the comment on that test such a line is reported and
    ignored.  The line is no part of the property above. *)
Lemma trailing_blank_location_is_ignored :
  exists st',
    FileBuffer.open "x.i" [location_12 ++ " "; "int a;"] FileBuffer.make = Ok st'
    /\ FileBuffer._buffer st' = "int a;"
    /\ FileBuffer._bufferPosition st' = FilePosition.mk "x.i" 2
    /\ FileBuffer.cout st'
       = [FileBuffer.PreprocIgnored (location_12 ++ " ") (FilePosition.mk "x.i" 1)].
Proof. eexists. split; [vm_compute; reflexivity|]. repeat split. Qed.

(** ** The order of the final sort *)

Section Ordering.

(** The order on strings and on file positions the specification uses:
    lexicographic by character code, and by file name, then by line. *)
Definition string_lt (a b : string) : Prop := String.compare a b = Lt.

Definition position_lt (a b : FilePosition.t) : Prop :=
  string_lt (FilePosition.getFileName a) (FilePosition.getFileName b)
  \/ (FilePosition.getFileName a = FilePosition.getFileName b
      /\ (FilePosition.getLineNo a < FilePosition.getLineNo b)%Z).

(** The order on records as the specification words it: by name; then file
    scope first; then, for file-scope records, by the file name of the
    location; then declarations first; then by location. *)
Definition record_lt (a b : FunctionData.t) : Prop :=
  let file r := FilePosition.getFileName (FunctionData._location r) in
  string_lt (FunctionData._name a) (FunctionData._name b)
  \/ (FunctionData._name a = FunctionData._name b
      /\ ((FunctionData._filescope a = true /\ FunctionData._filescope b = false)
          \/ (FunctionData._filescope a = FunctionData._filescope b
              /\ ((FunctionData._filescope a = true /\ string_lt (file a) (file b))
                  \/ ((FunctionData._filescope a = true -> file a = file b)
                      /\ ((FunctionData._declaration a = true
                           /\ FunctionData._declaration b = false)
                          \/ (FunctionData._declaration a = FunctionData._declaration b
                              /\ position_lt (FunctionData._location a)
                                             (FunctionData._location b)))))))).

Lemma string_lt_iff (a b : string) : StdString.lt a b = true <-> string_lt a b.
Proof.
  unfold StdString.lt, String.ltb, string_lt.
  destruct (String.compare a b); split; congruence.
Qed.

Lemma string_compare_refl (a : string) : String.compare a a = Eq.
Proof.
  induction a as [|c a IH]; simpl; [reflexivity|].
  unfold Ascii.compare. rewrite N.compare_refl. exact IH.
Qed.

Lemma string_lt_irrefl (a : string) : ~ string_lt a a.
Proof.
  unfold string_lt. rewrite string_compare_refl. discriminate.
Qed.

Lemma string_trichotomy (a b : string) :
  StdString.lt a b = false -> StdString.lt b a = false -> a = b.
Proof.
  unfold StdString.lt, String.ltb. intros Hab Hba.
  apply String.compare_eq_iff.
  rewrite (String.compare_antisym b a) in Hba.
  destruct (String.compare a b); simpl in *; congruence.
Qed.

Lemma string_lt_asym (a b : string) : string_lt a b -> ~ string_lt b a.
Proof.
  unfold string_lt. intros H H'.
  rewrite String.compare_antisym, H' in H. discriminate.
Qed.

Lemma FilePosition_ltb_iff (a b : FilePosition.t) :
  FilePosition.ltb a b = true <-> position_lt a b.
Proof.
  unfold FilePosition.ltb, position_lt, FilePosition.getFileName,
    FilePosition.getLineNo.
  destruct (StdString.lt (FilePosition._fileName a) (FilePosition._fileName b)) eqn:Hab.
  - apply string_lt_iff in Hab. tauto.
  - destruct (StdString.lt (FilePosition._fileName b) (FilePosition._fileName a)) eqn:Hba.
    + apply string_lt_iff in Hba. split; [discriminate|].
      intros [H | [H _]].
      * exfalso. exact (string_lt_asym _ _ H Hba).
      * rewrite H in Hba. exfalso. exact (string_lt_irrefl _ Hba).
    + pose proof (string_trichotomy _ _ Hab Hba) as E.
      rewrite Z.ltb_lt. split; [tauto|].
      intros [H | [_ H]]; [|exact H].
      apply string_lt_iff in H. congruence.
Qed.

End Ordering.

(** C2.  The comparison operator of the final sort is the order the
    specification gives: by name ascending; for equal names a file-scope
    record before a global-scope one; for two file-scope records of the same
    name, by the file name of the location; then a declaration before a
    record that is none; and at last by location (file name, then line). *)
Theorem FunctionData_ltb_is_record_lt (a b : FunctionData.t) :
  FunctionData.ltb a b = true <-> record_lt a b.
Proof.
  unfold FunctionData.ltb, record_lt.
  destruct (String.eqb_spec (FunctionData._name a) (FunctionData._name b)) as [En|Nn];
    simpl.
  2:{ rewrite string_lt_iff. tauto. }
  assert (Hn : ~ string_lt (FunctionData._name a) (FunctionData._name b))
    by (rewrite En; apply string_lt_irrefl).
  destruct (FunctionData._filescope a) eqn:Fa, (FunctionData._filescope b) eqn:Fb; simpl.
  - (* both of file scope *)
    destruct (String.eqb_spec
                (FilePosition.getFileName (FunctionData._location a))
                (FilePosition.getFileName (FunctionData._location b))) as [Ef|Nf]; simpl.
    + assert (Hf : ~ string_lt (FilePosition.getFileName (FunctionData._location a))
                              (FilePosition.getFileName (FunctionData._location b)))
        by (rewrite Ef; apply string_lt_irrefl).
      destruct (FunctionData._declaration a) eqn:Da,
               (FunctionData._declaration b) eqn:Db; simpl;
        rewrite ?FilePosition_ltb_iff; intuition congruence.
    + rewrite string_lt_iff. intuition congruence.
  - intuition congruence.
  - intuition congruence.
  - destruct (FunctionData._declaration a) eqn:Da,
             (FunctionData._declaration b) eqn:Db; simpl;
      rewrite ?FilePosition_ltb_iff; intuition congruence.
Qed.

(** ** The pending-call holder *)

Section CallHolder.

(** The tokens [holdIfNeeded] holds: function calls of unknown scope. *)
Definition holdable (t : Token.t) : bool :=
  Token.TokenType_eqb (Token.getType t) Token.functcall
  && Token.ScopeType_eqb (Token.getScope t) Token.noscope.

(** [n] calls of [nextRelease] in a row, with the records they return. *)
Fixpoint drain (n : nat) (h : FunctHold.t) : result (list FunctionData.t * FunctHold.t) :=
  match n with
  | O => Ok ([], h)
  | S n' =>
      let* (d, h) := FunctHold.nextRelease h in
      let* (ds, h) := drain n' h in
      Ok (d :: ds, h)
  end.

Lemma insert_Permutation (e : Token.t * string) (m : FunctHold.HoldMap) :
  Permutation (e :: m) (FunctHold.insert e m).
Proof.
  induction m as [|x m IH]; simpl; [reflexivity|].
  destruct (Token.ltb (fst e) (fst x)); [reflexivity|].
  rewrite perm_swap. apply perm_skip. exact IH.
Qed.

Lemma pop_back_snoc {A : Type} (l : list A) (x : A) :
  FunctHold.pop_back (l ++ [x])%list = Some (x, l).
Proof.
  induction l as [|y l IH]; simpl; [reflexivity|].
  rewrite IH. destruct (l ++ [x])%list eqn:E; [|reflexivity].
  destruct l; discriminate.
Qed.

Lemma pop_back_nil_iff {A : Type} (l : list A) :
  FunctHold.pop_back l = None <-> l = [].
Proof.
  split; [|intros ->; reflexivity].
  destruct l as [|x l] using rev_ind; [reflexivity|].
  rewrite pop_back_snoc. discriminate.
Qed.

Lemma drain_all (m : FunctHold.HoldMap) (l : list FunctionData.t) :
  drain (List.length l) (FunctHold.mk m l) = Ok (rev l, FunctHold.mk m []).
Proof.
  induction l as [|x l IH] using rev_ind; [reflexivity|].
  rewrite length_app, Nat.add_comm. simpl.
  unfold FunctHold.nextRelease. simpl. rewrite pop_back_snoc. simpl.
  rewrite IH. simpl. rewrite rev_app_distr. reflexivity.
Qed.

Lemma doingRelease_false_iff (h : FunctHold.t) :
  FunctHold.doingRelease h = false <-> FunctHold._releaseData h = [].
Proof.
  unfold FunctHold.doingRelease.
  destruct (FunctHold._releaseData h); simpl; split; congruence.
Qed.

Lemma empty_true_iff (h : FunctHold.t) :
  FunctHold.empty h = true
  <-> FunctHold._holdData h = [] /\ FunctHold._releaseData h = [].
Proof.
  unfold FunctHold.empty, FunctHold.doingRelease.
  destruct (FunctHold._holdData h), (FunctHold._releaseData h); simpl;
    split; intros; try discriminate; intuition congruence.
Qed.

Lemma span_app {A : Type} (p : A -> bool) (l a b : list A) :
  FunctHold.span p l = (a, b) -> l = (a ++ b)%list.
Proof.
  revert a b. induction l as [|x l IH]; simpl; intros a b H.
  - injection H as <- <-. reflexivity.
  - destruct (p x).
    + destruct (FunctHold.span p l) as [a' b'] eqn:E.
      injection H as <- <-. simpl. f_equal. apply IH. reflexivity.
    + injection H as <- <-. reflexivity.
Qed.

Lemma equal_range_app (m : FunctHold.HoldMap) (key : Token.t)
      (before range after : FunctHold.HoldMap) :
  FunctHold.equal_range m key = (before, range, after) ->
  m = (before ++ range ++ after)%list.
Proof.
  unfold FunctHold.equal_range.
  destruct (FunctHold.span _ m) as [b rest] eqn:E1.
  destruct (FunctHold.span _ rest) as [r a] eqn:E2.
  intros H. injection H as <- <- <-.
  apply span_app in E1, E2. subst. reflexivity.
Qed.

Lemma procEOF_moves (h : FunctHold.t) :
  FunctHold._holdData h <> [] ->
  exists data rest,
    FunctHold.procEOF h = Ok (data, FunctHold.mk [] rest)
    /\ (rest ++ [data])%list
       = (FunctHold._releaseData h
          ++ map (FunctHold.released Token.globalscope) (FunctHold._holdData h))%list.
Proof.
  intros Hne. unfold FunctHold.procEOF.
  destruct h as [m l]. simpl in *.
  destruct m as [|e m]; [congruence|].
  unfold FunctHold.moveHoldToCache, FunctHold.empty, FunctHold.doingRelease,
    FunctHold.nextRelease.
  cbn [FunctHold._holdData FunctHold._releaseData bool_decide decide_rel negb].
  remember (map (FunctHold.released Token.globalscope) (e :: m)) as moved eqn:Em.
  destruct (@exists_last _ (l ++ moved)%list) as (rest & data & E).
  { subst moved. destruct l; discriminate. }
  simpl. rewrite E. rewrite pop_back_snoc. simpl.
  replace (bool_decide ((rest ++ [data])%list = [])) with false
    by (destruct rest; reflexivity).
  simpl. exists data, rest. split; reflexivity.
Qed.

(** What the record made of a held entry has to say, field by field: the
    name and the place of the call, whether the function called is of file
    scope and, the entry being a function call, that it is no declaration,
    the caller it was held with and whether the call is a mere reference. *)
Definition record_of_call (filescope : bool) (e : Token.t * string)
           (d : FunctionData.t) : Prop :=
  FunctionData._name d = Token.getLexeme (fst e)
  /\ FunctionData._location d = Token.getFilePosition (fst e)
  /\ FunctionData._filescope d = filescope
  /\ (Token.getType (fst e) = Token.functcall ->
      FunctionData._declaration d = false
      /\ FunctionData._caller d = snd e
      /\ FunctionData._refrence d
         = Token.ModType_eqb (Token.getModifier (fst e)) Token.funcref).

Lemma released_record (wantScope : Token.ScopeType) (e : Token.t * string) :
  record_of_call (Token.ScopeType_eqb wantScope Token.filescope) e
                 (FunctHold.released wantScope e).
Proof.
  destruct e as [[lexeme location type scope modifier] caller].
  unfold record_of_call, FunctHold.released, FunctionData.make. cbn.
  destruct type; cbn; repeat split; intros; try discriminate; reflexivity.
Qed.

Lemma released_records (wantScope : Token.ScopeType) (m : FunctHold.HoldMap) :
  Forall2 (record_of_call (Token.ScopeType_eqb wantScope Token.filescope))
          m (map (FunctHold.released wantScope) m).
Proof.
  induction m as [|e m IH]; cbn [map]; constructor;
    [apply released_record|exact IH].
Qed.

Section Calls.

Variable Parser : Type.
Variable Parser_haveEOF : Parser -> bool.
Variable Parser_nextFunction : Parser -> result (Token.t * Parser).
Variable fuel : nat.

Abbreviation nextFunction :=
  (FunctFinder.nextFunction Parser Parser_haveEOF Parser_nextFunction fuel).

(** [n] calls of [FunctFinder::nextFunction] in a row, with the records
    they return. *)
Fixpoint nextFunctions (n : nat) (f : FunctFinder.t Parser)
  : result (list FunctionData.t * FunctFinder.t Parser) :=
  match n with
  | O => Ok ([], f)
  | S n' =>
      let* (d, f) := nextFunction f in
      let* (ds, f) := nextFunctions n' f in
      Ok (d :: ds, f)
  end.

Lemma nextFunctions_app (a b : nat) (f : FunctFinder.t Parser) :
  nextFunctions (a + b) f
  = let* (r1, f1) := nextFunctions a f in
    let* (r2, f2) := nextFunctions b f1 in
    Ok ((r1 ++ r2)%list, f2).
Proof.
  revert f. induction a as [|a IH]; intros f; cbn [nextFunctions Nat.add bind].
  - destruct (nextFunctions b f) as [[r2 f2]| | |]; reflexivity.
  - destruct (nextFunction f) as [[d f1]| | |]; cbn [bind]; try reflexivity.
    rewrite IH. destruct (nextFunctions a f1) as [[r1 f2]| | |]; cbn [bind]; try reflexivity.
    destruct (nextFunctions b f2) as [[r2 f3]| | |]; reflexivity.
Qed.

(** While records wait in the release vector the driver hands them out,
    the last one first. *)
Lemma nextFunctions_pending (p : Parser) (cur : string) (m : FunctHold.HoldMap)
      (l : list FunctionData.t) :
  nextFunctions (List.length l) (FunctFinder.mk Parser p cur (FunctHold.mk m l))
  = Ok (rev l, FunctFinder.mk Parser p cur (FunctHold.mk m [])).
Proof.
  induction l as [|x l IH] using rev_ind; [reflexivity|].
  rewrite length_app, Nat.add_comm. cbn [List.length Nat.add nextFunctions].
  unfold FunctFinder.nextFunction, FunctHold.doingRelease, FunctHold.nextRelease.
  cbn [FunctFinder._functCallsNoScope FunctHold._releaseData FunctHold._holdData
       FunctFinder._functBuffer FunctFinder._currFunction].
  rewrite bool_decide_eq_false_2 by (destruct l; discriminate).
  cbn [negb]. rewrite pop_back_snoc. cbn [of_option bind].
  rewrite IH. cbn [bind]. rewrite rev_app_distr. reflexivity.
Qed.

(** At the end of the recognizer's input, with no record waiting, the
    driver turns to [procEOF]. *)
Lemma nextFunction_procEOF (p : Parser) (cur : string) (m : FunctHold.HoldMap) :
  Parser_haveEOF p = true ->
  nextFunction (FunctFinder.mk Parser p cur (FunctHold.mk m []))
  = let* (data, hold) := FunctHold.procEOF (FunctHold.mk m []) in
    Ok (data, FunctFinder.mk Parser p cur hold).
Proof.
  intros Heof. unfold FunctFinder.nextFunction. cbn.
  destruct fuel; cbn; rewrite Heof; reflexivity.
Qed.

Lemma nextFunctions_drain (f : FunctFinder.t Parser) :
  Parser_haveEOF (FunctFinder._functBuffer Parser f) = true ->
  nextFunctions (List.length (FunctHold._releaseData (FunctFinder._functCallsNoScope Parser f))
                 + List.length (FunctHold._holdData (FunctFinder._functCallsNoScope Parser f)))
                f
  = Ok ((rev (FunctHold._releaseData (FunctFinder._functCallsNoScope Parser f))
         ++ rev (map (FunctHold.released Token.globalscope)
                     (FunctHold._holdData (FunctFinder._functCallsNoScope Parser f))))%list,
        FunctFinder.mk Parser (FunctFinder._functBuffer Parser f)
                       (FunctFinder._currFunction Parser f) FunctHold.reset).
Proof.
  destruct f as [p cur [m l]].
  cbn [FunctFinder._functBuffer FunctFinder._currFunction FunctFinder._functCallsNoScope
       FunctHold._holdData FunctHold._releaseData].
  intros Heof. rewrite nextFunctions_app, nextFunctions_pending. cbn [bind].
  destruct m as [|e m]; [reflexivity|].
  cbn [List.length nextFunctions]. rewrite nextFunction_procEOF by exact Heof.
  destruct (procEOF_moves (FunctHold.mk (e :: m) [])) as (data & rest & E1 & E2);
    [discriminate|].
  rewrite E1. cbn [bind]. cbn [FunctHold._releaseData FunctHold._holdData app] in E2.
  assert (Hlen : List.length m = List.length rest).
  { apply (f_equal (@List.length _)) in E2.
    rewrite length_app, length_map in E2. cbn in E2. lia. }
  rewrite Hlen, nextFunctions_pending. cbn [bind].
  rewrite <- E2, rev_app_distr. reflexivity.
Qed.

End Calls.

(** A record is the six fields it has. *)
Lemma FunctionData_fields (d : FunctionData.t) (name : string) (location : FilePosition.t)
      (declaration : bool) (caller : string) (refrence filescope : bool) :
  FunctionData._name d = name -> FunctionData._location d = location ->
  FunctionData._declaration d = declaration -> FunctionData._caller d = caller ->
  FunctionData._refrence d = refrence -> FunctionData._filescope d = filescope ->
  d = FunctionData.mk name location declaration caller refrence filescope.
Proof. destruct d. cbn. intros. subst. reflexivity. Qed.

Lemma record_of_call_fields (filescope : bool) (e : Token.t * string) (d : FunctionData.t) :
  record_of_call filescope e d -> Token.getType (fst e) = Token.functcall ->
  d = FunctionData.mk (Token.getLexeme (fst e)) (Token.getFilePosition (fst e)) false
                      (snd e)
                      (Token.ModType_eqb (Token.getModifier (fst e)) Token.funcref)
                      filescope.
Proof.
  intros (H1 & H2 & H3 & H4) Hty. destruct (H4 Hty) as (H5 & H6 & H7).
  apply FunctionData_fields; assumption.
Qed.

End CallHolder.

(** C4.  [holdIfNeeded t c]: for a token that is not a function call of
    unknown scope it returns false and leaves the holder as it was; for a
    function call of unknown scope it throws the double-release error when a
    release is in progress, and otherwise adds the one entry [(t, c)] to the
    hold map, changes nothing else, and returns true. *)
Theorem holdIfNeeded_cases (t : Token.t) (c : string) (h : FunctHold.t) :
  (holdable t = false -> FunctHold.holdIfNeeded t c h = Ok (false, h))
  /\ (holdable t = true -> FunctHold.doingRelease h = true ->
      FunctHold.holdIfNeeded t c h = Thrown DouFuncRelException)
  /\ (holdable t = true -> FunctHold.doingRelease h = false ->
      exists m,
        FunctHold.holdIfNeeded t c h = Ok (true, FunctHold.mk m (FunctHold._releaseData h))
        /\ m = FunctHold.insert (t, c) (FunctHold._holdData h)
        /\ Permutation ((t, c) :: FunctHold._holdData h) m).
Proof.
  unfold holdable, FunctHold.holdIfNeeded.
  destruct (Token.TokenType_eqb (Token.getType t) Token.functcall),
           (Token.ScopeType_eqb (Token.getScope t) Token.noscope); simpl;
    repeat split; try discriminate; try reflexivity.
  - intros _ ->. reflexivity.
  - intros _ ->. eexists. split; [reflexivity|]. split; [reflexivity|].
    apply insert_Permutation.
Qed.

Definition call_g : Token.t :=
  Token.mk "g" (FilePosition.mk "a.c" 3) Token.functcall Token.noscope Token.nomod.

Definition decl_main : Token.t :=
  Token.mk "main" (FilePosition.mk "a.c" 1) Token.functdecl Token.globalscope Token.nomod.

Lemma holdIfNeeded_cases_witness :
  FunctHold.holdIfNeeded decl_main "NONE" FunctHold.reset = Ok (false, FunctHold.reset)
  /\ FunctHold.holdIfNeeded call_g "main"
       (FunctHold.mk [] [FunctionData.make decl_main "main"])
     = Thrown DouFuncRelException
  /\ exists m,
      FunctHold.holdIfNeeded call_g "main" FunctHold.reset = Ok (true, FunctHold.mk m [])
      /\ m = FunctHold.insert (call_g, "main") []
      /\ Permutation [(call_g, "main")] m.
Proof.
  split; [|split].
  - apply (holdIfNeeded_cases decl_main "NONE" FunctHold.reset). reflexivity.
  - apply (holdIfNeeded_cases call_g "main"
             (FunctHold.mk [] [FunctionData.make decl_main "main"])); reflexivity.
  - apply (holdIfNeeded_cases call_g "main" FunctHold.reset); reflexivity.
Defined.

(** C3.  The driver's [haveEOF] is true exactly when the recognizer is at
    the end of its input, the hold map is empty and the resolved stack is
    empty.  [procEOF] on a holder that still holds entries empties the hold
    map and puts a record for every entry, in the order of the map, on the
    resolved stack, before it returns the record on top of that stack; the
    record of an entry has the name and the position of its token, is not of
    file scope and, the token being a function call, is no declaration, has
    the caller of the entry, and is a reference when the token is one.  And
    when the recognizer is at the end of its input, as many calls of
    [nextFunction] as there are records on the stack and entries in the map
    return the records of the stack, the top first, and then those of the
    entries, the last of the map first; after them [haveEOF] is true. *)
Theorem CallHolder_drain (Parser : Type) (Parser_haveEOF : Parser -> bool)
        (Parser_nextFunction : Parser -> result (Token.t * Parser)) (fuel : nat)
        (f : FunctFinder.t Parser) (h : FunctHold.t) :
  (FunctFinder.haveEOF Parser Parser_haveEOF f = true
   <-> Parser_haveEOF (FunctFinder._functBuffer Parser f) = true
       /\ FunctHold._holdData (FunctFinder._functCallsNoScope Parser f) = []
       /\ FunctHold._releaseData (FunctFinder._functCallsNoScope Parser f) = [])
  /\ (FunctHold._holdData h <> [] ->
      exists data rest moved,
        FunctHold.procEOF h = Ok (data, FunctHold.mk [] rest)
        /\ (rest ++ [data])%list = (FunctHold._releaseData h ++ moved)%list
        /\ Forall2 (record_of_call false) (FunctHold._holdData h) moved)
  /\ (Parser_haveEOF (FunctFinder._functBuffer Parser f) = true ->
      exists moved f',
        nextFunctions Parser Parser_haveEOF Parser_nextFunction fuel
          (List.length (FunctHold._releaseData (FunctFinder._functCallsNoScope Parser f))
           + List.length (FunctHold._holdData (FunctFinder._functCallsNoScope Parser f)))
          f
        = Ok ((rev (FunctHold._releaseData (FunctFinder._functCallsNoScope Parser f))
               ++ rev moved)%list, f')
        /\ Forall2 (record_of_call false)
                   (FunctHold._holdData (FunctFinder._functCallsNoScope Parser f)) moved
        /\ FunctFinder.haveEOF Parser Parser_haveEOF f' = true).
Proof.
  split; [|split].
  - unfold FunctFinder.haveEOF. rewrite andb_true_iff, empty_true_iff. reflexivity.
  - intros Hne.
    destruct (procEOF_moves h Hne) as (data & rest & E1 & E2).
    exists data, rest, (map (FunctHold.released Token.globalscope) (FunctHold._holdData h)).
    split; [exact E1|]. split; [exact E2|].
    apply (released_records Token.globalscope).
  - intros Heof. do 2 eexists.
    split; [apply nextFunctions_drain; exact Heof|].
    split; [apply (released_records Token.globalscope)|].
    unfold FunctFinder.haveEOF. cbn. rewrite Heof. reflexivity.
Qed.

Definition call_g' : Token.t :=
  Token.mk "g" (FilePosition.mk "a.c" 7) Token.functcall Token.noscope Token.funcref.

(** The driver at the end of the input of a recognizer without tokens,
    with one call of [g] resolved and another one held. *)
Definition driver_at_end : FunctFinder.t unit :=
  FunctFinder.mk unit tt "main"
    (FunctHold.mk [(call_g', "main")]
                  [FunctionData.mk "g" (FilePosition.mk "a.c" 3) false "main" false true]).

Lemma CallHolder_drain_witness :
  (FunctFinder.haveEOF unit (fun _ => true) driver_at_end = false)
  /\ (exists data rest,
         FunctHold.procEOF (FunctHold.mk [(call_g, "main"); (call_g', "f")] [])
         = Ok (data, FunctHold.mk [] rest)
         /\ (rest ++ [data])%list
            = [FunctionData.mk "g" (FilePosition.mk "a.c" 3) false "main" false false;
               FunctionData.mk "g" (FilePosition.mk "a.c" 7) false "f" true false])
  /\ (exists f',
         nextFunctions unit (fun _ => true) (fun p => Ok (Token.noToken, p)) 0 2 driver_at_end
         = Ok ([FunctionData.mk "g" (FilePosition.mk "a.c" 3) false "main" false true;
                FunctionData.mk "g" (FilePosition.mk "a.c" 7) false "main" true false], f')
         /\ FunctFinder.haveEOF unit (fun _ => true) f' = true).
Proof.
  split; [|split].
  - destruct (CallHolder_drain unit (fun _ => true) (fun p => Ok (Token.noToken, p)) 0
                driver_at_end FunctHold.reset) as [H _].
    apply not_true_is_false. intros E. apply H in E as (_ & E & _). discriminate E.
  - destruct (CallHolder_drain unit (fun _ => true) (fun p => Ok (Token.noToken, p)) 0
                driver_at_end (FunctHold.mk [(call_g, "main"); (call_g', "f")] []))
      as (_ & H & _).
    destruct H as (data & rest & moved & E1 & E2 & E3); [discriminate|].
    exists data, rest. split; [exact E1|]. rewrite E2. cbn [FunctHold._releaseData app].
    cbn [FunctHold._holdData] in E3.
    inversion E3 as [|e1 d1 m1 l1 R1 E4]; subst. inversion E4 as [|e2 d2 m2 l2 R2 E5]; subst.
    inversion E5; subst.
    rewrite (record_of_call_fields _ _ _ R1 eq_refl), (record_of_call_fields _ _ _ R2 eq_refl).
    reflexivity.
  - destruct (CallHolder_drain unit (fun _ => true) (fun p => Ok (Token.noToken, p)) 0
                driver_at_end FunctHold.reset) as (_ & _ & H).
    destruct H as (moved & f' & E1 & E2 & E3); [reflexivity|].
    exists f'. split; [|exact E3].
    cbn [driver_at_end FunctFinder._functCallsNoScope FunctHold._holdData
         FunctHold._releaseData List.length Nat.add rev app] in E1, E2.
    inversion E2 as [|e1 d1 m1 l1 R1 E4]; subst. inversion E4; subst.
    rewrite (record_of_call_fields _ _ _ R1 eq_refl) in E1. exact E1.
Defined.

(** C9.  [nextFunction] called when the recognizer is at end of file and the
    holder neither holds an entry nor has a release pending does not fail:
    it returns the record of the no-token sentinel (empty name, empty file
    position, not a declaration, not of file scope, caller "NONE"), and
    leaves the driver as it was. *)
Theorem nextFunction_at_EOF (Parser : Type) (Parser_haveEOF : Parser -> bool)
        (Parser_nextFunction : Parser -> result (Token.t * Parser))
        (fuel : nat) (f : FunctFinder.t Parser) :
  Parser_haveEOF (FunctFinder._functBuffer Parser f) = true ->
  FunctHold.empty (FunctFinder._functCallsNoScope Parser f) = true ->
  FunctFinder.nextFunction Parser Parser_haveEOF Parser_nextFunction fuel f
  = Ok (FunctionData.mk "" (FilePosition.mk "" 0) false "NONE" false false, f).
Proof.
  intros Heof Hempty.
  pose proof Hempty as Hparts. apply empty_true_iff in Hparts as [Hhold Hrel].
  destruct f as [p cur [m l]]. simpl in *. subst m l.
  unfold FunctFinder.nextFunction. simpl.
  destruct fuel; simpl; rewrite Heof; reflexivity.
Qed.

Lemma nextFunction_at_EOF_witness :
  FunctFinder.nextFunction unit (fun _ => true) (fun p => Ok (Token.noToken, p)) 0
    (FunctFinder.mk unit tt "main" FunctHold.reset)
  = Ok (FunctionData.mk "" (FilePosition.mk "" 0) false "NONE" false false,
        FunctFinder.mk unit tt "main" FunctHold.reset).
Proof.
  apply (nextFunction_at_EOF unit (fun _ => true) (fun p => Ok (Token.noToken, p)) 0
           (FunctFinder.mk unit tt "main" FunctHold.reset)); reflexivity.
Defined.

(** C10.  Records released together come back last in, first out.  After
    [releaseHold] for a declaration, on a holder with no release pending, as
    many calls of [nextRelease] as entries were held for the declaration
    return their records in the reverse of the order in which the map held
    them (the order in which they were moved to the cache), and leave the
    other entries held.  After [procEOF], likewise: the record it returns
    and those the following calls of [nextRelease] return are all the
    entries, in the reverse of the order of the map. *)
Theorem releases_are_LIFO (declToken : Token.t) (h : FunctHold.t)
        (before range after : FunctHold.HoldMap) :
  FunctHold._releaseData h = [] ->
  (Token.getType declToken = Token.functdecl ->
   FunctHold.equal_range (FunctHold._holdData h) declToken = (before, range, after) ->
   drain (List.length range) (FunctHold.releaseHold declToken h)
   = Ok (rev (map (FunctHold.released (Token.getScope declToken)) range),
         FunctHold.mk (before ++ after)%list []))
  /\ (FunctHold._holdData h <> [] ->
      exists data h',
        FunctHold.procEOF h = Ok (data, h')
        /\ exists rest,
            drain (List.length (FunctHold._holdData h) - 1) h'
            = Ok (rest, FunctHold.mk [] [])
            /\ data :: rest
               = rev (map (FunctHold.released Token.globalscope) (FunctHold._holdData h))).
Proof.
  intros Hrel. split.
  - intros Hty Hrange. unfold FunctHold.releaseHold.
    rewrite Hty, Hrange. apply equal_range_app in Hrange.
    destruct h as [m l]. simpl in *. subst l.
    destruct range as [|e range]; [subst m; reflexivity|].
    unfold FunctHold.moveHoldToCache.
    cbn [FunctHold._releaseData app].
    rewrite <- (length_map (FunctHold.released (Token.getScope declToken)) (e :: range)).
    apply drain_all.
  - intros Hne. destruct h as [m l]. simpl in *. subst l.
    destruct (procEOF_moves (FunctHold.mk m []) Hne) as (data & rest & E1 & E2).
    simpl in E2. exists data, (FunctHold.mk [] rest). split; [exact E1|].
    exists (rev rest). split.
    + assert (Hlen : (List.length m - 1)%nat = List.length rest).
      { apply (f_equal (@List.length _)) in E2.
        rewrite length_app, length_map in E2. simpl in E2. lia. }
      rewrite Hlen. apply drain_all.
    + rewrite <- E2, rev_app_distr. reflexivity.
Qed.

Definition decl_g : Token.t :=
  Token.mk "g" (FilePosition.mk "a.c" 9) Token.functdecl Token.filescope Token.nomod.

Definition call_h : Token.t :=
  Token.mk "h" (FilePosition.mk "a.c" 4) Token.functcall Token.noscope Token.nomod.

(** Three calls held in the order [g], [h], [g]. *)
Definition three_held : FunctHold.t :=
  FunctHold.mk
    (FunctHold.insert (call_g', "main")
       (FunctHold.insert (call_h, "main")
          (FunctHold.insert (call_g, "main") []))) [].

Lemma releases_are_LIFO_witness :
  drain 2 (FunctHold.releaseHold decl_g three_held)
  = Ok ([FunctHold.released Token.filescope (call_g', "main");
         FunctHold.released Token.filescope (call_g, "main")],
        FunctHold.mk [(call_h, "main")] [])
  /\ exists data h',
      FunctHold.procEOF three_held = Ok (data, h')
      /\ exists rest,
          drain 2 h' = Ok (rest, FunctHold.mk [] [])
          /\ data :: rest
             = [FunctHold.released Token.globalscope (call_h, "main");
                FunctHold.released Token.globalscope (call_g', "main");
                FunctHold.released Token.globalscope (call_g, "main")].
Proof.
  destruct (releases_are_LIFO decl_g three_held
              [] [(call_g, "main"); (call_g', "main")] [(call_h, "main")]
              eq_refl) as [H1 H2].
  split.
  - apply H1; reflexivity.
  - apply H2. discriminate.
Defined.

(** ** Symbol lookup *)

(** The token [r] is the token [t] but for its scope: it has the lexeme,
    the place, the class and the modifier of [t]. *)
Definition same_but_scope (t r : Token.t) : Prop :=
  Token.getLexeme r = Token.getLexeme t
  /\ Token.getFilePosition r = Token.getFilePosition t
  /\ Token.getType r = Token.getType t
  /\ Token.getModifier r = Token.getModifier t.

(** The token [r] is the token [t] with the meaning of [model]: it has the
    lexeme and the place of [t], and the class, the scope and the modifier
    of [model]. *)
Definition same_with_meaning (t model r : Token.t) : Prop :=
  Token.getLexeme r = Token.getLexeme t
  /\ Token.getFilePosition r = Token.getFilePosition t
  /\ Token.getType r = Token.getType model
  /\ Token.getScope r = Token.getScope model
  /\ Token.getModifier r = Token.getModifier model.

(** C8.  [checkForSymbol] looks the lexeme up in the keywords, then in the
    locals, then in the globals: a keyword decides the meaning whatever the
    other two collections hold, and a local type decides it whatever the
    globals hold.  When the lookup reaches the globals (no keyword, no local
    type) and finds a function-like entry, one that is neither a variable nor
    a type, the scope of the token afterwards is the scope of that entry,
    except that a prototype of file scope gives [noscope]; and when it finds
    no entry, in particular when the lexeme is in none of the collections,
    the scope of the token afterwards is [noscope].  In both cases nothing
    but the scope of the token changes. *)
Theorem checkForSymbol_lookup (ns : NameSpace.t) (t : Token.t) :
  (forall k, NameSpace.find (NameSpace._keyList ns) t = Some k ->
             same_with_meaning t k (NameSpace.checkForSymbol ns t))
  /\ (forall l, NameSpace.find (NameSpace._keyList ns) t = None ->
                NameSpace.find (NameSpace._localList ns) t = Some l ->
                Token.getType l = Token.typetoken ->
                same_with_meaning t l (NameSpace.checkForSymbol ns t))
  /\ (forall g, NameSpace.find (NameSpace._keyList ns) t = None ->
                (forall l, NameSpace.find (NameSpace._localList ns) t = Some l ->
                           Token.getType l <> Token.typetoken) ->
                NameSpace.find (NameSpace._globalList ns) t = Some g ->
                Token.getType g <> Token.varname ->
                Token.getType g <> Token.typetoken ->
                Token.getType g <> Token.functtypedef ->
                (Token.getType g = Token.functproto /\ Token.getScope g = Token.filescope ->
                 Token.getScope (NameSpace.checkForSymbol ns t) = Token.noscope)
                /\ (~ (Token.getType g = Token.functproto
                       /\ Token.getScope g = Token.filescope) ->
                    Token.getScope (NameSpace.checkForSymbol ns t) = Token.getScope g)
                /\ same_but_scope t (NameSpace.checkForSymbol ns t))
  /\ (NameSpace.find (NameSpace._keyList ns) t = None ->
      (forall l, NameSpace.find (NameSpace._localList ns) t = Some l ->
                 Token.getType l <> Token.typetoken) ->
      NameSpace.find (NameSpace._globalList ns) t = None ->
      Token.getScope (NameSpace.checkForSymbol ns t) = Token.noscope
      /\ same_but_scope t (NameSpace.checkForSymbol ns t)).
Proof.
  unfold same_but_scope, same_with_meaning, NameSpace.checkForSymbol.
  split; [|split; [|split]].
  - intros k ->. repeat split.
  - intros l -> -> Hl.
    replace (Token.TokenType_eqb (Token.getType l) Token.typetoken) with true
      by (rewrite Hl; reflexivity).
    repeat split.
  - intros g -> Hloc Hg Hv Ht Hf.
    assert (NameSpace.haveTypeToken g = false) as HT.
    { unfold NameSpace.haveTypeToken. destruct (Token.getType g); simpl; congruence. }
    assert (NameSpace.haveVarToken g = false) as HV.
    { unfold NameSpace.haveVarToken. destruct (Token.getType g); simpl; congruence. }
    assert (Hlocal : match NameSpace.find (NameSpace._localList ns) t with
                     | Some l => Token.TokenType_eqb (Token.getType l) Token.typetoken = false
                     | None => True
                     end).
    { destruct (NameSpace.find (NameSpace._localList ns) t) as [l|]; [|exact I].
      specialize (Hloc l eq_refl). destruct (Token.getType l); simpl; congruence. }
    destruct (NameSpace.find (NameSpace._localList ns) t) as [l|];
      [rewrite Hlocal|]; simpl; rewrite Hg, HT, HV; simpl;
      destruct (Token.getType g), (Token.getScope g); simpl;
      (split; [intros [? ?]; congruence|]);
      (split; [intros Hn; try reflexivity; exfalso; apply Hn; split; reflexivity|]);
      repeat split.
  - intros -> Hloc Hg.
    destruct (NameSpace.find (NameSpace._localList ns) t) as [l|] eqn:El.
    + specialize (Hloc l eq_refl).
      replace (Token.TokenType_eqb (Token.getType l) Token.typetoken) with false
        by (destruct (Token.getType l); simpl; congruence).
      simpl. rewrite Hg. repeat split.
    + simpl. rewrite Hg. repeat split.
Qed.

Definition ident_h : Token.t := Token.make "h" (FilePosition.mk "a.c" 5) Token.identifier.

(** The name [h] on a token that has a scope from an earlier lookup. *)
Definition seen_h : Token.t :=
  Token.mk "h" (FilePosition.mk "a.c" 5) Token.identifier Token.globalscope Token.nomod.

Definition proto_h (scope : Token.ScopeType) : Token.t :=
  Token.mk "h" (FilePosition.mk "a.c" 1) Token.functproto scope Token.nomod.

(** A symbol table with the keywords and one global, a prototype of [h]. *)
Definition table_h (scope : Token.ScopeType) : NameSpace.t :=
  NameSpace.mk (NameSpace._keyList NameSpace.make)
               (NameSpace.insert (proto_h scope) ∅) ∅ 0.

Lemma checkForSymbol_lookup_witness :
  Token.getScope (NameSpace.checkForSymbol (table_h Token.filescope) seen_h) = Token.noscope
  /\ Token.getScope (NameSpace.checkForSymbol (table_h Token.globalscope) ident_h)
     = Token.globalscope
  /\ Token.getScope (NameSpace.checkForSymbol NameSpace.make seen_h) = Token.noscope
  /\ same_with_meaning
       (Token.make "while" (FilePosition.mk "a.c" 5) Token.identifier)
       (Token.mk "while" (FilePosition.mk "" 0) Token.control Token.keyword Token.onearg)
       (NameSpace.checkForSymbol (table_h Token.filescope)
          (Token.make "while" (FilePosition.mk "a.c" 5) Token.identifier)).
Proof.
  split; [|split; [|split]].
  - destruct (checkForSymbol_lookup (table_h Token.filescope) seen_h)
      as (_ & _ & H & _).
    destruct (H (proto_h Token.filescope)) as (H1 & _);
      [reflexivity | intros l Hl; discriminate Hl | reflexivity
      | discriminate | discriminate | discriminate |].
    apply H1. split; reflexivity.
  - destruct (checkForSymbol_lookup (table_h Token.globalscope) ident_h)
      as (_ & _ & H & _).
    destruct (H (proto_h Token.globalscope)) as (_ & H2 & _);
      [reflexivity | intros l Hl; discriminate Hl | reflexivity
      | discriminate | discriminate | discriminate |].
    apply H2. intros [_ E]. discriminate E.
  - destruct (checkForSymbol_lookup NameSpace.make seen_h) as (_ & _ & _ & H).
    apply H; [reflexivity | intros l Hl; discriminate Hl | reflexivity].
  - destruct (checkForSymbol_lookup (table_h Token.filescope)
                (Token.make "while" (FilePosition.mk "a.c" 5) Token.identifier))
      as (H & _).
    apply (H (Token.makeKeyword "while" Token.control Token.onearg)). reflexivity.
Defined.

(** ** Local names and the brace count *)

Section Scope.

Context {T : Type} `{TokenSource T}.

(** The number of times the local names have been cleared. *)
Definition clears (p : Parser.t T) : nat :=
  NameSpace.localClears (Parser._symbolTable p).

(** [q] has the brace count of [p], and no clearing of the local names lies
    between them. *)
Definition kept (p q : Parser.t T) : Prop :=
  Parser._braceCount q = Parser._braceCount p /\ clears q = clears p.

(** A computation that ends in a state [st a], if it ends, keeps both. *)
Definition keeps {A : Type} (st : A -> Parser.t T) (p : Parser.t T) (r : result A) : Prop :=
  match r with
  | Ok a => kept p (st a)
  | _ => True
  end.

Lemma kept_refl (p : Parser.t T) : kept p p.
Proof. split; reflexivity. Qed.

Lemma kept_trans (p q r : Parser.t T) : kept p q -> kept q r -> kept p r.
Proof. intros [? ?] [? ?]. split; congruence. Qed.

Lemma bind_keeps {A B : Type} (sa : A -> Parser.t T) (sb : B -> Parser.t T)
      (p : Parser.t T) (m : result A) (k : A -> result B) :
  keeps sa p m -> (forall a, kept p (sa a) -> keeps sb p (k a)) -> keeps sb p (bind m k).
Proof. destruct m; cbn; auto. Qed.

Lemma bind_any {A B : Type} (sb : B -> Parser.t T) (p : Parser.t T)
      (m : result A) (k : A -> result B) :
  (forall a, keeps sb p (k a)) -> keeps sb p (bind m k).
Proof. destruct m; cbn; auto. Qed.

Ltac kept_solve := unfold kept, clears in *; cbn in *; intuition congruence.

Lemma updateNameSpace_localClears (ns : NameSpace.t) (testToken : Token.t) :
  NameSpace.localClears (fst (NameSpace.updateNameSpace ns testToken))
  = NameSpace.localClears ns.
Proof.
  unfold NameSpace.updateNameSpace. cbv zeta.
  assert (Hpair : forall (X : NameSpace.t * list Errors.Warning) (c : list Errors.Warning),
             fst (let '(ns', warnings) := X in (ns', (c ++ warnings)%list)) = fst X)
    by (intros [? ?] ?; reflexivity).
  repeat lazymatch goal with
         | |- NameSpace.localClears (fst (if ?b then _ else _)) = _ => destruct b
         | |- NameSpace.localClears (fst (match ?o with _ => _ end)) = _ =>
             first [rewrite Hpair | destruct o]
         | |- NameSpace.localClears (fst (_, _)) = _ =>
             cbn [fst]; try match goal with
                            | |- context [if ?b then _ else _] => destruct b
                            end; reflexivity
         end.
Qed.

Lemma updateNameSpace_kept (p q : Parser.t T) (testToken : Token.t) :
  kept p q -> kept p (Parser.updateNameSpace q testToken).
Proof.
  intros [Hb Hc]. unfold Parser.updateNameSpace.
  pose proof (updateNameSpace_localClears (Parser._symbolTable q) testToken) as E.
  destruct (NameSpace.updateNameSpace (Parser._symbolTable q) testToken) as [table warnings].
  cbn [fst] in E. split; [exact Hb|]. unfold clears in *. cbn. congruence.
Qed.

Lemma logTokenError_kept (p q : Parser.t T) (token : Token.t) (leadText trailText : string) :
  kept p q -> kept p (Parser.logTokenError q token leadText trailText).
Proof. intros. kept_solve. Qed.

Lemma nextToken_keeps (p q : Parser.t T) :
  kept p q -> keeps snd p (Parser.nextToken q).
Proof.
  intros Hq. unfold Parser.nextToken.
  destruct (TokenList.nextToken (Parser._buffer q)) as [[tk b]| | |]; cbn; try exact I.
  kept_solve.
Qed.

Lemma nextLookahead_keeps (p q : Parser.t T) :
  kept p q -> keeps snd p (Parser.nextLookahead q).
Proof.
  intros Hq. unfold Parser.nextLookahead.
  destruct (TokenList.nextLookahead (Parser._buffer q)) as [[tk b]| | |]; cbn; try exact I.
  kept_solve.
Qed.

Lemma set_buffer_kept (p q : Parser.t T) b : kept p q -> kept p (Parser.set_buffer q b).
Proof. intros. kept_solve. Qed.
Lemma set_parseStack_kept (p q : Parser.t T) s :
  kept p q -> kept p (Parser.set_parseStack q s).
Proof. intros. kept_solve. Qed.
Lemma set_readNextToken_kept (p q : Parser.t T) r :
  kept p q -> kept p (Parser.set_readNextToken q r).
Proof. intros. kept_solve. Qed.
Lemma set_currToken_kept (p q : Parser.t T) tk :
  kept p q -> kept p (Parser.set_currToken q tk).
Proof. intros. kept_solve. Qed.
Lemma set_functToken_kept (p q : Parser.t T) tk :
  kept p q -> kept p (Parser.set_functToken q tk).
Proof. intros. kept_solve. Qed.
Lemma set_statementType_kept (p q : Parser.t T) s :
  kept p q -> kept p (Parser.set_statementType q s).
Proof. intros. kept_solve. Qed.

Lemma if_kept (p a b : Parser.t T) (c : bool) :
  kept p a -> kept p b -> kept p (if c then a else b).
Proof. destruct c; auto. Qed.

Create HintDb keeps.
Hint Resolve if_kept set_buffer_kept set_parseStack_kept set_readNextToken_kept
     set_currToken_kept set_functToken_kept set_statementType_kept : keeps.
Hint Resolve kept_refl updateNameSpace_kept logTokenError_kept nextToken_keeps
     nextLookahead_keeps : keeps.

(** The walk through a definition: binds, conditionals and results. *)
Ltac kept_walk :=
  repeat lazymatch goal with
         | |- kept _ (if ?b then _ else _) => destruct b
         | |- kept _ (match ?x with _ => _ end) => destruct x
         end;
  first [assumption | solve [eauto 6 with keeps] | kept_solve | solve [eauto 30 with keeps]].

Ltac keeps_leaf := cbn [keeps snd fst]; kept_walk.

Ltac keeps_call :=
  first [solve [eauto with keeps]
        |match goal with IH : forall _, _ |- _ => apply IH end; kept_walk
        |repeat match goal with
                | |- keeps _ _ ?call =>
                    match call with
                    | context [if ?b then _ else _] => destruct b
                    end
                end;
         solve [eauto 6 with keeps]].

Ltac keeps_walk :=
  repeat lazymatch goal with
         | |- keeps _ _ (Ok _) => keeps_leaf
         | |- keeps _ _ Undefined => exact I
         | |- keeps _ _ OutOfFuel => exact I
         | |- keeps _ _ (Thrown _) => exact I
         | |- keeps _ _ (bind ?m _) =>
             lazymatch type of m with
             | result (Parser.t _) =>
                 eapply (bind_keeps (fun q => q));
                 [first [solve [eauto with keeps] | keeps_walk]
                 |let q := fresh "q" in let Hq := fresh "Hq" in intros q Hq; cbv beta iota]
             | result (_ * Parser.t _) =>
                 eapply (bind_keeps snd);
                 [first [solve [eauto with keeps] | keeps_walk]
                 |let a := fresh "a" in let q := fresh "q" in let Hq := fresh "Hq" in
                  intros [a q] Hq; cbn [snd] in Hq; cbv beta iota]
             | _ => apply bind_any; intro; cbv beta iota
             end
         | |- keeps _ _ (if ?b then _ else _) => destruct b
         | |- keeps _ _ (match (if ?b then _ else _) with _ => _ end) => destruct b
         | |- keeps _ _ (match (_, _) with _ => _ end) => cbv beta iota
         | |- keeps _ ?p (match Parser.procFunctDeclaration ?d ?n ?i ?q with _ => _ end) =>
             let Hq := fresh "Hq" in
             assert (Hq : kept p (snd (Parser.procFunctDeclaration d n i q)))
               by eauto with keeps;
             destruct (Parser.procFunctDeclaration d n i q); cbn [snd] in Hq
         | |- keeps _ _ (match ?x with _ => _ end) => destruct x
         | |- keeps _ _ _ => keeps_call
         end.

Lemma newStatement_loop_keeps (fuel : nat) :
  forall p q, kept p q -> keeps (fun q => q) p (Parser.newStatement_loop fuel q).
Proof.
  induction fuel as [|fuel IH]; intros p q Hq; cbn [Parser.newStatement_loop]; keeps_walk.
Qed.

Lemma newStatement_keeps (p q : Parser.t T) :
  kept p q -> keeps (fun q => q) p (Parser.newStatement q).
Proof.
  intros Hq. unfold Parser.newStatement.
  pose proof newStatement_loop_keeps. keeps_walk.
Qed.

Hint Resolve newStatement_keeps : keeps.

Lemma matchCloseParens_keeps (fuel : nat) :
  forall count p q, kept p q -> keeps snd p (Parser.matchCloseParens fuel count q).
Proof.
  induction fuel as [|fuel IH]; intros count p q Hq; cbn [Parser.matchCloseParens];
    keeps_walk.
Qed.

Hint Resolve matchCloseParens_keeps : keeps.

Lemma procCombType_look_keeps (fuel : nat) :
  forall next readNext braceCount parenCount p q,
    kept p q ->
    keeps snd p (Parser.procCombType_look fuel next readNext braceCount parenCount q).
Proof.
  induction fuel as [|fuel IH]; intros next readNext braceCount parenCount p q Hq;
    cbn [Parser.procCombType_look]; keeps_walk.
Qed.

Hint Resolve procCombType_look_keeps : keeps.

Lemma procCombType_burn_keeps (fuel : nat) :
  forall p q, kept p q -> keeps (fun q => q) p (Parser.procCombType_burn fuel q).
Proof.
  induction fuel as [|fuel IH]; intros p q Hq; cbn [Parser.procCombType_burn]; keeps_walk.
Qed.

Hint Resolve procCombType_burn_keeps : keeps.

Lemma procCombType_loop_keeps (fuel : nat) :
  forall next readNext braceCount parenCount p q,
    kept p q ->
    keeps (fun q => q) p
          (Parser.procCombType_loop fuel next readNext braceCount parenCount q).
Proof.
  induction fuel as [|fuel IH]; intros next readNext braceCount parenCount p q Hq;
    cbn [Parser.procCombType_loop]; keeps_walk.
Qed.

Hint Resolve procCombType_loop_keeps : keeps.

Lemma procCombType_keeps (fuel : nat) (p q : Parser.t T) :
  kept p q -> keeps (fun q => q) p (Parser.procCombType fuel q).
Proof. intros Hq. unfold Parser.procCombType. cbv zeta. keeps_walk. Qed.

Hint Resolve procCombType_keeps : keeps.

Lemma procFunctDeclaration_kept (declToken nextToken : Token.t) (insideParams : bool)
      (p q : Parser.t T) :
  kept p q ->
  kept p (snd (Parser.procFunctDeclaration declToken nextToken insideParams q)).
Proof.
  intros Hq. unfold Parser.procFunctDeclaration. cbv zeta. cbn [snd].
  repeat match goal with
         | |- context [if ?b then _ else _] => destruct b
         end; eauto 10 with keeps.
Qed.

Hint Resolve procFunctDeclaration_kept : keeps.

Lemma burnCloseParens_keeps (fuel : nat) (body : Parser.t T -> Parser.t T) :
  (forall p q, kept p q -> kept p (body q)) ->
  forall count p q, kept p q -> keeps snd p (Parser.burnCloseParens fuel body count q).
Proof.
  intros Hbody.
  induction fuel as [|fuel IH]; intros count p q Hq; cbn [Parser.burnCloseParens];
    keeps_walk.
Qed.

Lemma updateVarNames_kept (varNames : TokenStack.t) :
  forall p q, kept p q -> kept p (Parser.updateVarNames varNames q).
Proof.
  induction varNames as [|back varNames IH]; intros p q Hq; cbn [Parser.updateVarNames];
    eauto with keeps.
Qed.

Hint Resolve updateVarNames_kept : keeps.

Lemma procDeclaration_loop_keeps (fuel : nat) :
  forall d p q, kept p q -> keeps snd p (Parser.procDeclaration_loop fuel d q).
Proof.
  induction fuel as [|fuel IH]; intros d p q Hq; cbn [Parser.procDeclaration_loop].
  - keeps_walk.
  - pose proof (burnCloseParens_keeps fuel (fun p => p) (fun _ _ Hk => Hk)) as Hburn.
    keeps_walk.
Qed.

Hint Resolve procDeclaration_loop_keeps : keeps.

Lemma procDeclaration_keeps (fuel : nat) (p q : Parser.t T) :
  kept p q -> keeps (fun q => q) p (Parser.procDeclaration fuel q).
Proof. intros Hq. unfold Parser.procDeclaration. cbv zeta. keeps_walk. Qed.

Hint Resolve procDeclaration_keeps : keeps.

Lemma countOpenParens_keeps (fuel : nat) :
  forall count p q, kept p q -> keeps snd p (Parser.countOpenParens fuel count q).
Proof.
  induction fuel as [|fuel IH]; intros count p q Hq; cbn [Parser.countOpenParens];
    keeps_walk.
Qed.

Lemma burnOpenParens_keeps (fuel : nat) :
  forall count p q, kept p q -> keeps snd p (Parser.burnOpenParens fuel count q).
Proof.
  induction fuel as [|fuel IH]; intros count p q Hq; cbn [Parser.burnOpenParens];
    keeps_walk.
Qed.

Lemma burnWhilePositive_keeps (fuel : nat) :
  forall count p q,
    kept p q -> keeps (fun q => q) p (Parser.burnWhilePositive fuel count q).
Proof.
  induction fuel as [|fuel IH]; intros count p q Hq; cbn [Parser.burnWhilePositive];
    keeps_walk.
Qed.

Hint Resolve countOpenParens_keeps burnOpenParens_keeps burnWhilePositive_keeps : keeps.

(** Fetching the token to parse clears nothing and leaves the brace count. *)
Lemma fetch_keeps (fuel : nat) (p q : Parser.t T) :
  kept p q -> keeps (fun q => q) p (Parser.fetch fuel q).
Proof. intros Hq. unfold Parser.fetch. cbv zeta. keeps_walk. Qed.


Hint Resolve burnCloseParens_keeps : keeps.

(** What the [switch] does with any token but a brace. *)
Lemma dispatch_keeps (fuel : nat) (conParenCount : Z) (q : Parser.t T) :
  Token.getType (Parser._currToken q) <> Token.openbrace ->
  Token.getType (Parser._currToken q) <> Token.closebrace ->
  keeps snd q (Parser.dispatch fuel conParenCount q).
Proof.
  intros Hopen Hclose. unfold Parser.dispatch. cbv zeta.
  pose proof (kept_refl q) as Hq.
  destruct (Token.getType (Parser._currToken q)); try contradiction; keeps_walk.
Qed.

(** [newStatement] always returns, with the name space and the brace count
    it was given. *)
Lemma dropTillType_length (wantType : Token.TokenType) (s : TokenStack.t) :
  (List.length (TokenStack.dropTillType wantType s) <= List.length s)%nat.
Proof.
  induction s as [|back s IH]; cbn [TokenStack.dropTillType]; [lia|].
  destruct (negb _); cbn [List.length] in *; lia.
Qed.

Lemma popTillType_length (wantType : Token.TokenType) (s : TokenStack.t) :
  s <> [] ->
  (List.length (snd (TokenStack.popTillType wantType s)) < List.length s)%nat.
Proof.
  intros Hs. unfold TokenStack.popTillType, TokenStack.pop.
  pose proof (dropTillType_length wantType s) as Hlen.
  destruct (TokenStack.dropTillType wantType s) as [|back s'].
  - destruct s; [contradiction|]. cbn. lia.
  - cbn in *. lia.
Qed.

Lemma newStatement_loop_total (fuel : nat) :
  forall p : Parser.t T,
    (List.length (Parser._parseStack p) <= fuel)%nat ->
    exists q,
      Parser.newStatement_loop fuel p = Ok q
      /\ Parser._symbolTable q = Parser._symbolTable p
      /\ Parser._braceCount q = Parser._braceCount p.
Proof.
  induction fuel as [|fuel IH]; intros p Hfuel.
  - destruct (Parser._parseStack p) eqn:Hs; [|cbn in Hfuel; lia].
    exists p. cbn. rewrite Hs. repeat split.
  - cbn [Parser.newStatement_loop].
    destruct (Parser._parseStack p) as [|back s] eqn:Hs.
    { exists p. repeat split. }
    cbn [TokenStack.empty]. cbv iota.
    pose proof (popTillType_length Token.functcall (back :: s) ltac:(discriminate)) as Hlen.
    destruct (TokenStack.popTillType Token.functcall (back :: s)) as [temp stack].
    cbn [snd] in Hlen. cbn [List.length] in Hfuel, Hlen.
    match goal with
    | |- context [Parser.newStatement_loop fuel ?p'] =>
        destruct (IH p') as (q & Hq & Hs1 & Hs2)
    end.
    { destruct (negb _); cbn; lia. }
    exists q. split; [exact Hq|].
    destruct (negb _); cbn in Hs1, Hs2; split; assumption.
Qed.

Lemma newStatement_total (p : Parser.t T) :
  exists q,
    Parser.newStatement p = Ok q
    /\ Parser._symbolTable q = Parser._symbolTable p
    /\ Parser._braceCount q = Parser._braceCount p.
Proof.
  unfold Parser.newStatement.
  destruct (newStatement_loop_total (List.length (Parser._parseStack p)) p)
    as (q & Hq & Hs1 & Hs2); [lia|].
  rewrite Hq. cbn [bind]. eexists. split; [reflexivity|]. cbn. split; assumption.
Qed.

(** An open brace raises the brace count and clears nothing. *)
Lemma dispatch_openbrace (fuel : nat) (conParenCount : Z) (q : Parser.t T) :
  Token.getType (Parser._currToken q) = Token.openbrace ->
  match Parser.dispatch fuel conParenCount q with
  | Ok (_, p') =>
      Parser._braceCount p' = (Parser._braceCount q + 1)%Z /\ clears p' = clears q
  | _ => True
  end.
Proof.
  intros Hty. unfold Parser.dispatch. rewrite Hty. cbv zeta. unfold Parser.incr.
  destruct (Parser._braceCount q =? 2147483647)%Z; cbn [bind]; [exact I|].
  destruct (newStatement_total (Parser.set_braceCount q (Parser._braceCount q + 1)))
    as (p' & Hp' & Hs1 & Hs2).
  rewrite Hp'. cbn [bind]. unfold clears. rewrite Hs1, Hs2. split; reflexivity.
Qed.

(** A close brace: the [switch] returns; the local names are cleared when
    the brace count is one, and the count goes down unless it is zero. *)
Lemma dispatch_closebrace (fuel : nat) (conParenCount : Z) (q : Parser.t T) :
  Token.getType (Parser._currToken q) = Token.closebrace ->
  exists p',
    Parser.dispatch fuel conParenCount q = Ok (conParenCount, p')
    /\ Parser._symbolTable p'
       = (if (Parser._braceCount q =? 1)%Z
          then NameSpace.clearLocalNames (Parser._symbolTable q)
          else Parser._symbolTable q)
    /\ Parser._braceCount p'
       = (if (0 <? Parser._braceCount q)%Z
          then (Parser._braceCount q - 1)%Z else Parser._braceCount q).
Proof.
  intros Hty. unfold Parser.dispatch. rewrite Hty. cbv zeta.
  destruct (Parser._braceCount q =? 1)%Z;
    cbn [Parser._braceCount Parser.set_symbolTable];
    destruct (0 <? Parser._braceCount q)%Z;
    match goal with
    | |- context [Parser.newStatement ?p] =>
        destruct (newStatement_total p) as (p' & Hp' & Hs1 & Hs2)
    end;
    rewrite Hp'; cbn [bind]; exists p'; (split; [reflexivity|]);
    rewrite Hs1, Hs2; split; reflexivity.
Qed.

(** The end of a pass: [newStatement] at the end of the file. *)
Lemma pass_end (p1 : Parser.t T) :
  exists p',
    (if TokenList.haveEOF (Parser._buffer p1) then Parser.newStatement p1 else Ok p1)
    = Ok p'
    /\ Parser._symbolTable p' = Parser._symbolTable p1
    /\ Parser._braceCount p' = Parser._braceCount p1.
Proof.
  destruct (TokenList.haveEOF (Parser._buffer p1)).
  - apply newStatement_total.
  - exists p1. repeat split.
Qed.

Lemma pass_dispatch (fuel : nat) (conParenCount : Z) (p q : Parser.t T) :
  Parser.fetch fuel p = Ok q ->
  forall c' p',
    Parser.pass fuel conParenCount p = Ok (c', p') ->
    exists c1 p1,
      Parser.dispatch fuel conParenCount q = Ok (c1, p1)
      /\ Parser._symbolTable p' = Parser._symbolTable p1
      /\ Parser._braceCount p' = Parser._braceCount p1.
Proof.
  intros Hfetch c' p' Hpass. unfold Parser.pass in Hpass.
  rewrite Hfetch in Hpass. cbn [bind] in Hpass.
  destruct (Parser.dispatch fuel conParenCount q) as [[c1 p1]| | |];
    cbn [bind] in Hpass; try discriminate Hpass.
  destruct (pass_end p1) as (p2 & Hend & Hs1 & Hs2).
  rewrite Hend in Hpass. cbn [bind] in Hpass. injection Hpass as _ <-.
  exists c1, p1. repeat split; assumption.
Qed.

(** The pass is at the end of the outermost block: the token the [switch]
    is given is a close brace and the brace count is one. *)
Definition closes (q : Parser.t T) : Prop :=
  Token.getType (Parser._currToken q) = Token.closebrace
  /\ Parser._braceCount q = 1%Z.

End Scope.

(** C7 (scope discipline).  In a pass of the loop of [findNextFunction],
    let [q] be the state in which the [switch] is entered, after the token
    has been fetched, looked up and a combined type processed.  Fetching
    clears no local names and leaves the brace count.  If the token is a
    close brace and the brace count is one, the pass returns, has cleared
    the local names once, leaves them empty and leaves the brace count at
    zero.  For every pass that returns, the local names have been cleared
    (exactly once) if and only if the token was a close brace met at brace
    count one, they have not been cleared otherwise, and this is the case if
    and only if the brace count went from one to zero in the pass. *)
Theorem locals_cleared_iff_scope_closes
        {T : Type} `{TokenSource T} (fuel : nat) (conParenCount : Z) (p q : Parser.t T) :
  Parser.fetch fuel p = Ok q ->
  kept p q
  /\ (closes q ->
      exists c' p',
        Parser.pass fuel conParenCount p = Ok (c', p')
        /\ clears p' = S (clears p)
        /\ NameSpace._localList (Parser._symbolTable p') = ∅
        /\ Parser._braceCount p' = 0%Z)
  /\ (forall c' p',
        Parser.pass fuel conParenCount p = Ok (c', p') ->
        (clears p' = S (clears p) <-> closes q)
        /\ (clears p' = clears p <-> ~ closes q)
        /\ (closes q <-> Parser._braceCount p = 1%Z /\ Parser._braceCount p' = 0%Z)).
Proof.
  intros Hfetch.
  assert (Hq : kept p q).
  { pose proof (fetch_keeps fuel p p (kept_refl p)) as Hk. rewrite Hfetch in Hk. exact Hk. }
  destruct Hq as [Hb Hc].
  split; [split; assumption|]. split.
  - intros [Hty Hone].
    destruct (dispatch_closebrace fuel conParenCount q Hty) as (p1 & Hd & Hs1 & Hs2).
    destruct (pass_end p1) as (p' & Hend & He1 & He2).
    unfold Parser.pass. rewrite Hfetch. cbn [bind]. rewrite Hd. cbn [bind].
    rewrite Hend. cbn [bind]. do 2 eexists. split; [reflexivity|].
    rewrite Hone in Hs1, Hs2. cbn in Hs1, Hs2.
    unfold clears in *. rewrite He1, He2, Hs1, Hs2. cbn. rewrite Hc.
    repeat split.
  - intros c' p' Hpass.
    destruct (pass_dispatch fuel conParenCount p q Hfetch c' p' Hpass)
      as (c1 & p1 & Hd & He1 & He2).
    unfold closes, clears in *. rewrite He1, He2, <- Hb, <- Hc. clear Hpass He1 He2.
    destruct (Token.TokenType_eqb (Token.getType (Parser._currToken q)) Token.closebrace)
             eqn:Hclose.
    + assert (Hty : Token.getType (Parser._currToken q) = Token.closebrace)
        by (destruct (Token.getType (Parser._currToken q)); try discriminate; reflexivity).
      destruct (dispatch_closebrace fuel conParenCount q Hty) as (p2 & Hd2 & Hs1 & Hs2).
      rewrite Hd in Hd2. injection Hd2 as _ <-. rewrite Hs1, Hs2.
      destruct (Z.eqb_spec (Parser._braceCount q) 1) as [Hone|Hone];
        destruct (Z.ltb_spec 0 (Parser._braceCount q)); cbn; intuition (try lia).
    + assert (Hty : Token.getType (Parser._currToken q) <> Token.closebrace)
        by (intros E; rewrite E in Hclose; discriminate).
      destruct (Token.TokenType_eqb (Token.getType (Parser._currToken q)) Token.openbrace)
               eqn:Hopen.
      * assert (Hty' : Token.getType (Parser._currToken q) = Token.openbrace)
          by (destruct (Token.getType (Parser._currToken q)); try discriminate; reflexivity).
        pose proof (dispatch_openbrace fuel conParenCount q Hty') as Ho.
        rewrite Hd in Ho. destruct Ho as [Ho1 Ho2]. unfold clears in Ho2.
        rewrite Ho1, Ho2. intuition (try lia).
      * assert (Hty' : Token.getType (Parser._currToken q) <> Token.openbrace)
          by (intros E; rewrite E in Hopen; discriminate).
        pose proof (dispatch_keeps fuel conParenCount q Hty' Hty) as Hk.
        rewrite Hd in Hk. destruct Hk as [Hk1 Hk2]. cbn [snd] in Hk1, Hk2.
        unfold clears in Hk2. rewrite Hk1, Hk2. intuition (try lia).
Qed.

(** A token source for examples: the tokens of a file, already lexed. *)
#[local] Instance token_stream : TokenSource (list Token.t) := {
  Tokenizer_nextToken l :=
    match l with
    | [] => Ok (Token.make "" (FilePosition.mk "" 0) Token.tokenEOF, [])
    | tk :: l' => Ok (tk, l')
    end;
  Tokenizer_haveEOF l := match l with [] => true | _ => false end }.

(** The parser inside the body of a function that has the local name [i],
    before the brace that closes the body. *)
Definition local_i : Token.t :=
  Token.mk "i" (FilePosition.mk "f.c" 2) Token.varname Token.localscope Token.nomod.

Definition closing_brace : Token.t :=
  Token.make "}" (FilePosition.mk "f.c" 3) Token.closebrace.

Definition in_body : Parser.t (list Token.t) :=
  Parser.mk (TokenList.mk [closing_brace] [] None)
            (NameSpace.set_localList NameSpace.make (NameSpace.insert local_i ∅))
            [] true Token.noToken Token.noToken Parser.undet 1 [].

Lemma locals_cleared_iff_scope_closes_witness :
  exists c' p',
    Parser.pass 10 0 in_body = Ok (c', p')
    /\ clears p' = S (clears in_body)
    /\ NameSpace._localList (Parser._symbolTable p') = ∅
    /\ Parser._braceCount p' = 0%Z.
Proof.
  assert (Hfetch : Parser.fetch 10 in_body
                   = Ok (Parser.set_currToken
                           (Parser.set_buffer in_body (TokenList.mk [] [] None))
                           closing_brace)) by reflexivity.
  destruct (locals_cleared_iff_scope_closes 10 0 in_body _ Hfetch) as (_ & Hcloses & _).
  apply Hcloses. split; reflexivity.
Defined.

(** * Further properties *)

(** ** The order of the final sort is one [std::sort] may use *)

Section SortOrder.

(** A strict total order. *)
Record strict_total {A : Type} (lt : A -> A -> Prop) : Prop := {
  st_irrefl : forall a, ~ lt a a;
  st_trans : forall a b c, lt a b -> lt b c -> lt a c;
  st_total : forall a b, lt a b \/ a = b \/ lt b a }.

(** The lexicographic order on pairs. *)
Definition lex {A B : Type} (ltA : A -> A -> Prop) (ltB : B -> B -> Prop)
           (x y : A * B) : Prop :=
  ltA (fst x) (fst y) \/ (fst x = fst y /\ ltB (snd x) (snd y)).

Lemma lex_strict_total {A B : Type} (ltA : A -> A -> Prop) (ltB : B -> B -> Prop) :
  strict_total ltA -> strict_total ltB -> strict_total (lex ltA ltB).
Proof.
  intros [Ia Ta Ca] [Ib Tb Cb]. split.
  - intros [a b] [H | [_ H]]; cbn in H; [exact (Ia a H)|exact (Ib b H)].
  - intros [a1 b1] [a2 b2] [a3 b3]. unfold lex. cbn.
    intros [H12 | [-> H12]] [H23 | [-> H23]].
    + left. eauto.
    + left. exact H12.
    + left. exact H23.
    + right. split; [reflexivity|eauto].
  - intros [a1 b1] [a2 b2]. unfold lex. cbn.
    destruct (Ca a1 a2) as [H | [-> | H]]; [left; left; exact H| |right; right; left; exact H].
    destruct (Cb b1 b2) as [H | [-> | H]].
    + left. right. split; [reflexivity|exact H].
    + right. left. reflexivity.
    + right. right. right. split; [reflexivity|exact H].
Qed.

Lemma string_lt_trans (a b c : string) : string_lt a b -> string_lt b c -> string_lt a c.
Proof.
  unfold string_lt. intros Hab Hbc.
  apply OrderedTypeEx.String_as_OT.cmp_lt.
  apply OrderedTypeEx.String_as_OT.cmp_lt in Hab, Hbc.
  exact (OrderedTypeEx.String_as_OT.lt_trans _ _ _ Hab Hbc).
Qed.

Lemma string_lt_strict_total : strict_total string_lt.
Proof.
  split.
  - exact string_lt_irrefl.
  - exact string_lt_trans.
  - intros a b. unfold string_lt.
    destruct (String.compare a b) eqn:E.
    + right. left. apply String.compare_eq_iff. exact E.
    + left. reflexivity.
    + right. right. rewrite String.compare_antisym, E. reflexivity.
Qed.

(** [true] before [false]: the order of the two flags. *)
Definition flag_lt (a b : bool) : Prop := a = true /\ b = false.

Lemma flag_lt_strict_total : strict_total flag_lt.
Proof.
  unfold flag_lt. split.
  - intros a [-> H]. discriminate H.
  - intros a b c [_ Hb] [Hb' _]. congruence.
  - intros [] []; intuition.
Qed.

Lemma Z_lt_strict_total : strict_total Z.lt.
Proof. split; intros; lia. Qed.

(** What [operator<] compares, in the order in which it compares: the
    name, the scope, the file name of a record of file scope, the kind, the
    file name and the line. *)
Definition sort_key (r : FunctionData.t) : string * (bool * (string * (bool * (string * Z)))) :=
  let file := FilePosition.getFileName (FunctionData._location r) in
  (FunctionData._name r,
   (FunctionData._filescope r,
    (if FunctionData._filescope r then file else EmptyString,
     (FunctionData._declaration r,
      (file, FilePosition.getLineNo (FunctionData._location r)))))).

Definition key_lt :=
  lex string_lt (lex flag_lt (lex string_lt (lex flag_lt (lex string_lt Z.lt)))).

Lemma key_lt_strict_total : strict_total key_lt.
Proof.
  unfold key_lt.
  repeat apply lex_strict_total;
    first [exact string_lt_strict_total | exact flag_lt_strict_total
          | exact Z_lt_strict_total].
Qed.

Lemma string_eqb_false_lt (a b : string) :
  String.eqb a b = false -> string_lt a b \/ string_lt b a.
Proof.
  intros H. destruct (st_total _ string_lt_strict_total a b) as [L | [E | L]]; auto.
  subst. rewrite String.eqb_refl in H. discriminate H.
Qed.

Lemma ltb_key_lt (a b : FunctionData.t) :
  FunctionData.ltb a b = true <-> key_lt (sort_key a) (sort_key b).
Proof.
  destruct a as [na la da ca ra sa], b as [nb lb db cb rb sb].
  unfold FunctionData.ltb, key_lt, sort_key, lex, flag_lt. cbn.
  pose proof string_lt_irrefl as Irr.
  assert (Fin : forall P : Prop, false = true -> P) by (intros P E; discriminate E).
  destruct (String.eqb_spec na nb) as [->|Hn]; cbn.
  2:{ rewrite string_lt_iff. split; [tauto|]. intros [H | [H _]]; [exact H|contradiction]. }
  destruct sa, sb; cbn.
  - destruct (String.eqb_spec (FilePosition.getFileName la) (FilePosition.getFileName lb))
      as [Ef|Hf]; cbn.
    + destruct da, db; cbn; rewrite ?FilePosition_ltb_iff; unfold position_lt;
        rewrite Ef; split; try discriminate; try tauto;
        intuition (try congruence; try (exfalso; eapply Irr; eassumption)).
    + rewrite string_lt_iff. split; [tauto|].
      intuition (try congruence; try (exfalso; eapply Irr; eassumption)).
  - split; [tauto|]. intuition (try congruence; try (exfalso; eapply Irr; eassumption)).
  - split; [discriminate|]. intuition (try congruence; try (exfalso; eapply Irr; eassumption)).
  - destruct da, db; cbn; rewrite ?FilePosition_ltb_iff; unfold position_lt;
      split; try discriminate; try tauto;
      intuition (try congruence; try (exfalso; eapply Irr; eassumption)).
Qed.

End SortOrder.

(** X1.  [FunctionData::operator<] is a strict weak ordering, as [std::sort]
    requires: no record is before itself, the order is transitive, and two
    records of which neither is before the other are exactly those that
    agree in all the order looks at: name, scope, kind, file and line (so
    being tied is transitive too, and tied records differ at most in the
    caller and the reference flag). *)
Theorem operator_lt_strict_weak_order :
  (forall a, FunctionData.ltb a a = false)
  /\ (forall a b c,
        FunctionData.ltb a b = true -> FunctionData.ltb b c = true ->
        FunctionData.ltb a c = true)
  /\ (forall a b,
        FunctionData.ltb a b = false /\ FunctionData.ltb b a = false
        <-> FunctionData._name a = FunctionData._name b
            /\ FunctionData._filescope a = FunctionData._filescope b
            /\ FunctionData._declaration a = FunctionData._declaration b
            /\ FunctionData._location a = FunctionData._location b).
Proof.
  pose proof key_lt_strict_total as [Irr Trans Total].
  assert (Hfalse : forall a b, FunctionData.ltb a b = false
                               <-> ~ key_lt (sort_key a) (sort_key b)).
  { intros a b. rewrite <- ltb_key_lt.
    destruct (FunctionData.ltb a b); intuition congruence. }
  split; [|split].
  - intros a. apply Hfalse. apply Irr.
  - intros a b c Hab Hbc. apply ltb_key_lt. apply ltb_key_lt in Hab, Hbc. eauto.
  - intros a b. rewrite !Hfalse.
    assert (Hkey : sort_key a = sort_key b
                   <-> FunctionData._name a = FunctionData._name b
                       /\ FunctionData._filescope a = FunctionData._filescope b
                       /\ FunctionData._declaration a = FunctionData._declaration b
                       /\ FunctionData._location a = FunctionData._location b).
    { destruct a as [na [fa la] da ca ra sa], b as [nb [fb lb] db cb rb sb].
      unfold sort_key. cbn. split.
      - intros E. injection E as -> -> _ -> -> ->. repeat split.
      - intros (-> & -> & -> & E). injection E as -> ->. reflexivity. }
    rewrite <- Hkey. split.
    + intros [Hab Hba]. destruct (Total (sort_key a) (sort_key b)) as [H | [H | H]];
        [contradiction|exact H|contradiction].
    + intros E. rewrite E. split; apply Irr.
Qed.

(** ** The hold map is kept in the order of the names *)

Section HoldOrder.

(** The entries stand by lexeme, none before one with a smaller lexeme. *)
Definition by_lexeme (m : FunctHold.HoldMap) : Prop :=
  StronglySorted (fun a b => Token.ltb (fst b) (fst a) = false) m.

Lemma token_ltb_iff (a b : Token.t) :
  Token.ltb a b = true <-> string_lt (Token.getLexeme a) (Token.getLexeme b).
Proof. unfold Token.ltb. apply string_lt_iff. Qed.

Lemma token_ltb_false (a b : Token.t) :
  Token.ltb a b = false <-> ~ string_lt (Token.getLexeme a) (Token.getLexeme b).
Proof.
  rewrite <- token_ltb_iff. destruct (Token.ltb a b); intuition congruence.
Qed.

(** [a <= b] and [b < c] give [a < c], and the like. *)
Lemma string_le_lt_trans (a b c : string) :
  ~ string_lt b a -> string_lt b c -> string_lt a c.
Proof.
  intros Hab Hbc.
  destruct (st_total _ string_lt_strict_total a b) as [H | [-> | H]];
    [exact (string_lt_trans _ _ _ H Hbc)|exact Hbc|contradiction].
Qed.

Lemma string_lt_le_trans (a b c : string) :
  string_lt a b -> ~ string_lt c b -> string_lt a c.
Proof.
  intros Hab Hbc.
  destruct (st_total _ string_lt_strict_total b c) as [H | [<- | H]];
    [exact (string_lt_trans _ _ _ Hab H)|exact Hab|contradiction].
Qed.

Lemma insert_by_lexeme (e : Token.t * string) (m : FunctHold.HoldMap) :
  by_lexeme m -> by_lexeme (FunctHold.insert e m).
Proof.
  unfold by_lexeme. induction m as [|x m IH]; intros Hm; cbn [FunctHold.insert].
  - repeat constructor.
  - apply StronglySorted_inv in Hm as [Hm Hx].
    destruct (Token.ltb (fst e) (fst x)) eqn:Hex.
    + constructor; [constructor; assumption|].
      apply token_ltb_iff in Hex.
      constructor.
      * apply token_ltb_false. apply string_lt_asym. exact Hex.
      * eapply List.Forall_impl; [|exact Hx]. intros b Hb. cbn beta in *.
        apply token_ltb_false. apply token_ltb_false in Hb.
        intros Hbe. apply Hb. exact (string_lt_trans _ _ _ Hbe Hex).
    + constructor; [apply IH; exact Hm|].
      assert (Hall : Forall (fun b => Token.ltb (fst b) (fst x) = false) (e :: m)).
      { constructor; [|exact Hx].
        apply token_ltb_false. apply token_ltb_false in Hex. exact Hex. }
      eapply Permutation.Permutation_Forall; [apply insert_Permutation|exact Hall].
Qed.

(** [span] cuts a list where the test first fails. *)
Lemma span_spec {A : Type} (p : A -> bool) (l a b : list A) :
  FunctHold.span p l = (a, b) ->
  l = (a ++ b)%list /\ Forall (fun x => p x = true) a
  /\ match b with [] => True | x :: _ => p x = false end.
Proof.
  revert a b. induction l as [|x l IH]; intros a b; cbn [FunctHold.span].
  - intros E. injection E as <- <-. repeat split. constructor.
  - destruct (p x) eqn:Hx.
    + destruct (FunctHold.span p l) as [a' b'] eqn:Hs. intros E. injection E as <- <-.
      destruct (IH a' b' eq_refl) as (-> & Ha & Hb).
      repeat split; [constructor; assumption|exact Hb].
    + intros E. injection E as <- <-. repeat split; [constructor|exact Hx].
Qed.

(** On a map in order, [equal_range] cuts out exactly the entries of the key. *)
Lemma equal_range_spec (m before range after : FunctHold.HoldMap) (key : Token.t) :
  by_lexeme m ->
  FunctHold.equal_range m key = (before, range, after) ->
  m = (before ++ range ++ after)%list
  /\ Forall (fun e => Token.eqb (fst e) key = false) before
  /\ Forall (fun e => Token.eqb (fst e) key = true) range
  /\ Forall (fun e => Token.eqb (fst e) key = false) after.
Proof.
  unfold by_lexeme, FunctHold.equal_range. intros Hm.
  destruct (FunctHold.span (fun e => Token.ltb (fst e) key) m) as [b rest] eqn:H1.
  destruct (FunctHold.span (fun e => negb (Token.ltb key (fst e))) rest) as [r a] eqn:H2.
  intros E. injection E as <- <- <-.
  destruct (span_spec _ _ _ _ H1) as (-> & Hb & Hrest).
  destruct (span_spec _ _ _ _ H2) as (-> & Hr & Ha).
  split; [reflexivity|].
  assert (Hne : forall x y : Token.t,
             string_lt (Token.getLexeme x) (Token.getLexeme y)
             \/ string_lt (Token.getLexeme y) (Token.getLexeme x) ->
             Token.eqb x y = false).
  { intros x y Hxy. unfold Token.eqb.
    destruct (String.eqb_spec (Token._lexeme x) (Token._lexeme y)) as [E|]; [|reflexivity].
    unfold Token.getLexeme in Hxy. rewrite E in Hxy.
    destruct Hxy as [Hxy|Hxy]; exfalso; exact (string_lt_irrefl _ Hxy). }
  (* the part from the range on is in order *)
  assert (Hsorted : StronglySorted (fun a0 b0 => Token.ltb (fst b0) (fst a0) = false)
                                   (r ++ a)).
  { clear -Hm. induction b as [|x b IH]; [exact Hm|].
    apply IH. cbn in Hm. apply StronglySorted_inv in Hm as [Hm _]. exact Hm. }
  split; [|split].
  - eapply List.Forall_impl; [|exact Hb]. intros e He. cbn beta in *.
    apply Hne. left. apply token_ltb_iff. exact He.
  - (* no entry of the range is before the key: its first entry is not *)
    assert (Hfirst : Forall (fun e => Token.ltb (fst e) key = false) (r ++ a)).
    { destruct (r ++ a)%list as [|x l] eqn:El; [constructor|].
      cbn in Hrest. apply StronglySorted_inv in Hsorted as [_ Hx].
      constructor; [exact Hrest|].
      eapply List.Forall_impl; [|exact Hx]. intros e He. cbn beta in *.
      apply token_ltb_false. apply token_ltb_false in He, Hrest.
      intros Hek. apply He. exact (string_lt_le_trans _ _ _ Hek Hrest). }
    apply List.Forall_app in Hfirst as [Hfirst _].
    apply List.Forall_forall. intros e He.
    pose proof (proj1 (List.Forall_forall _ _) Hfirst e He) as H3.
    pose proof (proj1 (List.Forall_forall _ _) Hr e He) as H4. cbn beta in *.
    apply negb_true_iff in H4. unfold Token.eqb. apply String.eqb_eq.
    unfold Token.ltb in *. apply string_trichotomy; assumption.
  - destruct a as [|x a]; [constructor|].
    apply negb_false_iff in Ha. apply token_ltb_iff in Ha.
    assert (Hx : StronglySorted (fun a0 b0 => Token.ltb (fst b0) (fst a0) = false) (x :: a)).
    { clear -Hsorted. induction r as [|y r IH]; [exact Hsorted|].
      apply IH. cbn in Hsorted. apply StronglySorted_inv in Hsorted as [Hs _]. exact Hs. }
    apply StronglySorted_inv in Hx as [_ Hx].
    constructor; [apply Hne; right; exact Ha|].
    eapply List.Forall_impl; [|exact Hx]. intros e He. cbn beta in *.
    apply Hne. right. apply token_ltb_false in He.
    exact (string_lt_le_trans _ _ _ Ha He).
Qed.

Lemma filter_all {A : Type} (p : A -> bool) (l : list A) :
  Forall (fun x => p x = true) l -> List.filter p l = l.
Proof.
  induction 1 as [|x l Hx _ IH]; cbn; [reflexivity|]. rewrite Hx, IH. reflexivity.
Qed.

Lemma filter_none {A : Type} (p : A -> bool) (l : list A) :
  Forall (fun x => p x = false) l -> List.filter p l = [].
Proof.
  induction 1 as [|x l Hx _ IH]; cbn; [reflexivity|]. rewrite Hx, IH. reflexivity.
Qed.

Lemma by_lexeme_app (a b c : FunctHold.HoldMap) :
  by_lexeme (a ++ b ++ c) -> by_lexeme (a ++ c).
Proof.
  unfold by_lexeme. induction a as [|x a IH]; cbn.
  - induction b as [|y b IHb]; cbn; [auto|].
    intros Hs. apply StronglySorted_inv in Hs as [Hs _]. auto.
  - intros Hs. apply StronglySorted_inv in Hs as [Hs Hx].
    constructor; [apply IH; exact Hs|].
    apply List.Forall_app in Hx as [Ha Hx]. apply List.Forall_app in Hx as [_ Hc].
    apply List.Forall_app. split; assumption.
Qed.

End HoldOrder.

(** X2.  The hold map is in the order of the names when it is reset, and
    [holdIfNeeded], [releaseHold], [nextRelease] and [procEOF] keep it so. *)
Theorem hold_map_stays_in_order (h : FunctHold.t) :
  by_lexeme (FunctHold._holdData FunctHold.reset)
  /\ (by_lexeme (FunctHold._holdData h) ->
      (forall testToken callFunct held h',
          FunctHold.holdIfNeeded testToken callFunct h = Ok (held, h') ->
          by_lexeme (FunctHold._holdData h'))
      /\ (forall declToken,
             by_lexeme (FunctHold._holdData (FunctHold.releaseHold declToken h)))
      /\ (forall data h',
             FunctHold.nextRelease h = Ok (data, h') ->
             by_lexeme (FunctHold._holdData h'))
      /\ (forall data h',
             FunctHold.procEOF h = Ok (data, h') ->
             by_lexeme (FunctHold._holdData h'))).
Proof.
  split; [constructor|]. intros Hm. split; [|split; [|split]].
  - intros testToken callFunct held h'. unfold FunctHold.holdIfNeeded.
    destruct (_ || _); [intros E; injection E as _ <-; exact Hm|].
    destruct (FunctHold.doingRelease h); [discriminate|].
    intros E. injection E as _ <-. cbn. apply insert_by_lexeme. exact Hm.
  - intros declToken. unfold FunctHold.releaseHold.
    destruct (Token.TokenType_eqb _ _); [|exact Hm].
    destruct (FunctHold.equal_range (FunctHold._holdData h) declToken)
      as [[before range] after] eqn:Hr.
    destruct (equal_range_spec _ _ _ _ _ Hm Hr) as (Hsplit & _).
    unfold FunctHold.moveHoldToCache. destruct range; [exact Hm|].
    cbn [FunctHold._holdData]. rewrite Hsplit in Hm. exact (by_lexeme_app _ _ _ Hm).
  - intros data h'. unfold FunctHold.nextRelease.
    destruct (FunctHold.pop_back (FunctHold._releaseData h)) as [[d r]|]; cbn;
      [|discriminate].
    intros E. injection E as _ <-. exact Hm.
  - intros data h'. unfold FunctHold.procEOF, FunctHold.moveHoldToCache.
    destruct (FunctHold._holdData h) as [|e m] eqn:Hh; cbn [bool_decide negb].
    + rewrite !bool_decide_eq_true_2 by reflexivity. cbn [negb].
      destruct (FunctHold.empty h).
      * intros E. injection E as _ <-. rewrite Hh. constructor.
      * unfold FunctHold.nextRelease.
        destruct (FunctHold.pop_back (FunctHold._releaseData h)) as [[d r]|]; cbn;
          [|discriminate].
        intros E. injection E as _ <-. cbn. rewrite Hh. constructor.
    + rewrite bool_decide_eq_false_2 by discriminate. cbn [negb].
      match goal with |- context [FunctHold.empty ?x] => destruct (FunctHold.empty x) end.
      * intros E. injection E as _ <-. constructor.
      * unfold FunctHold.nextRelease.
        match goal with
        | |- context [FunctHold.pop_back ?x] => destruct (FunctHold.pop_back x) as [[d r]|]
        end; cbn; [|discriminate].
        intros E. injection E as _ <-. constructor.
Qed.

(** A holder with two calls held. *)
Definition held_call (name : string) (line : Z) : Token.t :=
  Token.mk name (FilePosition.mk "f.c" line) Token.functcall Token.noscope Token.nomod.

Definition two_held : FunctHold.t :=
  FunctHold.mk [(held_call "g" 3, "main"); (held_call "h" 2, "main")] [].

Lemma hold_map_stays_in_order_witness :
  by_lexeme
    (FunctHold._holdData
       (FunctHold.releaseHold
          (Token.mk "g" (FilePosition.mk "f.c" 9) Token.functdecl Token.globalscope
                    Token.nomod)
          two_held)).
Proof.
  destruct (hold_map_stays_in_order two_held) as [_ H].
  apply H. repeat constructor.
Defined.

Lemma releaseHold_filter (declToken : Token.t) (h : FunctHold.t) :
  by_lexeme (FunctHold._holdData h) ->
  Token.getType declToken = Token.functdecl ->
  FunctHold._holdData (FunctHold.releaseHold declToken h)
  = List.filter (fun e => negb (Token.eqb (fst e) declToken)) (FunctHold._holdData h)
  /\ FunctHold._releaseData (FunctHold.releaseHold declToken h)
     = (FunctHold._releaseData h
        ++ map (FunctHold.released (Token.getScope declToken))
               (List.filter (fun e => Token.eqb (fst e) declToken)
                            (FunctHold._holdData h)))%list.
Proof.
  intros Hm Hty. unfold FunctHold.releaseHold. rewrite Hty. cbn [Token.TokenType_eqb].
  destruct (FunctHold.equal_range (FunctHold._holdData h) declToken)
    as [[before range] after] eqn:Hr.
  destruct (equal_range_spec _ _ _ _ _ Hm Hr) as (Hsplit & Hb & Hrg & Ha).
  assert (Hno : forall l : FunctHold.HoldMap,
             Forall (fun e => Token.eqb (fst e) declToken = false) l ->
             List.filter (fun e => negb (Token.eqb (fst e) declToken)) l = l
             /\ List.filter (fun e => Token.eqb (fst e) declToken) l = []).
  { intros l Hl. split; [apply filter_all|apply filter_none; exact Hl].
    eapply List.Forall_impl; [|exact Hl]. intros e He. cbn beta in *. rewrite He.
    reflexivity. }
  assert (Hyes : List.filter (fun e => negb (Token.eqb (fst e) declToken)) range = []
                 /\ List.filter (fun e => Token.eqb (fst e) declToken) range = range).
  { split; [apply filter_none|apply filter_all; exact Hrg].
    eapply List.Forall_impl; [|exact Hrg]. intros e He. cbn beta in *. rewrite He.
    reflexivity. }
  destruct (Hno _ Hb) as [Hb1 Hb2]. destruct (Hno _ Ha) as [Ha1 Ha2].
  destruct Hyes as [Hr1 Hr2].
  rewrite Hsplit, !List.filter_app, Hb1, Hb2, Ha1, Ha2, Hr1, Hr2.
  cbn [app]. rewrite app_nil_r.
  unfold FunctHold.moveHoldToCache. destruct range as [|e range].
  - cbn. rewrite app_nil_r. split; [exact Hsplit|reflexivity].
  - cbn [FunctHold._holdData FunctHold._releaseData]. split; reflexivity.
Qed.

(** X3.  On a hold map in order, [releaseHold] for a declaration takes out
    exactly the held calls of the declared name: a record for each of them
    goes to the release cache, behind what it holds and in the order of the
    map; the other calls stay held, in their order.  The record of a call
    has the name and the position of the call, is of file scope exactly
    when the declaration is and, the held token being a function call, is
    no declaration, has the caller the call was held with, and is a
    reference when the call is one.  For a token that is no declaration
    nothing is released. *)
Theorem releaseHold_releases_the_name (declToken : Token.t) (h : FunctHold.t) :
  by_lexeme (FunctHold._holdData h) ->
  (Token.getType declToken = Token.functdecl ->
   FunctHold._holdData (FunctHold.releaseHold declToken h)
   = List.filter (fun e => negb (Token.eqb (fst e) declToken)) (FunctHold._holdData h)
   /\ exists moved,
       FunctHold._releaseData (FunctHold.releaseHold declToken h)
       = (FunctHold._releaseData h ++ moved)%list
       /\ Forall2 (record_of_call
                     (Token.ScopeType_eqb (Token.getScope declToken) Token.filescope))
                  (List.filter (fun e => Token.eqb (fst e) declToken)
                               (FunctHold._holdData h))
                  moved)
  /\ (Token.getType declToken <> Token.functdecl ->
      FunctHold.releaseHold declToken h = h).
Proof.
  intros Hm. split.
  - intros Hty. destruct (releaseHold_filter declToken h Hm Hty) as [Hheld Hrel].
    split; [exact Hheld|]. eexists. split; [exact Hrel|]. apply released_records.
  - intros Hty. unfold FunctHold.releaseHold.
    destruct (Token.getType declToken); try contradiction; reflexivity.
Qed.

(** Two calls of [g] and one of [h] held, a record of a call of [f]
    waiting. *)
Definition three_calls : FunctHold.t :=
  FunctHold.mk
    [(held_call "g" 3, "main");
     (Token.mk "g" (FilePosition.mk "f.c" 5) Token.functcall Token.noscope Token.funcref,
      "init");
     (held_call "h" 2, "main")]
    [FunctionData.mk "f" (FilePosition.mk "f.c" 1) false "main" false false].

(** The declaration of [g] as a static function. *)
Definition static_g : Token.t :=
  Token.mk "g" (FilePosition.mk "f.c" 9) Token.functdecl Token.filescope Token.nomod.

Lemma releaseHold_releases_the_name_witness :
  FunctHold._holdData (FunctHold.releaseHold static_g three_calls)
  = [(held_call "h" 2, "main")]
  /\ FunctHold._releaseData (FunctHold.releaseHold static_g three_calls)
     = [FunctionData.mk "f" (FilePosition.mk "f.c" 1) false "main" false false;
        FunctionData.mk "g" (FilePosition.mk "f.c" 3) false "main" false true;
        FunctionData.mk "g" (FilePosition.mk "f.c" 5) false "init" true true].
Proof.
  destruct (releaseHold_releases_the_name static_g three_calls) as [H _];
    [repeat constructor|].
  destruct (H eq_refl) as (Hheld & moved & Hrel & Hrec).
  split; [exact Hheld|]. rewrite Hrel.
  cbn [three_calls static_g FunctHold._holdData FunctHold._releaseData List.filter Token.eqb
       fst held_call Token._lexeme String.eqb Ascii.eqb Bool.eqb] in Hrec |- *.
  inversion Hrec as [|e1 d1 m1 l1 R1 E4]; subst. inversion E4 as [|e2 d2 m2 l2 R2 E5]; subst.
  inversion E5; subst.
  rewrite (record_of_call_fields _ _ _ R1 eq_refl), (record_of_call_fields _ _ _ R2 eq_refl).
  reflexivity.
Defined.

(** ** The driver never misuses the holder *)

Section DriverFailures.

Variable Parser : Type.
Variable Parser_haveEOF : Parser -> bool.
Variable Parser_nextFunction : Parser -> result (Token.t * Parser).

(** A failure that is one of the recognizer's (running out of fuel apart). *)
Definition from_parser {A : Type} (r : result A) : Prop :=
  match r with
  | Ok _ | OutOfFuel => True
  | Thrown e => exists p, Parser_nextFunction p = Thrown e
  | Undefined => exists p, Parser_nextFunction p = Undefined
  end.

Lemma nextRelease_pending (h : FunctHold.t) :
  FunctHold.doingRelease h = true ->
  exists data h', FunctHold.nextRelease h = Ok (data, h').
Proof.
  unfold FunctHold.doingRelease, FunctHold.nextRelease. intros Hd.
  destruct (FunctHold.pop_back (FunctHold._releaseData h)) as [[d r]|] eqn:E.
  - cbn. eauto.
  - apply pop_back_nil_iff in E. rewrite E in Hd. discriminate Hd.
Qed.

Lemma procEOF_returns (h : FunctHold.t) :
  FunctHold.doingRelease h = false ->
  exists data h', FunctHold.procEOF h = Ok (data, h').
Proof.
  intros Hd. apply doingRelease_false_iff in Hd.
  unfold FunctHold.procEOF, FunctHold.moveHoldToCache.
  destruct (FunctHold._holdData h) as [|e m] eqn:Hh.
  - rewrite bool_decide_eq_true_2 by reflexivity. cbn [negb].
    unfold FunctHold.empty, FunctHold.doingRelease. rewrite Hh, Hd. cbn. eauto.
  - rewrite bool_decide_eq_false_2 by discriminate. cbn [negb].
    match goal with |- context [FunctHold.empty ?x] => set (h1 := x) end.
    assert (H1 : FunctHold.doingRelease h1 = true).
    { unfold h1, FunctHold.doingRelease. cbn. rewrite Hd. cbn. reflexivity. }
    unfold FunctHold.empty. rewrite H1. rewrite andb_false_r.
    apply nextRelease_pending. exact H1.
Qed.

Lemma nextFunction_loop_failures (fuel : nat) :
  forall haveFunct functToken f,
    haveFunct = true
    \/ FunctHold.doingRelease (FunctFinder._functCallsNoScope Parser f) = false ->
    match FunctFinder.nextFunction_loop Parser Parser_haveEOF Parser_nextFunction
                                        fuel haveFunct functToken f with
    | Ok (haveFunct', _, f') =>
        haveFunct' = true
        \/ FunctHold.doingRelease (FunctFinder._functCallsNoScope Parser f') = false
    | r => from_parser r
    end.
Proof.
  induction fuel as [|fuel IH]; intros haveFunct functToken f Hinv;
    cbn [FunctFinder.nextFunction_loop].
  - destruct (negb haveFunct && _) eqn:Hc; [exact I|]. exact Hinv.
  - destruct (negb haveFunct && _) eqn:Hc; [|exact Hinv].
    apply andb_true_iff in Hc as [Hhf _]. apply negb_true_iff in Hhf. subst haveFunct.
    destruct Hinv as [Hinv|Hinv]; [discriminate Hinv|].
    destruct (Parser_nextFunction (FunctFinder._functBuffer Parser f))
      as [[tok buf]|e| |] eqn:Hp; cbn [bind].
    + destruct (Token.TokenType_eqb (Token.getType tok) Token.functdecl).
      * apply IH. left. reflexivity.
      * cbn [FunctFinder._functCallsNoScope FunctFinder._currFunction
               FunctFinder._functBuffer].
        unfold FunctHold.holdIfNeeded. rewrite Hinv.
        destruct (_ || _); cbn [bind].
        -- apply IH. right. exact Hinv.
        -- apply IH. right. cbn. apply doingRelease_false_iff. cbn.
           apply doingRelease_false_iff in Hinv. exact Hinv.
    + exists (FunctFinder._functBuffer Parser f). exact Hp.
    + exists (FunctFinder._functBuffer Parser f). exact Hp.
    + exact I.
Qed.

End DriverFailures.

(** X4.  [FunctFinder::nextFunction] never raises the double-release error
    of [holdIfNeeded] and never takes a record from an empty release
    vector: when it fails, the failure is one [Parser::nextFunction] gave
    it. *)
Theorem nextFunction_fails_only_with_the_parser
        (Parser : Type) (Parser_haveEOF : Parser -> bool)
        (Parser_nextFunction : Parser -> result (Token.t * Parser))
        (fuel : nat) (f : FunctFinder.t Parser) :
  from_parser Parser Parser_nextFunction
              (FunctFinder.nextFunction Parser Parser_haveEOF Parser_nextFunction fuel f).
Proof.
  unfold FunctFinder.nextFunction.
  destruct (FunctHold.doingRelease (FunctFinder._functCallsNoScope Parser f)) eqn:Hd.
  - destruct (nextRelease_pending _ Hd) as (data & h' & E). rewrite E. exact I.
  - pose proof (nextFunction_loop_failures Parser Parser_haveEOF Parser_nextFunction fuel
                                           false Token.noToken f (or_intror Hd)) as Hl.
    destruct (FunctFinder.nextFunction_loop Parser Parser_haveEOF Parser_nextFunction fuel
                                            false Token.noToken f)
      as [[[hf tok] f']|e| |]; cbn [bind]; try exact Hl.
    destruct hf; [exact I|].
    destruct Hl as [Hl|Hl]; [discriminate Hl|].
    destruct (procEOF_returns _ Hl) as (data & h' & E). rewrite E. exact I.
Qed.

(** ** What the recognizer keeps true *)

Section Invariant.

Context {T : Type} `{TokenSource T}.

(** A property of the parser that the steps below keep: reading tokens,
    the parse stack, the statement type, the current token, warnings, the
    update of the name space and the end of a function declaration. *)
Variable P : Parser.t T -> Prop.
Hypothesis P_buffer : forall q b, P q -> P (Parser.set_buffer q b).
Hypothesis P_parseStack : forall q s, P q -> P (Parser.set_parseStack q s).
Hypothesis P_readNextToken : forall q r, P q -> P (Parser.set_readNextToken q r).
Hypothesis P_currToken : forall q tk, P q -> P (Parser.set_currToken q tk).
Hypothesis P_statementType : forall q s, P q -> P (Parser.set_statementType q s).
Hypothesis P_cout : forall q c, P q -> P (Parser.set_cout q c).
Hypothesis P_updateNameSpace : forall q tk, P q -> P (Parser.updateNameSpace q tk).
Hypothesis P_procFunctDeclaration :
  forall q d n i, P q -> P (snd (Parser.procFunctDeclaration d n i q)).

(** A computation that ends in a state with the property, if it ends. *)
Definition holds {A : Type} (st : A -> Parser.t T) (r : result A) : Prop :=
  match r with
  | Ok a => P (st a)
  | _ => True
  end.

Lemma bind_holds {A B : Type} (sa : A -> Parser.t T) (sb : B -> Parser.t T)
      (m : result A) (k : A -> result B) :
  holds sa m -> (forall a, P (sa a) -> holds sb (k a)) -> holds sb (bind m k).
Proof. destruct m; cbn; auto. Qed.

Lemma bind_pure {A B : Type} (sb : B -> Parser.t T) (m : result A) (k : A -> result B) :
  (forall a, holds sb (k a)) -> holds sb (bind m k).
Proof. destruct m; cbn; auto. Qed.

Lemma P_if (a b : Parser.t T) (c : bool) : P a -> P b -> P (if c then a else b).
Proof. destruct c; auto. Qed.

Lemma P_logTokenError (q : Parser.t T) (token : Token.t) (leadText trailText : string) :
  P q -> P (Parser.logTokenError q token leadText trailText).
Proof. intros. unfold Parser.logTokenError. auto. Qed.

Lemma nextToken_holds (q : Parser.t T) : P q -> holds snd (Parser.nextToken q).
Proof.
  intros Hq. unfold Parser.nextToken.
  destruct (TokenList.nextToken (Parser._buffer q)) as [[tk b]| | |]; cbn; auto.
Qed.

Lemma nextLookahead_holds (q : Parser.t T) : P q -> holds snd (Parser.nextLookahead q).
Proof.
  intros Hq. unfold Parser.nextLookahead.
  destruct (TokenList.nextLookahead (Parser._buffer q)) as [[tk b]| | |]; cbn; auto.
Qed.

Create HintDb holds.
Hint Resolve P_buffer P_parseStack P_readNextToken P_currToken P_statementType P_cout
     P_updateNameSpace P_procFunctDeclaration P_if P_logTokenError
     nextToken_holds nextLookahead_holds : holds.

Ltac P_walk :=
  repeat lazymatch goal with
         | |- P (if ?b then _ else _) => destruct b
         | |- P (match ?x with _ => _ end) => destruct x
         end;
  first [assumption | solve [eauto 6 with holds] | solve [eauto 30 with holds]].

Ltac holds_leaf := cbn [holds snd fst]; P_walk.

Ltac holds_call :=
  first [solve [eauto with holds]
        |match goal with IH : forall _, _ |- _ => apply IH end; P_walk
        |repeat match goal with
                | |- holds _ ?call =>
                    match call with
                    | context [if ?b then _ else _] => destruct b
                    end
                end;
         solve [eauto 6 with holds]].

Ltac holds_walk :=
  repeat lazymatch goal with
         | |- holds _ (Ok _) => holds_leaf
         | |- holds _ Undefined => exact I
         | |- holds _ OutOfFuel => exact I
         | |- holds _ (Thrown _) => exact I
         | |- holds _ (bind ?m _) =>
             lazymatch type of m with
             | result (Parser.t _) =>
                 eapply (bind_holds (fun q => q));
                 [first [solve [eauto with holds] | holds_walk]
                 |let q := fresh "q" in let Hq := fresh "Hq" in intros q Hq; cbv beta iota]
             | result (_ * Parser.t _) =>
                 eapply (bind_holds snd);
                 [first [solve [eauto with holds] | holds_walk]
                 |let a := fresh "a" in let q := fresh "q" in let Hq := fresh "Hq" in
                  intros [a q] Hq; cbn [snd] in Hq; cbv beta iota]
             | _ => apply bind_pure; intro; cbv beta iota
             end
         | |- holds _ (if ?b then _ else _) => destruct b
         | |- holds _ (match (if ?b then _ else _) with _ => _ end) => destruct b
         | |- holds _ (match (_, _) with _ => _ end) => cbv beta iota
         | |- holds _ (match Parser.procFunctDeclaration ?d ?n ?i ?q with _ => _ end) =>
             let Hq := fresh "Hq" in
             assert (Hq : P (snd (Parser.procFunctDeclaration d n i q)))
               by eauto with holds;
             destruct (Parser.procFunctDeclaration d n i q); cbn [snd] in Hq
         | |- holds _ (match ?x with _ => _ end) => destruct x
         | |- holds _ _ => holds_call
         end.

Lemma newStatement_loop_holds (fuel : nat) :
  forall q, P q -> holds (fun q => q) (Parser.newStatement_loop fuel q).
Proof.
  induction fuel as [|fuel IH]; intros q Hq; cbn [Parser.newStatement_loop]; holds_walk.
Qed.

Lemma newStatement_holds (q : Parser.t T) :
  P q -> holds (fun q => q) (Parser.newStatement q).
Proof.
  intros Hq. unfold Parser.newStatement.
  pose proof newStatement_loop_holds. holds_walk.
Qed.

Hint Resolve newStatement_holds : holds.

Lemma matchCloseParens_holds (fuel : nat) :
  forall count q, P q -> holds snd (Parser.matchCloseParens fuel count q).
Proof.
  induction fuel as [|fuel IH]; intros count q Hq; cbn [Parser.matchCloseParens];
    holds_walk.
Qed.

Hint Resolve matchCloseParens_holds : holds.

Lemma procCombType_look_holds (fuel : nat) :
  forall next readNext braceCount parenCount q,
    P q -> holds snd (Parser.procCombType_look fuel next readNext braceCount parenCount q).
Proof.
  induction fuel as [|fuel IH]; intros next readNext braceCount parenCount q Hq;
    cbn [Parser.procCombType_look]; holds_walk.
Qed.

Hint Resolve procCombType_look_holds : holds.

Lemma procCombType_burn_holds (fuel : nat) :
  forall q, P q -> holds (fun q => q) (Parser.procCombType_burn fuel q).
Proof.
  induction fuel as [|fuel IH]; intros q Hq; cbn [Parser.procCombType_burn]; holds_walk.
Qed.

Hint Resolve procCombType_burn_holds : holds.

Lemma procCombType_loop_holds (fuel : nat) :
  forall next readNext braceCount parenCount q,
    P q ->
    holds (fun q => q) (Parser.procCombType_loop fuel next readNext braceCount parenCount q).
Proof.
  induction fuel as [|fuel IH]; intros next readNext braceCount parenCount q Hq;
    cbn [Parser.procCombType_loop]; holds_walk.
Qed.

Hint Resolve procCombType_loop_holds : holds.

Lemma procCombType_holds (fuel : nat) (q : Parser.t T) :
  P q -> holds (fun q => q) (Parser.procCombType fuel q).
Proof. intros Hq. unfold Parser.procCombType. cbv zeta. holds_walk. Qed.

Hint Resolve procCombType_holds : holds.

Lemma burnCloseParens_holds (fuel : nat) (body : Parser.t T -> Parser.t T) :
  (forall q, P q -> P (body q)) ->
  forall count q, P q -> holds snd (Parser.burnCloseParens fuel body count q).
Proof.
  intros Hbody.
  induction fuel as [|fuel IH]; intros count q Hq; cbn [Parser.burnCloseParens];
    holds_walk.
Qed.

Hint Resolve burnCloseParens_holds : holds.

Lemma updateVarNames_holds (varNames : TokenStack.t) :
  forall q, P q -> P (Parser.updateVarNames varNames q).
Proof.
  induction varNames as [|back varNames IH]; intros q Hq; cbn [Parser.updateVarNames];
    eauto with holds.
Qed.

Hint Resolve updateVarNames_holds : holds.

Lemma procDeclaration_loop_holds (fuel : nat) :
  forall d q, P q -> holds snd (Parser.procDeclaration_loop fuel d q).
Proof.
  induction fuel as [|fuel IH]; intros d q Hq; cbn [Parser.procDeclaration_loop];
    holds_walk.
Qed.

Hint Resolve procDeclaration_loop_holds : holds.

Lemma procDeclaration_holds (fuel : nat) (q : Parser.t T) :
  P q -> holds (fun q => q) (Parser.procDeclaration fuel q).
Proof. intros Hq. unfold Parser.procDeclaration. cbv zeta. holds_walk. Qed.

Hint Resolve procDeclaration_holds : holds.

Lemma countOpenParens_holds (fuel : nat) :
  forall count q, P q -> holds snd (Parser.countOpenParens fuel count q).
Proof.
  induction fuel as [|fuel IH]; intros count q Hq; cbn [Parser.countOpenParens];
    holds_walk.
Qed.

Lemma burnOpenParens_holds (fuel : nat) :
  forall count q, P q -> holds snd (Parser.burnOpenParens fuel count q).
Proof.
  induction fuel as [|fuel IH]; intros count q Hq; cbn [Parser.burnOpenParens];
    holds_walk.
Qed.

Lemma burnWhilePositive_holds (fuel : nat) :
  forall count q, P q -> holds (fun q => q) (Parser.burnWhilePositive fuel count q).
Proof.
  induction fuel as [|fuel IH]; intros count q Hq; cbn [Parser.burnWhilePositive];
    holds_walk.
Qed.

Hint Resolve countOpenParens_holds burnOpenParens_holds burnWhilePositive_holds : holds.

Lemma fetch_holds (fuel : nat) (q : Parser.t T) :
  P q -> holds (fun q => q) (Parser.fetch fuel q).
Proof. intros Hq. unfold Parser.fetch. cbv zeta. holds_walk. Qed.

(** The steps of the [switch] that are particular to it: a new brace
    count for a brace, the local names cleared, and a call made the
    function token. *)
Hypothesis P_openbrace :
  forall q n, P q -> Parser.incr (Parser._braceCount q) = Ok n -> P (Parser.set_braceCount q n).
Hypothesis P_closebrace :
  forall q, P q -> (0 < Parser._braceCount q)%Z ->
            P (Parser.set_braceCount q (Parser._braceCount q - 1)).
Hypothesis P_clearLocalNames :
  forall q, P q ->
            P (Parser.set_symbolTable q (NameSpace.clearLocalNames (Parser._symbolTable q))).
Hypothesis P_functcall :
  forall q, P q -> Token.getType (Parser._currToken q) = Token.functcall ->
            P (Parser.set_functToken q (Parser._currToken q)).

Lemma dispatch_holds (fuel : nat) (conParenCount : Z) (q : Parser.t T) :
  P q -> holds snd (Parser.dispatch fuel conParenCount q).
Proof.
  intros Hq. unfold Parser.dispatch. cbv zeta.
  destruct (Token.getType (Parser._currToken q)) eqn:Hty.
  all: try solve [holds_walk].
  - (* identifier *)
    eapply (bind_holds snd); [solve [eauto with holds]|].
    intros [count p] Hp. cbn [snd] in Hp. cbv beta iota.
    destruct (Parser.StatementType_eqb (Parser._statementType q) Parser.declaration);
      [holds_walk|].
    apply bind_pure. intros look.
    match goal with
    | |- holds _ (if Parser.currIs ?big _ then _ else _) => set (p1 := big)
    end.
    assert (Hp1 : P p1) by (subst p1; P_walk).
    clearbody p1.
    destruct (Parser.currIs p1 Token.functcall) eqn:Hcall; [|exact Hp1].
    unfold Parser.nextToken. cbn [Parser._buffer Parser.set_parseStack].
    destruct (TokenList.nextToken (Parser._buffer p1)) as [[tk b]| | |]; cbn [bind];
      try exact I.
    cbn [holds snd]. apply P_functcall; [auto with holds|].
    cbn. unfold Parser.currIs in Hcall.
    destruct (Token.getType (Parser._currToken p1)); try discriminate Hcall. reflexivity.
  - (* openbrace *)
    destruct (Parser.incr (Parser._braceCount q)) as [n| | |] eqn:Hn; cbn [bind];
      try exact I.
    eapply (bind_holds (fun q => q)); [apply newStatement_holds; auto|].
    intros p Hp. exact Hp.
  - (* closebrace *)
    eapply (bind_holds (fun q => q)); [|intros p Hp; exact Hp].
    apply newStatement_holds.
    destruct (Parser._braceCount q =? 1)%Z;
      cbn [Parser._braceCount Parser.set_symbolTable];
      destruct (Z.ltb_spec 0 (Parser._braceCount q)); auto.
    apply (P_closebrace (Parser.set_symbolTable q _)); [auto|assumption].
Qed.

Lemma pass_holds (fuel : nat) (conParenCount : Z) (q : Parser.t T) :
  P q -> holds snd (Parser.pass fuel conParenCount q).
Proof.
  intros Hq. unfold Parser.pass.
  eapply (bind_holds (fun q => q)); [apply fetch_holds; exact Hq|]. intros q1 Hq1.
  eapply (bind_holds snd); [apply dispatch_holds; exact Hq1|]. intros [c q2] Hq2.
  cbn [snd] in Hq2. cbv beta iota.
  eapply (bind_holds (fun q => q)).
  - destruct (TokenList.haveEOF (Parser._buffer q2));
      [apply newStatement_holds; exact Hq2|exact Hq2].
  - intros q3 Hq3. exact Hq3.
Qed.

Lemma findNextFunction_loop_holds (fuel : nat) :
  forall conParenCount q,
    P q -> holds (fun q => q) (Parser.findNextFunction_loop fuel conParenCount q).
Proof.
  induction fuel as [|fuel IH]; intros conParenCount q Hq;
    cbn [Parser.findNextFunction_loop]; destruct (_ && _); try exact Hq; [exact I|].
  eapply (bind_holds snd); [apply pass_holds; exact Hq|].
  intros [c q1] Hq1. apply IH. exact Hq1.
Qed.

End Invariant.

Section RecognizerFacts.

Context {T : Type} `{TokenSource T}.

Lemma updateNameSpace_keyList (ns : NameSpace.t) (testToken : Token.t) :
  NameSpace._keyList (fst (NameSpace.updateNameSpace ns testToken))
  = NameSpace._keyList ns.
Proof.
  unfold NameSpace.updateNameSpace. cbv zeta.
  assert (Hpair : forall (X : NameSpace.t * list Errors.Warning) (c : list Errors.Warning),
             fst (let '(ns', warnings) := X in (ns', (c ++ warnings)%list)) = fst X)
    by (intros [? ?] ?; reflexivity).
  repeat lazymatch goal with
         | |- NameSpace._keyList (fst (if ?b then _ else _)) = _ => destruct b
         | |- NameSpace._keyList (fst (match ?o with _ => _ end)) = _ =>
             first [rewrite Hpair | destruct o]
         | |- NameSpace._keyList (fst (_, _)) = _ =>
             cbn [fst]; try match goal with
                            | |- context [if ?b then _ else _] => destruct b
                            end; reflexivity
         end.
Qed.

(** What [procFunctDeclaration] leaves of the state it is given. *)
Lemma procFunctDeclaration_frame (declToken nextToken : Token.t) (insideParams : bool)
      (q : Parser.t T) :
  let q' := snd (Parser.procFunctDeclaration declToken nextToken insideParams q) in
  Parser._braceCount q' = Parser._braceCount q
  /\ NameSpace._keyList (Parser._symbolTable q') = NameSpace._keyList (Parser._symbolTable q)
  /\ NameSpace.localClears (Parser._symbolTable q')
     = NameSpace.localClears (Parser._symbolTable q)
  /\ (Parser._functToken q' = Parser._functToken q
      \/ (Token.getType (Parser._functToken q') = Token.functdecl
          /\ (Token.getScope (Parser._functToken q') = Token.filescope
              \/ Token.getScope (Parser._functToken q') = Token.globalscope))).
Proof.
  unfold Parser.procFunctDeclaration. cbv zeta. cbn [snd].
  assert (Hup : forall (p : Parser.t T) tk,
             Parser._braceCount (Parser.updateNameSpace p tk) = Parser._braceCount p
             /\ NameSpace._keyList (Parser._symbolTable (Parser.updateNameSpace p tk))
                = NameSpace._keyList (Parser._symbolTable p)
             /\ NameSpace.localClears (Parser._symbolTable (Parser.updateNameSpace p tk))
                = NameSpace.localClears (Parser._symbolTable p)
             /\ Parser._functToken (Parser.updateNameSpace p tk) = Parser._functToken p).
  { intros p tk. unfold Parser.updateNameSpace.
    pose proof (updateNameSpace_keyList (Parser._symbolTable p) tk) as E1.
    pose proof (updateNameSpace_localClears (Parser._symbolTable p) tk) as E2.
    destruct (NameSpace.updateNameSpace (Parser._symbolTable p) tk) as [table w].
    cbn in *. auto. }
  match goal with
  | |- context [Parser.updateNameSpace ?p ?tk] =>
      destruct (Hup p tk) as (U1 & U2 & U3 & U4);
      set (pu := Parser.updateNameSpace p tk) in *
  end.
  clearbody pu.
  match type of U1 with
  | _ = Parser._braceCount ?p0 =>
      assert (F1 : Parser._braceCount p0 = Parser._braceCount q
                   /\ Parser._symbolTable p0 = Parser._symbolTable q
                   /\ Parser._functToken p0 = Parser._functToken q)
        by (repeat match goal with
                   | |- context [if ?b then _ else _] => destruct b
                   end; cbn; auto)
  end.
  destruct F1 as (F1 & F2 & F3). rewrite F1 in U1. rewrite F2 in U2, U3. rewrite F3 in U4.
  clear F1 F2 F3.
  assert (Heq : forall a b, Token.TokenType_eqb a b = true -> a = b)
    by (intros [] []; cbn; congruence).
  match goal with
  | |- context [if Token.TokenType_eqb (Token.getType ?d) Token.functdecl
                then Parser.set_functToken pu _ else pu] =>
      destruct (Token.TokenType_eqb (Token.getType d) Token.functdecl) eqn:Hd;
      [apply Heq in Hd|]
  end; cbn [Parser._braceCount Parser._symbolTable Parser._functToken
            Parser.set_parseStack Parser.set_functToken].
  - split; [exact U1|]. split; [exact U2|]. split; [exact U3|]. right.
    split.
    + destruct (TokenStack.hasType Token.statictoken _); cbn; exact Hd.
    + destruct (TokenStack.hasType Token.statictoken _); cbn; auto.
  - split; [exact U1|]. split; [exact U2|]. split; [exact U3|]. left. exact U4.
Qed.

(** What a run of [findNextFunction] may hold as its function token. *)
Definition function_token (tk : Token.t) : Prop :=
  match Token.getType tk with
  | Token.notoken | Token.functcall => True
  | Token.functdecl =>
      Token.getScope tk = Token.filescope \/ Token.getScope tk = Token.globalscope
  | _ => False
  end.

Lemma findNextFunction_loop_exit (fuel : nat) :
  forall conParenCount (q q' : Parser.t T),
    Parser.findNextFunction_loop fuel conParenCount q = Ok q' ->
    Token.getType (Parser._functToken q') <> Token.notoken
    \/ TokenList.haveEOF (Parser._buffer q') = true.
Proof.
  induction fuel as [|fuel IH]; intros conParenCount q q';
    cbn [Parser.findNextFunction_loop];
    destruct (Token.TokenType_eqb (Token.getType (Parser._functToken q)) Token.notoken
              && negb (TokenList.haveEOF (Parser._buffer q))) eqn:Hc;
    try discriminate.
  - intros E. injection E as <-. apply andb_false_iff in Hc as [Hc|Hc].
    + left. intros E. rewrite E in Hc. discriminate Hc.
    + right. apply negb_false_iff in Hc. exact Hc.
  - destruct (Parser.pass fuel conParenCount q) as [[c q1]| | |]; cbn [bind];
      try discriminate.
    apply IH.
  - intros E. injection E as <-. apply andb_false_iff in Hc as [Hc|Hc].
    + left. intros E. rewrite E in Hc. discriminate Hc.
    + right. apply negb_false_iff in Hc. exact Hc.
Qed.

End RecognizerFacts.

(** X5.  When [findNextFunction] returns, the function token it leaves for
    [nextFunction] is that of a function declaration, of file or global
    scope, or that of a function call; or it is no token, and then the
    input is at its end. *)
Theorem findNextFunction_finds_functions
        {T : Type} `{TokenSource T} (fuel : nat) (p p' : Parser.t T) :
  Parser.findNextFunction fuel p = Ok p' ->
  (Token.getType (Parser._functToken p') = Token.functdecl
   /\ (Token.getScope (Parser._functToken p') = Token.filescope
       \/ Token.getScope (Parser._functToken p') = Token.globalscope))
  \/ Token.getType (Parser._functToken p') = Token.functcall
  \/ (Token.getType (Parser._functToken p') = Token.notoken
      /\ TokenList.haveEOF (Parser._buffer p') = true).
Proof.
  unfold Parser.findNextFunction. intros Hrun.
  pose proof (findNextFunction_loop_holds
                (fun q => function_token (Parser._functToken q))) as Hinv.
  specialize (Hinv (fun _ _ Hq => Hq) (fun _ _ Hq => Hq) (fun _ _ Hq => Hq)
                   (fun _ _ Hq => Hq) (fun _ _ Hq => Hq) (fun _ _ Hq => Hq)).
  assert (Hup : forall (q : Parser.t T) tk,
             function_token (Parser._functToken q) ->
             function_token (Parser._functToken (Parser.updateNameSpace q tk))).
  { intros q tk Hq. unfold Parser.updateNameSpace.
    destruct (NameSpace.updateNameSpace _ _). exact Hq. }
  assert (Hdecl : forall (q : Parser.t T) d n i,
             function_token (Parser._functToken q) ->
             function_token (Parser._functToken (snd (Parser.procFunctDeclaration d n i q)))).
  { intros q d n i Hq.
    destruct (procFunctDeclaration_frame d n i q) as (_ & _ & _ & [E|[Hty Hsc]]).
    - rewrite E. exact Hq.
    - unfold function_token. rewrite Hty. exact Hsc. }
  specialize (Hinv Hup Hdecl (fun _ _ Hq _ => Hq) (fun _ Hq _ => Hq) (fun _ Hq => Hq)).
  assert (Hcall : forall q : Parser.t T,
             function_token (Parser._functToken q) ->
             Token.getType (Parser._currToken q) = Token.functcall ->
             function_token
               (Parser._functToken (Parser.set_functToken q (Parser._currToken q)))).
  { intros q _ Hty. unfold function_token. cbn. unfold Token.getType in Hty.
    unfold Token.getType. rewrite Hty. exact I. }
  specialize (Hinv Hcall fuel 0%Z (Parser.set_functToken p Token.noToken) I).
  rewrite Hrun in Hinv. cbn in Hinv.
  pose proof (findNextFunction_loop_exit _ _ _ _ Hrun) as Hexit.
  unfold function_token in Hinv.
  destruct (Token.getType (Parser._functToken p')) eqn:Hty; try contradiction.
  - right. right. split; [reflexivity|]. destruct Hexit as [Hx|Hx]; [congruence|exact Hx].
  - left. split; [reflexivity|exact Hinv].
  - right. left. reflexivity.
Qed.



(** The tokens of [void f ( ) { g ( ) ; }] in front of a parser that has
    read nothing yet. *)
Definition word (lexeme : string) (line : Z) : Token.t :=
  Token.make lexeme (FilePosition.mk "f.c" line) Token.identifier.

Definition sign (lexeme : string) (line : Z) (type : Token.TokenType) : Token.t :=
  Token.make lexeme (FilePosition.mk "f.c" line) type.

Definition before_f : Parser.t (list Token.t) :=
  Parser.mk
    (TokenList.mk
       [word "void" 1; word "f" 1; sign "(" 1 Token.openparen; sign ")" 1 Token.closeparen;
        sign "{" 1 Token.openbrace; word "g" 2; sign "(" 2 Token.openparen;
        sign ")" 2 Token.closeparen; sign ";" 2 Token.semicolon;
        sign "}" 3 Token.closebrace]
       [] None)
    NameSpace.make [] true Token.noToken Token.noToken Parser.undet 0 [].

Lemma findNextFunction_finds_functions_witness :
  exists p',
    Parser.findNextFunction 30 before_f = Ok p'
    /\ ((Token.getType (Parser._functToken p') = Token.functdecl
         /\ (Token.getScope (Parser._functToken p') = Token.filescope
             \/ Token.getScope (Parser._functToken p') = Token.globalscope))
        \/ Token.getType (Parser._functToken p') = Token.functcall
        \/ (Token.getType (Parser._functToken p') = Token.notoken
            /\ TokenList.haveEOF (Parser._buffer p') = true)).
Proof.
  assert (Hok : exists p', Parser.findNextFunction 30 before_f = Ok p')
    by (eexists; vm_compute; reflexivity).
  destruct Hok as [p' E]. exists p'. split; [exact E|].
  exact (findNextFunction_finds_functions 30 before_f p' E).
Defined.


(** ** The parse stack *)

Section ParseStack.

Context {T : Type} `{TokenSource T}.

Definition has_type (ty : Token.TokenType) (tk : Token.t) : bool :=
  Token.TokenType_eqb (Token.getType tk) ty.

Lemma TokenType_eqb_eq (a b : Token.TokenType) : Token.TokenType_eqb a b = true <-> a = b.
Proof. destruct a, b; cbn; split; congruence. Qed.

Lemma dropTillType_spec (wantType : Token.TokenType) (s : TokenStack.t) :
  exists dropped,
    s = (dropped ++ TokenStack.dropTillType wantType s)%list
    /\ Forall (fun tk => has_type wantType tk = false) dropped
    /\ match TokenStack.dropTillType wantType s with
       | [] => True
       | tk :: _ => has_type wantType tk = true
       end.
Proof.
  induction s as [|back s IH]; cbn [TokenStack.dropTillType].
  - exists []. repeat split. constructor.
  - destruct (Token.TokenType_eqb (Token.getType back) wantType) eqn:Hb; cbn [negb].
    + exists []. repeat split; [constructor|exact Hb].
    + destruct IH as (dropped & Hs & Hd & Hrest).
      exists (back :: dropped). split; [cbn; f_equal; exact Hs|].
      split; [constructor; assumption|exact Hrest].
Qed.

(** The warnings [newStatement] writes for a stack: one for each function
    call on it, from the back of the stack on. *)
Definition incomplete_calls (s : TokenStack.t) : list Errors.Warning :=
  map (fun tk => Errors.TokenError tk "Call of function " " is incomplete")
      (List.filter (has_type Token.functcall) s).

Lemma filter_dropped (ty : Token.TokenType) (dropped rest : TokenStack.t) :
  Forall (fun tk => has_type ty tk = false) dropped ->
  List.filter (has_type ty) (dropped ++ rest) = List.filter (has_type ty) rest.
Proof.
  induction 1 as [|tk dropped Htk _ IH]; cbn; [reflexivity|]. rewrite Htk. exact IH.
Qed.

Lemma newStatement_loop_effect (fuel : nat) :
  forall p : Parser.t T,
    (List.length (Parser._parseStack p) <= fuel)%nat ->
    Parser.newStatement_loop fuel p
    = Ok (Parser.set_cout (Parser.set_parseStack p [])
                          (Parser.cout p ++ incomplete_calls (Parser._parseStack p))).
Proof.
  induction fuel as [|fuel IH]; intros p Hfuel.
  - destruct p as [b n s r c f st bc co]. cbn in Hfuel.
    destruct s; [|cbn in Hfuel; lia]. cbn. rewrite app_nil_r. reflexivity.
  - cbn [Parser.newStatement_loop].
    destruct (Parser._parseStack p) as [|back s] eqn:Hs.
    { destruct p as [b n s r c f st bc co]. cbn in Hs. subst s. cbn.
      rewrite app_nil_r. reflexivity. }
    cbn [TokenStack.empty]. cbv iota.
    unfold TokenStack.popTillType.
    destruct (dropTillType_spec Token.functcall (back :: s)) as (dropped & Hsplit & Hd & Hrest).
    assert (Hlen : (List.length (TokenStack.dropTillType Token.functcall (back :: s))
                    <= List.length (back :: s))%nat).
    { rewrite Hsplit at 2. rewrite length_app. lia. }
    remember (TokenStack.dropTillType Token.functcall (back :: s)) as d eqn:Ed.
    clear Ed. unfold incomplete_calls. rewrite Hsplit, filter_dropped by exact Hd.
    destruct d as [|tk rest].
    + cbn [TokenStack.pop Token.noToken Token.getType Token._type Token.TokenType_eqb negb].
      cbv beta iota.
      rewrite IH by (cbn; lia). cbn. rewrite !app_nil_r.
      destruct p; reflexivity.
    + cbn [TokenStack.pop]. unfold has_type in Hrest.
      apply TokenType_eqb_eq in Hrest.
      rewrite Hrest. cbn [Token.TokenType_eqb negb].
      rewrite IH by (cbn in *; lia). cbn.
      unfold has_type. rewrite Hrest. cbn [Token.TokenType_eqb map].
      unfold Errors.logTokenError. rewrite <- app_assoc. cbn.
      destruct p; reflexivity.
Qed.

End ParseStack.

(** X7.  [popTillType] takes tokens off the back of the stack up to and
    with the first one of the wanted type, which it returns; when the stack
    holds no token of that type it empties the stack and returns the
    no-token value. *)
Theorem popTillType_first_of_type (wantType : Token.TokenType) (s : TokenStack.t) :
  (exists dropped,
      s = (dropped ++ fst (TokenStack.popTillType wantType s)
                   :: snd (TokenStack.popTillType wantType s))%list
      /\ Forall (fun tk => Token.getType tk <> wantType) dropped
      /\ Token.getType (fst (TokenStack.popTillType wantType s)) = wantType)
  \/ (Forall (fun tk => Token.getType tk <> wantType) s
      /\ TokenStack.popTillType wantType s = (Token.noToken, [])).
Proof.
  unfold TokenStack.popTillType.
  destruct (dropTillType_spec wantType s) as (dropped & Hs & Hd & Hrest).
  assert (Hd' : Forall (fun tk => Token.getType tk <> wantType) dropped).
  { eapply List.Forall_impl; [|exact Hd]. intros tk Htk E. unfold has_type in Htk.
    apply TokenType_eqb_eq in E. congruence. }
  destruct (TokenStack.dropTillType wantType s) as [|tk rest].
  - right. rewrite app_nil_r in Hs. subst dropped. split; [exact Hd'|reflexivity].
  - left. exists dropped. cbn. split; [exact Hs|]. split; [exact Hd'|].
    apply TokenType_eqb_eq. exact Hrest.
Qed.

(** X8.  [newStatement] always returns: it empties the parse stack, sets
    the statement type to undetermined, writes one warning for each function
    call that was on the stack (its argument list was not closed), the one
    pushed last first, and changes nothing else. *)
Theorem newStatement_effect {T : Type} `{TokenSource T} (p : Parser.t T) :
  Parser.newStatement p
  = Ok (Parser.mk (Parser._buffer p) (Parser._symbolTable p) []
                  (Parser._readNextToken p) (Parser._currToken p) (Parser._functToken p)
                  Parser.undet (Parser._braceCount p)
                  (Parser.cout p ++ incomplete_calls (Parser._parseStack p))).
Proof.
  unfold Parser.newStatement. rewrite newStatement_loop_effect by lia. reflexivity.
Qed.

(** ** The token list *)

Section Lookahead.

Context {T : Type} `{TokenSource T}.

(** The lookahead pointer stands on an element of the hold list. *)
Definition lookPtr_valid (l : TokenList.t T) : Prop :=
  match TokenList._lookPtr l with
  | None => True
  | Some i => (i < List.length (TokenList._holdList l))%nat
  end.

(** [n] tokens from the tokenizer. *)
Fixpoint draw (n : nat) (file : T) : result (list Token.t * T) :=
  match n with
  | O => Ok ([], file)
  | S n' =>
      let* (tk, file) := Tokenizer_nextToken file in
      let* (tks, file) := draw n' file in
      Ok (tk :: tks, file)
  end.

(** The tokens of [n] calls of [nextToken]. *)
Fixpoint deliver (n : nat) (l : TokenList.t T) : result (list Token.t) :=
  match n with
  | O => Ok []
  | S n' =>
      let* (tk, l) := TokenList.nextToken l in
      let* tks := deliver n' l in
      Ok (tk :: tks)
  end.

(** [l'] holds what [l] holds and, behind it, tokens [l] has yet to ask the
    tokenizer for. *)
Definition ahead_of (l l' : TokenList.t T) : Prop :=
  exists tks,
    draw (List.length tks) (TokenList._file l) = Ok (tks, TokenList._file l')
    /\ TokenList._holdList l' = (TokenList._holdList l ++ tks)%list.

Lemma ahead_of_deliver (n : nat) :
  forall l l', ahead_of l l' -> deliver n l' = deliver n l.
Proof.
  induction n as [|n IH]; intros l l' (tks & Hdraw & Hhold); [reflexivity|].
  cbn [deliver]. unfold TokenList.nextToken. rewrite Hhold.
  destruct (TokenList._holdList l) as [|front rest] eqn:Hl; cbn [app].
  - destruct tks as [|tk tks]; cbn [draw List.length] in Hdraw.
    + injection Hdraw as Hfile. rewrite <- Hfile.
      destruct (Tokenizer_nextToken (TokenList._file l)) as [[tk file]| | |];
        cbn [bind]; try reflexivity.
    + destruct (Tokenizer_nextToken (TokenList._file l)) as [[tk' file]| | |];
        cbn [bind] in *; try discriminate Hdraw.
      destruct (draw (List.length tks) file) as [[tks' file']| | |] eqn:Hd;
        cbn [bind] in Hdraw; try discriminate Hdraw.
      injection Hdraw as -> -> Hfile.
      unfold TokenList.resetLookahead. cbn [TokenList._file TokenList._holdList].
      rewrite (IH (TokenList.mk file [] None)
                  (TokenList.mk (TokenList._file l') tks None)); [reflexivity|].
      exists tks. cbn. rewrite Hd, Hfile. split; reflexivity.
  - cbn [bind]. unfold TokenList.resetLookahead.
    cbn [TokenList._file TokenList._holdList].
    rewrite (IH (TokenList.mk (TokenList._file l) rest None)
                (TokenList.mk (TokenList._file l') (rest ++ tks) None)); [reflexivity|].
    exists tks. cbn. split; [exact Hdraw|reflexivity].
Qed.

Lemma nextLookahead_ahead (l l' : TokenList.t T) (tk : Token.t) :
  lookPtr_valid l ->
  TokenList.nextLookahead l = Ok (tk, l') ->
  ahead_of l l'
  /\ exists i, TokenList._lookPtr l' = Some i
               /\ nth_error (TokenList._holdList l') i = Some tk
               /\ match TokenList._lookPtr l with
                  | None => i = O
                  | Some j => i = S j
                  end.
Proof.
  unfold lookPtr_valid, TokenList.nextLookahead, TokenList.push_back_next,
    TokenList.lastLookahead.
  destruct l as [file hold ptr].
  cbn [TokenList._lookPtr TokenList._holdList TokenList._file].
  assert (Hnil : forall (g : T) (m : list Token.t) (i : nat),
             TokenList._holdList l' = m -> TokenList._file l' = g -> g = file ->
             m = hold -> ahead_of (TokenList.mk file hold ptr) l').
  { intros g m i Hm Hg Hf Hh. exists []. cbn. rewrite app_nil_r. split; congruence. }
  assert (Hone : forall (g : T) (new : Token.t),
             Tokenizer_nextToken file = Ok (new, g) ->
             TokenList._holdList l' = (hold ++ [new])%list -> TokenList._file l' = g ->
             ahead_of (TokenList.mk file hold ptr) l').
  { intros g new Hnew Hm Hg. exists [new]. cbn. rewrite Hnew. cbn. split; congruence. }
  destruct ptr as [j|].
  - intros Hj.
    destruct (Nat.eqb (S j) (List.length hold)).
    + destruct (Tokenizer_nextToken file) as [[new file']| | |] eqn:Hnew;
        cbn [bind TokenList._lookPtr TokenList._holdList TokenList._file];
        try discriminate.
      destruct (nth_error (hold ++ [new]) (S j)) as [look|] eqn:Hnth;
        cbn [bind of_option]; [|discriminate].
      intros E. injection E as <- <-. split.
      * apply (Hone file' new); auto.
      * exists (S j). cbn. auto.
    + cbn [bind TokenList._lookPtr TokenList._holdList TokenList._file].
      destruct (nth_error hold (S j)) as [look|] eqn:Hnth; cbn [bind of_option];
        [|discriminate].
      intros E. injection E as <- <-. split.
      * apply (Hnil file hold O); auto.
      * exists (S j). cbn. auto.
  - intros _. destruct hold as [|front rest].
    + destruct (Tokenizer_nextToken file) as [[new file']| | |] eqn:Hnew;
        cbn [bind TokenList._lookPtr TokenList._holdList TokenList._file app nth_error of_option];
        try discriminate.
      intros E. injection E as <- <-. split.
      * apply (Hone file' new); auto.
      * exists O. cbn. auto.
    + cbn [bind TokenList._lookPtr TokenList._holdList TokenList._file app nth_error of_option].
      intros E. injection E as <- <-. split.
      * apply (Hnil file (front :: rest) O); auto.
      * exists O. cbn. auto.
Qed.

End Lookahead.

(** X9.  The lookahead pointer of the token list always stands on an
    element of the hold list: [resetLookahead], [nextToken] and
    [nextLookahead] keep it so, [lastLookahead] is then always defined, and
    [nextLookahead] fails only when the tokenizer it asks fails. *)
Theorem lookahead_pointer_stays_valid {T : Type} `{TokenSource T} (l : TokenList.t T) :
  lookPtr_valid l ->
  lookPtr_valid (TokenList.resetLookahead l)
  /\ (forall tk l', TokenList.nextToken l = Ok (tk, l') -> lookPtr_valid l')
  /\ (forall tk l', TokenList.nextLookahead l = Ok (tk, l') -> lookPtr_valid l')
  /\ (exists tk, TokenList.lastLookahead l = Ok tk)
  /\ (forall tk file, Tokenizer_nextToken (TokenList._file l) = Ok (tk, file) ->
                      exists look l', TokenList.nextLookahead l = Ok (look, l')).
Proof.
  intros Hl. split; [exact I|]. split; [|split; [|split]].
  - intros tk l'. unfold TokenList.nextToken.
    destruct (TokenList._holdList l).
    + destruct (Tokenizer_nextToken (TokenList._file l)) as [[t f]| | |]; cbn;
        try discriminate.
      intros E. injection E as _ <-. exact I.
    + cbn. intros E. injection E as _ <-. exact I.
  - intros tk l' E. destruct (nextLookahead_ahead l l' tk Hl E) as (_ & i & Hp & Hn & _).
    unfold lookPtr_valid. rewrite Hp. apply nth_error_Some. congruence.
  - unfold TokenList.lastLookahead, lookPtr_valid in *.
    destruct (TokenList._lookPtr l) as [i|]; [|eauto].
    destruct (nth_error (TokenList._holdList l) i) eqn:E; [cbn; eauto|].
    apply nth_error_None in E. lia.
  - intros tk file Hnew.
    unfold TokenList.nextLookahead, TokenList.push_back_next, TokenList.lastLookahead,
      lookPtr_valid in *.
    destruct l as [f hold ptr].
    cbn [TokenList._lookPtr TokenList._holdList TokenList._file] in *. rewrite Hnew.
    destruct ptr as [j|].
    + destruct (Nat.eqb_spec (S j) (List.length hold)) as [Hlast|Hmore];
        cbn [bind TokenList._lookPtr TokenList._holdList TokenList._file].
      * rewrite nth_error_app2 by lia. replace (S j - List.length hold)%nat with O by lia.
        cbn. eauto.
      * destruct (nth_error hold (S j)) eqn:E; [cbn; eauto|].
        apply nth_error_None in E. lia.
    + destruct hold; cbn; eauto.
Qed.

(** X10.  Looking ahead takes nothing from the tokens [nextToken] delivers:
    after a call of [nextLookahead] any number of calls of [nextToken] return
    the tokens they would have returned without it; and the first lookahead
    after a [nextToken] or a [resetLookahead] returns the token the next
    call of [nextToken] returns. *)
Theorem lookahead_is_transparent {T : Type} `{TokenSource T}
        (l l' : TokenList.t T) (look : Token.t) :
  lookPtr_valid l ->
  TokenList.nextLookahead l = Ok (look, l') ->
  (forall n, deliver n l' = deliver n l)
  /\ (TokenList._lookPtr l = None -> deliver 1 l = Ok [look]).
Proof.
  intros Hl E. destruct (nextLookahead_ahead l l' look Hl E) as (Hahead & i & Hp & Hn & Hi).
  split.
  - intros n. apply ahead_of_deliver. exact Hahead.
  - intros Hnone. rewrite Hnone in Hi. subst i.
    rewrite <- (ahead_of_deliver 1 l l' Hahead).
    cbn [deliver]. unfold TokenList.nextToken.
    destruct (TokenList._holdList l') as [|front rest]; [discriminate Hn|].
    cbn in Hn. injection Hn as ->. reflexivity.
Qed.


Lemma lookahead_pointer_stays_valid_witness :
  exists tk, TokenList.lastLookahead (TokenList.mk [closing_brace] [] None) = Ok tk.
Proof.
  destruct (lookahead_pointer_stays_valid (TokenList.mk [closing_brace] [] None) I)
    as (_ & _ & _ & Hlast & _).
  exact Hlast.
Defined.

Lemma lookahead_is_transparent_witness :
  deliver 1 (TokenList.mk [closing_brace] [] None) = Ok [closing_brace].
Proof.
  assert (E : TokenList.nextLookahead (TokenList.mk [closing_brace] [] None)
              = Ok (closing_brace, TokenList.mk [] [closing_brace] (Some O)))
    by reflexivity.
  destruct (lookahead_is_transparent (TokenList.mk [closing_brace] [] None) _ _ I E) as [_ Hfirst].
  apply Hfirst. reflexivity.
Defined.

(** ** The file buffer *)

Section Fetch.
Import StdString.

Ltac case_ifs :=
  repeat (match goal with
          | |- context [if ?b then _ else _] => destruct b
          end; cbn).

(** What the scan of a line leaves alone, whatever the line holds. *)
Definition same_input (st st' : FileBuffer.t) : Prop :=
  FileBuffer._file st' = FileBuffer._file st
  /\ FileBuffer._inputPosition st' = FileBuffer._inputPosition st.

Lemma handlePreproc_same_input (fileDataLine : string) (st : FileBuffer.t) :
  match FileBuffer.handlePreproc fileDataLine st with
  | Ok st' => same_input st st'
  | _ => True
  end.
Proof.
  unfold FileBuffer.handlePreproc, same_input. cbv zeta.
  destruct (if _ && _ then FileBuffer.findLocation fileDataLine else Ok None)
    as [[p|]| | |]; cbn [bind]; try exact I; case_ifs; split; reflexivity.
Qed.

Lemma scanStep_same_input (line : string) (e : N) (ns : FileBuffer.TextState)
      (st : FileBuffer.t) :
  match FileBuffer.scanStep line e ns st with
  | Ok (_, _, st') => same_input st st'
  | _ => True
  end.
Proof.
  unfold FileBuffer.scanStep, same_input. cbv zeta.
  destruct (FileBuffer._currState st).
  - cbn. case_ifs; split; reflexivity.
  - cbn. case_ifs; split; reflexivity.
  - pose proof (handlePreproc_same_input line st) as E.
    destruct (FileBuffer.handlePreproc line st) as [st1| | |]; cbn [bind]; try exact I.
    case_ifs; exact E.
  - cbn. case_ifs; split; reflexivity.
Qed.

Lemma scanLine_same_input (line : string) (fuel : nat) :
  forall (e : N) (ns : FileBuffer.TextState) (st : FileBuffer.t),
    match FileBuffer.scanLine fuel line e ns st with
    | Ok (_, st') => same_input st st'
    | _ => True
    end.
Proof.
  induction fuel as [|fuel IH]; intros e ns st; cbn [FileBuffer.scanLine];
    destruct (e =? npos); try (split; reflexivity); try exact I.
  pose proof (scanStep_same_input line e ns st) as E.
  destruct (FileBuffer.scanStep line e ns st) as [[[e1 ns1] st1]| | |];
    cbn [bind]; try exact I.
  specialize (IH e1 ns1 st1).
  destruct (FileBuffer.scanLine fuel line e1 ns1 st1) as [[ns2 st2]| | |]; try exact I.
  unfold same_input in *. intuition congruence.
Qed.

(** A buffer the outer loop of [fetchNextLine] can leave behind: nothing, or
    text with a character that is no space or tab. *)
Definition usable (buffer : string) : Prop :=
  buffer = EmptyString \/ FileBuffer.burnSpaces buffer 0 <> npos.

Lemma processLine_effect (line : string) (ns : FileBuffer.TextState) (st : FileBuffer.t) :
  match FileBuffer.processLine line ns st with
  | Ok (_, st') =>
      FileBuffer._file st' = FileBuffer._file st
      /\ FileBuffer._inputPosition st'
         = FilePosition.incrLine (FileBuffer._inputPosition st)
      /\ usable (FileBuffer._buffer st')
  | _ => True
  end.
Proof.
  unfold FileBuffer.processLine. cbv zeta.
  match goal with
  | |- context [FileBuffer.scanLine ?f ?l ?e ?n ?s] =>
      pose proof (scanLine_same_input l f e n s) as E;
      destruct (FileBuffer.scanLine f l e n s) as [[ns1 st1]| | |]
  end; cbn [bind]; try exact I.
  assert (E' : FileBuffer._file st1 = FileBuffer._file st
               /\ FileBuffer._inputPosition st1
                  = FilePosition.incrLine (FileBuffer._inputPosition st)).
  { destruct E as [E1 E2]. rewrite E1, E2. case_ifs; split; reflexivity. }
  destruct (N.eqb_spec (FileBuffer.burnSpaces (FileBuffer._buffer st1) 0) npos) as [Hb|Hb];
    cbn [orb].
  - cbn. split; [apply E'|]. split; [apply E'|]. left. reflexivity.
  - match goal with |- context [if ?b then _ else _] => destruct b end; cbn;
      (split; [apply E'|]); (split; [apply E'|]); [left; reflexivity|right; exact Hb].
Qed.

Lemma fetchLoop_effect (lines : list string) :
  forall (ns : FileBuffer.TextState) (st : FileBuffer.t),
    match FileBuffer.fetchLoop lines ns st with
    | Ok st' =>
        (exists consumed,
            lines = (consumed ++ FileBuffer._file st')%list
            /\ FileBuffer._inputPosition st'
               = FilePosition.mk
                   (FilePosition._fileName (FileBuffer._inputPosition st))
                   (FilePosition._lineNo (FileBuffer._inputPosition st)
                    + Z.of_nat (List.length consumed))%Z
            /\ (consumed = [] -> FileBuffer._buffer st' = FileBuffer._buffer st)
            /\ (consumed <> [] -> usable (FileBuffer._buffer st')))
        /\ (FileBuffer._buffer st' = EmptyString -> FileBuffer._file st' = [])
    | _ => True
    end.
Proof.
  induction lines as [|line rest IH]; intros ns st; cbn [FileBuffer.fetchLoop].
  - split; [|reflexivity]. exists []. cbn. rewrite Z.add_0_r.
    destruct (FileBuffer._inputPosition st). repeat split. congruence.
  - destruct (String.eqb_spec (FileBuffer._buffer st) EmptyString) as [Hb|Hb]; cbn [negb].
    + pose proof (processLine_effect line ns (FileBuffer.set_file st rest)) as E.
      destruct (FileBuffer.processLine line ns (FileBuffer.set_file st rest))
        as [[ns1 st1]| | |]; cbn [bind]; try exact I.
      destruct E as (E1 & E2 & E3).
      specialize (IH ns1 st1).
      destruct (FileBuffer.fetchLoop rest ns1 st1) as [st'| | |]; try exact I.
      destruct IH as [(consumed & Hl & Hp & Hs & Hu) Hend]. split; [|exact Hend].
      exists (line :: consumed). cbn [app List.length]. rewrite Hp, E2. cbn.
      split; [congruence|]. split; [f_equal; lia|]. split; [discriminate|].
      intros _. destruct consumed as [|l c]; [rewrite Hs by reflexivity; exact E3|].
      apply Hu. discriminate.
    + split; [|cbn; contradiction]. exists []. cbn. rewrite Z.add_0_r.
      destruct (FileBuffer._inputPosition st). repeat split. congruence.
Qed.

End Fetch.

(** X11.  What [fetchNextLine] leaves behind: the lines it took from the
    file are the first ones of those that were left, and the line number of
    the position in the input has grown by their number; the buffer is
    empty exactly at the end of the file, and a buffer that is not empty
    holds a character that is no space or tab. *)
Theorem fetchNextLine_effect (st st' : FileBuffer.t) :
  FileBuffer.fetchNextLine st = Ok st' ->
  (exists consumed,
      FileBuffer._file st = (consumed ++ FileBuffer._file st')%list
      /\ FileBuffer._inputPosition st'
         = FilePosition.mk
             (FilePosition._fileName (FileBuffer._inputPosition st))
             (FilePosition._lineNo (FileBuffer._inputPosition st)
              + Z.of_nat (List.length consumed))%Z)
  /\ (FileBuffer.haveEOF st' = true <-> FileBuffer._buffer st' = EmptyString)
  /\ (FileBuffer._buffer st' <> EmptyString ->
      FileBuffer.burnSpaces (FileBuffer._buffer st') 0 <> StdString.npos).
Proof.
  unfold FileBuffer.fetchNextLine. intros E.
  pose proof (fetchLoop_effect (FileBuffer._file st) FileBuffer.other
                               (FileBuffer.set_buffer st EmptyString)) as P.
  rewrite E in P. destruct P as [(consumed & Hl & Hp & Hs & Hu) Hend].
  split; [exists consumed; split; [exact Hl|exact Hp]|].
  split.
  - unfold FileBuffer.haveEOF. split.
    + intros H. apply andb_true_iff in H as [_ H]. apply String.eqb_eq in H. exact H.
    + intros H. rewrite H, (Hend H). reflexivity.
  - intros Hne. destruct consumed as [|l c].
    + exfalso. apply Hne. rewrite Hs by reflexivity. reflexivity.
    + destruct Hu as [Hu|Hu]; [discriminate|contradiction|exact Hu].
Qed.

(** A file of a blank line, a comment and a statement, not yet read. *)
Definition three_lines : FileBuffer.t :=
  FileBuffer.mk ["  "; "/* none */"; "int x;"; "int y;"]
                (FilePosition.mk "a.c" 0) (FilePosition.mk "a.c" 0) (FilePosition.mk "a.c" 0)
                "" FileBuffer.other false [].

Lemma fetchNextLine_effect_witness :
  exists st',
    FileBuffer.fetchNextLine three_lines = Ok st'
    /\ FileBuffer._buffer st' = "int x;"
    /\ FileBuffer._file st' = ["int y;"]
    /\ FileBuffer._inputPosition st' = FilePosition.mk "a.c" 3
    /\ FileBuffer.haveEOF st' = false.
Proof.
  assert (Hok : exists st', FileBuffer.fetchNextLine three_lines = Ok st'
                            /\ FileBuffer._buffer st' = "int x;"
                            /\ FileBuffer._file st' = ["int y;"])
    by (eexists; vm_compute; repeat split).
  destruct Hok as (st' & E & Hb & Hf). exists st'.
  destruct (fetchNextLine_effect three_lines st' E) as ((consumed & Hl & Hp) & Heof & _).
  split; [exact E|]. split; [exact Hb|]. split; [exact Hf|]. split.
  - rewrite Hp. rewrite Hf in Hl.
    assert (Hlen : List.length consumed = 3%nat).
    { apply (f_equal (@List.length string)) in Hl. rewrite List.length_app in Hl.
      cbn in Hl. lia. }
    rewrite Hlen. reflexivity.
  - destruct (FileBuffer.haveEOF st') eqn:Hh; [|reflexivity].
    destruct Heof as [Heof _]. specialize (Heof eq_refl). rewrite Hb in Heof.
    discriminate Heof.
Defined.

(** ** Escaped newlines outside a string literal *)

Section Continuation.
Import StdString.

Lemma getEscNewline_plain (buffer : string) :
  size buffer < npos ->
  FileBuffer.getEscNewline buffer false
  = if (0 <? trailing_backslashes buffer)%nat
    then size buffer - 1 - N.of_nat (trailing_blanks buffer)
    else npos.
Proof.
  induction buffer as [|s c IH] using string_snoc_ind; intros Hsize; [reflexivity|].
  rewrite size_append in Hsize |- *. change (size (String c EmptyString)) with 1 in *.
  unfold trailing_backslashes, trailing_blanks. rewrite backwards_snoc.
  cbn [take_while drop_while].
  destruct (is_blank c) eqn:Hc.
  - rewrite getEscNewline_snoc_blank by exact Hc.
    rewrite IH by lia. unfold trailing_backslashes, trailing_blanks.
    destruct (0 <? _)%nat; [|reflexivity]. cbn [List.length]. lia.
  - clear IH. cbn [List.length take_while].
    unfold FileBuffer.getEscNewline, find_last_not_of.
    rewrite find_last_snoc. fold (is_blank c). rewrite Hc.
    destruct (N.leb_spec (size s) npos); [|lia]. cbn [andb negb].
    destruct (N.eqb_spec (size s) npos); [lia|]. cbn [negb].
    unfold FileBuffer.char_is. rewrite at_app_here.
    change (Ascii.eqb c backslash) with (is_backslash c).
    destruct (is_backslash c) eqn:Hb; [|reflexivity].
    cbn [negb List.length Nat.ltb Nat.leb]. lia.
Qed.

Lemma take_while_all {A : Type} (p : A -> bool) (a r : list A) (x : A) :
  forallb p a = true -> p x = false -> take_while p (a ++ x :: r) = a.
Proof.
  intros Ha Hx. induction a as [|y a IH]; cbn in *; [rewrite Hx; reflexivity|].
  apply andb_true_iff in Ha as [Hy Ha]. rewrite Hy, IH by exact Ha. reflexivity.
Qed.

Lemma drop_while_all {A : Type} (p : A -> bool) (a r : list A) (x : A) :
  forallb p a = true -> p x = false -> drop_while p (a ++ x :: r) = x :: r.
Proof.
  intros Ha Hx. induction a as [|y a IH]; cbn in *; [rewrite Hx; reflexivity|].
  apply andb_true_iff in Ha as [Hy Ha]. rewrite Hy, IH by exact Ha. reflexivity.
Qed.

Lemma drop_while_nil {A : Type} (p : A -> bool) (a : list A) :
  forallb p a = true -> drop_while p a = [].
Proof.
  intros Ha. induction a as [|y a IH]; cbn in *; [reflexivity|].
  apply andb_true_iff in Ha as [Hy Ha]. rewrite Hy. apply IH. exact Ha.
Qed.

Lemma last_failure {A : Type} (p : A -> bool) (l : list A) :
  forallb p l = false ->
  exists a x r, l = (a ++ x :: r)%list /\ p x = false /\ forallb p r = true.
Proof.
  induction l as [|y l IH]; cbn; [discriminate|].
  destruct (forallb p l) eqn:Hl.
  - rewrite andb_true_r. intros Hy. exists [], y, l. repeat split; assumption.
  - intros _. destruct (IH eq_refl) as (a & x & r & -> & Hx & Hr).
    exists (y :: a), x, r. repeat split; assumption.
Qed.

End Continuation.

(** X12.  Outside a string literal ([multiLineQuote] false) [getEscNewline]
    reports a continuation exactly when the last character of the line
    that is no space or tab is a backslash, however many backslashes there
    are before it, and returns the position of that last backslash. *)
Theorem getEscNewline_outside_quote (buffer : string) :
  StdString.size buffer < StdString.npos ->
  FileBuffer.hasEscNewline buffer false = (0 <? trailing_backslashes buffer)%nat
  /\ (trailing_backslashes buffer <> O ->
      FileBuffer.getEscNewline buffer false
      = StdString.size buffer - 1 - N.of_nat (trailing_blanks buffer))
  /\ (trailing_backslashes buffer = O ->
      FileBuffer.getEscNewline buffer false = StdString.npos).
Proof.
  intros Hsize. pose proof (getEscNewline_plain buffer Hsize) as H.
  unfold FileBuffer.hasEscNewline. rewrite H.
  destruct (trailing_backslashes buffer) as [|k]; cbn [Nat.ltb Nat.leb].
  - split; [reflexivity|]. split; [congruence|reflexivity].
  - split; [|split; [reflexivity|discriminate]].
    destruct (N.eqb_spec (StdString.size buffer - 1 - N.of_nat (trailing_blanks buffer))
                         StdString.npos); [lia|reflexivity].
Qed.

(** Two backslashes and a space after [abc ]: a continuation at position 5,
    which inside a string literal it is not. *)
Lemma getEscNewline_outside_quote_witness :
  FileBuffer.hasEscNewline "abc \\ " false = true
  /\ FileBuffer.getEscNewline "abc \\ " false = 5
  /\ FileBuffer.hasEscNewline "abc \\ " true = false.
Proof.
  destruct (getEscNewline_outside_quote "abc \\ ") as (H1 & H2 & _); [reflexivity|].
  split; [exact H1|]. split; [apply H2; discriminate|reflexivity].
Defined.

(** ** Lines without comments, string literals and directives *)

Section PlainLines.
Import StdString.

(** A line that holds no double quote, no start of a comment, and is no
    directive. *)
Definition plain (line : string) : Prop :=
  size line < npos
  /\ ~ directive line
  /\ all_chars (fun c => negb (Ascii.eqb dquote c)) line
  /\ (forall pre post, line <> pre ++ "/*" ++ post).

(** A line with text to hand out: it is not blank, and it is more than a
    backslash between blanks. *)
Definition has_text (line : string) : bool :=
  match drop_while is_blank (list_ascii_of_string line) with
  | [] => false
  | c :: rest => negb (is_backslash c && forallb is_blank rest)
  end.

(** What reading a file of plain lines hands out: the lines with text, each
    with its line number; [n] lines are before [lines]. *)
Fixpoint delivered (name : string) (n : Z) (lines : list string)
  : list (string * FilePosition.t) :=
  match lines with
  | [] => []
  | line :: rest =>
      if has_text line
      then (line, FilePosition.mk name (n + 1)) :: delivered name (n + 1) rest
      else delivered name (n + 1) rest
  end.

(** A reader: [while (!file.haveEOF()) { file >> line; ... file.getFilePosition() ... }]. *)
Fixpoint read_all (fuel : nat) (st : FileBuffer.t) : result (list (string * FilePosition.t)) :=
  match fuel with
  | O => OutOfFuel
  | S fuel' =>
      if FileBuffer.haveEOF st then Ok []
      else
        let* (line, st) := FileBuffer.read st in
        let* rest := read_all fuel' st in
        Ok ((line, FileBuffer.getFilePosition st) :: rest)
  end.

Lemma prefix_append (pat s : string) :
  String.prefix pat s = true -> exists post, s = pat ++ post.
Proof.
  revert s. induction pat as [|a pat IH]; intros s H.
  - exists s. reflexivity.
  - destruct s as [|b s]; cbn in H; [discriminate|].
    destruct (ascii_dec a b) as [->|]; [|discriminate].
    destruct (IH s H) as [post ->]. exists post. reflexivity.
Qed.

Lemma find_str_none (a : ascii) (pat s : string) (i pos : N) :
  (forall pre post, s <> pre ++ String a pat ++ post) ->
  find_str_from (String a pat) s i pos = npos.
Proof.
  revert i. induction s as [|c s IH]; intros i Hno.
  - cbn. rewrite andb_false_r. reflexivity.
  - cbn [find_str_from].
    destruct (String.prefix (String a pat) (String c s)) eqn:Hp.
    + exfalso. destruct (prefix_append _ _ Hp) as [post E].
      apply (Hno EmptyString post). rewrite append_Empty. exact E.
    + rewrite andb_false_r. apply IH. intros pre post E.
      apply (Hno (String c pre) post). rewrite append_String, E. reflexivity.
Qed.

Lemma substring_whole (s : string) : String.substring 0 (String.length s) s = s.
Proof. induction s as [|c s IH]; cbn; [reflexivity|]. rewrite IH. reflexivity. Qed.

Lemma substr_all (line : string) : size line <= npos -> substr line 0 npos = line.
Proof.
  intros Hsize. unfold substr. rewrite N.sub_0_r, N.min_r by exact Hsize.
  destruct (N.leb_spec 0 (size line)); [|lia].
  unfold size. rewrite Nat2N.id. apply substring_whole.
Qed.

Lemma nextOpenQuote_none (line : string) :
  all_chars (fun c => negb (Ascii.eqb dquote c)) line ->
  FileBuffer.nextOpenQuote line 0 = npos.
Proof.
  intros Hno. unfold FileBuffer.nextOpenQuote. cbn [N.eqb npos].
  cbn [FileBuffer.nextOpenQuote_loop]. unfold find_first_of.
  pose proof (find_miss (Ascii.eqb dquote) EmptyString line Hno) as E.
  rewrite append_Empty in E. change (size EmptyString) with 0 in E. rewrite E.
  reflexivity.
Qed.

(** The pass of the inner loop over a plain line, outside comments and
    string literals: the whole line is added to the buffer. *)
Lemma scanStep_text (line : string) (ns : FileBuffer.TextState) (st : FileBuffer.t) :
  FileBuffer._currState st = FileBuffer.other -> plain line ->
  FileBuffer.scanStep line 0 ns st
  = Ok (npos, ns,
        FileBuffer.mk (FileBuffer._file st) (FileBuffer._sourcePosition st)
                      (FileBuffer._bufferPosition st) (FileBuffer._inputPosition st)
                      (FileBuffer._buffer st ++ line) FileBuffer.other true
                      (FileBuffer.cout st)).
Proof.
  intros Hcur (Hsize & _ & Hquote & Hcomment).
  unfold FileBuffer.scanStep. cbv zeta. rewrite Hcur.
  rewrite (nextOpenQuote_none line Hquote).
  unfold find. rewrite (find_str_none "/" "*" line 0 0 Hcomment).
  change (npos =? npos) with true. cbn [andb].
  cbn [FileBuffer.set_haveWrap FileBuffer._haveWrap FileBuffer._buffer FileBuffer.set_buffer
       FileBuffer._file FileBuffer._sourcePosition FileBuffer._bufferPosition
       FileBuffer._inputPosition FileBuffer._currState FileBuffer.cout bind negb].
  rewrite substr_all by lia.
  destruct (N.leb_spec (size line) npos); [|lia]. unfold FileBuffer.set_buffer, FileBuffer.set_haveWrap. cbn. rewrite Hcur. reflexivity.
Qed.

(** The test of [fetchNextLine] for a line to drop. *)
Lemma drop_test (line : string) :
  size line < npos ->
  (FileBuffer.burnSpaces line 0 =? npos)
  || (FileBuffer.burnSpaces line 0 =? FileBuffer.getEscNewline line false)
  = negb (has_text line).
Proof.
  intros Hsize. unfold has_text, FileBuffer.burnSpaces, find_first_not_of.
  destruct (find_if_start (fun c => negb (mem c FileBuffer.blanks)) line 0 0)
    as [[Hall E] | (b & c & d & HL & Hb & Hc & E)]; [lia| |]; rewrite E.
  - change (npos =? npos) with true. cbn [orb].
    rewrite drop_while_nil; [reflexivity|].
    apply forallb_forall. intros x Hx. unfold all_chars in Hall.
    rewrite List.Forall_forall in Hall. specialize (Hall x Hx). cbn beta in Hall.
    apply negb_true_iff in Hall. apply negb_false_iff in Hall. exact Hall.
  - assert (Hb' : forallb is_blank (list_ascii_of_string b) = true).
    { apply forallb_forall. intros x Hx. unfold all_chars in Hb.
      rewrite List.Forall_forall in Hb. specialize (Hb x Hx). cbn beta in Hb.
      apply negb_true_iff in Hb. apply negb_false_iff in Hb. exact Hb. }
    assert (Hc' : is_blank c = false) by (apply negb_true_iff; exact Hc).
    subst line. rewrite size_append, size_String in Hsize.
    rewrite list_ascii_of_string_append. cbn [list_ascii_of_string].
    rewrite drop_while_all by assumption.
    rewrite N.add_0_l. destruct (N.eqb_spec (size b) npos); [lia|]. cbn [orb].
    rewrite getEscNewline_plain by (rewrite size_append, size_String; lia).
    unfold trailing_backslashes, trailing_blanks, backwards.
    rewrite list_ascii_of_string_append. cbn [list_ascii_of_string].
    rewrite rev_app_distr. cbn [rev]. rewrite <- app_assoc. cbn [app].
    rewrite size_append, size_String.
    destruct (forallb is_blank (list_ascii_of_string d)) eqn:Hd.
    + assert (Hr : forallb is_blank (rev (list_ascii_of_string d)) = true).
      { apply forallb_forall. intros x Hx. apply in_rev in Hx.
        rewrite forallb_forall in Hd. apply Hd. exact Hx. }
      rewrite take_while_all, drop_while_all by assumption.
      cbn [take_while]. rewrite length_rev.
      destruct (is_backslash c); cbn [List.length Nat.ltb Nat.leb andb negb].
      * apply N.eqb_eq.
        assert (N.of_nat (List.length (list_ascii_of_string d)) = size d).
        { unfold size. f_equal. clear. induction d; cbn; congruence. }
        lia.
      * destruct (N.eqb_spec (size b) npos); [lia|reflexivity].
    + rewrite andb_false_r. cbn [negb].
      destruct (last_failure is_blank (list_ascii_of_string d) Hd)
        as (d1 & x & d2 & Hd' & Hx & Hd2).
      rewrite Hd', rev_app_distr. cbn [rev]. rewrite <- !app_assoc. cbn [app].
      assert (Hr : forallb is_blank (rev d2) = true).
      { apply forallb_forall. intros y Hy. apply in_rev in Hy.
        rewrite forallb_forall in Hd2. apply Hd2. exact Hy. }
      rewrite take_while_all, drop_while_all by assumption.
      rewrite length_rev.
      assert (Hlen : size d = N.of_nat (List.length d1) + 1 + N.of_nat (List.length d2)).
      { unfold size.
        replace (String.length d) with (List.length (list_ascii_of_string d))
          by (clear; induction d; cbn; congruence).
        rewrite Hd', List.length_app. cbn [List.length]. lia. }
      destruct (0 <? _)%nat; apply N.eqb_neq; [lia|].
      intros Heq. lia.
Qed.

(** A plain line read outside comments and string literals, the buffer
    empty: it becomes the buffer if it has text, and is dropped if not. *)
Lemma processLine_text (line : string) (ns : FileBuffer.TextState) (st : FileBuffer.t) :
  FileBuffer._currState st = FileBuffer.other ->
  FileBuffer._buffer st = EmptyString ->
  plain line ->
  FileBuffer.processLine line ns st
  = Ok (ns,
        FileBuffer.mk (FileBuffer._file st) (FileBuffer._sourcePosition st)
                      (FilePosition.incrLine (FileBuffer._bufferPosition st))
                      (FilePosition.incrLine (FileBuffer._inputPosition st))
                      (if has_text line then line else EmptyString)
                      FileBuffer.other true (FileBuffer.cout st)).
Proof.
  intros Hcur Hbuf Hplain. unfold FileBuffer.processLine. cbv zeta.
  pose proof (hash_first_false line (proj1 (proj2 Hplain))) as Hh.
  unfold hash_first in Hh. cbv zeta in Hh. rewrite Hh.
  set (st0 := FileBuffer.set_inputPosition _ _).
  assert (Hst0 : (if FileBuffer.TextState_eqb (FileBuffer._currState st0) FileBuffer.other
                  then st0 else st0) = st0) by (destruct (FileBuffer.TextState_eqb _ _); reflexivity).
  rewrite Hst0.
  replace (2 * String.length line + 2)%nat with (S (S (2 * String.length line))) by lia.
  cbn [FileBuffer.scanLine]. change (0 =? npos) with false. cbv iota.
  rewrite (scanStep_text line ns st0) by (exact Hcur || exact Hplain).
  cbn [bind]. change (npos =? npos) with true. cbv iota.
  cbn [FileBuffer._buffer FileBuffer._haveWrap FileBuffer._currState negb orb andb
       FileBuffer.TextState_eqb].
  subst st0. cbn [FileBuffer._buffer FileBuffer.set_inputPosition
                  FileBuffer.set_bufferPosition FileBuffer._file
                  FileBuffer._sourcePosition FileBuffer._bufferPosition
                  FileBuffer._inputPosition FileBuffer.cout].
  rewrite Hbuf, append_Empty. cbn [bind].
  cbn [FileBuffer._buffer FileBuffer._haveWrap FileBuffer._currState negb orb andb
       FileBuffer.TextState_eqb].
  rewrite andb_true_r.
  rewrite (drop_test line (proj1 Hplain)).
  destruct (has_text line); reflexivity.
Qed.

Lemma has_text_nonempty (line : string) : has_text line = true -> line <> EmptyString.
Proof. intros H ->. discriminate H. Qed.

(** The outer loop of [fetchNextLine] over plain lines: it stops at the
    first line with text, which is the one [delivered] starts with. *)
Lemma fetchLoop_text (name : string) (lines : list string) :
  Forall plain lines ->
  forall (ns : FileBuffer.TextState) (st : FileBuffer.t) (n : Z),
    FileBuffer._currState st = FileBuffer.other ->
    FileBuffer._buffer st = EmptyString ->
    FileBuffer._bufferPosition st = FilePosition.mk name n ->
    exists st' m,
      FileBuffer.fetchLoop lines ns st = Ok st'
      /\ FileBuffer._currState st' = FileBuffer.other
      /\ FileBuffer._sourcePosition st' = FileBuffer._sourcePosition st
      /\ FileBuffer._bufferPosition st' = FilePosition.mk name m
      /\ Forall plain (FileBuffer._file st')
      /\ ((FileBuffer._buffer st' = EmptyString /\ FileBuffer._file st' = []
           /\ delivered name n lines = [])
          \/ (has_text (FileBuffer._buffer st') = true
              /\ delivered name n lines
                 = (FileBuffer._buffer st', FilePosition.mk name m)
                     :: delivered name m (FileBuffer._file st')
              /\ (List.length (FileBuffer._file st') < List.length lines)%nat)).
Proof.
  induction 1 as [|line rest Hline Hrest IH]; intros ns st n Hcur Hbuf Hpos.
  - exists (FileBuffer.set_file st []), n. cbn. repeat split; try assumption.
    + constructor.
    + left. repeat split. exact Hbuf.
  - rewrite fetchLoop_empty by exact Hbuf.
    rewrite processLine_text by assumption. cbn [bind].
    cbn [FileBuffer.set_file FileBuffer._file FileBuffer._sourcePosition
         FileBuffer._bufferPosition FileBuffer._inputPosition FileBuffer.cout].
    cbn [delivered]. rewrite Hpos. unfold FilePosition.incrLine.
    cbn [FilePosition._fileName FilePosition._lineNo].
    destruct (has_text line) eqn:Ht.
    + rewrite fetchLoop_full; [|cbn; apply has_text_nonempty; exact Ht|reflexivity].
      eexists _, (n + 1)%Z. split; [reflexivity|]. cbn.
      repeat split; try assumption. right. repeat split; [exact Ht|lia].
    + match goal with
      | |- context [FileBuffer.fetchLoop rest ns ?s] =>
          destruct (IH ns s (n + 1)%Z eq_refl eq_refl eq_refl)
            as (st' & m & Hrun & Hc & Hs & Hp & Hf & Hcase)
      end.
      exists st', m. split; [exact Hrun|]. split; [exact Hc|]. split; [exact Hs|].
      split; [exact Hp|]. split; [exact Hf|].
      destruct Hcase as [(H1 & H2 & H3)|(H1 & H2 & H3)]; [left|right];
        repeat split; try assumption. cbn [List.length]. lia.
Qed.

(** Reading on from a buffer filled by such a fetch. *)
Lemma read_all_text (name : string) (fuel : nat) :
  forall (st : FileBuffer.t) (m : Z),
    FileBuffer._currState st = FileBuffer.other ->
    FileBuffer._bufferPosition st = FilePosition.mk name m ->
    Forall plain (FileBuffer._file st) ->
    (FileBuffer._buffer st = EmptyString /\ FileBuffer._file st = [] /\ (0 < fuel)%nat
     -> read_all fuel st = Ok [])
    /\ (has_text (FileBuffer._buffer st) = true
        /\ (List.length (FileBuffer._file st) + 1 < fuel)%nat
        -> read_all fuel st
           = Ok ((FileBuffer._buffer st, FilePosition.mk name m)
                   :: delivered name m (FileBuffer._file st))).
Proof.
  induction fuel as [|fuel IH]; intros st m Hcur Hpos Hplain; (split; [intros (Hb & Hf & Hfuel)|intros (Ht & Hfuel)]); try lia.
  - cbn [read_all]. unfold FileBuffer.haveEOF. rewrite Hb, Hf. reflexivity.
  - cbn [read_all]. unfold FileBuffer.haveEOF.
    destruct (String.eqb_spec (FileBuffer._buffer st) EmptyString) as [Hb|Hb];
      [rewrite Hb in Ht; discriminate Ht|].
    rewrite andb_false_r.
    unfold FileBuffer.read, FileBuffer.fetchNextLine. cbv zeta.
    cbn [FileBuffer.set_buffer FileBuffer.set_sourcePosition FileBuffer._file
         FileBuffer._sourcePosition FileBuffer._bufferPosition FileBuffer._inputPosition
         FileBuffer._buffer FileBuffer._currState FileBuffer._haveWrap FileBuffer.cout].
    match goal with
    | |- context [FileBuffer.fetchLoop ?l ?ns ?s] =>
        destruct (fetchLoop_text name l Hplain ns s m Hcur eq_refl Hpos)
          as (st' & m' & Hrun & Hc & Hs & Hp & Hf & Hcase)
    end.
    rewrite Hrun. cbn [bind]. cbn in Hs.
    unfold FileBuffer.getFilePosition. rewrite Hs, Hpos.
    destruct (IH st' m' Hc Hp Hf) as [IHa IHb].
    destruct Hcase as [(H1 & H2 & H3)|(H1 & H2 & H3)].
    + rewrite IHa by (repeat split; try assumption; lia). cbn [bind].
      rewrite H3. reflexivity.
    + rewrite IHb by (split; [assumption|lia]). cbn [bind].
      rewrite H2. reflexivity.
Qed.

Lemma prefix_here (pat post : string) : String.prefix pat (pat ++ post) = true.
Proof.
  induction pat as [|a pat IH]; [rewrite append_Empty; destruct post; reflexivity|].
  rewrite append_String. cbn.
  destruct (ascii_dec a a); [exact IH|contradiction].
Qed.

Lemma find_str_some (pat pre post : string) (i pos : N) :
  pos <= i -> i + size pre < npos ->
  find_str_from pat (pre ++ pat ++ post) i pos <> npos.
Proof.
  revert i. induction pre as [|c pre IH]; intros i Hpos Hsize.
  - rewrite append_Empty. change (size EmptyString) with 0 in Hsize.
    destruct (pat ++ post) as [|c s] eqn:E; cbn [find_str_from];
      rewrite <- ?E, prefix_here; destruct (N.leb_spec pos i); cbn [andb]; lia.
  - rewrite append_String. cbn [find_str_from]. rewrite size_String in Hsize.
    destruct ((pos <=? i) && String.prefix pat (String c (pre ++ pat ++ post))); [lia|].
    apply IH; lia.
Qed.

(** The conditions as tests. *)
Lemma directive_test (line : string) :
  (size line <? npos) = true -> hash_first line = false -> ~ directive line.
Proof.
  intros Hsize Hhash Hd. apply N.ltb_lt in Hsize.
  rewrite (hash_first_true line Hsize Hd) in Hhash. discriminate Hhash.
Qed.

Lemma all_chars_test (p : ascii -> bool) (s : string) :
  forallb p (list_ascii_of_string s) = true -> all_chars p s.
Proof.
  intros H. unfold all_chars. apply List.Forall_forall. intros c Hc.
  rewrite forallb_forall in H. apply H. exact Hc.
Qed.

Lemma occurs_test (pat s : string) :
  (size s <? npos) = true -> find s pat 0 = npos ->
  forall pre post, s <> pre ++ pat ++ post.
Proof.
  intros Hsize Hfind pre post E. apply N.ltb_lt in Hsize. revert Hfind.
  unfold find. rewrite E. apply find_str_some; [lia|].
  rewrite E, size_append in Hsize. lia.
Qed.

Lemma plain_test (line : string) :
  (size line <? npos) = true ->
  hash_first line = false ->
  forallb (fun c => negb (Ascii.eqb dquote c)) (list_ascii_of_string line) = true ->
  find line "/*" 0 = npos ->
  plain line.
Proof.
  intros Hsize Hhash Hquote Hcomment.
  split; [apply N.ltb_lt; exact Hsize|]. split; [|split].
  - apply directive_test; assumption.
  - apply all_chars_test. exact Hquote.
  - apply occurs_test; assumption.
Qed.

End PlainLines.

(** X13.  A file of lines that hold no double quote, no start of a comment
    and no directive is handed out as it is: reading it to its end returns
    its lines in their order, each with its own line number in the file,
    without the lines that are blank or hold only a backslash. *)
Theorem plain_lines_are_read_back (name : string) (lines : list string)
        (st : FileBuffer.t) :
  Forall plain lines ->
  (let* opened := FileBuffer.open name lines st in
   read_all (S (List.length lines)) opened)
  = Ok (delivered name 0 lines).
Proof.
  intros Hplain. unfold FileBuffer.open, FileBuffer.fetchNextLine. cbv zeta.
  cbn [FileBuffer.set_buffer FileBuffer._file FileBuffer._sourcePosition
       FileBuffer._bufferPosition FileBuffer._inputPosition FileBuffer._buffer
       FileBuffer._currState FileBuffer._haveWrap FileBuffer.cout FileBuffer.resetVars].
  match goal with
  | |- context [FileBuffer.fetchLoop ?l ?ns ?s] =>
      destruct (fetchLoop_text name l Hplain ns s 0%Z eq_refl eq_refl eq_refl)
        as (st' & m & Hrun & Hc & Hs & Hp & Hf & Hcase)
  end.
  rewrite Hrun. cbn [bind].
  destruct (read_all_text name (S (List.length lines)) st' m Hc Hp Hf) as [Ha Hb].
  destruct Hcase as [(H1 & H2 & H3)|(H1 & H2 & H3)].
  - rewrite Ha by (repeat split; try assumption; lia). rewrite H3. reflexivity.
  - rewrite Hb by (split; [assumption|lia]). rewrite H2. reflexivity.
Qed.

(** Four lines, the second one blank and the third one continued. *)
Lemma plain_lines_are_read_back_witness :
  (let* opened := FileBuffer.open "a.c" ["int x;"; "  "; "y = 1 + \"; "2;"] FileBuffer.make in
   read_all 5 opened)
  = Ok [("int x;", FilePosition.mk "a.c" 1); ("y = 1 + \", FilePosition.mk "a.c" 3);
        ("2;", FilePosition.mk "a.c" 4)].
Proof.
  apply (plain_lines_are_read_back "a.c" ["int x;"; "  "; "y = 1 + \"; "2;"] FileBuffer.make).
  repeat constructor; apply plain_test; reflexivity.
Defined.

(** ** The searches for the quotes of a string literal *)

Section Quotes.
Import StdString.

(** The loop of [nextOpenQuote] and [nextCloseQuote], the test on the
    double quote found left open. *)
Fixpoint quote_loop (ok : N -> bool) (fuel : nat) (buffer : string) (pos : N) : N :=
  match fuel with
  | O => npos
  | S fuel' =>
      let pos := find_first_of buffer dquote pos in
      if pos =? npos then npos
      else if ok pos then pos
      else quote_loop ok fuel' buffer (pos + 1)
  end.

(** The double quote at [pos] opens a string literal: it is not between
    single quotes. *)
Definition opens (buffer : string) (pos : N) : bool :=
  ((pos =? 0) || negb (FileBuffer.char_is buffer (pos - 1) squote))
  && ((pos =? size buffer - 1) || negb (FileBuffer.char_is buffer (pos + 1) squote)).

(** The double quote at [pos] closes a string literal: no backslash is
    before it. *)
Definition closes_literal (buffer : string) (pos : N) : bool :=
  (pos =? 0) || negb (FileBuffer.char_is buffer (pos - 1) backslash).

Lemma nextOpenQuote_loop_quote_loop (fuel : nat) (buffer : string) (pos : N) :
  FileBuffer.nextOpenQuote_loop fuel buffer pos = quote_loop (opens buffer) fuel buffer pos.
Proof.
  revert pos. induction fuel as [|fuel IH]; intros pos; [reflexivity|].
  cbn [FileBuffer.nextOpenQuote_loop quote_loop]. cbv zeta. rewrite IH. reflexivity.
Qed.

Lemma nextCloseQuote_loop_quote_loop (fuel : nat) (buffer : string) (pos : N) :
  FileBuffer.nextCloseQuote_loop fuel buffer pos
  = quote_loop (closes_literal buffer) fuel buffer pos.
Proof.
  revert pos. induction fuel as [|fuel IH]; intros pos; [reflexivity|].
  cbn [FileBuffer.nextCloseQuote_loop quote_loop]. cbv zeta. rewrite IH. reflexivity.
Qed.

Lemma at_String_succ (c : ascii) (s : string) (j : N) :
  at_ (String c s) (N.succ j) = at_ s j.
Proof.
  unfold at_. rewrite size_String.
  destruct (N.ltb_spec j (size s)), (N.ltb_spec (N.succ j) (N.succ (size s))); try lia;
    [|reflexivity].
  rewrite N2Nat.inj_succ. reflexivity.
Qed.

(** [find_if_from] stops at the first character at or after [pos] that
    satisfies [p]. *)
Lemma find_if_first (p : ascii -> bool) (s : string) (i pos : N) :
  i + size s < npos ->
  let r := find_if_from p s i pos in
  (r = npos \/ (pos <= r /\ i <= r /\ r < i + size s
                /\ exists c, at_ s (r - i) = Some c /\ p c = true))
  /\ (forall j c, pos <= j -> i <= j -> j < r -> at_ s (j - i) = Some c -> p c = false).
Proof.
  revert i. induction s as [|c s IH]; intros i Hsize; cbv zeta.
  - split; [left; reflexivity|]. intros j c _ _ _ H.
    rewrite at_beyond in H by (change (size EmptyString) with 0; lia). discriminate H.
  - cbn [find_if_from]. rewrite size_String in Hsize |- *.
    destruct (N.leb_spec pos i) as [Hpos|Hpos]; cbn [andb].
    + destruct (p c) eqn:Hc.
      * split; [|intros; lia]. right. repeat split; try lia.
        exists c. rewrite N.sub_diag. split; [apply at_String_0|exact Hc].
      * destruct (IH (N.succ i)) as [IH1 IH2]; [lia|]. cbv zeta in IH1, IH2. split.
        -- destruct IH1 as [E|(H1 & H2 & H3 & x & Hx & Hp)]; [left; exact E|right].
           repeat split; try lia. exists x. split; [|exact Hp].
           replace (find_if_from p s (N.succ i) pos - i)
             with (N.succ (find_if_from p s (N.succ i) pos - N.succ i)) by lia.
           rewrite at_String_succ. exact Hx.
        -- intros j x Hj1 Hj2 Hj3 Hx. destruct (N.eq_dec j i) as [->|Hne].
           ++ rewrite N.sub_diag, at_String_0 in Hx. congruence.
           ++ apply (IH2 j x); try lia.
              replace (j - i) with (N.succ (j - N.succ i)) in Hx by lia.
              rewrite at_String_succ in Hx. exact Hx.
    + destruct (IH (N.succ i)) as [IH1 IH2]; [lia|]. cbv zeta in IH1, IH2. split.
      * destruct IH1 as [E|(H1 & H2 & H3 & x & Hx & Hp)]; [left; exact E|right].
        repeat split; try lia. exists x. split; [|exact Hp].
        replace (find_if_from p s (N.succ i) pos - i)
          with (N.succ (find_if_from p s (N.succ i) pos - N.succ i)) by lia.
        rewrite at_String_succ. exact Hx.
      * intros j x Hj1 Hj2 Hj3 Hx. destruct (N.eq_dec j i) as [->|Hne]; [lia|].
        apply (IH2 j x); try lia.
        replace (j - i) with (N.succ (j - N.succ i)) in Hx by lia.
        rewrite at_String_succ in Hx. exact Hx.
Qed.

(** A double quote that passes the test. *)
Definition quote_at (ok : N -> bool) (buffer : string) (j : N) : bool :=
  FileBuffer.char_is buffer j dquote && ok j.

Lemma quote_loop_first (ok : N -> bool) (buffer : string) (fuel : nat) :
  size buffer < npos ->
  forall pos,
    (N.to_nat (size buffer - pos) < fuel)%nat ->
    let r := quote_loop ok fuel buffer pos in
    (r = npos \/ (pos <= r /\ r < size buffer /\ quote_at ok buffer r = true))
    /\ (forall j, pos <= j -> j < r -> j < size buffer -> quote_at ok buffer j = false).
Proof.
  intros Hsize. induction fuel as [|fuel IH]; intros pos Hfuel; [lia|].
  cbn [quote_loop]. cbv zeta. unfold find_first_of.
  destruct (find_if_first (Ascii.eqb dquote) buffer 0 pos) as [H1 H2]; [lia|].
  cbv zeta in H1, H2. set (q := find_if_from (Ascii.eqb dquote) buffer 0 pos) in *.
  assert (Hnot : forall j, pos <= j -> j < q -> j < size buffer ->
                           quote_at ok buffer j = false).
  { intros j Hj1 Hj2 Hj3. unfold quote_at, FileBuffer.char_is.
    destruct (at_ buffer j) as [c|] eqn:Hc; [|reflexivity].
    specialize (H2 j c Hj1 (N.le_0_l j) Hj2). rewrite N.sub_0_r in H2.
    specialize (H2 Hc). rewrite Ascii.eqb_sym, H2. reflexivity. }
  destruct (N.eqb_spec q npos) as [Hq|Hq].
  - split; [left; reflexivity|]. intros j Hj1 _ Hj3. apply Hnot; [exact Hj1|lia|exact Hj3].
  - destruct H1 as [H1|(Hq1 & _ & Hq2 & c & Hc & Hp)]; [contradiction|].
    rewrite N.sub_0_r in Hc. rewrite N.add_0_l in Hq2.
    destruct (ok q) eqn:Hok.
    + split; [|exact Hnot]. right. repeat split; try assumption.
      unfold quote_at, FileBuffer.char_is. rewrite Hc, Ascii.eqb_sym, Hp, Hok. reflexivity.
    + destruct (IH (q + 1)) as [IH1 IH2]; [lia|]. cbv zeta in IH1, IH2. split.
      * destruct IH1 as [E|(E1 & E2 & E3)]; [left; exact E|right].
        repeat split; try assumption. lia.
      * intros j Hj1 Hj2 Hj3.
        destruct (N.lt_trichotomy j q) as [Hlt|[->|Hgt]].
        -- apply Hnot; assumption.
        -- unfold quote_at. rewrite Hok. apply andb_false_r.
        -- apply IH2; [lia|exact Hj2|exact Hj3].
Qed.

End Quotes.

(** X14.  [nextCloseQuote] returns the position of the first double quote
    at or after [startPos] that has no backslash before it, and
    [string::npos] when the line has none.  A double quote after two
    backslashes is passed over like one after a single backslash. *)
Theorem nextCloseQuote_first_unescaped (buffer : string) (startPos : N) :
  StdString.size buffer < StdString.npos ->
  let closing j := quote_at (closes_literal buffer) buffer j in
  let r := FileBuffer.nextCloseQuote buffer startPos in
  (r = StdString.npos
   \/ (startPos <= r /\ r < StdString.size buffer /\ closing r = true))
  /\ (forall j, startPos <= j -> j < r -> j < StdString.size buffer -> closing j = false).
Proof.
  intros Hsize. cbv zeta. unfold FileBuffer.nextCloseQuote.
  destruct (N.eqb_spec startPos StdString.npos) as [->|Hne].
  - split; [left; reflexivity|]. intros j Hj _ Hj'. lia.
  - rewrite nextCloseQuote_loop_quote_loop.
    apply (quote_loop_first (closes_literal buffer) buffer _ Hsize startPos).
    unfold StdString.size. lia.
Qed.

(** X15.  [nextOpenQuote] returns the position of the first double quote at
    or after [startPos] that has no single quote right before it and none
    right after it, and [string::npos] when the line has none.  So the
    double quote of a character literal is passed over, and so is one that
    starts a string literal whose first character is a single quote. *)
Theorem nextOpenQuote_first_outside_char_literal (buffer : string) (startPos : N) :
  StdString.size buffer < StdString.npos ->
  let opening j := quote_at (opens buffer) buffer j in
  let r := FileBuffer.nextOpenQuote buffer startPos in
  (r = StdString.npos
   \/ (startPos <= r /\ r < StdString.size buffer /\ opening r = true))
  /\ (forall j, startPos <= j -> j < r -> j < StdString.size buffer -> opening j = false).
Proof.
  intros Hsize. cbv zeta. unfold FileBuffer.nextOpenQuote.
  destruct (N.eqb_spec startPos StdString.npos) as [->|Hne].
  - split; [left; reflexivity|]. intros j Hj _ Hj'. lia.
  - rewrite nextOpenQuote_loop_quote_loop.
    apply (quote_loop_first (opens buffer) buffer _ Hsize startPos).
    unfold StdString.size. lia.
Qed.

(** An assignment of a string literal that holds an escaped double quote:
    the literal is at 4, the escaped double quote at 7, the closing one
    at 10. *)
Definition escaped_quote : string :=
  "s = " ++ String dquote ("a\" ++ String dquote (" b" ++ String dquote " + 'x';")).

Lemma nextCloseQuote_first_unescaped_witness :
  FileBuffer.nextCloseQuote escaped_quote 5 = 10
  /\ quote_at (closes_literal escaped_quote) escaped_quote 7 = false.
Proof.
  destruct (nextCloseQuote_first_unescaped escaped_quote 5) as [_ Hfirst];
    [reflexivity|].
  split; [reflexivity|]. apply (Hfirst 7); [discriminate|reflexivity|reflexivity].
Defined.

(** An assignment of the character literal of the double quote, which is
    at 5, and one of a string literal, which is at 13. *)
Definition quote_char : string :=
  "c = '" ++ String dquote ("'; s = " ++ String dquote ("a" ++ String dquote ";")).

Lemma nextOpenQuote_first_outside_char_literal_witness :
  FileBuffer.nextOpenQuote quote_char 0 = 13
  /\ quote_at (opens quote_char) quote_char 5 = false.
Proof.
  destruct (nextOpenQuote_first_outside_char_literal quote_char 0) as [_ Hfirst];
    [reflexivity|].
  split; [reflexivity|]. apply (Hfirst 5); [discriminate|reflexivity|reflexivity].
Defined.

(** ** Comments and string literals inside a line *)

Section InLine.
Import StdString.

Lemma substring_none (s : string) (n : nat) : String.substring n 0 s = EmptyString.
Proof.
  revert n. induction s as [|c s IH]; intros [|n]; cbn; try reflexivity. apply IH.
Qed.

Lemma substr_none (s : string) (pos : N) : substr s pos 0 = EmptyString.
Proof.
  unfold substr. destruct (pos <=? size s); [|reflexivity].
  rewrite N.min_0_l. apply substring_none.
Qed.

(** The passes of the inner loop of [fetchNextLine], one for each way a
    state is left. *)
Lemma scanStep_other_end (line : string) (e : N) (ns : FileBuffer.TextState)
      (st : FileBuffer.t) :
  FileBuffer._currState st = FileBuffer.other ->
  FileBuffer.nextOpenQuote line e = npos ->
  find line "/*" e = npos ->
  FileBuffer.scanStep line e ns st
  = Ok (npos, ns,
        FileBuffer.mk (FileBuffer._file st) (FileBuffer._sourcePosition st)
                      (FileBuffer._bufferPosition st) (FileBuffer._inputPosition st)
                      (FileBuffer._buffer st ++ substr line e npos) FileBuffer.other true
                      (FileBuffer.cout st)).
Proof.
  intros Hcur Hquote Hcomment. unfold FileBuffer.scanStep. cbv zeta.
  rewrite Hcur, Hquote, Hcomment.
  change (npos =? npos) with true. cbn [andb].
  cbn [FileBuffer.set_haveWrap FileBuffer._haveWrap FileBuffer._buffer FileBuffer.set_buffer
       FileBuffer._file FileBuffer._sourcePosition FileBuffer._bufferPosition
       FileBuffer._inputPosition FileBuffer._currState FileBuffer.cout bind negb].
  unfold FileBuffer.set_buffer, FileBuffer.set_haveWrap. cbn. rewrite Hcur.
  destruct (size line <=? npos); reflexivity.
Qed.

Lemma scanStep_other_comment (line : string) (e c : N) (ns : FileBuffer.TextState)
      (st : FileBuffer.t) :
  FileBuffer._currState st = FileBuffer.other ->
  FileBuffer.nextOpenQuote line e = npos ->
  find line "/*" e = c -> c <> npos -> c < size line -> e <= c ->
  FileBuffer.scanStep line e ns st
  = Ok (c, FileBuffer.comment,
        FileBuffer.mk (FileBuffer._file st) (FileBuffer._sourcePosition st)
                      (FileBuffer._bufferPosition st) (FileBuffer._inputPosition st)
                      (FileBuffer._buffer st ++ substr line e (c - e)) FileBuffer.comment
                      false (FileBuffer.cout st)).
Proof.
  intros Hcur Hquote Hcomment Hc Hsize He. unfold FileBuffer.scanStep. cbv zeta.
  rewrite Hcur, Hquote, Hcomment.
  change (npos =? npos) with true. cbn [andb orb].
  destruct (N.eqb_spec c npos) as [|_]; [contradiction|].
  cbn [FileBuffer.set_haveWrap FileBuffer._haveWrap FileBuffer._buffer FileBuffer.set_buffer
       FileBuffer._file FileBuffer._sourcePosition FileBuffer._bufferPosition
       FileBuffer._inputPosition FileBuffer._currState FileBuffer.cout bind negb].
  destruct (N.leb_spec (size line) c); [lia|].
  destruct (N.ltb_spec e c) as [Hlt|Hge].
  - reflexivity.
  - replace (c - e) with 0 by lia.
    rewrite substr_none, append_nil_r. destruct st. reflexivity.
Qed.

Lemma scanStep_comment_close (line : string) (e c : N) (ns : FileBuffer.TextState)
      (st : FileBuffer.t) :
  FileBuffer._currState st = FileBuffer.comment ->
  FileBuffer._haveWrap st = false ->
  find line "*/" (e + 2) = c -> c <> npos ->
  FileBuffer.scanStep line e ns st
  = Ok ((if size line <=? c + 2 then npos else c + 2), FileBuffer.other,
        FileBuffer.mk (FileBuffer._file st) (FileBuffer._sourcePosition st)
                      (FileBuffer._bufferPosition st) (FileBuffer._inputPosition st)
                      (FileBuffer._buffer st ++ " ") FileBuffer.other
                      false (FileBuffer.cout st)).
Proof.
  intros Hcur Hwrap Hcomment Hc. unfold FileBuffer.scanStep. cbv zeta.
  rewrite Hcur, Hwrap. cbn [negb]. rewrite Hcomment.
  destruct (N.eqb_spec c npos) as [|_]; [contradiction|].
  cbn [FileBuffer.set_haveWrap FileBuffer._haveWrap FileBuffer._buffer FileBuffer.set_buffer
       FileBuffer._file FileBuffer._sourcePosition FileBuffer._bufferPosition
       FileBuffer._inputPosition FileBuffer._currState FileBuffer.cout bind negb].
  reflexivity.
Qed.

Lemma find_if_none (p : ascii -> bool) (s : string) (i pos : N) :
  all_chars (fun c => negb (p c)) s -> find_if_from p s i pos = npos.
Proof.
  intros H. rewrite <- (append_nil_r s), find_if_pass by exact H. reflexivity.
Qed.

Lemma nextOpenQuote_no_quote (line : string) (e : N) :
  all_chars (fun c => negb (Ascii.eqb dquote c)) line ->
  FileBuffer.nextOpenQuote line e = npos.
Proof.
  intros Hno. unfold FileBuffer.nextOpenQuote. destruct (e =? npos); [reflexivity|].
  cbn [FileBuffer.nextOpenQuote_loop]. unfold find_first_of.
  rewrite find_if_none by exact Hno. reflexivity.
Qed.

Lemma find_str_skip (pat a s : string) (i pos : N) :
  i + size a <= pos ->
  find_str_from pat (a ++ s) i pos = find_str_from pat s (i + size a) pos.
Proof.
  revert i. induction a as [|c a IH]; intros i H.
  - rewrite append_Empty. change (size EmptyString) with 0. rewrite N.add_0_r. reflexivity.
  - rewrite append_String. rewrite size_String in *. cbn [find_str_from].
    destruct (N.leb_spec pos i); [lia|]. cbn [andb].
    rewrite IH by lia. f_equal. lia.
Qed.

(** The first place of a pattern of two different characters. *)
Lemma find_str_first (c1 c2 : ascii) (pre rest : string) (i pos : N) :
  c1 <> c2 ->
  (forall a b, pre <> a ++ String c1 (String c2 EmptyString) ++ b) ->
  pos <= i ->
  find_str_from (String c1 (String c2 EmptyString))
                (pre ++ String c1 (String c2 EmptyString) ++ rest) i pos
  = i + size pre.
Proof.
  intros Hne. revert i. induction pre as [|c pre IH]; intros i Hno Hpos.
  - rewrite append_Empty. change (size EmptyString) with 0. rewrite N.add_0_r.
    pose proof (prefix_here (String c1 (String c2 EmptyString)) rest) as Hp.
    rewrite !append_String, append_Empty in Hp |- *. cbn [find_str_from].
    rewrite Hp. destruct (N.leb_spec pos i); [reflexivity|lia].
  - rewrite append_String, size_String. cbn [find_str_from].
    destruct (String.prefix (String c1 (String c2 EmptyString))
                            (String c (pre ++ String c1 (String c2 EmptyString) ++ rest)))
      eqn:Hp.
    + exfalso. apply prefix_append in Hp as [post Hp].
      rewrite !append_String, append_Empty in Hp. injection Hp as -> Hp.
      destruct pre as [|d pre].
      * rewrite ?append_Empty, ?append_String in Hp. injection Hp as Hp _. congruence.
      * rewrite ?append_String in Hp. injection Hp as -> _.
        apply (Hno EmptyString pre). rewrite ?append_Empty, ?append_String, ?append_Empty.
        reflexivity.
    + rewrite andb_false_r. rewrite IH; [lia| |lia].
      intros a b E. apply (Hno (String c a) b). rewrite append_String, E. reflexivity.
Qed.

Lemma substr_prefix (pre rest : string) : substr (pre ++ rest) 0 (size pre) = pre.
Proof.
  pose proof (substr_middle EmptyString pre rest) as H.
  rewrite append_Empty in H. exact H.
Qed.

Lemma substr_suffix (pre post : string) :
  size (pre ++ post) <= npos -> substr (pre ++ post) (size pre) npos = post.
Proof.
  intros Hsize. pose proof (substr_middle pre post EmptyString) as H.
  rewrite append_nil_r in H. rewrite <- H at 2.
  rewrite size_append in Hsize. unfold substr. rewrite size_append.
  destruct (size pre <=? size pre + size post); [|reflexivity].
  f_equal. f_equal. lia.
Qed.

(** A line with one comment, read outside comments and string literals
    into the empty buffer. *)
Lemma processLine_comment (pre body post : string) (ns : FileBuffer.TextState)
      (st : FileBuffer.t) :
  let line := pre ++ "/*" ++ body ++ "*/" ++ post in
  size line < npos ->
  ~ directive line ->
  all_chars (fun c => negb (Ascii.eqb dquote c)) line ->
  (forall a b, pre <> a ++ "/*" ++ b) ->
  (forall a b, body <> a ++ "*/" ++ b) ->
  (forall a b, post <> a ++ "/*" ++ b) ->
  FileBuffer._currState st = FileBuffer.other ->
  FileBuffer._buffer st = EmptyString ->
  exists ns' st',
    FileBuffer.processLine line ns st = Ok (ns', st')
    /\ FileBuffer._file st' = FileBuffer._file st
    /\ FileBuffer._currState st' = FileBuffer.other
    /\ FileBuffer._buffer st'
       = if has_text (pre ++ " " ++ post) then pre ++ " " ++ post else EmptyString.
Proof.
  intros line Hsize Hdir Hquote Hpre Hbody Hpost Hcur Hbuf.
  assert (Hlen : size line = size pre + 2 + size body + 2 + size post).
  { unfold line. rewrite !size_append. change (size "/*") with 2.
    change (size "*/") with 2. lia. }
  unfold FileBuffer.processLine. cbv zeta.
  pose proof (hash_first_false line Hdir) as Hh.
  unfold hash_first in Hh. cbv zeta in Hh. rewrite Hh.
  set (st0 := FileBuffer.set_inputPosition _ _).
  assert (Hst0 : (if FileBuffer.TextState_eqb (FileBuffer._currState st0) FileBuffer.other
                  then st0 else st0) = st0) by (destruct (FileBuffer.TextState_eqb _ _); reflexivity).
  rewrite Hst0.
  assert (Hfuel : exists k, (2 * String.length line + 2 = S (S (S (S k))))%nat).
  { exists (2 * String.length line - 2)%nat. unfold size in Hlen. lia. }
  destruct Hfuel as [k ->].
  (* the text before the comment *)
  cbn [FileBuffer.scanLine]. change (0 =? npos) with false. cbv iota.
  rewrite (scanStep_other_comment line 0 (size pre) ns st0 Hcur
             (nextOpenQuote_no_quote line 0 Hquote));
    [|unfold find, line; rewrite find_str_first; [lia|discriminate|exact Hpre|lia]
     |lia|lia|lia].
  cbn [bind].
  destruct (N.eqb_spec (size pre) npos) as [|_]; [lia|].
  (* the comment *)
  match goal with
  | |- context [FileBuffer.scanStep line (size pre) ?n ?s] =>
      rewrite (scanStep_comment_close line (size pre) (size pre + 2 + size body) n s
                 eq_refl eq_refl)
  end;
    [| unfold find, line;
       replace (pre ++ "/*" ++ body ++ "*/" ++ post)
         with ((pre ++ "/*") ++ body ++ "*/" ++ post) by (rewrite append_assoc; reflexivity);
       rewrite find_str_skip by (rewrite size_append; change (size "/*") with 2; lia);
       rewrite find_str_first; [rewrite size_append; change (size "/*") with 2; lia
                               |discriminate|exact Hbody
                               |rewrite size_append; change (size "/*") with 2; lia]
     | lia].
  cbn [bind].
  cbn [FileBuffer._buffer FileBuffer._file FileBuffer._sourcePosition
       FileBuffer._bufferPosition FileBuffer._inputPosition FileBuffer.cout].
  subst st0.
  cbn [FileBuffer._buffer FileBuffer.set_inputPosition FileBuffer.set_bufferPosition
       FileBuffer._file FileBuffer._sourcePosition FileBuffer._bufferPosition
       FileBuffer._inputPosition FileBuffer.cout].
  rewrite Hbuf, N.sub_0_r, append_Empty.
  replace (substr line 0 (size pre)) with pre by (unfold line; rewrite substr_prefix; reflexivity).
  destruct (N.leb_spec (size line) (size pre + 2 + size body + 2)) as [Hend|Hmore].
  - (* nothing after the comment *)
    assert (post = EmptyString) as ->.
    { destruct post; [reflexivity|]. rewrite size_String in Hlen. lia. }
    change (npos =? npos) with true. cbv iota. cbn [bind].
    cbn [FileBuffer._buffer FileBuffer._haveWrap FileBuffer._currState negb orb andb
         FileBuffer.TextState_eqb].
    rewrite andb_true_r.
    assert (Hs : size (pre ++ " ") < npos).
    { rewrite size_append. change (size " ") with 1. lia. }
    rewrite (drop_test _ Hs).
    do 2 eexists. split; [reflexivity|].
    rewrite !append_nil_r. destruct (has_text (pre ++ " ")); repeat split.
  - (* the text after the comment *)
    destruct (N.eqb_spec (size pre + 2 + size body + 2) npos) as [|_]; [lia|].
    match goal with
    | |- context [FileBuffer.scanStep line ?e ?n ?s] =>
        rewrite (scanStep_other_end line e n s eq_refl (nextOpenQuote_no_quote line e Hquote))
    end.
    2:{ unfold find, line.
        replace (pre ++ "/*" ++ body ++ "*/" ++ post)
          with ((pre ++ "/*" ++ body ++ "*/") ++ post)
          by (rewrite !append_assoc; reflexivity).
        rewrite find_str_skip
          by (rewrite !size_append; change (size "/*") with 2; change (size "*/") with 2; lia).
        apply find_str_none. exact Hpost. }
    cbn [bind]. destruct k; cbn [FileBuffer.scanLine]; change (npos =? npos) with true;
      cbv iota; cbn [bind];
      cbn [FileBuffer._buffer FileBuffer._haveWrap FileBuffer._currState negb orb andb
           FileBuffer.TextState_eqb FileBuffer._file FileBuffer._sourcePosition
           FileBuffer._bufferPosition FileBuffer._inputPosition FileBuffer.cout];
      rewrite andb_true_r;
      replace (substr line (size pre + 2 + size body + 2) npos) with post
        by (unfold line;
            replace (pre ++ "/*" ++ body ++ "*/" ++ post)
              with ((pre ++ "/*" ++ body ++ "*/") ++ post)
              by (rewrite !append_assoc; reflexivity);
            replace (size pre + 2 + size body + 2) with (size (pre ++ "/*" ++ body ++ "*/"))
              by (rewrite !size_append; change (size "/*") with 2;
                  change (size "*/") with 2; lia);
            rewrite substr_suffix; [reflexivity|];
            rewrite !append_assoc; fold line; lia);
      rewrite append_assoc;
      (assert (Hs : size (pre ++ " " ++ post) < npos)
        by (rewrite !size_append; change (size " ") with 1; lia));
      rewrite (drop_test _ Hs);
      do 2 eexists; (split; [reflexivity|]);
      destruct (has_text (pre ++ " " ++ post)); repeat split.
Qed.

End InLine.

(** X16.  A comment inside a line is handed out as one space: when the
    next line of the file is text, a comment and text, without double
    quotes, further comments or a leading hash, [fetchNextLine] fills the
    buffer with the text before the comment, a space, and the text after
    it. *)
Theorem comment_becomes_one_space (pre body post : string) (rest : list string)
        (st : FileBuffer.t) :
  let line := pre ++ "/*" ++ body ++ "*/" ++ post in
  StdString.size line < StdString.npos ->
  ~ directive line ->
  all_chars (fun c => negb (Ascii.eqb dquote c)) line ->
  (forall a b, pre <> a ++ "/*" ++ b) ->
  (forall a b, body <> a ++ "*/" ++ b) ->
  (forall a b, post <> a ++ "/*" ++ b) ->
  has_text (pre ++ " " ++ post) = true ->
  FileBuffer._currState st = FileBuffer.other ->
  FileBuffer._file st = line :: rest ->
  exists st',
    FileBuffer.fetchNextLine st = Ok st'
    /\ FileBuffer._buffer st' = pre ++ " " ++ post
    /\ FileBuffer._file st' = rest
    /\ FileBuffer._currState st' = FileBuffer.other.
Proof.
  cbv zeta. intros Hsize Hdir Hquote Hpre Hbody Hpost Htext Hcur Hfile.
  unfold FileBuffer.fetchNextLine. rewrite Hfile, fetchLoop_empty by reflexivity.
  destruct (processLine_comment pre body post FileBuffer.other
              (FileBuffer.set_file (FileBuffer.set_buffer st EmptyString) rest)
              Hsize Hdir Hquote Hpre Hbody Hpost Hcur eq_refl)
    as (ns' & st' & Hrun & Hf & Hc & Hb).
  rewrite Hrun. cbn [bind]. rewrite Htext in Hb.
  exists st'. rewrite fetchLoop_full; [|rewrite Hb|exact Hf].
  - repeat split; assumption.
  - apply has_text_nonempty. exact Htext.
Qed.

(** A declaration, a comment and a declaration in one line. *)
Lemma comment_becomes_one_space_witness :
  exists st',
    FileBuffer.fetchNextLine
      (FileBuffer.mk ["int x; /* count */ int y;"; "int z;"]
                     (FilePosition.mk "a.c" 0) (FilePosition.mk "a.c" 0)
                     (FilePosition.mk "a.c" 0) "" FileBuffer.other false [])
    = Ok st'
    /\ FileBuffer._buffer st' = "int x;   int y;"
    /\ FileBuffer._file st' = ["int z;"]
    /\ FileBuffer._currState st' = FileBuffer.other.
Proof.
  apply (comment_becomes_one_space "int x; " " count " " int y;" ["int z;"]).
  - reflexivity.
  - apply directive_test; reflexivity.
  - apply all_chars_test. reflexivity.
  - apply occurs_test; reflexivity.
  - apply occurs_test; reflexivity.
  - apply occurs_test; reflexivity.
  - reflexivity.
  - reflexivity.
  - reflexivity.
Defined.

Section Literal.
Import StdString.

Lemma scanStep_other_quote (line : string) (e q : N) (ns : FileBuffer.TextState)
      (st : FileBuffer.t) :
  FileBuffer._currState st = FileBuffer.other ->
  FileBuffer.nextOpenQuote line e = q -> q <> npos -> q < size line -> e <= q ->
  (find line "/*" e <? q) = false ->
  FileBuffer.scanStep line e ns st
  = Ok (q, FileBuffer.quote,
        FileBuffer.mk (FileBuffer._file st) (FileBuffer._sourcePosition st)
                      (FileBuffer._bufferPosition st) (FileBuffer._inputPosition st)
                      (FileBuffer._buffer st ++ substr line e (q - e)) FileBuffer.quote
                      false (FileBuffer.cout st)).
Proof.
  intros Hcur Hquote Hq Hsize He Hcomment. unfold FileBuffer.scanStep. cbv zeta.
  rewrite Hcur, Hquote, Hcomment.
  destruct (N.eqb_spec q npos) as [|_]; [contradiction|]. cbn [andb orb].
  cbn [FileBuffer.set_haveWrap FileBuffer._haveWrap FileBuffer._buffer FileBuffer.set_buffer
       FileBuffer._file FileBuffer._sourcePosition FileBuffer._bufferPosition
       FileBuffer._inputPosition FileBuffer._currState FileBuffer.cout bind negb].
  destruct (N.leb_spec (size line) q); [lia|].
  destruct (N.ltb_spec e q) as [Hlt|Hge].
  - reflexivity.
  - replace (q - e) with 0 by lia.
    rewrite substr_none, append_nil_r. destruct st. reflexivity.
Qed.

Lemma scanStep_quote_close (line : string) (e c : N) (ns : FileBuffer.TextState)
      (st : FileBuffer.t) :
  FileBuffer._currState st = FileBuffer.quote ->
  FileBuffer._haveWrap st = false ->
  FileBuffer.nextCloseQuote line (e + 1) = c -> c <> npos ->
  FileBuffer.scanStep line e ns st
  = Ok ((if size line <=? c + 1 then npos else c + 1), FileBuffer.other,
        FileBuffer.mk (FileBuffer._file st) (FileBuffer._sourcePosition st)
                      (FileBuffer._bufferPosition st) (FileBuffer._inputPosition st)
                      (FileBuffer._buffer st ++ substr line e (c + 1 - e)) FileBuffer.other
                      false (FileBuffer.cout st)).
Proof.
  intros Hcur Hwrap Hclose Hc. unfold FileBuffer.scanStep. cbv zeta.
  rewrite Hcur, Hwrap. cbn [negb]. rewrite Hclose.
  destruct (N.eqb_spec c npos) as [|_]; [contradiction|].
  cbn [FileBuffer.set_haveWrap FileBuffer._haveWrap FileBuffer._buffer FileBuffer.set_buffer
       FileBuffer._file FileBuffer._sourcePosition FileBuffer._bufferPosition
       FileBuffer._inputPosition FileBuffer._currState FileBuffer.cout bind negb].
  reflexivity.
Qed.

(** The last character of a string. *)
Definition ends_with (c : ascii) (s : string) : Prop := exists a, s = a ++ String c EmptyString.

Definition starts_with (c : ascii) (s : string) : Prop := exists b, s = String c b.

Lemma string_snoc_cases (s : string) :
  s = EmptyString \/ exists a x, s = a ++ String x EmptyString.
Proof.
  induction s as [|a x _] using string_snoc_ind; [left; reflexivity|right].
  exists a, x. reflexivity.
Qed.

Lemma char_before (pre rest : string) (c : ascii) :
  ~ ends_with c pre ->
  (size pre =? 0) || negb (FileBuffer.char_is (pre ++ rest) (size pre - 1) c) = true.
Proof.
  intros Hno. destruct (string_snoc_cases pre) as [->|(a & x & ->)]; [reflexivity|].
  rewrite size_append. change (size (String x EmptyString)) with 1.
  replace (size a + 1 - 1) with (size a) by lia.
  rewrite append_assoc, append_String, append_Empty.
  unfold FileBuffer.char_is. rewrite at_app_here.
  destruct (Ascii.eqb_spec x c) as [->|]; [|apply orb_true_r].
  exfalso. apply Hno. exists a. reflexivity.
Qed.

Lemma char_after (pre rest : string) (c : ascii) :
  ~ starts_with c rest ->
  negb (FileBuffer.char_is (pre ++ rest) (size pre) c) = true.
Proof.
  intros Hno. unfold FileBuffer.char_is. destruct rest as [|x rest].
  - rewrite at_beyond by (rewrite append_nil_r; lia). reflexivity.
  - rewrite at_app_here. destruct (Ascii.eqb_spec x c) as [->|]; [|reflexivity].
    exfalso. apply Hno. exists rest. reflexivity.
Qed.

(** A pattern of two characters does not start in a text that does not hold
    it, when the character after the text is not its second one. *)
Lemma find_str_after (c1 c2 x : ascii) (pre rest : string) (i pos : N) :
  c2 <> x ->
  (forall a b, pre <> a ++ String c1 (String c2 EmptyString) ++ b) ->
  find_str_from (String c1 (String c2 EmptyString)) (pre ++ String x rest) i pos
  = find_str_from (String c1 (String c2 EmptyString)) (String x rest) (i + size pre) pos.
Proof.
  intros Hne. revert i. induction pre as [|c pre IH]; intros i Hno.
  - rewrite append_Empty. change (size EmptyString) with 0. rewrite N.add_0_r. reflexivity.
  - rewrite append_String, size_String.
    cbn [find_str_from].
    destruct (String.prefix (String c1 (String c2 EmptyString))
                            (String c (pre ++ String x rest))) eqn:Hp.
    + exfalso. apply prefix_append in Hp as [post Hp].
      rewrite ?append_String, ?append_Empty in Hp. injection Hp as -> Hp.
      destruct pre as [|d pre].
      * rewrite ?append_Empty in Hp. injection Hp as Hp _. congruence.
      * rewrite ?append_String in Hp. injection Hp as -> _.
        apply (Hno EmptyString pre). rewrite ?append_Empty, ?append_String, ?append_Empty.
        reflexivity.
    + rewrite andb_false_r.
      replace (i + N.succ (size pre)) with (N.succ i + size pre) by lia. apply IH.
      intros a b E. apply (Hno (String c a) b). rewrite append_String, E. reflexivity.
Qed.

Lemma quote_has_text (pre rest : string) :
  has_text (pre ++ String dquote rest) = true.
Proof.
  unfold has_text. rewrite list_ascii_of_string_append. cbn [list_ascii_of_string].
  induction (list_ascii_of_string pre) as [|c l IH]; cbn [app drop_while].
  - reflexivity.
  - destruct (is_blank c); [exact IH|].
    replace (forallb is_blank (l ++ dquote :: list_ascii_of_string rest)) with false;
      [rewrite andb_false_r; reflexivity|].
    symmetry. rewrite forallb_app. cbn. apply andb_false_r.
Qed.

Lemma find_str_from_ge (pat s : string) (i pos : N) :
  find_str_from pat s i pos = npos \/ i <= find_str_from pat s i pos.
Proof.
  revert i. induction s as [|c s IH]; intros i; cbn [find_str_from].
  - destruct (_ && _); [right; lia|left; reflexivity].
  - destruct (_ && _); [right; lia|].
    destruct (IH (N.succ i)) as [E|E]; [left; exact E|right; lia].
Qed.

Lemma snoc_app (a : string) (x : ascii) (b : string) :
  (a ++ String x EmptyString) ++ b = a ++ String x b.
Proof. rewrite append_assoc, append_String, append_Empty. reflexivity. Qed.

Lemma size_snoc (a : string) (x : ascii) : size (a ++ String x EmptyString) = size a + 1.
Proof. rewrite size_append. reflexivity. Qed.

Lemma ends_with_test (c : ascii) (s : string) :
  match backwards s with
  | x :: _ => Ascii.eqb x c
  | [] => false
  end = false ->
  ~ ends_with c s.
Proof.
  intros H [a ->]. rewrite backwards_snoc, Ascii.eqb_refl in H. discriminate H.
Qed.

Lemma starts_with_test (c : ascii) (s : string) :
  match s with
  | String x _ => Ascii.eqb x c
  | EmptyString => false
  end = false ->
  ~ starts_with c s.
Proof.
  intros H [b ->]. rewrite Ascii.eqb_refl in H. discriminate H.
Qed.

Section Line.

Variables pre body post : string.

Let line : string := pre ++ String dquote (body ++ String dquote post).

Hypothesis Hsize : size line < npos.
Hypothesis Hpre_quote : all_chars (fun c => negb (Ascii.eqb dquote c)) pre.
Hypothesis Hbody_quote : all_chars (fun c => negb (Ascii.eqb dquote c)) body.
Hypothesis Hpost_quote : all_chars (fun c => negb (Ascii.eqb dquote c)) post.
Hypothesis Hpre_comment : forall a b, pre <> a ++ "/*" ++ b.
Hypothesis Hpost_comment : forall a b, post <> a ++ "/*" ++ b.
Hypothesis Hpre_char : ~ ends_with squote pre.
Hypothesis Hbody_char : ~ starts_with squote body.
Hypothesis Hbody_escape : ~ ends_with backslash body.

Lemma literal_size : size line = size pre + 1 + size body + 1 + size post.
Proof. unfold line. rewrite size_append, size_String, size_append, size_String. lia. Qed.

Lemma literal_open : FileBuffer.nextOpenQuote line 0 = size pre.
Proof.
  pose proof literal_size as Hlen.
  unfold FileBuffer.nextOpenQuote. change (0 =? npos) with false. cbv iota.
  cbn [FileBuffer.nextOpenQuote_loop]. unfold find_first_of.
  pose proof (find_hit (Ascii.eqb dquote) EmptyString pre (body ++ String dquote post) dquote
                       Hpre_quote eq_refl) as E.
  rewrite append_Empty in E. change (size EmptyString) with 0 in E. rewrite N.add_0_l in E.
  fold line in E. rewrite E.
  destruct (N.eqb_spec (size pre) npos); [lia|].
  pose proof (char_before pre (String dquote (body ++ String dquote post)) squote Hpre_char)
    as H1. fold line in H1. rewrite H1. cbn [andb].
  assert (H2 : negb (FileBuffer.char_is line (size pre + 1) squote) = true).
  { pose proof (char_after (pre ++ String dquote EmptyString) (body ++ String dquote post)
                           squote) as H.
    rewrite snoc_app, size_snoc in H. apply H. intros [b Hb].
    destruct body as [|x body']; [discriminate Hb|].
    rewrite append_String in Hb. injection Hb as -> _.
    apply Hbody_char. exists body'. reflexivity. }
  rewrite H2, orb_true_r. reflexivity.
Qed.

Lemma literal_no_comment : (find line "/*" 0 <? size pre) = false.
Proof.
  pose proof literal_size as Hlen.
  unfold find, line. rewrite find_str_after; [|discriminate|exact Hpre_comment].
  apply N.ltb_ge. rewrite N.add_0_l.
  destruct (find_str_from_ge "/*" (String dquote (body ++ String dquote post)) (size pre) 0)
    as [E|E]; [rewrite E; lia|exact E].
Qed.

Lemma literal_close :
  FileBuffer.nextCloseQuote line (size pre + 1) = size pre + 1 + size body.
Proof.
  pose proof literal_size as Hlen.
  unfold FileBuffer.nextCloseQuote.
  destruct (N.eqb_spec (size pre + 1) npos); [lia|].
  cbn [FileBuffer.nextCloseQuote_loop]. unfold find_first_of.
  pose proof (find_hit (Ascii.eqb dquote) (pre ++ String dquote EmptyString) body post dquote
                       Hbody_quote eq_refl) as E.
  rewrite snoc_app, size_snoc in E. fold line in E. rewrite E.
  destruct (N.eqb_spec (size pre + 1 + size body) npos); [lia|].
  assert (H1 : (size pre + 1 + size body =? 0)
               || negb (FileBuffer.char_is line (size pre + 1 + size body - 1) backslash)
               = true).
  { pose proof (char_before (pre ++ String dquote body) (String dquote post) backslash) as H.
    rewrite size_append, size_String in H.
    replace (size pre + N.succ (size body)) with (size pre + 1 + size body) in H by lia.
    rewrite append_assoc, append_String in H. apply H. intros [a Ha].
    destruct (string_snoc_cases body) as [->|(b & x & ->)].
    - apply (f_equal backwards) in Ha. rewrite !backwards_snoc in Ha.
      injection Ha as Ha _. discriminate Ha.
    - rewrite <- append_String, <- append_assoc in Ha.
      apply (f_equal backwards) in Ha. rewrite !backwards_snoc in Ha.
      injection Ha as -> _. apply Hbody_escape. exists b. reflexivity. }
  rewrite H1. reflexivity.
Qed.

Lemma literal_tail_quote :
  FileBuffer.nextOpenQuote line (size pre + 1 + size body + 1) = npos.
Proof.
  pose proof literal_size as Hlen.
  unfold FileBuffer.nextOpenQuote.
  destruct (N.eqb_spec (size pre + 1 + size body + 1) npos); [lia|].
  cbn [FileBuffer.nextOpenQuote_loop]. unfold find_first_of.
  replace line with ((pre ++ String dquote (body ++ String dquote EmptyString)) ++ post)
    by (unfold line; rewrite append_assoc, append_String, append_assoc, append_String,
          append_Empty; reflexivity).
  rewrite find_if_skip
    by (rewrite size_append, size_String, size_append, size_String;
        change (size EmptyString) with 0; lia).
  rewrite find_if_none by exact Hpost_quote. reflexivity.
Qed.

Lemma literal_tail_comment : find line "/*" (size pre + 1 + size body + 1) = npos.
Proof.
  unfold find.
  replace line with ((pre ++ String dquote (body ++ String dquote EmptyString)) ++ post)
    by (unfold line; rewrite append_assoc, append_String, append_assoc, append_String,
          append_Empty; reflexivity).
  rewrite find_str_skip
    by (rewrite size_append, size_String, size_append, size_String;
        change (size EmptyString) with 0; lia).
  apply find_str_none. exact Hpost_comment.
Qed.

Lemma literal_text :
  substr line (size pre) (size pre + 1 + size body + 1 - size pre)
  = String dquote (body ++ String dquote EmptyString).
Proof.
  pose proof (substr_middle pre (String dquote (body ++ String dquote EmptyString)) post) as H.
  rewrite append_String, append_assoc, append_String, append_Empty in H. fold line in H.
  etransitivity; [|exact H]. f_equal. rewrite size_String, size_append, size_String.
  change (size EmptyString) with 0. lia.
Qed.

Lemma literal_tail :
  substr line (size pre + 1 + size body + 1) npos = post.
Proof.
  pose proof literal_size as Hlen.
  pose proof (substr_suffix (pre ++ String dquote (body ++ String dquote EmptyString)) post)
    as H.
  rewrite append_assoc, append_String, append_assoc, append_String, append_Empty in H.
  fold line in H.
  rewrite size_append, size_String, size_append, size_String in H.
  change (size EmptyString) with 0 in H.
  replace (size pre + N.succ (size body + N.succ 0)) with (size pre + 1 + size body + 1)
    in H by lia.
  apply H. lia.
Qed.

(** A line with one string literal, read outside comments and string
    literals into the empty buffer. *)
Lemma processLine_literal (ns : FileBuffer.TextState) (st : FileBuffer.t) :
  ~ directive line ->
  FileBuffer._currState st = FileBuffer.other ->
  FileBuffer._buffer st = EmptyString ->
  exists ns' st',
    FileBuffer.processLine line ns st = Ok (ns', st')
    /\ FileBuffer._file st' = FileBuffer._file st
    /\ FileBuffer._currState st' = FileBuffer.other
    /\ FileBuffer._buffer st' = line.
Proof.
  intros Hdir Hcur Hbuf. pose proof literal_size as Hlen.
  unfold FileBuffer.processLine. cbv zeta.
  pose proof (hash_first_false line Hdir) as Hh.
  unfold hash_first in Hh. cbv zeta in Hh. rewrite Hh.
  set (st0 := FileBuffer.set_inputPosition _ _).
  assert (Hst0 : (if FileBuffer.TextState_eqb (FileBuffer._currState st0) FileBuffer.other
                  then st0 else st0) = st0) by (destruct (FileBuffer.TextState_eqb _ _); reflexivity).
  rewrite Hst0.
  assert (Hfuel : exists k, (2 * String.length line + 2 = S (S (S (S k))))%nat).
  { exists (2 * String.length line - 2)%nat. unfold size in Hlen. lia. }
  destruct Hfuel as [k ->].
  (* the text before the literal *)
  cbn [FileBuffer.scanLine]. change (0 =? npos) with false. cbv iota.
  rewrite (scanStep_other_quote line 0 (size pre) ns st0 Hcur literal_open);
    [|lia|lia|lia|exact literal_no_comment].
  cbn [bind].
  destruct (N.eqb_spec (size pre) npos) as [|_]; [lia|].
  (* the literal *)
  match goal with
  | |- context [FileBuffer.scanStep line (size pre) ?n ?s] =>
      rewrite (scanStep_quote_close line (size pre) (size pre + 1 + size body) n s
                 eq_refl eq_refl literal_close)
  end; [|lia].
  cbn [bind].
  cbn [FileBuffer._buffer FileBuffer._file FileBuffer._sourcePosition
       FileBuffer._bufferPosition FileBuffer._inputPosition FileBuffer.cout].
  subst st0.
  cbn [FileBuffer._buffer FileBuffer.set_inputPosition FileBuffer.set_bufferPosition
       FileBuffer._file FileBuffer._sourcePosition FileBuffer._bufferPosition
       FileBuffer._inputPosition FileBuffer.cout].
  rewrite Hbuf, N.sub_0_r, append_Empty, literal_text.
  replace (substr line 0 (size pre)) with pre by (unfold line; rewrite substr_prefix; reflexivity).
  assert (Htext : forall t, has_text (pre ++ String dquote t) = true)
    by (intros t; apply quote_has_text).
  destruct (N.leb_spec (size line) (size pre + 1 + size body + 1)) as [Hend|Hmore].
  - (* nothing after the literal *)
    assert (Hpost : post = EmptyString).
    { destruct post; [reflexivity|]. rewrite size_String in Hlen. lia. }
    change (npos =? npos) with true. cbv iota. cbn [bind].
    cbn [FileBuffer._buffer FileBuffer._haveWrap FileBuffer._currState negb orb andb
         FileBuffer.TextState_eqb].
    rewrite andb_true_r.
    assert (Hl : pre ++ String dquote (body ++ String dquote EmptyString) = line)
      by (unfold line; rewrite Hpost; reflexivity).
    rewrite Hl, (drop_test _ Hsize). unfold line at 1. rewrite Htext. cbn [negb].
    do 2 eexists. split; [reflexivity|]. repeat split.
  - (* the text after the literal *)
    destruct (N.eqb_spec (size pre + 1 + size body + 1) npos) as [|_]; [lia|].
    match goal with
    | |- context [FileBuffer.scanStep line ?e ?n ?s] =>
        rewrite (scanStep_other_end line e n s eq_refl literal_tail_quote
                                    literal_tail_comment)
    end.
    cbn [bind]. rewrite literal_tail.
    assert (Hl : (pre ++ String dquote (body ++ String dquote EmptyString)) ++ post = line)
      by (unfold line; rewrite append_assoc, append_String, append_assoc, append_String,
            append_Empty; reflexivity).
    destruct k; cbn [FileBuffer.scanLine]; change (npos =? npos) with true;
      cbv iota; cbn [bind];
      cbn [FileBuffer._buffer FileBuffer._haveWrap FileBuffer._currState negb orb andb
           FileBuffer.TextState_eqb FileBuffer._file FileBuffer._sourcePosition
           FileBuffer._bufferPosition FileBuffer._inputPosition FileBuffer.cout];
      rewrite andb_true_r, Hl, (drop_test _ Hsize); unfold line at 1; rewrite Htext;
      cbn [negb]; do 2 eexists; (split; [reflexivity|]); repeat split.
Qed.

End Line.

End Literal.

(** X17.  A string literal is handed out as it is written, a start of a
    comment inside it included: when the next line of the file is text, a
    string literal and text, [fetchNextLine] fills the buffer with the
    whole line.  The text before and after the literal holds no double
    quote and no start of a comment; the literal holds no double quote, does
    not start with a single quote or end with a backslash, and no single
    quote is right before it. *)
Theorem string_literal_is_kept (pre body post : string) (rest : list string)
        (st : FileBuffer.t) :
  let line := pre ++ String dquote (body ++ String dquote post) in
  StdString.size line < StdString.npos ->
  ~ directive line ->
  all_chars (fun c => negb (Ascii.eqb dquote c)) pre ->
  all_chars (fun c => negb (Ascii.eqb dquote c)) body ->
  all_chars (fun c => negb (Ascii.eqb dquote c)) post ->
  (forall a b, pre <> a ++ "/*" ++ b) ->
  (forall a b, post <> a ++ "/*" ++ b) ->
  ~ ends_with squote pre ->
  ~ starts_with squote body ->
  ~ ends_with backslash body ->
  FileBuffer._currState st = FileBuffer.other ->
  FileBuffer._file st = line :: rest ->
  exists st',
    FileBuffer.fetchNextLine st = Ok st'
    /\ FileBuffer._buffer st' = line
    /\ FileBuffer._file st' = rest
    /\ FileBuffer._currState st' = FileBuffer.other.
Proof.
  cbv zeta. intros Hsize Hdir H1 H2 H3 H4 H5 H6 H7 H8 Hcur Hfile.
  unfold FileBuffer.fetchNextLine. rewrite Hfile, fetchLoop_empty by reflexivity.
  destruct (processLine_literal pre body post Hsize H1 H2 H3 H4 H5 H6 H7 H8 FileBuffer.other
              (FileBuffer.set_file (FileBuffer.set_buffer st EmptyString) rest)
              Hdir Hcur eq_refl)
    as (ns' & st' & Hrun & Hf & Hc & Hb).
  rewrite Hrun. cbn [bind].
  exists st'. rewrite fetchLoop_full; [|rewrite Hb|exact Hf].
  - repeat split; assumption.
  - intros E. apply (f_equal StdString.size) in E.
    rewrite size_append, size_String in E. change (StdString.size EmptyString) with 0 in E. lia.
Qed.

(** An assignment of a string literal that holds the start of a comment. *)
Lemma string_literal_is_kept_witness :
  exists st',
    FileBuffer.fetchNextLine
      (FileBuffer.mk ["s = " ++ String dquote ("a /* b" ++ String dquote "; t = 1;"); "int z;"]
                     (FilePosition.mk "a.c" 0) (FilePosition.mk "a.c" 0)
                     (FilePosition.mk "a.c" 0) "" FileBuffer.other false [])
    = Ok st'
    /\ FileBuffer._buffer st'
       = "s = " ++ String dquote ("a /* b" ++ String dquote "; t = 1;")
    /\ FileBuffer._file st' = ["int z;"]
    /\ FileBuffer._currState st' = FileBuffer.other.
Proof.
  apply (string_literal_is_kept "s = " "a /* b" "; t = 1;" ["int z;"]).
  - reflexivity.
  - apply directive_test; reflexivity.
  - apply all_chars_test. reflexivity.
  - apply all_chars_test. reflexivity.
  - apply all_chars_test. reflexivity.
  - apply occurs_test; reflexivity.
  - apply occurs_test; reflexivity.
  - apply ends_with_test. reflexivity.
  - apply starts_with_test. reflexivity.
  - apply ends_with_test. reflexivity.
  - reflexivity.
  - reflexivity.
Defined.

(** ** The lexer *)

Section Lexer.
Import StdString.

(** The classes of the tokens the lexer makes. *)
Definition lexer_class (tokenclass : Token.TokenType) : bool :=
  match tokenclass with
  | Token.identifier | Token.literal | Token.fieldaccess | Token.ampersand
  | Token.semicolon | Token.openbrace | Token.closebrace | Token.openparen
  | Token.closeparen | Token.declsymbol | Token.othersymbol => true
  | _ => false
  end.

(** A token as the lexer makes it at [location]. *)
Definition lexed_at (location : FilePosition.t) (tk : Token.t) : Prop :=
  Token.getFilePosition tk = location
  /\ lexer_class (Token.getType tk) = true
  /\ Token.getScope tk = Token.noscope
  /\ Token.getModifier tk = Token.nomod.

(** What a part of [nextToken] returns, started at [location]. *)
Definition lexes (location : FilePosition.t) (r : result (Token.t * Tokenizer.t)) : Prop :=
  match r with
  | Ok (tk, st') => lexed_at location tk /\ Tokenizer._location st' = location
  | _ => True
  end.

Definition keeps_location {A : Type} (location : FilePosition.t)
           (r : result (A * Tokenizer.t)) : Prop :=
  match r with
  | Ok (_, st') => Tokenizer._location st' = location
  | _ => True
  end.

Lemma reloadBuffer_location (multiLineQuote : bool) (st : Tokenizer.t) :
  match Tokenizer.reloadBuffer multiLineQuote st with
  | Ok st' => Tokenizer._location st' = Tokenizer._location st
  | _ => True
  end.
Proof.
  unfold Tokenizer.reloadBuffer. cbv zeta.
  destruct (negb (FileBuffer.haveEOF (Tokenizer._file st))); [|reflexivity].
  destruct (FileBuffer.read (Tokenizer._file st)) as [[tempBuffer file]| | |]; cbn [bind];
    try exact I. reflexivity.
Qed.

Lemma handleOtherChars_lexes (st : Tokenizer.t) :
  lexes (Tokenizer._location st) (Tokenizer.handleOtherChars st).
Proof.
  unfold Tokenizer.handleOtherChars.
  destruct (at_ (Tokenizer._buffer st) (Tokenizer._charPtr st)) as [c|]; cbn [of_option bind];
    [|exact I].
  destruct (mem c Tokenizer._declChars); cbn; repeat split.
Qed.

Lemma getNumeric_loop_location (fuel : nat) :
  forall (end_ : N) (seenE : bool) (st : Tokenizer.t),
    keeps_location (Tokenizer._location st) (Tokenizer.getNumeric_loop fuel end_ seenE st).
Proof.
  induction fuel as [|fuel IH]; intros end_ seenE st; [exact I|].
  cbn [Tokenizer.getNumeric_loop]. cbv zeta.
  set (e := if _ <? _ then npos else _). clearbody e.
  destruct (e =? npos); [reflexivity|].
  destruct (Tokenizer.isLineWrap e false st).
  - pose proof (reloadBuffer_location false st) as E.
    destruct (Tokenizer.reloadBuffer false st) as [st1| | |]; cbn [bind]; try exact I.
    rewrite <- E. apply IH.
  - destruct (at_ (Tokenizer._buffer st) e) as [c|]; cbn [of_option bind]; [|exact I].
    destruct (_ && _); [apply IH|reflexivity].
Qed.

Lemma getNumeric_lexes (fuel : nat) (st : Tokenizer.t) :
  lexes (Tokenizer._location st) (Tokenizer.getNumeric fuel st).
Proof.
  unfold Tokenizer.getNumeric.
  pose proof (getNumeric_loop_location fuel (Tokenizer._charPtr st) false st) as E.
  destruct (Tokenizer.getNumeric_loop fuel (Tokenizer._charPtr st) false st)
    as [[end_ st1]| | |]; cbn [bind]; try exact I.
  cbn in E |- *. rewrite E. repeat split.
Qed.

Lemma getQuotedString_loop_location (fuel : nat) :
  forall (end_ : N) (st : Tokenizer.t),
    keeps_location (Tokenizer._location st) (Tokenizer.getQuotedString_loop fuel end_ st).
Proof.
  induction fuel as [|fuel IH]; intros end_ st; [exact I|].
  cbn [Tokenizer.getQuotedString_loop]. cbv zeta.
  destruct (_ && _); [|reflexivity].
  pose proof (reloadBuffer_location true st) as E.
  destruct (Tokenizer.reloadBuffer true st) as [st1| | |]; cbn [bind]; try exact I.
  rewrite <- E. apply IH.
Qed.

Lemma getQuotedString_lexes (fuel : nat) (st : Tokenizer.t) :
  lexes (Tokenizer._location st) (Tokenizer.getQuotedString fuel st).
Proof.
  unfold Tokenizer.getQuotedString.
  pose proof (getQuotedString_loop_location fuel (Tokenizer._charPtr st + 1) st) as E.
  destruct (Tokenizer.getQuotedString_loop fuel (Tokenizer._charPtr st + 1) st)
    as [[end_ st1]| | |]; cbn [bind]; try exact I.
  cbn in E |- *. rewrite E. repeat split.
Qed.

Lemma getIdentifier_loop_location (fuel : nat) :
  forall (end_ : N) (st : Tokenizer.t),
    keeps_location (Tokenizer._location st) (Tokenizer.getIdentifier_loop fuel end_ st).
Proof.
  induction fuel as [|fuel IH]; intros end_ st; [exact I|].
  cbn [Tokenizer.getIdentifier_loop]. cbv zeta.
  set (e := if _ <? _ then npos else _). clearbody e.
  destruct (e =? npos); [reflexivity|].
  destruct (Tokenizer.isLineWrap e false st); [|reflexivity].
  pose proof (reloadBuffer_location false st) as E.
  destruct (Tokenizer.reloadBuffer false st) as [st1| | |]; cbn [bind]; try exact I.
  rewrite <- E. apply IH.
Qed.

Lemma getIdentifier_lexes (fuel : nat) (st : Tokenizer.t) :
  lexes (Tokenizer._location st) (Tokenizer.getIdentifier fuel st).
Proof.
  unfold Tokenizer.getIdentifier.
  destruct (at_ (Tokenizer._buffer st) (Tokenizer._charPtr st)) as [c|]; cbn [of_option bind];
    [|exact I].
  cbv zeta.
  match goal with
  | |- context [Tokenizer.getIdentifier_loop fuel ?e ?s] =>
      pose proof (getIdentifier_loop_location fuel e s) as E;
      destruct (Tokenizer.getIdentifier_loop fuel e s) as [[end_ st1]| | |]
  end; cbn [bind]; try exact I.
  cbn in E |- *. rewrite E. repeat split.
Qed.

Lemma step_location (b : bool) (st : Tokenizer.t) :
  match (if b then Tokenizer.reloadBuffer false st else Ok st) with
  | Ok st' => Tokenizer._location st' = Tokenizer._location st
  | _ => True
  end.
Proof. destruct b; [apply reloadBuffer_location|reflexivity]. Qed.

Lemma handleMinus_lexes (st : Tokenizer.t) :
  lexes (Tokenizer._location st) (Tokenizer.handleMinus st).
Proof.
  unfold Tokenizer.handleMinus.
  destruct (_ =? _).
  - destruct (at_ _ _); cbn; [repeat split|exact I].
  - pose proof (step_location (Tokenizer.isLineWrap (Tokenizer._charPtr st + 1) false st) st)
      as E.
    destruct (if Tokenizer.isLineWrap _ _ _ then _ else _) as [st1| | |]; cbn [bind];
      try exact I.
    destruct (at_ _ _) as [c|]; cbn [of_option bind]; [|exact I].
    destruct (Ascii.eqb c ">").
    + cbn. rewrite E. repeat split.
    + rewrite <- E. apply handleOtherChars_lexes.
Qed.

Lemma handleAmpersand_lexes (st : Tokenizer.t) :
  lexes (Tokenizer._location st) (Tokenizer.handleAmpersand st).
Proof.
  unfold Tokenizer.handleAmpersand.
  destruct (_ =? _).
  - destruct (at_ _ _); cbn; [repeat split|exact I].
  - pose proof (step_location (Tokenizer.isLineWrap (Tokenizer._charPtr st + 1) false st) st)
      as E.
    destruct (if Tokenizer.isLineWrap _ _ _ then _ else _) as [st1| | |]; cbn [bind];
      try exact I.
    destruct (at_ _ _) as [c|]; cbn [of_option bind]; [|exact I].
    destruct (Ascii.eqb c "&").
    + cbn. rewrite E. repeat split.
    + destruct (at_ _ _) as [d|]; cbn [of_option bind]; [|exact I].
      cbn. rewrite E. repeat split.
Qed.

Lemma sinQuoteLoop_location (fuel : nat) :
  forall (q : Tokenizer.SinQuote) (st : Tokenizer.t),
    keeps_location (Tokenizer._location st) (Tokenizer.sinQuoteLoop fuel q st).
Proof.
  induction fuel as [|fuel IH]; intros q st; cbn [Tokenizer.sinQuoteLoop]; cbv zeta.
  - destruct (_ && _); [exact I|reflexivity].
  - destruct (negb (Tokenizer.haveValue q) && negb (Tokenizer.haveError q));
      [|reflexivity].
    destruct (_ <=? _); [apply IH|].
    destruct (Tokenizer.isLineWrap _ _ _).
    + pose proof (reloadBuffer_location true st) as E.
      destruct (Tokenizer.reloadBuffer true st) as [st1| | |]; cbn [bind]; try exact I.
      rewrite <- E. apply IH.
    + destruct (at_ _ _) as [c|]; cbn [of_option bind]; [|exact I]. apply IH.
Qed.

Lemma handleSinQuote_lexes (fuel : nat) (st : Tokenizer.t) :
  lexes (Tokenizer._location st) (Tokenizer.handleSinQuote fuel st).
Proof.
  unfold Tokenizer.handleSinQuote.
  match goal with
  | |- context [Tokenizer.sinQuoteLoop fuel ?q ?s] =>
      pose proof (sinQuoteLoop_location fuel q s) as E;
      destruct (Tokenizer.sinQuoteLoop fuel q s) as [[q1 st1]| | |]
  end; cbn [bind]; try exact I.
  cbn in E. destruct (Tokenizer.haveValue q1).
  - cbn. rewrite E. repeat split.
  - rewrite <- E. apply handleOtherChars_lexes.
Qed.

(** The loop that finds the next character leaves the tokenizer at the end
    of the file or on a character that is no space, no tab and no escaped
    newline. *)
Definition ready (st : Tokenizer.t) : Prop :=
  Tokenizer.haveEOF st = true
  \/ exists c, at_ (Tokenizer._buffer st) (Tokenizer._charPtr st) = Some c
               /\ is_blank c = false
               /\ Tokenizer.isLineWrap (Tokenizer._charPtr st) false st = false.

Lemma burnSpaces_char (buffer : string) (pos : N) :
  size buffer < npos ->
  FileBuffer.burnSpaces buffer pos <> npos ->
  exists c, at_ buffer (FileBuffer.burnSpaces buffer pos) = Some c /\ is_blank c = false.
Proof.
  intros Hsize Hne. unfold FileBuffer.burnSpaces, find_first_not_of in *.
  destruct (find_if_first (fun c => negb (mem c FileBuffer.blanks)) buffer 0 pos) as [H _];
    [lia|]. cbv zeta in H.
  destruct H as [H|(_ & _ & _ & c & Hc & Hp)]; [contradiction|].
  rewrite N.sub_0_r in Hc. exists c. split; [exact Hc|].
  apply negb_true_iff in Hp. exact Hp.
Qed.

Lemma nextChar_loop_ready (fuel : nat) :
  forall (st st' : Tokenizer.t),
    Tokenizer.nextChar_loop fuel st = Ok st' ->
    size (Tokenizer._buffer st') < npos ->
    ready st'.
Proof.
  induction fuel as [|fuel IH]; intros st st'; cbn [Tokenizer.nextChar_loop]; cbv zeta.
  - destruct (negb (FileBuffer.haveEOF (Tokenizer._file st))
              || (Tokenizer._charPtr st <? size (Tokenizer._buffer st))) eqn:Hloop;
      [discriminate|].
    intros E _. injection E as <-. left. unfold Tokenizer.haveEOF.
    apply orb_false_iff in Hloop as [H1 H2]. apply negb_false_iff in H1.
    apply N.ltb_ge in H2. rewrite H1. apply N.leb_le. exact H2.
  - destruct (negb (FileBuffer.haveEOF (Tokenizer._file st))
              || (Tokenizer._charPtr st <? size (Tokenizer._buffer st))) eqn:Hloop.
    2:{ intros E _. injection E as <-. left. unfold Tokenizer.haveEOF.
        apply orb_false_iff in Hloop as [H1 H2]. apply negb_false_iff in H1.
        apply N.ltb_ge in H2. rewrite H1. apply N.leb_le. exact H2. }
    assert (Hreload : forall s : Tokenizer.t,
               (let* s' := Tokenizer.reloadBuffer false s in Tokenizer.nextChar_loop fuel s')
               = Ok st' ->
               size (Tokenizer._buffer st') < npos -> ready st').
    { intros s. destruct (Tokenizer.reloadBuffer false s) as [s'| | |]; cbn [bind];
        try discriminate. apply IH. }
    destruct (N.ltb_spec (Tokenizer._charPtr st) (size (Tokenizer._buffer st)))
      as [Hlt|Hge].
    + cbn [Tokenizer.set_charPtr Tokenizer._charPtr Tokenizer._buffer].
      destruct (N.eqb_spec (FileBuffer.burnSpaces (Tokenizer._buffer st)
                                                  (Tokenizer._charPtr st)) npos)
        as [Hn|Hn].
      * cbn [Tokenizer.set_charPtr Tokenizer._charPtr Tokenizer._buffer].
        rewrite N.leb_refl. apply Hreload.
      * destruct (Tokenizer.isLineWrap _ false _) eqn:Hw.
        -- cbn [Tokenizer.set_charPtr Tokenizer._charPtr Tokenizer._buffer].
           rewrite N.leb_refl. apply Hreload.
        -- cbn [Tokenizer.set_charPtr Tokenizer._charPtr Tokenizer._buffer].
           destruct (N.leb_spec (size (Tokenizer._buffer st))
                                (FileBuffer.burnSpaces (Tokenizer._buffer st)
                                                       (Tokenizer._charPtr st)));
             [apply Hreload|].
           intros E Hsize. injection E as <-. right.
           cbn [Tokenizer.set_charPtr Tokenizer._charPtr Tokenizer._buffer] in *.
           destruct (burnSpaces_char (Tokenizer._buffer st) (Tokenizer._charPtr st) Hsize Hn)
             as (c & Hc & Hblank).
           exists c. repeat split; assumption.
    + destruct (N.eqb_spec (Tokenizer._charPtr st) npos) as [Hn|Hn].
      * cbn [Tokenizer.set_charPtr Tokenizer._charPtr Tokenizer._buffer].
        rewrite N.leb_refl. apply Hreload.
      * destruct (Tokenizer.isLineWrap _ false _) eqn:Hw.
        -- cbn [Tokenizer.set_charPtr Tokenizer._charPtr Tokenizer._buffer].
           rewrite N.leb_refl. apply Hreload.
        -- destruct (N.leb_spec (size (Tokenizer._buffer st)) (Tokenizer._charPtr st));
             [apply Hreload|lia].
Qed.

Lemma ready_location (st : Tokenizer.t) (location : FilePosition.t) (l : bool) :
  ready st ->
  ready (Tokenizer.mk (Tokenizer._file st) (Tokenizer._buffer st) (Tokenizer._charPtr st)
                      location l (Tokenizer._newLinePos st)).
Proof. intros [H|H]; [left|right]; exact H. Qed.

(** The part of [nextToken] that makes the token. *)
Lemma nextToken_dispatch (fuel : nat) (st : Tokenizer.t) (c : ascii) :
  let single (tokenclass : Token.TokenType) : result (Token.t * Tokenizer.t) :=
    Ok (Token.make (String c EmptyString) (Tokenizer._location st) tokenclass, st) in
  lexes (Tokenizer._location st)
    (if Tokenizer.isalpha c || Ascii.eqb c "_" || Ascii.eqb c "~"
     then Tokenizer.getIdentifier fuel st
     else if isdigit c then Tokenizer.getNumeric fuel st
     else if Ascii.eqb c dquote then Tokenizer.getQuotedString fuel st
     else if Ascii.eqb c "-" then Tokenizer.handleMinus st
     else if Ascii.eqb c squote then Tokenizer.handleSinQuote fuel st
     else if Ascii.eqb c "&" then Tokenizer.handleAmpersand st
     else if Ascii.eqb c "." then
       if Tokenizer._charPtr st =? Tokenizer.dec (size (Tokenizer._buffer st))
       then single Token.fieldaccess
       else
         let* d := of_option (at_ (Tokenizer._buffer st) (Tokenizer._charPtr st + 1)) in
         if negb (isdigit d) then single Token.fieldaccess
         else Tokenizer.getNumeric fuel st
     else if Ascii.eqb c ";" then single Token.semicolon
     else if Ascii.eqb c "{" then single Token.openbrace
     else if Ascii.eqb c "}" then single Token.closebrace
     else if Ascii.eqb c "(" then single Token.openparen
     else if Ascii.eqb c ")" then single Token.closeparen
     else Tokenizer.handleOtherChars st).
Proof.
  cbv zeta.
  repeat (match goal with
          | |- lexes _ (if ?b then _ else _) => destruct b
          end);
    try apply getIdentifier_lexes; try apply getNumeric_lexes;
    try apply getQuotedString_lexes; try apply handleMinus_lexes;
    try apply handleSinQuote_lexes; try apply handleAmpersand_lexes;
    try apply handleOtherChars_lexes; try (cbn; repeat split; fail).
  destruct (at_ _ _) as [d|]; cbn [of_option bind]; [|exact I].
  destruct (negb (isdigit d)); [cbn; repeat split|apply getNumeric_lexes].
Qed.

End Lexer.

(** X18.  The tokens of the lexer.  At the end of the file [nextToken]
    returns the token of class [tokenEOF], with an empty lexeme and the line
    after the current one, and changes nothing.  Before the end it returns a
    token of one of the eleven classes of the lexer, without scope or
    modifier, whose position is the one the lexer had when the call began:
    the line on which the token starts, also when it goes on over escaped
    newlines. *)
Theorem nextToken_token (fuel : nat) (st st' : Tokenizer.t) (tk : Token.t) :
  Tokenizer.nextToken fuel st = Ok (tk, st') ->
  if Tokenizer.haveEOF st
  then tk = Token.make "" (FilePosition.incrLine (Tokenizer._location st)) Token.tokenEOF
       /\ st' = st
  else lexed_at (Tokenizer._location st) tk.
Proof.
  unfold Tokenizer.nextToken. destruct (Tokenizer.haveEOF st).
  - intros E. injection E as <- <-. split; reflexivity.
  - destruct (StdString.at_ _ _) as [c|]; cbn [of_option bind]; [|discriminate].
    cbv zeta. pose proof (nextToken_dispatch fuel st c) as D. cbv zeta in D.
    match goal with
    | D : lexes _ ?r |- _ => destruct r as [[tk1 st1]| | |]
    end; cbn [bind]; try discriminate.
    destruct (Tokenizer.nextChar_loop _ _) as [st2| | |]; cbn [bind]; try discriminate.
    intros E. injection E as <- _. apply D.
Qed.

(** X19.  After a token the lexer is at the end of the file or stands on the
    first character of the next token: a character of the buffer that is no
    space, no tab and no backslash of an escaped newline. *)
Theorem nextToken_ready (fuel : nat) (st st' : Tokenizer.t) (tk : Token.t) :
  Tokenizer.nextToken fuel st = Ok (tk, st') ->
  StdString.size (Tokenizer._buffer st') < StdString.npos ->
  ready st'.
Proof.
  unfold Tokenizer.nextToken. destruct (Tokenizer.haveEOF st) eqn:Heof.
  - intros E _. injection E as _ <-. left. exact Heof.
  - destruct (StdString.at_ _ _) as [c|]; cbn [of_option bind]; [|discriminate].
    cbv zeta.
    match goal with
    | |- (let* _ := ?r in _) = _ -> _ => destruct r as [[tk1 st1]| | |]
    end; cbn [bind]; try discriminate.
    destruct (Tokenizer.nextChar_loop _ _) as [st2| | |] eqn:Hloop; cbn [bind];
      try discriminate.
    intros E Hsize. injection E as _ <-.
    destruct (_ && _).
    + apply ready_location. cbn in Hsize.
      exact (nextChar_loop_ready _ _ _ Hloop Hsize).
    + exact (nextChar_loop_ready _ _ _ Hloop Hsize).
Qed.

(** The lexer started on a file of two lines, the first one continued in the
    middle of a name. *)
Definition continued_name : Tokenizer.t :=
  Eval vm_compute in
    match Tokenizer.start "a.c" ["ab\"; "cd = 1;"] Tokenizer.make with
    | Ok st => st
    | _ => Tokenizer.make
    end.

Lemma nextToken_token_witness :
  exists tk st',
    Tokenizer.nextToken 4 continued_name = Ok (tk, st')
    /\ Token.getLexeme tk = "abcd"
    /\ lexed_at (FilePosition.mk "a.c" 1) tk.
Proof.
  assert (Hok : exists tk st', Tokenizer.nextToken 4 continued_name = Ok (tk, st')
                               /\ Token.getLexeme tk = "abcd")
    by (do 2 eexists; vm_compute; split; reflexivity).
  destruct Hok as (tk & st' & E & Hl). exists tk, st'.
  split; [exact E|]. split; [exact Hl|].
  pose proof (nextToken_token 4 continued_name st' tk E) as H.
  vm_compute in H. exact H.
Defined.

Lemma nextToken_ready_witness :
  exists tk st',
    Tokenizer.nextToken 4 continued_name = Ok (tk, st')
    /\ Tokenizer._buffer st' = "bcd = 1;"
    /\ Tokenizer._charPtr st' = 4
    /\ ready st'.
Proof.
  assert (Hok : exists tk st', Tokenizer.nextToken 4 continued_name = Ok (tk, st')
                               /\ Tokenizer._buffer st' = "bcd = 1;"
                               /\ Tokenizer._charPtr st' = 4)
    by (do 2 eexists; split; [vm_compute; reflexivity|split; reflexivity]).
  destruct Hok as (tk & st' & E & Hb & Hp). exists tk, st'.
  split; [exact E|]. split; [exact Hb|]. split; [exact Hp|].
  apply (nextToken_ready 4 continued_name st' tk E). rewrite Hb. reflexivity.
Defined.

(** ** The lexer on a file without directives *)

Section Returns.
Import StdString.

(** A file buffer that has met no directive and has none ahead; its
    buffer is empty only at the end of the file. *)
Definition file_ok (f : FileBuffer.t) : Prop :=
  FileBuffer._currState f <> FileBuffer.preproc
  /\ Forall (fun line => ~ directive line) (FileBuffer._file f)
  /\ (FileBuffer._buffer f = EmptyString -> FileBuffer._file f = []).

(** A bound on the number of lines the file buffer can still hand out. *)
Definition reads_left (f : FileBuffer.t) : nat :=
  if FileBuffer.haveEOF f then O else S (List.length (FileBuffer._file f)).

Lemma fetchLoop_returns (lines : list string) :
  Forall (fun line => ~ directive line) lines ->
  forall (ns : FileBuffer.TextState) (st : FileBuffer.t),
    FileBuffer._currState st <> FileBuffer.preproc -> ns <> FileBuffer.preproc ->
    exists st',
      FileBuffer.fetchLoop lines ns st = Ok st'
      /\ FileBuffer._currState st' <> FileBuffer.preproc.
Proof.
  induction 1 as [|line rest Hline Hrest IH]; intros ns st Hst Hns.
  - exists (FileBuffer.set_file st []). split; [reflexivity|exact Hst].
  - cbn [FileBuffer.fetchLoop].
    destruct (negb (String.eqb (FileBuffer._buffer st) EmptyString)).
    + eexists. split; [reflexivity|exact Hst].
    + destruct (processLine_plain line ns (FileBuffer.set_file st rest) Hst Hns Hline)
        as (ns' & st' & Hrun & _ & _ & _ & _ & Hns' & Hst').
      rewrite Hrun. cbn [bind]. apply IH; assumption.
Qed.

Lemma haveEOF_false (f : FileBuffer.t) :
  file_ok f -> FileBuffer.haveEOF f = false -> FileBuffer._buffer f <> EmptyString.
Proof.
  intros (_ & _ & Hend) Heof Hb. unfold FileBuffer.haveEOF in Heof.
  rewrite Hb, (Hend Hb) in Heof. discriminate Heof.
Qed.

(** Before the end of the file [operator>>] hands out a line that is not
    empty, and what is left to hand out has become less. *)
Lemma read_returns (f : FileBuffer.t) :
  file_ok f -> FileBuffer.haveEOF f = false ->
  exists line f',
    FileBuffer.read f = Ok (line, f')
    /\ line <> EmptyString
    /\ file_ok f'
    /\ (reads_left f' < reads_left f)%nat.
Proof.
  intros Hok Heof. pose proof (haveEOF_false f Hok Heof) as Hline.
  destruct Hok as (Hcur & Hfile & Hend).
  unfold FileBuffer.read, FileBuffer.fetchNextLine. cbv zeta.
  cbn [FileBuffer.set_buffer FileBuffer.set_sourcePosition FileBuffer._file
       FileBuffer._sourcePosition FileBuffer._bufferPosition FileBuffer._inputPosition
       FileBuffer._buffer FileBuffer._currState FileBuffer._haveWrap FileBuffer.cout].
  match goal with
  | |- context [FileBuffer.fetchLoop ?l ?ns ?s] =>
      destruct (fetchLoop_returns l Hfile ns s Hcur) as (f' & Hrun & Hcur');
        [discriminate|];
      pose proof (fetchLoop_effect l ns s) as Heff
  end.
  rewrite Hrun in Heff |- *. cbn [bind].
  destruct Heff as [(consumed & Hl & _ & Hsame & _) Hend'].
  cbn [FileBuffer._buffer] in Hsame.
  exists (FileBuffer._buffer f), f'. split; [reflexivity|]. split; [exact Hline|].
  split; [split; [exact Hcur'|split; [|exact Hend']]|].
  - rewrite Hl in Hfile. apply List.Forall_app in Hfile. apply Hfile.
  - unfold reads_left. rewrite Heof.
    destruct (FileBuffer.haveEOF f') eqn:Heof'; [lia|].
    apply (f_equal (@List.length string)) in Hl. rewrite List.length_app in Hl.
    destruct consumed as [|c consumed]; [|cbn in Hl; lia].
    exfalso. specialize (Hsame eq_refl).
    unfold FileBuffer.haveEOF in Heof'. rewrite Hsame, (Hend' Hsame) in Heof'.
    discriminate Heof'.
Qed.

(** What [reloadBuffer] keeps of the buffer. *)
Definition kept_chars (multiLineQuote : bool) (st : Tokenizer.t) : N :=
  if size (Tokenizer._buffer st) <=? Tokenizer._charPtr st then 0
  else
    let firstIgnoreChar := FileBuffer.getEscNewline (Tokenizer._buffer st) multiLineQuote in
    let firstIgnoreChar :=
      if firstIgnoreChar =? npos then size (Tokenizer._buffer st) else firstIgnoreChar in
    if firstIgnoreChar <=? Tokenizer._charPtr st then 0
    else firstIgnoreChar - Tokenizer._charPtr st.

Definition kept_text (multiLineQuote : bool) (st : Tokenizer.t) : string :=
  if 0 <? kept_chars multiLineQuote st
  then substr (Tokenizer._buffer st) (Tokenizer._charPtr st) (kept_chars multiLineQuote st)
  else EmptyString.

Lemma reloadBuffer_returns (multiLineQuote : bool) (st : Tokenizer.t) :
  file_ok (Tokenizer._file st) ->
  exists st',
    Tokenizer.reloadBuffer multiLineQuote st = Ok st'
    /\ file_ok (Tokenizer._file st')
    /\ Tokenizer._charPtr st' = 0
    /\ Tokenizer._newLinePos st' = kept_chars multiLineQuote st
    /\ (reads_left (Tokenizer._file st') <= reads_left (Tokenizer._file st))%nat
    /\ (FileBuffer.haveEOF (Tokenizer._file st) = true ->
        Tokenizer._file st' = Tokenizer._file st
        /\ Tokenizer._buffer st' = kept_text multiLineQuote st)
    /\ (FileBuffer.haveEOF (Tokenizer._file st) = false ->
        (reads_left (Tokenizer._file st') < reads_left (Tokenizer._file st))%nat
        /\ exists line,
            line <> EmptyString
            /\ Tokenizer._buffer st' = kept_text multiLineQuote st ++ line).
Proof.
  intros Hok. unfold Tokenizer.reloadBuffer. cbv zeta.
  fold (kept_chars multiLineQuote st). fold (kept_text multiLineQuote st).
  destruct (FileBuffer.haveEOF (Tokenizer._file st)) eqn:Heof; cbn [negb].
  - eexists. split; [reflexivity|]. cbn. repeat split; try assumption; try lia;
      try discriminate; apply Hok.
  - destruct (read_returns (Tokenizer._file st) Hok Heof) as (line & f' & Hr & Hl & Hok' & Hm).
    rewrite Hr. cbn [bind]. eexists. split; [reflexivity|]. cbn.
    split; [exact Hok'|]. split; [reflexivity|]. split; [reflexivity|].
    split; [lia|]. split; [discriminate|]. intros _. split; [exact Hm|].
    exists line. split; [exact Hl|reflexivity].
Qed.

(** A part of the lexer returns, and leaves at most [m] lines to hand out. *)
Definition returns {A : Type} (m : nat) (r : result (A * Tokenizer.t)) : Prop :=
  exists a st',
    r = Ok (a, st')
    /\ file_ok (Tokenizer._file st')
    /\ (reads_left (Tokenizer._file st') <= m)%nat.

(** The same, the lexer left on a character of its buffer. *)
Definition returns_inside {A : Type} (m : nat) (r : result (A * Tokenizer.t)) : Prop :=
  exists a st',
    r = Ok (a, st')
    /\ file_ok (Tokenizer._file st')
    /\ (reads_left (Tokenizer._file st') <= m)%nat
    /\ Tokenizer._charPtr st' < size (Tokenizer._buffer st').

Lemma returns_le {A : Type} (m n : nat) (r : result (A * Tokenizer.t)) :
  (m <= n)%nat -> returns m r -> returns n r.
Proof.
  intros H (a & st' & E & Hok & Hm). exists a, st'.
  split; [exact E|]. split; [exact Hok|lia].
Qed.

Ltac ret a st := exists a, st; split; [reflexivity|split; [assumption|lia]].

Lemma isLineWrap_not_EOF (pos : N) (multiLineQuote : bool) (st : Tokenizer.t) :
  Tokenizer.isLineWrap pos multiLineQuote st = true ->
  FileBuffer.haveEOF (Tokenizer._file st) = false.
Proof.
  unfold Tokenizer.isLineWrap. destruct (FileBuffer.haveEOF _); [discriminate|reflexivity].
Qed.

Lemma size_pos (a line : string) : line <> EmptyString -> 0 < size (a ++ line).
Proof.
  intros H. rewrite size_append. destruct line; [contradiction|].
  rewrite size_String. lia.
Qed.

(** A reload before the end of the file. *)
Lemma reloadBuffer_more (multiLineQuote : bool) (st : Tokenizer.t) :
  file_ok (Tokenizer._file st) ->
  FileBuffer.haveEOF (Tokenizer._file st) = false ->
  exists st',
    Tokenizer.reloadBuffer multiLineQuote st = Ok st'
    /\ file_ok (Tokenizer._file st')
    /\ (reads_left (Tokenizer._file st') < reads_left (Tokenizer._file st))%nat
    /\ Tokenizer._charPtr st' = 0
    /\ size (kept_text multiLineQuote st) < size (Tokenizer._buffer st').
Proof.
  intros Hok Heof.
  destruct (reloadBuffer_returns multiLineQuote st Hok)
    as (st' & Hrun & Hok' & Hp & _ & _ & _ & Hmore).
  destruct (Hmore Heof) as (Hm & line & Hl & Hb).
  exists st'. split; [exact Hrun|]. split; [exact Hok'|]. split; [exact Hm|].
  split; [exact Hp|].
  rewrite Hb, size_append. pose proof (size_pos EmptyString line Hl) as H.
  rewrite append_Empty in H. lia.
Qed.

Lemma getIdentifier_loop_returns (fuel : nat) :
  forall (end_ : N) (st : Tokenizer.t),
    file_ok (Tokenizer._file st) ->
    (reads_left (Tokenizer._file st) < fuel)%nat ->
    returns (reads_left (Tokenizer._file st)) (Tokenizer.getIdentifier_loop fuel end_ st).
Proof.
  induction fuel as [|fuel IH]; intros end_ st Hok Hfuel; [lia|].
  cbn [Tokenizer.getIdentifier_loop]. cbv zeta.
  set (e := if _ <? _ then npos else _). clearbody e.
  destruct (e =? npos); [ret e st|].
  destruct (Tokenizer.isLineWrap e false st) eqn:Hw;
    [|ret e st].
  destruct (reloadBuffer_more false st Hok (isLineWrap_not_EOF _ _ _ Hw))
    as (st1 & Hrun & Hok1 & Hm & _).
  rewrite Hrun. cbn [bind]. eapply returns_le; [|apply IH; [exact Hok1|lia]]. lia.
Qed.

Lemma getQuotedString_loop_returns (fuel : nat) :
  forall (end_ : N) (st : Tokenizer.t),
    file_ok (Tokenizer._file st) ->
    (reads_left (Tokenizer._file st) < fuel)%nat ->
    returns (reads_left (Tokenizer._file st)) (Tokenizer.getQuotedString_loop fuel end_ st).
Proof.
  induction fuel as [|fuel IH]; intros end_ st Hok Hfuel; [lia|].
  cbn [Tokenizer.getQuotedString_loop]. cbv zeta.
  set (e := FileBuffer.nextCloseQuote _ _). clearbody e.
  destruct (FileBuffer.haveEOF (Tokenizer._file st)) eqn:Heof; cbn [negb andb];
    [ret e st|].
  destruct (e =? npos); [|ret e st].
  destruct (reloadBuffer_more true st Hok Heof) as (st1 & Hrun & Hok1 & Hm & _).
  rewrite Hrun. cbn [bind]. eapply returns_le; [|apply IH; [exact Hok1|lia]]. lia.
Qed.

Lemma at_inside (buffer : string) (i : N) :
  i < size buffer -> exists c, at_ buffer i = Some c.
Proof.
  intros H. unfold at_. destruct (N.ltb_spec i (size buffer)) as [_|]; [|lia].
  unfold size in H. assert (Hn : (N.to_nat i < String.length buffer)%nat) by lia.
  clear H. revert Hn. generalize (N.to_nat i). clear i.
  induction buffer as [|c buffer IH]; intros n Hn; cbn in Hn; [lia|].
  destruct n as [|n]; cbn; [exists c; reflexivity|]. apply IH. lia.
Qed.

Lemma at_some_inside (buffer : string) (i : N) (c : ascii) :
  at_ buffer i = Some c -> i < size buffer.
Proof.
  unfold at_. destruct (N.ltb_spec i (size buffer)); [trivial|discriminate].
Qed.

Lemma find_first_not_of_inside (buffer chars : string) (pos : N) :
  find_first_not_of buffer chars pos <> npos ->
  find_first_not_of buffer chars pos < size buffer.
Proof.
  unfold find_first_not_of. intros Hne.
  destruct (find_if_range (fun c => negb (mem c chars)) buffer 0 pos) as [E|(_ & _ & Hlt)];
    [contradiction|lia].
Qed.

Lemma getNumeric_loop_returns (fuel : nat) :
  forall (end_ : N) (seenE : bool) (st : Tokenizer.t),
    file_ok (Tokenizer._file st) ->
    (reads_left (Tokenizer._file st) + (if seenE then 0 else 1) < fuel)%nat ->
    returns (reads_left (Tokenizer._file st)) (Tokenizer.getNumeric_loop fuel end_ seenE st).
Proof.
  induction fuel as [|fuel IH]; intros end_ seenE st Hok Hfuel; [lia|].
  cbn [Tokenizer.getNumeric_loop]. cbv zeta.
  assert (He : forall e, e = (if Tokenizer.dec (size (Tokenizer._buffer st)) <? end_
                              then npos
                              else find_first_not_of (Tokenizer._buffer st)
                                     (Tokenizer._digits ++ ".") end_) ->
                         e <> npos -> e < size (Tokenizer._buffer st)).
  { intros e -> Hne. destruct (_ <? _); [contradiction|].
    apply find_first_not_of_inside. exact Hne. }
  specialize (He _ eq_refl).
  set (e := if _ <? _ then npos else _) in *. clearbody e.
  destruct (N.eqb_spec e npos) as [|Hne]; [ret (size (Tokenizer._buffer st)) st|].
  destruct (Tokenizer.isLineWrap e false st) eqn:Hw.
  - destruct (reloadBuffer_more false st Hok (isLineWrap_not_EOF _ _ _ Hw))
      as (st1 & Hrun & Hok1 & Hm & _).
    rewrite Hrun. cbn [bind]. eapply returns_le; [|apply IH; [exact Hok1|]].
    + lia.
    + destruct seenE; lia.
  - destruct (at_inside _ _ (He Hne)) as [c Hc]. rewrite Hc. cbn [of_option bind].
    destruct seenE; cbn [negb]; rewrite ?andb_false_r, ?andb_true_r.
    + ret e st.
    + destruct (Ascii.eqb c "E"); [|ret e st].
      apply IH; [exact Hok|cbn; lia].
Qed.

Lemma getIdentifier_returns (fuel : nat) (st : Tokenizer.t) :
  file_ok (Tokenizer._file st) ->
  Tokenizer._charPtr st < size (Tokenizer._buffer st) ->
  (reads_left (Tokenizer._file st) < fuel)%nat ->
  returns (reads_left (Tokenizer._file st)) (Tokenizer.getIdentifier fuel st).
Proof.
  intros Hok Hin Hfuel. unfold Tokenizer.getIdentifier.
  destruct (at_inside _ _ Hin) as [c Hc]. rewrite Hc. cbn [of_option bind]. cbv zeta.
  match goal with
  | |- context [Tokenizer.getIdentifier_loop fuel ?e ?s] =>
      destruct (getIdentifier_loop_returns fuel e s Hok Hfuel) as (end_ & st1 & E & H1 & H2)
  end.
  rewrite E. cbn [bind]. eexists _, _.
  split; [reflexivity|]. split; [exact H1|exact H2].
Qed.

Lemma getNumeric_returns (fuel : nat) (st : Tokenizer.t) :
  file_ok (Tokenizer._file st) ->
  (reads_left (Tokenizer._file st) + 1 < fuel)%nat ->
  returns (reads_left (Tokenizer._file st)) (Tokenizer.getNumeric fuel st).
Proof.
  intros Hok Hfuel. unfold Tokenizer.getNumeric.
  destruct (getNumeric_loop_returns fuel (Tokenizer._charPtr st) false st Hok Hfuel)
    as (end_ & st1 & E & H1 & H2).
  rewrite E. cbn [bind]. eexists _, _.
  split; [reflexivity|]. split; [exact H1|exact H2].
Qed.

Lemma getQuotedString_returns (fuel : nat) (st : Tokenizer.t) :
  file_ok (Tokenizer._file st) ->
  (reads_left (Tokenizer._file st) < fuel)%nat ->
  returns (reads_left (Tokenizer._file st)) (Tokenizer.getQuotedString fuel st).
Proof.
  intros Hok Hfuel. unfold Tokenizer.getQuotedString.
  destruct (getQuotedString_loop_returns fuel (Tokenizer._charPtr st + 1) st Hok Hfuel)
    as (end_ & st1 & E & H1 & H2).
  rewrite E. cbn [bind]. eexists _, _.
  split; [reflexivity|]. split; [exact H1|exact H2].
Qed.

Lemma handleOtherChars_returns (st : Tokenizer.t) :
  file_ok (Tokenizer._file st) ->
  Tokenizer._charPtr st < size (Tokenizer._buffer st) ->
  returns (reads_left (Tokenizer._file st)) (Tokenizer.handleOtherChars st).
Proof.
  intros Hok Hin. unfold Tokenizer.handleOtherChars.
  destruct (at_inside _ _ Hin) as [c Hc]. rewrite Hc. cbn [of_option bind].
  destruct (mem c Tokenizer._declChars); eexists _, _;
    (split; [reflexivity|]); (split; [exact Hok|cbn; lia]).
Qed.

Lemma length_substring (s : string) (n m : nat) :
  (n + m <= String.length s)%nat -> String.length (String.substring n m s) = m.
Proof.
  revert n m. induction s as [|c s IH]; intros n m H; cbn in H.
  - assert (n = O) as -> by lia. assert (m = O) as -> by lia. reflexivity.
  - destruct n as [|n].
    + destruct m as [|m]; [reflexivity|]. cbn. f_equal. apply IH. lia.
    + cbn. apply IH. lia.
Qed.

Lemma size_substr (s : string) (pos n : N) :
  pos <= size s -> size (substr s pos n) = N.min n (size s - pos).
Proof.
  intros H. unfold substr. destruct (N.leb_spec pos (size s)); [|lia].
  unfold size in *. rewrite length_substring by lia. lia.
Qed.

(** The step of [handleMinus] and [handleAmpersand] over an escaped
    newline right after the character. *)
Lemma second_char (st : Tokenizer.t) :
  file_ok (Tokenizer._file st) ->
  Tokenizer._charPtr st < size (Tokenizer._buffer st) ->
  Tokenizer._charPtr st <> Tokenizer.dec (size (Tokenizer._buffer st)) ->
  exists st1 c,
    (if Tokenizer.isLineWrap (Tokenizer._charPtr st + 1) false st
     then Tokenizer.reloadBuffer false st else Ok st) = Ok st1
    /\ file_ok (Tokenizer._file st1)
    /\ (reads_left (Tokenizer._file st1) <= reads_left (Tokenizer._file st))%nat
    /\ Tokenizer._charPtr st1 < size (Tokenizer._buffer st1)
    /\ at_ (Tokenizer._buffer st1) (Tokenizer._charPtr st1 + 1) = Some c.
Proof.
  intros Hok Hin Hlast.
  assert (Hnext : Tokenizer._charPtr st + 1 < size (Tokenizer._buffer st)).
  { unfold Tokenizer.dec in Hlast.
    destruct (N.eqb_spec (size (Tokenizer._buffer st)) 0); lia. }
  destruct (Tokenizer.isLineWrap (Tokenizer._charPtr st + 1) false st) eqn:Hw.
  - destruct (reloadBuffer_more false st Hok (isLineWrap_not_EOF _ _ _ Hw))
      as (st1 & Hrun & Hok1 & Hm & Hp & Hsize).
    assert (Hkept : 1 <= size (kept_text false st)).
    { unfold Tokenizer.isLineWrap in Hw.
      destruct (FileBuffer.haveEOF _); [discriminate|].
      destruct (_ <=? _); [discriminate|].
      destruct (negb _); [discriminate|]. apply N.eqb_eq in Hw.
      assert (Hk : 1 <= kept_chars false st).
      { unfold kept_chars. cbv zeta. rewrite Hw.
        destruct (N.leb_spec (size (Tokenizer._buffer st)) (Tokenizer._charPtr st)); [lia|].
        destruct (_ =? npos);
          match goal with |- context [?a <=? ?b] => destruct (N.leb_spec a b) end; lia. }
      unfold kept_text. destruct (N.ltb_spec 0 (kept_chars false st)); [|lia].
      rewrite size_substr by lia. lia. }
    destruct (at_inside (Tokenizer._buffer st1) (Tokenizer._charPtr st1 + 1)) as [c Hc];
      [rewrite Hp; lia|].
    exists st1, c. split; [exact Hrun|]. split; [exact Hok1|]. split; [lia|].
    split; [rewrite Hp; lia|exact Hc].
  - destruct (at_inside _ _ Hnext) as [c Hc].
    exists st, c. split; [reflexivity|]. split; [exact Hok|]. split; [lia|].
    split; [exact Hin|exact Hc].
Qed.

Lemma handleMinus_returns (st : Tokenizer.t) :
  file_ok (Tokenizer._file st) ->
  Tokenizer._charPtr st < size (Tokenizer._buffer st) ->
  returns (reads_left (Tokenizer._file st)) (Tokenizer.handleMinus st).
Proof.
  intros Hok Hin. unfold Tokenizer.handleMinus.
  destruct (N.eqb_spec (Tokenizer._charPtr st)
                       (Tokenizer.dec (size (Tokenizer._buffer st)))) as [_|Hlast].
  - destruct (at_inside _ _ Hin) as [c Hc]. rewrite Hc. cbn [of_option bind].
    eexists _, _. split; [reflexivity|]. split; [exact Hok|lia].
  - destruct (second_char st Hok Hin Hlast) as (st1 & c & Hrun & Hok1 & Hm & Hin1 & Hc).
    rewrite Hrun. cbn [bind]. rewrite Hc. cbn [of_option bind].
    destruct (Ascii.eqb c ">").
    + eexists _, _. split; [reflexivity|]. split; [exact Hok1|exact Hm].
    + eapply returns_le; [exact Hm|]. apply handleOtherChars_returns; assumption.
Qed.

Lemma handleAmpersand_returns (st : Tokenizer.t) :
  file_ok (Tokenizer._file st) ->
  Tokenizer._charPtr st < size (Tokenizer._buffer st) ->
  returns (reads_left (Tokenizer._file st)) (Tokenizer.handleAmpersand st).
Proof.
  intros Hok Hin. unfold Tokenizer.handleAmpersand.
  destruct (N.eqb_spec (Tokenizer._charPtr st)
                       (Tokenizer.dec (size (Tokenizer._buffer st)))) as [_|Hlast].
  - destruct (at_inside _ _ Hin) as [c Hc]. rewrite Hc. cbn [of_option bind].
    eexists _, _. split; [reflexivity|]. split; [exact Hok|lia].
  - destruct (second_char st Hok Hin Hlast) as (st1 & c & Hrun & Hok1 & Hm & Hin1 & Hc).
    rewrite Hrun. cbn [bind]. rewrite Hc. cbn [of_option bind].
    destruct (Ascii.eqb c "&").
    + eexists _, _. split; [reflexivity|]. split; [exact Hok1|exact Hm].
    + destruct (at_inside _ _ Hin1) as [d Hd]. rewrite Hd. cbn [of_option bind].
      eexists _, _. split; [reflexivity|]. split; [exact Hok1|exact Hm].
Qed.
Lemma sinQuoteLoop_returns (fuel : nat) :
  forall (q : Tokenizer.SinQuote) (st : Tokenizer.t),
    file_ok (Tokenizer._file st) ->
    Tokenizer._charPtr st < size (Tokenizer._buffer st) ->
    (reads_left (Tokenizer._file st) + N.to_nat (7 - Tokenizer.length q) < fuel)%nat ->
    returns_inside (reads_left (Tokenizer._file st)) (Tokenizer.sinQuoteLoop fuel q st).
Proof.
  assert (Hdone : forall f q st,
             file_ok (Tokenizer._file st) ->
             Tokenizer._charPtr st < size (Tokenizer._buffer st) ->
             negb (Tokenizer.haveValue q) && negb (Tokenizer.haveError q) = false ->
             returns_inside (reads_left (Tokenizer._file st))
                            (Tokenizer.sinQuoteLoop f q st)).
  { intros f q st Hok Hin Hq. exists q, st.
    split; [destruct f; cbn [Tokenizer.sinQuoteLoop]; rewrite Hq; reflexivity|].
    split; [exact Hok|]. split; [lia|exact Hin]. }
  induction fuel as [|fuel IH]; intros q st Hok Hin Hfuel; [lia|].
  destruct (negb (Tokenizer.haveValue q) && negb (Tokenizer.haveError q)) eqn:Hq;
    [|apply Hdone; assumption].
  cbn [Tokenizer.sinQuoteLoop]. rewrite Hq. cbv zeta.
  set (q1 := Tokenizer.set_length q (Tokenizer.length q + 1)).
  assert (Hl1 : Tokenizer.length q1 = Tokenizer.length q + 1) by reflexivity.
  clearbody q1.
  destruct (N.leb_spec (size (Tokenizer._buffer st))
                       (Tokenizer._charPtr st + Tokenizer.length q1 - 1)) as [Hout|Hinside].
  - apply Hdone; [exact Hok|exact Hin|]. cbn. apply andb_false_r.
  - destruct (Tokenizer.isLineWrap _ true st) eqn:Hw.
    + destruct (reloadBuffer_more true st Hok (isLineWrap_not_EOF _ _ _ Hw))
        as (st1 & Hrun & Hok1 & Hm & Hp & Hsize).
      rewrite Hrun. cbn [bind].
      destruct (IH (Tokenizer.set_length q1 (Tokenizer.length q1 - 1)) st1 Hok1)
        as (q2 & st2 & E & H1 & H2 & H3).
      * rewrite Hp. lia.
      * cbn [Tokenizer.set_length Tokenizer.length]. lia.
      * exists q2, st2. split; [exact E|]. split; [exact H1|]. split; [lia|exact H3].
    + destruct (at_inside _ _ Hinside) as [c Hc]. rewrite Hc. cbn [of_option bind].
      destruct (N.ltb_spec 6 (Tokenizer.length q1)) as [Hlong|Hshort].
      * apply Hdone; [exact Hok|exact Hin|].
        rewrite (sinQuoteSwitch_default q1 c Hlong). apply andb_false_r.
      * apply IH; [exact Hok|exact Hin|]. rewrite sinQuoteSwitch_length. lia.
Qed.

Lemma handleSinQuote_returns (fuel : nat) (st : Tokenizer.t) :
  file_ok (Tokenizer._file st) ->
  Tokenizer._charPtr st < size (Tokenizer._buffer st) ->
  (reads_left (Tokenizer._file st) + 6 < fuel)%nat ->
  returns (reads_left (Tokenizer._file st)) (Tokenizer.handleSinQuote fuel st).
Proof.
  intros Hok Hin Hfuel. unfold Tokenizer.handleSinQuote.
  match goal with
  | |- context [Tokenizer.sinQuoteLoop fuel ?q st] =>
      destruct (sinQuoteLoop_returns fuel q st Hok Hin) as (q1 & st1 & E & H1 & H2 & H3);
        [cbn; lia|]
  end.
  rewrite E. cbn [bind]. destruct (Tokenizer.haveValue q1).
  - eexists _, _. split; [reflexivity|]. split; [exact H1|exact H2].
  - eapply returns_le; [exact H2|]. apply handleOtherChars_returns; assumption.
Qed.

(** The lexer is at the end of the file or on a character of its buffer. *)
Definition inside (st : Tokenizer.t) : Prop :=
  Tokenizer.haveEOF st = true \/ Tokenizer._charPtr st < size (Tokenizer._buffer st).

Lemma nextChar_loop_returns (fuel : nat) :
  forall (st : Tokenizer.t),
    file_ok (Tokenizer._file st) ->
    (reads_left (Tokenizer._file st) < fuel)%nat ->
    exists st',
      Tokenizer.nextChar_loop fuel st = Ok st'
      /\ file_ok (Tokenizer._file st')
      /\ (reads_left (Tokenizer._file st') <= reads_left (Tokenizer._file st))%nat
      /\ inside st'.
Proof.
  assert (Hexit : forall f st,
             file_ok (Tokenizer._file st) ->
             negb (FileBuffer.haveEOF (Tokenizer._file st))
             || (Tokenizer._charPtr st <? size (Tokenizer._buffer st)) = false ->
             exists st',
               Tokenizer.nextChar_loop f st = Ok st'
               /\ file_ok (Tokenizer._file st')
               /\ (reads_left (Tokenizer._file st') <= reads_left (Tokenizer._file st))%nat
               /\ inside st').
  { intros f st Hok Hloop. exists st.
    split; [destruct f; cbn [Tokenizer.nextChar_loop]; rewrite Hloop; reflexivity|].
    split; [exact Hok|]. split; [lia|]. left. unfold Tokenizer.haveEOF.
    apply orb_false_iff in Hloop as [H1 H2]. apply negb_false_iff in H1.
    apply N.ltb_ge in H2. rewrite H1. apply N.leb_le. exact H2. }
  induction fuel as [|fuel IH]; intros st Hok Hfuel; [lia|].
  destruct (negb (FileBuffer.haveEOF (Tokenizer._file st))
            || (Tokenizer._charPtr st <? size (Tokenizer._buffer st))) eqn:Hloop;
    [|apply Hexit; assumption].
  cbn [Tokenizer.nextChar_loop]. rewrite Hloop. cbv zeta.
  assert (Hreload : forall s : Tokenizer.t,
             Tokenizer._file s = Tokenizer._file st ->
             size (Tokenizer._buffer s) <= Tokenizer._charPtr s ->
             exists st',
               (let* s' := Tokenizer.reloadBuffer false s in Tokenizer.nextChar_loop fuel s')
               = Ok st'
               /\ file_ok (Tokenizer._file st')
               /\ (reads_left (Tokenizer._file st') <= reads_left (Tokenizer._file st))%nat
               /\ inside st').
  { intros s Hfile Hout. rewrite <- Hfile in Hok, Hfuel |- *.
    destruct (reloadBuffer_returns false s Hok)
      as (s' & Hrun & Hok' & Hp & _ & Hle & Heof & Hmore).
    rewrite Hrun. cbn [bind].
    destruct (FileBuffer.haveEOF (Tokenizer._file s)) eqn:He.
    - destruct (Heof eq_refl) as [Hf Hb].
      destruct (Hexit fuel s' Hok') as (st' & E & H1 & H2 & H3).
      + rewrite Hf, He, Hb, Hp. unfold kept_text, kept_chars.
        destruct (N.leb_spec (size (Tokenizer._buffer s)) (Tokenizer._charPtr s)); [|lia].
        reflexivity.
      + exists st'. split; [exact E|]. split; [exact H1|]. split; [lia|exact H3].
    - destruct (Hmore eq_refl) as [Hlt _].
      destruct (IH s' Hok') as (st' & E & H1 & H2 & H3); [lia|].
      exists st'. split; [exact E|]. split; [exact H1|]. split; [lia|exact H3]. }
  destruct (N.ltb_spec (Tokenizer._charPtr st) (size (Tokenizer._buffer st))) as [Hlt|Hge].
  - cbn [Tokenizer.set_charPtr Tokenizer._charPtr Tokenizer._buffer].
    destruct (N.eqb_spec (FileBuffer.burnSpaces (Tokenizer._buffer st)
                                                (Tokenizer._charPtr st)) npos) as [Hn|Hn].
    + cbn [Tokenizer.set_charPtr Tokenizer._charPtr Tokenizer._buffer].
      rewrite N.leb_refl. apply Hreload; [reflexivity|cbn; lia].
    + destruct (Tokenizer.isLineWrap _ false _) eqn:Hw.
      * cbn [Tokenizer.set_charPtr Tokenizer._charPtr Tokenizer._buffer].
        rewrite N.leb_refl. apply Hreload; [reflexivity|cbn; lia].
      * cbn [Tokenizer.set_charPtr Tokenizer._charPtr Tokenizer._buffer].
        destruct (N.leb_spec (size (Tokenizer._buffer st))
                             (FileBuffer.burnSpaces (Tokenizer._buffer st)
                                                    (Tokenizer._charPtr st)));
          [apply Hreload; [reflexivity|cbn; lia]|].
        eexists. split; [reflexivity|]. split; [exact Hok|]. split; [cbn; lia|].
        right. cbn. assumption.
  - destruct (N.eqb_spec (Tokenizer._charPtr st) npos) as [Hn|Hn].
    + cbn [Tokenizer.set_charPtr Tokenizer._charPtr Tokenizer._buffer].
      rewrite N.leb_refl. apply Hreload; [reflexivity|cbn; lia].
    + destruct (Tokenizer.isLineWrap _ false _) eqn:Hw.
      * cbn [Tokenizer.set_charPtr Tokenizer._charPtr Tokenizer._buffer].
        rewrite N.leb_refl. apply Hreload; [reflexivity|cbn; lia].
      * destruct (N.leb_spec (size (Tokenizer._buffer st)) (Tokenizer._charPtr st));
          [apply Hreload; [reflexivity|lia]|lia].
Qed.

(** The part of [nextToken] that makes the token. *)
Lemma dispatch_returns (fuel : nat) (st : Tokenizer.t) (c : ascii) :
  file_ok (Tokenizer._file st) ->
  at_ (Tokenizer._buffer st) (Tokenizer._charPtr st) = Some c ->
  (reads_left (Tokenizer._file st) + 6 < fuel)%nat ->
  let single (tokenclass : Token.TokenType) : result (Token.t * Tokenizer.t) :=
    Ok (Token.make (String c EmptyString) (Tokenizer._location st) tokenclass, st) in
  returns (reads_left (Tokenizer._file st))
    (if Tokenizer.isalpha c || Ascii.eqb c "_" || Ascii.eqb c "~"
     then Tokenizer.getIdentifier fuel st
     else if isdigit c then Tokenizer.getNumeric fuel st
     else if Ascii.eqb c dquote then Tokenizer.getQuotedString fuel st
     else if Ascii.eqb c "-" then Tokenizer.handleMinus st
     else if Ascii.eqb c squote then Tokenizer.handleSinQuote fuel st
     else if Ascii.eqb c "&" then Tokenizer.handleAmpersand st
     else if Ascii.eqb c "." then
       if Tokenizer._charPtr st =? Tokenizer.dec (size (Tokenizer._buffer st))
       then single Token.fieldaccess
       else
         let* d := of_option (at_ (Tokenizer._buffer st) (Tokenizer._charPtr st + 1)) in
         if negb (isdigit d) then single Token.fieldaccess
         else Tokenizer.getNumeric fuel st
     else if Ascii.eqb c ";" then single Token.semicolon
     else if Ascii.eqb c "{" then single Token.openbrace
     else if Ascii.eqb c "}" then single Token.closebrace
     else if Ascii.eqb c "(" then single Token.openparen
     else if Ascii.eqb c ")" then single Token.closeparen
     else Tokenizer.handleOtherChars st).
Proof.
  intros Hok Hc Hfuel. cbv zeta. pose proof (at_some_inside _ _ _ Hc) as Hin.
  assert (Hsingle : forall tokenclass,
             returns (reads_left (Tokenizer._file st))
                     (Ok (Token.make (String c EmptyString) (Tokenizer._location st)
                                     tokenclass, st))).
  { intros tokenclass. eexists _, _. split; [reflexivity|]. split; [exact Hok|lia]. }
  repeat (match goal with
          | |- returns _ (if ?b then _ else _) => destruct b eqn:?
          end);
    try apply Hsingle;
    try (apply getIdentifier_returns; [assumption|assumption|lia]);
    try (apply getNumeric_returns; [assumption|lia]);
    try (apply getQuotedString_returns; [assumption|lia]);
    try (apply handleMinus_returns; assumption);
    try (apply handleSinQuote_returns; [assumption|assumption|lia]);
    try (apply handleAmpersand_returns; assumption);
    try (apply handleOtherChars_returns; assumption).
  match goal with
  | H : (Tokenizer._charPtr st =? _) = false |- _ => apply N.eqb_neq in H; rename H into Hlast
  end.
  assert (Hnext : Tokenizer._charPtr st + 1 < size (Tokenizer._buffer st)).
  { unfold Tokenizer.dec in Hlast.
    destruct (N.eqb_spec (size (Tokenizer._buffer st)) 0); lia. }
  destruct (at_inside _ _ Hnext) as [d Hd]. rewrite Hd. cbn [of_option bind].
  destruct (negb (isdigit d)); [apply Hsingle|].
  apply getNumeric_returns; [assumption|lia].
Qed.

End Returns.

(** X20.  On a file without directives [start] returns, and leaves the
    lexer at the end of the file or on a character of its buffer. *)
Theorem start_returns (fileName : string) (lines : list string) (st : Tokenizer.t) :
  Forall (fun line => ~ directive line) lines ->
  exists st',
    Tokenizer.start fileName lines st = Ok st'
    /\ file_ok (Tokenizer._file st')
    /\ inside st'
    /\ (reads_left (Tokenizer._file st') <= S (List.length lines))%nat.
Proof.
  intros Hlines. unfold Tokenizer.start, FileBuffer.open, FileBuffer.fetchNextLine.
  cbv zeta.
  cbn [FileBuffer.set_buffer FileBuffer._file FileBuffer._sourcePosition
       FileBuffer._bufferPosition FileBuffer._inputPosition FileBuffer._buffer
       FileBuffer._currState FileBuffer._haveWrap FileBuffer.cout FileBuffer.resetVars
       Tokenizer.init Tokenizer._file Tokenizer._buffer Tokenizer._charPtr
       Tokenizer._location Tokenizer._loadLineData Tokenizer._newLinePos].
  match goal with
  | |- context [FileBuffer.fetchLoop ?l ?ns ?s] =>
      destruct (fetchLoop_returns l Hlines ns s) as (f & Hrun & Hcur);
        [discriminate|discriminate|];
      pose proof (fetchLoop_effect l ns s) as Heff
  end.
  rewrite Hrun in Heff |- *. cbn [bind].
  destruct Heff as [(consumed & Hl & _) Hend].
  assert (Hok : file_ok f).
  { split; [exact Hcur|]. split; [|exact Hend].
    rewrite Hl in Hlines. apply List.Forall_app in Hlines. apply Hlines. }
  assert (Hm : (reads_left f <= S (List.length lines))%nat).
  { unfold reads_left. destruct (FileBuffer.haveEOF f); [lia|].
    apply (f_equal (@List.length string)) in Hl. rewrite List.length_app in Hl. lia. }
  match goal with
  | |- context [Tokenizer.reloadBuffer false ?s] =>
      destruct (reloadBuffer_returns false s Hok)
        as (st1 & Hrel & Hok1 & Hp & _ & Hle & Heof & Hmore)
  end.
  rewrite Hrel. cbn [bind]. eexists. split; [reflexivity|].
  cbn [Tokenizer._file Tokenizer._buffer Tokenizer._charPtr] in *.
  split; [exact Hok1|]. split; [|lia].
  unfold inside, Tokenizer.haveEOF.
  cbn [Tokenizer._file Tokenizer._buffer Tokenizer._charPtr].
  destruct (FileBuffer.haveEOF f) eqn:He.
  - left. destruct (Heof eq_refl) as [Hf Hb]. rewrite Hf, He, Hb, Hp. reflexivity.
  - right. destruct (Hmore eq_refl) as (_ & line & Hne & Hb). rewrite Hb, Hp.
    apply size_pos. exact Hne.
Qed.

(** X21.  On a file without directives every call of [nextToken] returns a
    token: started at the end of the file or on a character of the buffer,
    with six iterations more than the file buffer has lines to hand out for
    each of its loops, it returns and leaves the lexer in such a state
    again.  No access is outside the buffer, and no loop goes on for ever. *)
Theorem nextToken_returns (fuel : nat) (st : Tokenizer.t) :
  file_ok (Tokenizer._file st) ->
  inside st ->
  (reads_left (Tokenizer._file st) + 6 < fuel)%nat ->
  exists tk st',
    Tokenizer.nextToken fuel st = Ok (tk, st')
    /\ file_ok (Tokenizer._file st')
    /\ inside st'
    /\ (reads_left (Tokenizer._file st') <= reads_left (Tokenizer._file st))%nat.
Proof.
  intros Hok Hin Hfuel. unfold Tokenizer.nextToken.
  destruct (Tokenizer.haveEOF st) eqn:Heof.
  - eexists _, st. split; [reflexivity|]. split; [exact Hok|]. split; [left; exact Heof|lia].
  - destruct Hin as [Hin|Hin]; [congruence|].
    destruct (at_inside _ _ Hin) as [c Hc]. rewrite Hc. cbn [of_option bind]. cbv zeta.
    destruct (dispatch_returns fuel st c Hok Hc Hfuel) as (tk & st1 & E & Hok1 & Hm1).
    cbv zeta in E. rewrite E. cbn [bind].
    destruct (nextChar_loop_returns fuel (Tokenizer.set_charPtr st1 (Tokenizer.inc (Tokenizer._charPtr st1))))
      as (st2 & Hloop & Hok2 & Hm2 & Hin2); [exact Hok1|cbn; lia|].
    rewrite Hloop. cbn [bind]. cbn in Hm2.
    destruct (_ && _); eexists _, _; (split; [reflexivity|]);
      (split; [exact Hok2|]); (split; [|cbn; lia]); exact Hin2.
Qed.

Lemma start_returns_witness :
  exists st',
    Tokenizer.start "a.c" ["  int x;"; "y = x;"] Tokenizer.make = Ok st'
    /\ file_ok (Tokenizer._file st')
    /\ inside st'
    /\ (reads_left (Tokenizer._file st') <= 3)%nat.
Proof.
  apply (start_returns "a.c" ["  int x;"; "y = x;"] Tokenizer.make).
  repeat constructor; apply directive_test; reflexivity.
Defined.

Lemma nextToken_returns_witness :
  exists tk st',
    Tokenizer.nextToken 8 continued_name = Ok (tk, st')
    /\ file_ok (Tokenizer._file st')
    /\ inside st'
    /\ (reads_left (Tokenizer._file st') <= 1)%nat.
Proof.
  apply (nextToken_returns 8 continued_name).
  - split; [discriminate|]. split; [constructor|reflexivity].
  - right. reflexivity.
  - cbn. lia.
Defined.

(** ** Names and string literals inside a line *)

Section Lexemes.
Import StdString.

Lemma dec_pos (n : N) : 0 < n -> Tokenizer.dec n = n - 1.
Proof. intros H. unfold Tokenizer.dec. destruct (N.eqb_spec n 0); [lia|reflexivity]. Qed.

Lemma span_small (end_ charPtr : N) :
  charPtr <= end_ + 1 -> end_ < npos -> Tokenizer.span end_ charPtr = end_ + 1 - charPtr.
Proof.
  intros H1 H2. unfold Tokenizer.span, npos in *.
  replace (end_ + 4294967296 - charPtr + 1) with (end_ + 1 - charPtr + 1 * 4294967296) by lia.
  rewrite N.Div0.mod_add. apply N.mod_small. lia.
Qed.

Lemma isLineWrap_other (st : Tokenizer.t) (pos : N) (x : ascii) :
  at_ (Tokenizer._buffer st) pos = Some x -> x <> backslash ->
  Tokenizer.isLineWrap pos false st = false.
Proof.
  intros Hx Hne. unfold Tokenizer.isLineWrap, FileBuffer.char_is. rewrite Hx.
  destruct (FileBuffer.haveEOF _); [reflexivity|]. destruct (_ <=? _); [reflexivity|].
  destruct (Ascii.eqb_spec x backslash); [contradiction|reflexivity].
Qed.

End Lexemes.

(** A name inside the line: the run is followed by a character that ends
    it. *)
Lemma getIdentifier_inside (fuel : nat) (st : Tokenizer.t)
      (pre run rest : string) (c x : ascii) :
  Tokenizer._buffer st = pre ++ String c (run ++ String x rest) ->
  Tokenizer._charPtr st = StdString.size pre ->
  StdString.size (Tokenizer._buffer st) < StdString.npos ->
  all_chars (fun d => StdString.mem d (Tokenizer._alpha ++ Tokenizer._digits)) run ->
  StdString.mem x (Tokenizer._alpha ++ Tokenizer._digits) = false ->
  x <> backslash ->
  Tokenizer.getIdentifier (S fuel) st
  = Ok (Token.make (String c run) (Tokenizer._location st) Token.identifier,
        Tokenizer.set_charPtr st (StdString.size pre + StdString.size run)).
Proof.
  intros Hbuf Hptr Hsize Hrun Hx Hne.
  assert (Hlen : StdString.size (Tokenizer._buffer st)
                 = StdString.size pre + 1 + StdString.size run + 1 + StdString.size rest).
  { rewrite Hbuf, size_append, size_String, size_append, size_String. lia. }
  assert (Hc : StdString.at_ (Tokenizer._buffer st) (StdString.size pre) = Some c)
    by (rewrite Hbuf; apply at_app_here).
  unfold Tokenizer.getIdentifier. rewrite Hptr, Hc. cbn [of_option bind].
  cbv zeta. cbn [Tokenizer.getIdentifier_loop]. cbv zeta.
  cbn [Tokenizer.set_charPtr Tokenizer._buffer Tokenizer._charPtr Tokenizer._file
       Tokenizer._location Tokenizer._loadLineData Tokenizer._newLinePos].
  rewrite dec_pos by lia.
  destruct (N.ltb_spec (StdString.size (Tokenizer._buffer st) - 1) (StdString.size pre + 1));
    [lia|].
  assert (Hfind : StdString.find_first_not_of (Tokenizer._buffer st)
                    (Tokenizer._alpha ++ Tokenizer._digits) (StdString.size pre + 1)
                  = StdString.size pre + 1 + StdString.size run).
  { unfold StdString.find_first_not_of.
    pose proof (find_hit (fun d => negb (StdString.mem d (Tokenizer._alpha ++ Tokenizer._digits)))
                         (pre ++ String c EmptyString) run rest x) as E.
    rewrite snoc_app, size_snoc, <- Hbuf in E. apply E.
    - eapply all_chars_impl; [|exact Hrun]. intros d Hd. cbn beta in Hd.
      rewrite Hd. reflexivity.
    - rewrite Hx. reflexivity. }
  rewrite Hfind.
  destruct (N.eqb_spec (StdString.size pre + 1 + StdString.size run) StdString.npos); [lia|].
  assert (Hat : StdString.at_ (Tokenizer._buffer st)
                              (StdString.size pre + 1 + StdString.size run) = Some x).
  { pose proof (at_hit (pre ++ String c EmptyString) run rest x) as E.
    rewrite snoc_app, size_snoc, <- Hbuf in E. exact E. }
  rewrite (isLineWrap_other _ _ x); [|exact Hat|exact Hne].
  cbn [bind Tokenizer.set_charPtr Tokenizer._buffer Tokenizer._charPtr Tokenizer._file
       Tokenizer._location Tokenizer._loadLineData Tokenizer._newLinePos].
  destruct (N.eqb_spec (StdString.size pre + 1 + StdString.size run) StdString.npos); [lia|].
  rewrite dec_pos by lia.
  replace (StdString.size pre + 1 + StdString.size run - 1)
    with (StdString.size pre + StdString.size run) by lia.
  f_equal. f_equal. f_equal.
  destruct (N.leb_spec (StdString.size pre + 1) (StdString.size pre + StdString.size run))
    as [Hsome|Hnone].
  - rewrite span_small by lia.
    replace (StdString.size pre + StdString.size run + 1 - (StdString.size pre + 1))
      with (StdString.size run) by lia.
    pose proof (substr_middle (pre ++ String c EmptyString) run (String x rest)) as E.
    rewrite snoc_app, size_snoc, <- Hbuf in E. rewrite E. reflexivity.
  - destruct run; [reflexivity|]. rewrite size_String in Hnone. lia.
Qed.


(** A name that ends the buffer. *)
Lemma getIdentifier_at_end (fuel : nat) (st : Tokenizer.t) (pre run : string) (c : ascii) :
  Tokenizer._buffer st = pre ++ String c run ->
  Tokenizer._charPtr st = StdString.size pre ->
  StdString.size (Tokenizer._buffer st) < StdString.npos ->
  all_chars (fun d => StdString.mem d (Tokenizer._alpha ++ Tokenizer._digits)) run ->
  Tokenizer.getIdentifier (S fuel) st
  = Ok (Token.make (String c run) (Tokenizer._location st) Token.identifier,
        Tokenizer.set_charPtr st (StdString.size pre + StdString.size run + 1)).
Proof.
  intros Hbuf Hptr Hsize Hrun.
  assert (Hlen : StdString.size (Tokenizer._buffer st)
                 = StdString.size pre + 1 + StdString.size run).
  { rewrite Hbuf, size_append, size_String. lia. }
  assert (Hc : StdString.at_ (Tokenizer._buffer st) (StdString.size pre) = Some c)
    by (rewrite Hbuf; apply at_app_here).
  assert (Hbuf' : Tokenizer._buffer st = (pre ++ String c EmptyString) ++ run)
    by (rewrite snoc_app; exact Hbuf).
  unfold Tokenizer.getIdentifier. rewrite Hptr, Hc. cbn [of_option bind].
  cbv zeta. cbn [Tokenizer.getIdentifier_loop]. cbv zeta.
  cbn [Tokenizer.set_charPtr Tokenizer._buffer Tokenizer._charPtr Tokenizer._file
       Tokenizer._location Tokenizer._loadLineData Tokenizer._newLinePos].
  rewrite dec_pos by lia.
  assert (Hend : (if StdString.size (Tokenizer._buffer st) - 1 <? StdString.size pre + 1
                  then StdString.npos
                  else StdString.find_first_not_of (Tokenizer._buffer st)
                         (Tokenizer._alpha ++ Tokenizer._digits) (StdString.size pre + 1))
                 = StdString.npos).
  { destruct (_ <? _); [reflexivity|].
    unfold StdString.find_first_not_of.
    pose proof (find_miss (fun d => negb (StdString.mem d (Tokenizer._alpha ++ Tokenizer._digits)))
                          (pre ++ String c EmptyString) run) as E.
    rewrite size_snoc, <- Hbuf' in E. apply E.
    eapply all_chars_impl; [|exact Hrun]. intros d Hd. cbn beta in Hd.
    rewrite Hd. reflexivity. }
  rewrite Hend. cbn [N.eqb Pos.eqb StdString.npos].
  change (StdString.npos =? StdString.npos) with true. cbv iota.
  cbn [bind Tokenizer.set_charPtr Tokenizer._buffer Tokenizer._charPtr Tokenizer._file
       Tokenizer._location Tokenizer._loadLineData Tokenizer._newLinePos].
  change (StdString.npos =? StdString.npos) with true. cbv iota.
  destruct (N.leb_spec (StdString.size pre + 1) (StdString.size (Tokenizer._buffer st)));
    [|lia].
  rewrite span_small by lia.
  replace (StdString.size (Tokenizer._buffer st) + 1 - (StdString.size pre + 1))
    with (StdString.size run + 1) by lia.
  rewrite Hlen.
  replace (StdString.size pre + 1 + StdString.size run)
    with (StdString.size pre + StdString.size run + 1) by lia.
  f_equal. f_equal. f_equal.
  rewrite Hbuf'. rewrite <- (size_snoc pre c), substr_at_suffix, <- substring_clip.
  replace (Nat.min (N.to_nat (StdString.size run + 1)) (String.length run))
    with (String.length run) by (unfold StdString.size; lia).
  rewrite substring_whole. reflexivity.
Qed.

(** X22.  The lexeme of a name is its first character and all the
    letters, digits and underscores that follow it.  On a buffer that
    holds, from [_charPtr] on, a character, such a run and then either
    nothing or a character that is none of them and no backslash,
    [getIdentifier] returns the character with the run as a token of class
    [identifier], without scope and modifier, at the location of the lexer.
    When a character follows the run [_charPtr] is left on the last
    character of the name; when the name ends the buffer it is left at the
    length of the buffer, one past the name. *)
Theorem getIdentifier_longest_run (fuel : nat) (st : Tokenizer.t)
        (pre run tail : string) (c : ascii) :
  Tokenizer._buffer st = pre ++ String c (run ++ tail) ->
  Tokenizer._charPtr st = StdString.size pre ->
  StdString.size (Tokenizer._buffer st) < StdString.npos ->
  all_chars (fun d => StdString.mem d (Tokenizer._alpha ++ Tokenizer._digits)) run ->
  (forall x rest,
      tail = String x rest ->
      StdString.mem x (Tokenizer._alpha ++ Tokenizer._digits) = false /\ x <> backslash) ->
  Tokenizer.getIdentifier (S fuel) st
  = Ok (Token.mk (String c run) (Tokenizer._location st) Token.identifier
                 Token.noscope Token.nomod,
        Tokenizer.set_charPtr
          st
          (match tail with
           | EmptyString => StdString.size (Tokenizer._buffer st)
           | String _ _ => StdString.size pre + StdString.size run
           end)).
Proof.
  intros Hbuf Hptr Hsize Hrun Htail. destruct tail as [|x rest].
  - rewrite append_nil_r in Hbuf.
    rewrite (getIdentifier_at_end fuel st pre run c) by assumption.
    replace (StdString.size (Tokenizer._buffer st))
      with (StdString.size pre + StdString.size run + 1); [reflexivity|].
    rewrite Hbuf, size_append, size_String. lia.
  - destruct (Htail x rest eq_refl) as [Hx Hne].
    apply (getIdentifier_inside fuel st pre run rest c x); assumption.
Qed.

(** The assignment [count1 = 0;] in the buffer, the lexer on its first
    character; and the lexer on the name [x] that ends its buffer. *)
Lemma getIdentifier_longest_run_witness :
  Tokenizer.getIdentifier 1 (lexer_on "  count1 = 0;" 2)
  = Ok (Token.mk "count1" (FilePosition.mk "a.c" 1) Token.identifier
                 Token.noscope Token.nomod,
        lexer_on "  count1 = 0;" 7)
  /\ Tokenizer.getIdentifier 1 (lexer_on "x" 0)
     = Ok (Token.mk "x" (FilePosition.mk "a.c" 1) Token.identifier
                    Token.noscope Token.nomod,
           lexer_on "x" 1)
  /\ Tokenizer.getIdentifier 1 (lexer_on "return x1" 7)
     = Ok (Token.mk "x1" (FilePosition.mk "a.c" 1) Token.identifier
                    Token.noscope Token.nomod,
           lexer_on "return x1" 9).
Proof.
  split; [|split].
  - apply (getIdentifier_longest_run 0 (lexer_on "  count1 = 0;" 2) "  " "ount1" " = 0;" "c").
    + reflexivity.
    + reflexivity.
    + reflexivity.
    + apply all_chars_test. reflexivity.
    + intros x rest E. injection E as <- _. split; [reflexivity|discriminate].
  - apply (getIdentifier_longest_run 0 (lexer_on "x" 0) "" "" "" "x").
    + reflexivity.
    + reflexivity.
    + reflexivity.
    + apply all_chars_test. reflexivity.
    + intros x rest E. discriminate E.
  - apply (getIdentifier_longest_run 0 (lexer_on "return x1" 7) "return " "1" "" "x").
    + reflexivity.
    + reflexivity.
    + reflexivity.
    + apply all_chars_test. reflexivity.
    + intros x rest E. discriminate E.
Defined.

(** ** The symbol table *)

Section Symbols.

(** The only ways [updateNameSpace] changes the table. *)
Definition updated (ns : NameSpace.t) (testToken : Token.t) (ns' : NameSpace.t) : Prop :=
  ns' = ns
  \/ ns' = NameSpace.set_globalList ns (NameSpace.insert testToken (NameSpace._globalList ns))
  \/ ns' = NameSpace.set_globalList ns
             (NameSpace.insert testToken
                (NameSpace.erase testToken (NameSpace._globalList ns)))
  \/ ns' = NameSpace.set_localList ns (NameSpace.insert testToken (NameSpace._localList ns))
  \/ ns' = NameSpace.set_localList ns
             (NameSpace.insert testToken
                (NameSpace.erase testToken (NameSpace._localList ns))).

Lemma updateNameSpace_updated (ns : NameSpace.t) (testToken : Token.t) :
  updated ns testToken (fst (NameSpace.updateNameSpace ns testToken)).
Proof.
  unfold NameSpace.updateNameSpace. cbv zeta.
  assert (Hpair : forall (X : NameSpace.t * list Errors.Warning) (c : list Errors.Warning),
             fst (let '(ns', warnings) := X in (ns', (c ++ warnings)%list)) = fst X)
    by (intros [? ?] ?; reflexivity).
  repeat lazymatch goal with
         | |- updated _ _ (fst (if ?b then _ else _)) => destruct b
         | |- updated _ _ (fst (match ?o with _ => _ end)) =>
             first [rewrite Hpair | destruct o]
         | |- updated _ _ (fst (_, _)) =>
             cbn [fst]; try match goal with
                            | |- context [if ?b then _ else _] => destruct b
                            end;
             unfold updated; auto 6
         end.
Qed.

(** [s'] differs from [s] at most in the entry of [tk]'s name, which is
    the old one or [tk], and is there if it was there. *)
Definition entry_of (tk : Token.t) (s s' : NameSpace.TokenSet) : Prop :=
  (forall other : Token.t,
      Token.getLexeme other <> Token.getLexeme tk ->
      NameSpace.find s' other = NameSpace.find s other)
  /\ (NameSpace.find s' tk = NameSpace.find s tk \/ NameSpace.find s' tk = Some tk)
  /\ (is_Some (NameSpace.find s tk) -> is_Some (NameSpace.find s' tk)).

Lemma entry_of_refl (tk : Token.t) (s : NameSpace.TokenSet) : entry_of tk s s.
Proof. split; [reflexivity|]. split; [left; reflexivity|trivial]. Qed.

Lemma entry_of_insert (tk : Token.t) (s : NameSpace.TokenSet) :
  entry_of tk s (NameSpace.insert tk s).
Proof.
  unfold entry_of, NameSpace.insert, NameSpace.find.
  destruct (s !! Token.getLexeme tk) as [old|] eqn:E.
  - split; [reflexivity|]. split; [left; exact E|]. intros _. rewrite E. eauto.
  - split; [|split].
    + intros other Hne. apply lookup_insert_ne. congruence.
    + right. apply lookup_insert_eq.
    + intros _. rewrite lookup_insert_eq. eauto.
Qed.

Lemma entry_of_replace (tk : Token.t) (s : NameSpace.TokenSet) :
  entry_of tk s (NameSpace.insert tk (NameSpace.erase tk s)).
Proof.
  unfold entry_of, NameSpace.insert, NameSpace.erase, NameSpace.find.
  rewrite lookup_delete_eq. split; [|split].
  - intros other Hne. rewrite lookup_insert_ne by congruence.
    apply lookup_delete_ne. congruence.
  - right. apply lookup_insert_eq.
  - intros _. rewrite lookup_insert_eq. eauto.
Qed.

End Symbols.

(** X23.  [updateNameSpace] never loses a name.  It leaves the keywords
    as they are, and in the table of the global names and in that of the
    local names it changes at most the entry of the token's own name, which
    afterwards is the entry that was there or the token itself. *)
Theorem updateNameSpace_changes_one_name (ns : NameSpace.t) (testToken : Token.t) :
  let ns' := fst (NameSpace.updateNameSpace ns testToken) in
  NameSpace._keyList ns' = NameSpace._keyList ns
  /\ entry_of testToken (NameSpace._globalList ns) (NameSpace._globalList ns')
  /\ entry_of testToken (NameSpace._localList ns) (NameSpace._localList ns').
Proof.
  cbv zeta. destruct (updateNameSpace_updated ns testToken) as [E|[E|[E|[E|E]]]];
    rewrite E; cbn; (split; [reflexivity|]); split;
    auto using entry_of_refl, entry_of_insert, entry_of_replace.
Qed.

(** X24.  A name looked up after its declaration has the scope of the
    declaration.  When [updateNameSpace] is given the declaration of a
    function that is not of local scope, whose name is no keyword and no
    local type, and is so far unknown among the global names or known there
    as a variable, as a call without prototype or as a prototype, then the
    scope of a token of that name is, after [checkForSymbol], the scope of
    the declaration, and nothing else in the token has changed. *)
Theorem declared_function_is_found (ns : NameSpace.t) (decl name : Token.t) :
  Token.getType decl = Token.functdecl ->
  Token.getScope decl <> Token.localscope ->
  NameSpace.find (NameSpace._keyList ns) decl = None ->
  match NameSpace.find (NameSpace._localList ns) decl with
  | Some l => Token.getType l <> Token.typetoken
  | None => True
  end ->
  match NameSpace.find (NameSpace._globalList ns) decl with
  | Some g => Token.getType g = Token.varname \/ Token.getType g = Token.functcall
              \/ Token.getType g = Token.functproto
  | None => True
  end ->
  Token.getLexeme name = Token.getLexeme decl ->
  Token.getScope
    (NameSpace.checkForSymbol (fst (NameSpace.updateNameSpace ns decl)) name)
  = Token.getScope decl
  /\ same_but_scope
       name (NameSpace.checkForSymbol (fst (NameSpace.updateNameSpace ns decl)) name).
Proof.
  intros Htype Hscope Hkey Hlocal Hglobal Hname.
  assert (Hupd : fst (NameSpace.updateNameSpace ns decl)
                 = NameSpace.set_globalList ns
                     (<[Token.getLexeme decl := decl]> (NameSpace._globalList ns))).
  { unfold NameSpace.updateNameSpace. cbv zeta.
    unfold NameSpace.haveVarToken, NameSpace.haveTypeToken. rewrite Htype.
    destruct (Token.getScope decl); try contradiction; cbn -[NameSpace.find];
      (destruct (NameSpace.find (NameSpace._globalList ns) decl) as [g|] eqn:Hg;
       [destruct Hglobal as [Hg'|[Hg'|Hg']]; rewrite Hg'; cbn -[NameSpace.find]|]);
      repeat match goal with
             | |- context [match ?o with _ => _ end] =>
                 lazymatch o with
                 | NameSpace.find _ _ => destruct o
                 | Token.TokenType_eqb _ _ => destruct o
                 | Token.ScopeType_eqb _ _ => destruct o
                 | _ && _ => destruct o
                 end
             end; cbn [fst]; unfold NameSpace.insert, NameSpace.erase, NameSpace.find in *;
      rewrite ?lookup_delete_eq, ?Hg, ?insert_delete_eq; reflexivity. }
  rewrite Hupd. unfold same_but_scope, NameSpace.checkForSymbol, NameSpace.find in *.
  cbn [NameSpace.set_globalList NameSpace._keyList NameSpace._localList
       NameSpace._globalList].
  rewrite Hname, Hkey.
  unfold NameSpace.haveTypeToken, NameSpace.haveVarToken.
  destruct (NameSpace._localList ns !! Token.getLexeme decl) as [l|].
  - destruct (Token.TokenType_eqb (Token.getType l) Token.typetoken) eqn:Hl.
    + exfalso. apply Hlocal. destruct (Token.getType l); try discriminate Hl; reflexivity.
    + cbn [orb]. rewrite Hname, lookup_insert_eq, Htype. repeat split; exact Hname.
  - cbn [orb]. rewrite Hname, lookup_insert_eq, Htype. repeat split; exact Hname.
Qed.

(** A symbol table where [h] is known from a prototype with external
    linkage; its declaration as a static function; and a use of the name. *)
Definition static_h : Token.t :=
  Token.mk "h" (FilePosition.mk "a.c" 9) Token.functdecl Token.filescope Token.nomod.

Lemma declared_function_is_found_witness :
  Token.getScope
    (NameSpace.checkForSymbol
       (fst (NameSpace.updateNameSpace (table_h Token.globalscope) static_h)) ident_h)
  = Token.filescope
  /\ same_but_scope
       ident_h
       (NameSpace.checkForSymbol
          (fst (NameSpace.updateNameSpace (table_h Token.globalscope) static_h)) ident_h).
Proof.
  apply (declared_function_is_found (table_h Token.globalscope) static_h ident_h).
  - reflexivity.
  - discriminate.
  - reflexivity.
  - exact I.
  - right. right. reflexivity.
  - reflexivity.
Defined.
